(* ===== verification/_CoqProject ===== *)
-Q . S2P
Prelude.v
KList.v
RealTimeFifo.v
Crc32.v
SundayMatch.v
PacketBuffer.v
Stats.v
Hsm.v
SinglyList.v
ImageSplit.v
Serial.v
Heartbeat.v
PthreadModel.v
UdpClient.v
Sniffer.v
Gpio.v
I2c.v
XchipReg.v
FileMkdir.v
IpcLock.v
IpcFlock.v
RobustMutex.v
IpcMutex.v
IpcSemsv.v
MmapFile.v
ShmLock.v
FileUtils.v
TimeUtils.v
Hmac.v
BasicTask.v
NetUtils.v
Double.v
DoubleRound.v
CpuUsage.v
CpuControl.v
CpuMain.v
IpcTest.v
GpioIrq.v
PoolList.v
Alive.v
EpollLoop.v
