(* ===== verification/Prelude.v ===== *)
(** * A verification of GeneralPurposeLibrary

    The repository is a collection of C components for embedded Linux: intrusive
    and singly linked lists, a pool of list elements, a real-time fifo,
    checksums, string search, a packet reassembly buffer, running statistics,
    image splitting, a hierarchical state machine, wrappers for serial ports,
    GPIO pins and I2C devices, worker threads and tasks, a packet sniffer with a
    UDP client, locks between processes on four different foundations, and
    helpers for files, mapped memory, time, keyed digests and processor load.
    Many components stand alone; the fifo, the pool and the sniffer use the
    kernel lists, the sniffer runs on the thread model, the UDP test program
    sends the message the sniffer's filters look for, the GPIO interrupts use
    the GPIO pins, three of the locks are behind one record of functions that
    two test programs use, two of them make their files with the recursive
    mkdir, and the shared-memory locks live in mapped files.

    ** How C is modelled

    This file is the execution model all components share.  A function that can
    leave the defined semantics of C returns [res A]: a value, an undefined
    behaviour of type [ub], or [NoFuel].  Integers are [Z] with their width
    written out ([u8] ... [s64] wrap, [signed_op] fails on signed overflow,
    [div_op] on division by zero); arrays are lists accessed by [arr_get] and
    [arr_set], which fail out of range; heap objects live in finite maps from
    addresses, with 0 as the null pointer.  A null argument that the code checks
    is [None].  Counted loops are [for_up], whose number of iterations is known
    when the loop is entered; other loops take fuel, and the theorems about them
    give the amount that is enough, so no theorem holds only because a loop ran
    out.  The answers of system calls and of the allocator are arguments, so a
    theorem holds for every environment; code of the C library, the kernel or a
    device that has a behaviour of its own is a type class with the documented
    laws ([Termios], [GpioFs], [I2cBus], [PathWalk]) and a concrete instance.
    The calls of POSIX that several processes share (directories and descriptors,
    record locks, semaphores with undo, robust mutexes, read-write locks) are
    modelled as functions on a kernel state, so that interleavings and the death
    of a process can be explored.

    ** The files

    - KList: list/klist.h (module [Klist]) and linux/utils/include/list.h
      (module [UtilsList]) on a heap of [list_head] objects.  [dlist] says that a
      sentinel's ring visits given entries in both directions.  Theorems: the
      operations are the list operations they are named after and write nothing
      else, insertion and deletion cancel, splicing concatenates, the traversal
      macros terminate and visit each entry once, the safe one also under
      deletion.  [ListOps] and [ListLaws] are the interface for clients.
    - RealTimeFifo: linux/utils/src/real_time_fifo.c over that interface.
      Theorems: refinement of an unbounded FIFO queue, what the capacity check
      really does, release of all entries, and a lost entry when two puts
      interleave outside the lock.
    - Crc32: linux/utils/src/crc32.c.  Theorems: the table-driven routines equal
      a bit-serial reference, agree with each other, can be fed in pieces and
      detect every change confined to four bytes.
    - SundayMatch: algorithm/SundayMatch.c.  Theorems: both routines terminate
      with the first occurrence or -1; the C one reads one character past the
      text.
    - PacketBuffer: linux/utils/src/packet_buffer.c.  Theorems: the receive
      window stays inside its block, chunks add up, and the case of a short
      second body, which is received into the wrong block.
    - Stats: linux/utils/src/stats.c.  Theorems: exact extremes and counters and
      a bound on the error of the batched mean; what negative samples do.
    - Hsm: linux/glb_hsm (glb_hsm.c and the level states).  The handlers are
      functions on the machine; class [Hierarchy] is what client states promise.
      Theorems: initialisation enters the superstates outermost first,
      [hsm_tran] leaves and enters exactly the states below the least common
      superstate, and three defects of the dispatcher (handled events leave the
      state, transitions overflow the path array, exit actions that do not
      report success make a transition endless).
    - SinglyList: list/singly_linked_list.h and .c, with the address of a link
      field as a pointer value of its own.  Theorems: a list shows its data in
      the announced order and frees all its memory; deletion is exact except for
      the last node, where it dereferences null.
    - ImageSplit: linux/utils/src/image_split.c.  Theorems: tiles are the aligned
      windows of the source; the one combination where they are not.
    - Serial: linux/serial/basic_serial.c.  Theorem: the line settings written on
      every branch, with the character size that ignores its argument.
    - PoolList: list/pool_list.c, with the four repairs without which it does not
      compile.  Theorems: any use of the pool that follows its rules refines an
      abstract pool of free, available and held elements, and the object stays
      well-formed, each element in one place with its data inside its own block.
    - Heartbeat: socket/sniffer.c with its receive loop, the filter of
      socket/sniffer_test.c and the message of socket/udp_test.c.  Theorems: the
      driver receives one command per heartbeat of a stream of frames, in order;
      the command fits its buffer, sender and filters agree, and the dependence
      on the signedness of [char].
    - PthreadModel: pthread/pthread_model.c as operations and a step relation of
      worker and owner.  Theorem: static objects are never used after free,
      dynamic ones can be.
    - UdpClient: socket/udp_client.c.  Theorem: what the retry loops really do.
    - Sniffer: socket/sniffer_framework.c over KList and PthreadModel.  Theorem:
      every frame reaches every filter once, newest first.
    - Alive: the programs of socket/udp_test.c and socket/sniffer_test.c over the
      client, the network and the sniffer.  Theorem: each heartbeat the network
      accepted is printed once by one sniffer and handed once to the driver by
      the other, in order, among any other traffic.
    - Gpio: linux/gpio/gpio_base.c and gpio_ctrl.c.  Theorem: the control
      functions reach the asked state from any state of a pin and read it back.
    - GpioIrq: linux/gpio/gpio_irq.c over the pins of Gpio and a table of open
      files.  Theorem: an interrupt is set up, monitored and given back as asked,
      but its function is always told 0, since the value file is opened for
      writing.
    - EpollLoop: linux/io_backend/io_backend_epoll.c, with [do_use_fd] as a
      parameter.  Theorem: only open connections are used, although descriptors
      are reused within a batch of events.
    - I2c: linux/utils/src/i2c_ctrl.c, over descriptors that carry the slave
      address set on them.  Theorem: a session that opens the bus, writes, reads
      and closes reads back what was written and disturbs no other register.
    - XchipReg: linux/utils/test/sc132_xchip_reg.c over I2c.  Theorem: its two
      ways of reading a sensor behind a bridge agree on every bus.
    - FileMkdir: ipc_competition/file_mkdir.c.  Other processes change the tree
      between its system calls.  Theorems: the complete outcome of a path, that
      nothing else is touched and no descriptor is lost, and success while
      others make the same directories.
    - IpcLock: the lock interface of ipc_competition/ipc_test_common.h, processes
      that use it as a step relation, and class [LockLaws], from which mutual
      exclusion and progress follow for every implementation.
    - IpcFlock, IpcMutex (over RobustMutex), IpcSemsv: the three implementations
      in ipc_competition, each an instance of [LockLaws].  Theorems: exclusion
      and progress with processes that come, go and die; and what breaks them, a
      race of two creations and a set removed while it is used.
    - IpcTest: the two test programs under every schedule over each of the three
      locks.  Theorem: where they can deadlock.
    - MmapFile, ShmLock: linux/utils/src/mmap_file.c and the locks of shm_mutex.c
      (module [ShmMutex], also an instance of [LockLaws]) and shm_rw_lock.c
      (module [ShmRw], with a step relation of its own).  Theorems: exclusion,
      and exact counters.
    - FileUtils: file_utils.c and image_file.c of linux/utils/src and
      file_library.c, over files and streams.  Theorems: copying terminates with
      an exact copy, buffers and image rows are read back, and the output of a
      command stays in its buffer.
    - TimeUtils: time_utils.h and time_utils.c.  The conversions agree; with a
      32-bit time_t they overflow.
    - Hmac: algorithm/algo_hmac.c, with the keyed digest as a parameter.  The
      result is the hexadecimal text, and one digest overflows its buffer.
    - BasicTask: linux/utils/src/basic_task.c.  Theorem: every outcome of
      [task_create].
    - NetUtils: linux/utils/src/net_utils.c on every branch.
    - Double, DoubleRound: the binary64 arithmetic of cpu_usage.c, on the
      Standard Library's executable specification of IEEE 754, and its rounding
      error: every operation is off by at most half a unit in the last place, and
      integers below 2^53 are exact.
    - CpuUsage, CpuControl, CpuMain: cpu_usage.c.  CpuUsage has the reading of
      /proc/stat and the load loop with its floating-point time and its busy
      waiting; CpuControl shows that a round meets the asked rate up to one tick
      and one millisecond, and when it is undefined; CpuMain has [main], the
      workers and the interrupt handler as threads over the records they share:
      without an interrupt every schedule is defined, with one it need not be.

    ** Fuel and bounds

    A traversal of a list of [n] entries needs [n + 1] units of fuel.  The
    climbs of the state machine store one entry of a four-element array per
    round, so five rounds are enough for every machine; the loops over the
    source's superstates need one unit per level.  The retry loops of the UDP
    client make at most four calls and need none.  The walk of [fs_mkdirs] needs
    one unit per character of the path, the lock loop of the shared mutex two
    rounds, the copy loop one round per kilobyte and two more, and the reader of
    /proc/stat one unit per line, for which the length of the text is enough;
    its busy waiting needs one unit per reading of the clock.  The two lock test
    programs make nine steps each, so nineteen units explore every schedule.

    ** Not modelled

    Output to logs and terminals is modelled only where it is the function's
    result.  Left out are the backup copy of glb_hsm.c, which the program does not
    use and which does not compile, the functions io_backend.h declares, which
    have no definition, the code of cpu_usage.c that is compiled out (a second
    [main] and an adjustment loop), the System V variant of shm_mutex.c, which is
    compiled out too, and the test programs other than those of the locks, the
    sniffer and the bridge.  Files that do not compile (pool_list.c, gpio_irq.c,
    io_backend_epoll.c) are modelled with the repairs their files name. *)

From Stdlib Require Export ZArith Lia.
From stdpp Require Export base strings numbers gmap list.

#[global] Open Scope Z_scope.

(** ** Undefined behaviour and results *)

(** The ways a C execution modelled here can leave the defined semantics. *)
Inductive ub : Set :=
  | NullDeref       (** access through, or call of, a null pointer *)
  | BadPtr          (** access to an object that is not allocated (or was freed) *)
  | OutOfBounds     (** access outside an array *)
  | DivByZero
  | SignedOverflow  (** a result, or a double converted to an integer, does not fit *)
  | Uninit          (** read of an object that was never written *)
  | BadCall.        (** a library call outside its contract *)

(** Result of running a C function: a value, undefined behaviour, or a loop
    that used all the fuel it was given. *)
Inductive res (A : Type) : Type :=
  | Ok (a : A)
  | Ub (u : ub)
  | NoFuel.
Arguments Ok {A} _.
Arguments Ub {A} _.
Arguments NoFuel {A}.

#[global] Instance ub_eq_dec : EqDecision ub.
Proof. solve_decision. Defined.
#[global] Instance res_eq_dec {A} `{EqDecision A} : EqDecision (res A).
Proof. solve_decision. Defined.

#[global] Instance res_ret : MRet res := λ A a, Ok a.
#[global] Instance res_bind : MBind res := λ A B f m,
  match m with
  | Ok a => f a
  | Ub u => Ub u
  | NoFuel => NoFuel
  end.

(** Turn a failed lookup into the undefined behaviour it stands for. *)
Definition or_ub {A} (u : ub) (o : option A) : res A :=
  match o with Some a => Ok a | None => Ub u end.

Lemma bind_Ok_inv {A B} (m : res A) (f : A → res B) b :
  (m ≫= f) = Ok b ↔ ∃ a, m = Ok a ∧ f a = Ok b.
Proof.
  destruct m; simpl; split; try (intros (?&?&?)); try done; eauto.
  by simplify_eq.
Qed.

Lemma bind_Ok {A B} (a : A) (f : A → res B) : (Ok a ≫= f) = f a.
Proof. exact eq_refl. Qed.

Lemma bind_assoc {A B C} (m : res A) (f : A → res B) (g : B → res C) :
  ((m ≫= f) ≫= g) = (m ≫= λ a, f a ≫= g).
Proof. by destruct m. Qed.

(** ** Machine integers *)

(** An unsigned object of [w] bits holds the value modulo [2^w]; a signed one
    holds the two's complement representative. *)
Definition wrap_u (w : Z) (z : Z) : Z := z mod 2 ^ w.
Definition wrap_s (w : Z) (z : Z) : Z := (z + 2 ^ (w - 1)) mod 2 ^ w - 2 ^ (w - 1).

Abbreviation u8 := (wrap_u 8).
Abbreviation u32 := (wrap_u 32).
Abbreviation u64 := (wrap_u 64).
Abbreviation s8 := (wrap_s 8).
Abbreviation s16 := (wrap_s 16).
Abbreviation s32 := (wrap_s 32).
Abbreviation s64 := (wrap_s 64).

Definition in_u (w z : Z) : Prop := 0 ≤ z < 2 ^ w.
Definition in_s (w z : Z) : Prop := - 2 ^ (w - 1) ≤ z < 2 ^ (w - 1).

#[global] Instance in_u_dec w z : Decision (in_u w z).
Proof. unfold in_u. apply _. Defined.
#[global] Instance in_s_dec w z : Decision (in_s w z).
Proof. unfold in_s. apply _. Defined.

(** The result of a signed operation: defined when it fits. *)
Definition signed_op (w z : Z) : res Z :=
  if decide (in_s w z) then Ok z else Ub SignedOverflow.

(** Division of the abstract machine: C truncates towards zero. *)
Definition div_op (a b : Z) : res Z :=
  if decide (b = 0) then Ub DivByZero else Ok (Z.quot a b).

Lemma wrap_u_small w z : in_u w z → wrap_u w z = z.
Proof. apply Z.mod_small. Qed.

Lemma wrap_u_range w z : 0 ≤ w → in_u w (wrap_u w z).
Proof. intros. apply Z.mod_pos_bound. by apply Z.pow_pos_nonneg. Qed.

Lemma wrap_s_range w z : 0 < w → in_s w (wrap_s w z).
Proof.
  intros. unfold in_s, wrap_s.
  pose proof (Z.mod_pos_bound (z + 2 ^ (w - 1)) (2 ^ w) ltac:(by apply Z.pow_pos_nonneg; lia)).
  assert (2 ^ w = 2 * 2 ^ (w - 1)) by (rewrite <-Z.pow_succ_r by lia; f_equal; lia).
  lia.
Qed.

Lemma wrap_s_small w z : 0 < w → in_s w z → wrap_s w z = z.
Proof.
  intros ? [??]. unfold wrap_s.
  assert (2 ^ w = 2 * 2 ^ (w - 1)) by (rewrite <-Z.pow_succ_r by lia; f_equal; lia).
  rewrite Z.mod_small; lia.
Qed.

Lemma signed_op_ok w z : in_s w z → signed_op w z = Ok z.
Proof. intros. unfold signed_op. by rewrite decide_True. Qed.

(** A step of a run whose arithmetic fits. *)
Lemma signed_bind {A} w z (f : Z → res A) : in_s w z → (signed_op w z ≫= f) = f z.
Proof. intros. by rewrite signed_op_ok. Qed.

Lemma div_op_pos a b : 0 ≤ a → 0 < b → div_op a b = Ok (a / b).
Proof.
  intros. unfold div_op. rewrite decide_False by lia.
  by rewrite Z.quot_div_nonneg by lia.
Qed.

(** ** Arrays *)

(** [a[i]] for an array object modelled as a list: out of range is undefined. *)
Definition arr_get {A} (a : list A) (i : Z) : res A :=
  if decide (0 ≤ i) then or_ub OutOfBounds (a !! Z.to_nat i) else Ub OutOfBounds.
Definition arr_set {A} (a : list A) (i : Z) (x : A) : res (list A) :=
  if decide (0 ≤ i < Z.of_nat (length a)) then Ok (<[Z.to_nat i := x]> a) else Ub OutOfBounds.

Lemma arr_get_lookup {A} (a : list A) i x :
  arr_get a i = Ok x ↔ 0 ≤ i ∧ a !! Z.to_nat i = Some x.
Proof.
  unfold arr_get. case_decide; [|naive_solver].
  destruct (a !! Z.to_nat i); simpl; naive_solver.
Qed.

Lemma arr_get_nat {A} (a : list A) (i : nat) x :
  a !! i = Some x → arr_get a (Z.of_nat i) = Ok x.
Proof. intros. apply arr_get_lookup. rewrite Nat2Z.id. split; [lia|done]. Qed.

Lemma arr_get_oob {A} (a : list A) i :
  Z.of_nat (length a) ≤ i → arr_get a i = Ub OutOfBounds.
Proof.
  intros. unfold arr_get. case_decide; [|done].
  by rewrite lookup_ge_None_2 by lia.
Qed.

Lemma arr_set_ok {A} (a : list A) i x :
  0 ≤ i < Z.of_nat (length a) → arr_set a i x = Ok (<[Z.to_nat i := x]> a).
Proof. intros. unfold arr_set. by rewrite decide_True. Qed.

(** ** Counted loops *)

(** [for (k = i; k < i + n; k++) body]: the number of iterations is known when
    the loop is entered. *)
Fixpoint for_up {A} (n : nat) (i : Z) (body : Z → A → res A) (a : A) : res A :=
  match n with
  | O => mret a
  | S n => a ← body i a; for_up n (i + 1) body a
  end.

(** A loop that reads one list element per iteration is a fold. *)
Lemma for_up_fold {A B} (body : Z → A → res A) (f : A → B → A) (pre bs : list B) a :
  (∀ i b a, (pre ++ bs) !! i = Some b → body (Z.of_nat i) a = Ok (f a b)) →
  for_up (length bs) (Z.of_nat (length pre)) body a = Ok (foldl f a bs).
Proof.
  revert pre a. induction bs as [|b bs IH]; intros pre a Hb; simpl; [done|].
  rewrite (Hb (length pre) b) by (rewrite lookup_app_r, Nat.sub_diag by lia; done). simpl.
  replace (Z.of_nat (length pre) + 1) with (Z.of_nat (length (pre ++ [b])))
    by (rewrite length_app; simpl; lia).
  apply IH. by rewrite <-app_assoc.
Qed.

Lemma for_up_fold0 {A B} (body : Z → A → res A) (f : A → B → A) (bs : list B) a :
  (∀ i b a, bs !! i = Some b → body (Z.of_nat i) a = Ok (f a b)) →
  for_up (length bs) 0 body a = Ok (foldl f a bs).
Proof. apply (for_up_fold body f []). Qed.

(** A loop that keeps an invariant and never fails. *)
Lemma for_up_inv {A} (P : Z → A → Prop) n i body a :
  P i a →
  (∀ k a, i ≤ k < i + Z.of_nat n → P k a → ∃ a', body k a = Ok a' ∧ P (k + 1) a') →
  ∃ a', for_up n i body a = Ok a' ∧ P (i + Z.of_nat n) a'.
Proof.
  revert i a. induction n as [|n IH]; intros i a Hi Hb; simpl.
  - exists a. split; [done|]. by rewrite Z.add_0_r.
  - destruct (Hb i a) as (a1 & Hr & H1); [lia|done|]. rewrite Hr. simpl.
    destruct (IH (i + 1) a1) as (a2 & Hr2 & H2); [done|intros; apply Hb; [lia|done]|].
    exists a2. split; [done|]. by replace (i + Z.of_nat (S n)) with (i + 1 + Z.of_nat n) by lia.
Qed.

(** The last iteration of a loop, once the others are known. *)
Lemma for_up_last {A} n i (body : Z → A → res A) a a' :
  for_up n i body a = Ok a' → for_up (S n) i body a = body (i + Z.of_nat n) a'.
Proof.
  revert i a. induction n as [|n IH]; intros i a Hr.
  - injection Hr as ->. simpl. rewrite Z.add_0_r. by destruct (body i a').
  - change (for_up (S (S n)) i body a) with (a1 ← body i a; for_up (S n) (i + 1) body a1).
    change (for_up (S n) i body a) with (a1 ← body i a; for_up n (i + 1) body a1) in Hr.
    apply bind_Ok_inv in Hr as (a1 & -> & Hr). rewrite bind_Ok, (IH _ _ Hr). f_equal. lia.
Qed.

(** [for (i = 0; i < n; i++) t[i] = g(i);] *)
Lemma fill_array {A} (g : Z → A) (n : nat) (t : list A) :
  length t = n → for_up n 0 (λ i t, arr_set t i (g i)) t = Ok (g <$> seqZ 0 (Z.of_nat n)).
Proof.
  intros Ht.
  destruct (for_up_inv (λ k t, length t = n ∧ ∀ j, 0 ≤ j < k → t !! Z.to_nat j = Some (g j))
    n 0 (λ i t, arr_set t i (g i)) t) as (t' & Hr & Hl & Hj).
  - split; [done|lia].
  - intros k a Hk [Hl Hj]. exists (<[Z.to_nat k := g k]> a). rewrite arr_set_ok by lia.
    split; [done|]. rewrite length_insert. split; [done|]. intros j Hj'.
    destruct (decide (j = k)) as [->|].
    + rewrite list_lookup_insert_eq by lia. done.
    + rewrite list_lookup_insert_ne by lia. apply Hj. lia.
  - rewrite Hr. f_equal. apply list_eq. intros i. rewrite list_lookup_fmap.
    destruct (decide (i < n)%nat) as [Hi|Hi].
    + rewrite <-(Nat2Z.id i) at 1. rewrite Hj by lia.
      by rewrite lookup_seqZ_lt by lia.
    + rewrite !lookup_ge_None_2; [done| |]; rewrite ?length_seqZ; lia.
Qed.

(** ** Error numbers of Linux *)

Definition EPERM := 1.
Definition ENOENT := 2.
Definition EBADF := 9.
Definition EEXIST := 17.
Definition ENOTDIR := 20.
Definition EISDIR := 21.
Definition EINVAL := 22.
Definition ELOOP := 40.
Definition EOWNERDEAD := 130.
Definition ENOTRECOVERABLE := 131.

(** ** Automation *)

Create HintDb cmodel.
#[export] Hint Resolve wrap_u_range wrap_s_range : cmodel.

(** Run the monadic skeleton of a function on known intermediate results. *)
Ltac run := repeat first [progress simpl | rewrite bind_assoc].

(** Step over arithmetic whose result fits. *)
Ltac ints := rewrite signed_bind by (unfold in_s; lia).

(** Split every [m ≫= f = Ok _] hypothesis into its steps. *)
Ltac inv_bind :=
  repeat match goal with
  | H : (_ ≫= _) = Ok _ |- _ => apply bind_Ok_inv in H as (?&?&?)
  | H : mret _ = Ok _ |- _ => injection H as H; subst
  | H : Ok _ = Ok _ |- _ => injection H as H; subst
  end.

(** Prove an equality of integers bit by bit. *)
Ltac bitwise i :=
  apply Z.bits_inj'; intros i ?;
  repeat first
    [ rewrite Z.lxor_spec | rewrite Z.land_spec | rewrite Z.lor_spec
    | rewrite Z.shiftr_spec by lia ].
