(* ===== verification/KList.v ===== *)
(** * KList: the intrusive doubly linked lists

    Models [list/klist.h] (module [Klist]) and [linux/utils/include/list.h]
    (module [UtilsList]), the two copies of the kernel list the other
    components embed.  A [struct list_head] is an object of the heap
    [gmap Z list_head]; pointers are addresses and 0 is [NULL].  The
    well-formedness predicate is [dlist h head xs]: the ring that starts at the
    sentinel [head] visits exactly [xs], forwards through [next] and backwards
    through [prev].  Classes [ListOps] and [ListLaws] are what the lists promise to
    their clients. *)

From S2P Require Import Prelude.

Record list_head := ListHead { lh_next : Z; lh_prev : Z }.
Abbreviation heap := (gmap Z list_head).
Definition NULL : Z := 0.

#[global] Instance list_head_eq_dec : EqDecision list_head.
Proof. solve_decision. Defined.

(** Access to [*p]. *)
Definition deref (h : heap) (p : Z) : res list_head :=
  if decide (p = NULL) then Ub NullDeref else or_ub BadPtr (h !! p).
Definition ld_next (h : heap) (p : Z) : res Z := n ← deref h p; mret (lh_next n).
Definition ld_prev (h : heap) (p : Z) : res Z := n ← deref h p; mret (lh_prev n).
Definition st_next (h : heap) (p v : Z) : res heap :=
  n ← deref h p; mret (<[p := ListHead v (lh_prev n)]> h).
Definition st_prev (h : heap) (p v : Z) : res heap :=
  n ← deref h p; mret (<[p := ListHead (lh_next n) v]> h).

(** ** The operations of klist.h *)
Module Klist.

Definition INIT_LIST_HEAD (h : heap) (ptr : Z) : res heap :=
  h ← st_next h ptr ptr; st_prev h ptr ptr.

Definition __list_add (h : heap) (new prev next : Z) : res heap :=
  h ← st_prev h next new;
  h ← st_next h new next;
  h ← st_prev h new prev;
  st_next h prev new.

Definition list_add (h : heap) (new head : Z) : res heap :=
  next ← ld_next h head; __list_add h new head next.

Definition list_add_tail (h : heap) (new head : Z) : res heap :=
  prev ← ld_prev h head; __list_add h new prev head.

Definition __list_del (h : heap) (prev next : Z) : res heap :=
  h ← st_prev h next prev; st_next h prev next.

(** [entry] is left with null links. *)
Definition list_del (h : heap) (entry : Z) : res heap :=
  prev ← ld_prev h entry;
  next ← ld_next h entry;
  h ← __list_del h prev next;
  h ← st_next h entry NULL;
  st_prev h entry NULL.

Definition list_del_init (h : heap) (entry : Z) : res heap :=
  prev ← ld_prev h entry;
  next ← ld_next h entry;
  h ← __list_del h prev next;
  INIT_LIST_HEAD h entry.

Definition list_move (h : heap) (list head : Z) : res heap :=
  prev ← ld_prev h list;
  next ← ld_next h list;
  h ← __list_del h prev next;
  list_add h list head.

Definition list_move_tail (h : heap) (list head : Z) : res heap :=
  prev ← ld_prev h list;
  next ← ld_next h list;
  h ← __list_del h prev next;
  list_add_tail h list head.

Definition list_empty (h : heap) (head : Z) : res bool :=
  next ← ld_next h head; mret (bool_decide (next = head)).

Definition __list_splice (h : heap) (list head : Z) : res heap :=
  first ← ld_next h list;
  last ← ld_prev h list;
  at_ ← ld_next h head;
  h ← st_prev h first head;
  h ← st_next h head first;
  h ← st_next h last at_;
  st_prev h at_ last.

Definition list_splice (h : heap) (list head : Z) : res heap :=
  e ← list_empty h list;
  if negb e then __list_splice h list head else mret h.

Definition list_splice_init (h : heap) (list head : Z) : res heap :=
  e ← list_empty h list;
  if negb e then
    h ← __list_splice h list head; INIT_LIST_HEAD h list
  else mret h.

(** The traversal macros.  The loop body is the argument [body]; it gets the
    current node and may change the heap and the client's own state. *)
Section loops.
Context {A : Type}.

Fixpoint for_each_from (fuel : nat) (step : heap → Z → res Z)
    (body : Z → heap → A → res (heap * A)) (head pos : Z) (h : heap) (a : A)
    : res (heap * A) :=
  match fuel with
  | O => NoFuel
  | S fuel =>
      if decide (pos = head) then mret (h, a)
      else
        r ← body pos h a;
        pos ← step r.1 pos;
        for_each_from fuel step body head pos r.1 r.2
  end.

Definition list_for_each (fuel : nat) body (head : Z) (h : heap) (a : A) :=
  pos ← ld_next h head; for_each_from fuel ld_next body head pos h a.

Definition list_for_each_prev (fuel : nat) body (head : Z) (h : heap) (a : A) :=
  pos ← ld_prev h head; for_each_from fuel ld_prev body head pos h a.

Fixpoint for_each_safe_from (fuel : nat)
    (body : Z → heap → A → res (heap * A)) (head pos n : Z) (h : heap) (a : A)
    : res (heap * A) :=
  match fuel with
  | O => NoFuel
  | S fuel =>
      if decide (pos = head) then mret (h, a)
      else
        r ← body pos h a;
        n' ← ld_next r.1 n;
        for_each_safe_from fuel body head n n' r.1 r.2
  end.

Definition list_for_each_safe (fuel : nat) body (head : Z) (h : heap) (a : A) :=
  pos ← ld_next h head;
  n ← ld_next h pos;
  for_each_safe_from fuel body head pos n h a.
End loops.

(** [list_entry] and [list_for_each_entry] convert between a node and the
    structure that embeds it at offset [off]. *)
Definition list_entry (ptr off : Z) : Z := ptr - off.
Definition list_first_entry (h : heap) (ptr off : Z) : res Z :=
  next ← ld_next h ptr; mret (list_entry next off).

(** The loop variable of the entry macros is the structure; its node is at
    [pos + off]. *)
Section entries.
Context {A : Type} (off : Z) (body : Z → heap → A → res (heap * A)).

Fixpoint for_each_entry_from (fuel : nat) (head pos : Z) (h : heap) (a : A) : res (heap * A) :=
  match fuel with
  | O => NoFuel
  | S fuel =>
      if decide (pos + off = head) then mret (h, a)
      else
        r ← body pos h a;
        next ← ld_next r.1 (pos + off);
        for_each_entry_from fuel head (list_entry next off) r.1 r.2
  end.

Definition list_for_each_entry (fuel : nat) (head : Z) (h : heap) (a : A) : res (heap * A) :=
  next ← ld_next h head; for_each_entry_from fuel head (list_entry next off) h a.

Fixpoint for_each_entry_safe_from (fuel : nat) (head pos n : Z) (h : heap) (a : A) : res (heap * A) :=
  match fuel with
  | O => NoFuel
  | S fuel =>
      if decide (pos + off = head) then mret (h, a)
      else
        r ← body pos h a;
        next ← ld_next r.1 (n + off);
        for_each_entry_safe_from fuel head n (list_entry next off) r.1 r.2
  end.

Definition list_for_each_entry_safe (fuel : nat) (head : Z) (h : heap) (a : A) : res (heap * A) :=
  next ← ld_next h head;
  let pos := list_entry next off in
  next ← ld_next h (pos + off);
  for_each_entry_safe_from fuel head pos (list_entry next off) h a.
End entries.

End Klist.

(** ** The operations of linux/utils/include/list.h *)
Module UtilsList.

Definition INIT_LIST_HEAD (h : heap) (ptr : Z) : res heap :=
  h ← st_next h ptr ptr; st_prev h ptr ptr.

Definition __list_add (h : heap) (_new prev next : Z) : res heap :=
  h ← st_prev h next _new;
  h ← st_next h _new next;
  h ← st_prev h _new prev;
  st_next h prev _new.

Definition list_add (h : heap) (_new head : Z) : res heap :=
  next ← ld_next h head; __list_add h _new head next.

Definition list_add_tail (h : heap) (_new head : Z) : res heap :=
  prev ← ld_prev h head; __list_add h _new prev head.

Definition __list_del (h : heap) (prev next : Z) : res heap :=
  h ← st_prev h next prev; st_next h prev next.

(** Unlike klist.h, the links of the removed [entry] are left as they were. *)
Definition list_del (h : heap) (entry : Z) : res heap :=
  prev ← ld_prev h entry;
  next ← ld_next h entry;
  __list_del h prev next.

Definition list_del_init (h : heap) (entry : Z) : res heap :=
  prev ← ld_prev h entry;
  next ← ld_next h entry;
  h ← __list_del h prev next;
  INIT_LIST_HEAD h entry.

Definition list_move (h : heap) (list head : Z) : res heap :=
  prev ← ld_prev h list;
  next ← ld_next h list;
  h ← __list_del h prev next;
  list_add h list head.

Definition list_move_tail (h : heap) (list head : Z) : res heap :=
  prev ← ld_prev h list;
  next ← ld_next h list;
  h ← __list_del h prev next;
  list_add_tail h list head.

Definition list_empty (h : heap) (head : Z) : res bool :=
  next ← ld_next h head; mret (bool_decide (next = head)).

Definition __list_splice (h : heap) (list head : Z) : res heap :=
  first ← ld_next h list;
  last ← ld_prev h list;
  at_ ← ld_next h head;
  h ← st_prev h first head;
  h ← st_next h head first;
  h ← st_next h last at_;
  st_prev h at_ last.

Definition list_splice (h : heap) (list head : Z) : res heap :=
  e ← list_empty h list;
  if negb e then __list_splice h list head else mret h.

Definition list_splice_init (h : heap) (list head : Z) : res heap :=
  e ← list_empty h list;
  if negb e then
    h ← __list_splice h list head; INIT_LIST_HEAD h list
  else mret h.

(** [list_for_each_safe] of list.h, the same loop as in klist.h. *)
Definition list_for_each_safe {A} (fuel : nat)
    (body : Z → heap → A → res (heap * A)) (head : Z) (h : heap) (a : A)
    : res (heap * A) :=
  pos ← ld_next h head;
  n ← ld_next h pos;
  Klist.for_each_safe_from fuel body head pos n h a.

End UtilsList.

(** ** The well-formedness predicate *)

Definition nxt (h : heap) (p : Z) : option Z := lh_next <$> h !! p.
Definition prv (h : heap) (p : Z) : option Z := lh_prev <$> h !! p.

(** [a] and [b] are neighbours. *)
Definition link (h : heap) (a b : Z) : Prop := nxt h a = Some b ∧ prv h b = Some a.

(** From [a] the links visit [l] in order. *)
Fixpoint seg (h : heap) (a : Z) (l : list Z) : Prop :=
  match l with
  | [] => True
  | b :: l => link h a b ∧ seg h b l
  end.

(** The last node of the path that starts at [a] and visits [l]. *)
Fixpoint end_of (a : Z) (l : list Z) : Z :=
  match l with
  | [] => a
  | b :: l => end_of b l
  end.

(** The ring at sentinel [hd] holds the entries [xs]. *)
Record dlist (h : heap) (hd : Z) (xs : list Z) : Prop := {
  dl_seg : seg h hd (xs ++ [hd]);
  dl_nodup : NoDup (hd :: xs);
  dl_null : NULL ∉ hd :: xs;
}.

(** [h'] differs from [h] only at addresses of [ps]. *)
Definition same_off (ps : list Z) (h h' : heap) : Prop :=
  ∀ p, p ∉ ps → h' !! p = h !! p.

(** The allocated objects are the same. *)
Definition same_objs (h h' : heap) : Prop :=
  ∀ p, is_Some (h !! p) ↔ is_Some (h' !! p).

(** What a store does, as a total function. *)
Definition set_next (p v : Z) (h : heap) : heap :=
  alter (λ n, ListHead v (lh_prev n)) p h.
Definition set_prev (p v : Z) (h : heap) : heap :=
  alter (λ n, ListHead (lh_next n) v) p h.

Definition valid (h : heap) (p : Z) : Prop := p ≠ NULL ∧ is_Some (h !! p).

(** *** Loads and stores on valid addresses *)

Lemma ld_next_nxt h p q : p ≠ NULL → nxt h p = Some q → ld_next h p = Ok q.
Proof.
  unfold nxt, ld_next, deref. intros. rewrite decide_False by done.
  destruct (h !! p); by simplify_eq/=.
Qed.
Lemma ld_prev_prv h p q : p ≠ NULL → prv h p = Some q → ld_prev h p = Ok q.
Proof.
  unfold prv, ld_prev, deref. intros. rewrite decide_False by done.
  destruct (h !! p); by simplify_eq/=.
Qed.
Lemma st_next_valid h p v : valid h p → st_next h p v = Ok (set_next p v h).
Proof.
  unfold st_next, deref, set_next. intros [? [n Hn]]. rewrite decide_False, Hn by done. simpl.
  unfold mret, res_ret. f_equal. apply map_eq. intros q. rewrite lookup_insert, lookup_alter.
  case_decide; [|done]. subst. by rewrite Hn.
Qed.
Lemma st_prev_valid h p v : valid h p → st_prev h p v = Ok (set_prev p v h).
Proof.
  unfold st_prev, deref, set_prev. intros [? [n Hn]]. rewrite decide_False, Hn by done. simpl.
  unfold mret, res_ret. f_equal. apply map_eq. intros q. rewrite lookup_insert, lookup_alter.
  case_decide; [|done]. subst. by rewrite Hn.
Qed.

Lemma valid_set_next h p v q : valid (set_next p v h) q ↔ valid h q.
Proof.
  unfold valid, set_next. rewrite lookup_alter. case_decide; [|done]. subst.
  by rewrite fmap_is_Some.
Qed.
Lemma valid_set_prev h p v q : valid (set_prev p v h) q ↔ valid h q.
Proof.
  unfold valid, set_prev. rewrite lookup_alter. case_decide; [|done]. subst.
  by rewrite fmap_is_Some.
Qed.
Lemma nxt_set_next h p v q :
  nxt (set_next p v h) q = if decide (p = q) then (λ _, v) <$> h !! p else nxt h q.
Proof.
  unfold nxt, set_next. rewrite lookup_alter. case_decide; [subst|done].
  by destruct (h !! q).
Qed.
Lemma prv_set_prev h p v q :
  prv (set_prev p v h) q = if decide (p = q) then (λ _, v) <$> h !! p else prv h q.
Proof.
  unfold prv, set_prev. rewrite lookup_alter. case_decide; [subst|done].
  by destruct (h !! q).
Qed.
Lemma prv_set_next h p v q : prv (set_next p v h) q = prv h q.
Proof.
  unfold prv, set_next. rewrite lookup_alter. case_decide; [subst|done].
  by destruct (h !! q).
Qed.
Lemma nxt_set_prev h p v q : nxt (set_prev p v h) q = nxt h q.
Proof.
  unfold nxt, set_prev. rewrite lookup_alter. case_decide; [subst|done].
  by destruct (h !! q).
Qed.
Lemma const_valid {B} h p (v : B) : valid h p → (λ _, v) <$> h !! p = Some v.
Proof. intros [_ [? ->]]. done. Qed.

Lemma nxt_valid h p q : p ≠ NULL → nxt h p = Some q → valid h p.
Proof. unfold nxt, valid. destruct (h !! p); naive_solver. Qed.
Lemma prv_valid h p q : p ≠ NULL → prv h p = Some q → valid h p.
Proof. unfold prv, valid. destruct (h !! p); naive_solver. Qed.

Lemma same_off_set_next h p v ps : p ∈ ps → same_off ps h (set_next p v h).
Proof. intros ? q ?. unfold set_next. rewrite lookup_alter_ne; set_solver. Qed.
Lemma same_off_set_prev h p v ps : p ∈ ps → same_off ps h (set_prev p v h).
Proof. intros ? q ?. unfold set_prev. rewrite lookup_alter_ne; set_solver. Qed.
Lemma same_off_trans ps h1 h2 h3 :
  same_off ps h1 h2 → same_off ps h2 h3 → same_off ps h1 h3.
Proof. intros H1 H2 p Hp. by rewrite H2, H1. Qed.
Lemma same_off_refl ps h : same_off ps h h.
Proof. done. Qed.
Lemma same_off_weaken ps qs h h' : ps ⊆ qs → same_off ps h h' → same_off qs h h'.
Proof. intros Hs H p Hp. apply H. set_solver. Qed.

Lemma same_objs_set_next h p v : same_objs h (set_next p v h).
Proof.
  intros q. unfold set_next. rewrite lookup_alter. case_decide; [|done].
  subst. by rewrite fmap_is_Some.
Qed.
Lemma same_objs_set_prev h p v : same_objs h (set_prev p v h).
Proof.
  intros q. unfold set_prev. rewrite lookup_alter. case_decide; [|done].
  subst. by rewrite fmap_is_Some.
Qed.
Lemma same_objs_trans h1 h2 h3 : same_objs h1 h2 → same_objs h2 h3 → same_objs h1 h3.
Proof. intros H1 H2 p. by rewrite (H1 p). Qed.
Lemma same_objs_valid h h' p : same_objs h h' → valid h p → valid h' p.
Proof. intros Ho [? Hs]. split; [done|]. by apply Ho. Qed.

Create Rewrite HintDb klist.
#[global] Hint Rewrite valid_set_next valid_set_prev prv_set_next nxt_set_prev
  nxt_set_next prv_set_prev : klist.

(** *** Segments *)

Lemma seg_app h a l1 l2 :
  seg h a (l1 ++ l2) ↔ seg h a l1 ∧ seg h (end_of a l1) l2.
Proof.
  revert a. induction l1 as [|b l1 IH]; intros a; simpl; [tauto|].
  rewrite IH. tauto.
Qed.

Lemma end_of_app a l1 l2 : end_of a (l1 ++ l2) = end_of (end_of a l1) l2.
Proof. revert a. induction l1; simpl; auto. Qed.

Lemma end_of_elem a l : end_of a l ∈ a :: l.
Proof.
  revert a. induction l as [|b l IH]; intros a; simpl; [set_solver|].
  specialize (IH b). set_solver.
Qed.

(** A segment survives any change that keeps the [next] links of all its nodes
    but the last, and the [prev] links of all its nodes but the first. *)
Lemma seg_frame h h' a l :
  NoDup (a :: l) →
  (∀ x, x ∈ a :: l → x ≠ end_of a l → nxt h' x = nxt h x) →
  (∀ x, x ∈ l → prv h' x = prv h x) →
  seg h a l → seg h' a l.
Proof.
  revert a. induction l as [|b l IH]; intros a Hnd Hn Hp; simpl; [done|].
  apply NoDup_cons in Hnd as [Ha Hnd].
  intros [[??] ?]. split; [split|].
  - rewrite Hn; [done|set_solver|]. simpl.
    pose proof (end_of_elem b l). set_solver.
  - rewrite Hp; set_solver.
  - apply IH; auto; set_solver.
Qed.

(** A closed ring: the segment returns to the node it starts from. *)
Lemma ring_frame h h' a l :
  (∀ x, x ∈ a :: l → h' !! x = h !! x) → seg h a l → seg h' a l.
Proof.
  revert a. induction l as [|b l IH]; intros a Hx; simpl; [done|].
  unfold link, nxt, prv. rewrite !Hx by set_solver. intros [??].
  split; [done|]. apply IH; set_solver.
Qed.

Lemma dlist_frame h h' hd xs ps :
  same_off ps h h' → (∀ x, x ∈ hd :: xs → x ∉ ps) → dlist h hd xs → dlist h' hd xs.
Proof.
  intros Hs Hd [Hseg ??]. split; [|done..].
  apply (ring_frame h); [|done]. intros x Hx. apply Hs, Hd. set_solver.
Qed.

Lemma seg_valid h a l x :
  NULL ∉ a :: l → seg h a l → l ≠ [] → x ∈ a :: l → valid h x.
Proof.
  revert a. induction l as [|b l IH]; intros a Hn Hs Hl Hx; [done|].
  destruct Hs as [[Hab Hba] Hs].
  apply elem_of_cons in Hx as [->|Hx]; [apply (nxt_valid _ _ b); set_solver|].
  destruct l as [|c l].
  - apply list_elem_of_singleton in Hx as ->. apply (prv_valid _ _ a); set_solver.
  - apply (IH b); set_solver.
Qed.

Lemma dlist_valid h hd xs x : dlist h hd xs → x ∈ hd :: xs → valid h x.
Proof.
  intros [Hs ? Hn] Hx. apply (seg_valid h hd (xs ++ [hd])); [set_solver|done| |set_solver].
  by destruct xs.
Qed.

(** First node of the path that visits [l] and ends at [b]. *)
Definition start_of (l : list Z) (b : Z) : Z :=
  match l with
  | [] => b
  | a :: _ => a
  end.

Lemma start_of_elem l b : start_of l b ∈ b :: l.
Proof. destruct l; set_solver. Qed.

Lemma ring_split ys hd : ∃ l, ys ++ [hd] = start_of ys hd :: l.
Proof. destruct ys; simpl; eauto. Qed.

(** Open a ring at any position: the two halves and the link between them. *)
Lemma seg_open h hd xs ys n l :
  ys ++ [hd] = n :: l →
  seg h hd ((xs ++ ys) ++ [hd]) ↔ seg h hd xs ∧ link h (end_of hd xs) n ∧ seg h n l.
Proof. intros E. by rewrite <-app_assoc, seg_app, E. Qed.

(** The separation facts a position in a ring gives. *)
Lemma ring_position hd xs ys n l :
  NoDup (hd :: xs ++ ys) → ys ++ [hd] = n :: l →
  NoDup (hd :: xs) ∧ NoDup (n :: l) ∧ (n ∉ xs) ∧ (n ∉ l) ∧
  (∀ x, x ∈ n :: l → x ≠ end_of n l → end_of hd xs ≠ x) ∧
  (∀ x, x ∈ n :: l ↔ x ∈ hd :: ys).
Proof.
  intros Hnd E. pose proof (end_of_elem hd xs) as He.
  assert (∀ x, x ∈ n :: l ↔ x ∈ hd :: ys) as Hl.
  { intros x. rewrite <-E, elem_of_app, list_elem_of_singleton, elem_of_cons. tauto. }
  assert (end_of hd (ys ++ [hd]) = end_of n l) as El by (by rewrite E).
  rewrite end_of_app in El. simpl in El.
  assert (NoDup (n :: l)) as Hnl.
  { rewrite <-E, NoDup_app. rewrite NoDup_cons, NoDup_app in Hnd. 
    destruct Hnd as (?&?&?&?). split_and!; [done|set_solver|apply NoDup_singleton]. }
  rewrite NoDup_cons, NoDup_app in Hnd. destruct Hnd as (Hhd & Hxs & Hd & Hys).
  split_and!; auto.
  - rewrite NoDup_cons. set_solver.
  - intros Hin. pose proof (proj1 (Hl n) ltac:(set_solver)) as [->|Hy]%elem_of_cons.
    + set_solver.
    + by apply (Hd _ Hin).
  - by apply NoDup_cons in Hnl as [? _].
  - intros x Hx Hne Heq. rewrite <-El in Hne. apply Hl, elem_of_cons in Hx as [|Hy]; [done|].
    rewrite Heq in He. apply elem_of_cons in He as [|Hx]; [done|]. by apply (Hd _ Hx).
Qed.

(** Goals about the links of a heap after some stores. *)
Ltac links :=
  repeat first
    [ progress autorewrite with klist
    | case_decide
    | rewrite const_valid by (autorewrite with klist; auto)
    | progress unfold link ];
  split_and?; try done; try congruence; try (subst; contradiction).

Ltac footprint :=
  repeat first
    [ apply same_off_refl
    | eapply same_off_trans; [|first [apply same_off_set_next | apply same_off_set_prev]; set_solver] ].

Ltac objs :=
  repeat first
    [ done
    | eapply same_objs_trans; [|first [apply same_objs_set_next | apply same_objs_set_prev]] ].

Lemma insert_links h hd xs ys new p n :
  dlist h hd (xs ++ ys) → valid h new → new ∉ hd :: xs ++ ys →
  p = end_of hd xs → n = start_of ys hd →
  dlist (set_next p new (set_prev new p (set_next new n (set_prev n new h))))
    hd (xs ++ new :: ys).
Proof.
  intros Hd Hv Hnew -> ->. destruct (ring_split ys hd) as [l E].
  pose proof (ring_position _ _ _ _ _ (dl_nodup _ _ _ Hd) E) as (?&?&?&?&Hp&Hl).
  pose proof (end_of_elem hd xs). pose proof (start_of_elem ys hd).
  pose proof (dlist_valid _ _ _ (end_of hd xs) Hd ltac:(set_solver)).
  pose proof (dlist_valid _ _ _ (start_of ys hd) Hd ltac:(set_solver)).
  assert ((new ∉ hd :: xs) ∧ (new ∉ start_of ys hd :: l)) as [? ?] by (rewrite Hl; set_solver).
  destruct Hd as [Hs Hnd Hnull]. apply (seg_open _ _ _ _ _ _ E) in Hs as (Hs1 & [Hl1 Hl2] & Hs2).
  assert (new ≠ end_of hd xs ∧ new ≠ start_of ys hd ∧ (new ∉ xs) ∧ (new ∉ l)) as (?&?&?&?) by set_solver.
  remember (end_of hd xs) as p eqn:Ep. remember (start_of ys hd) as n eqn:En. clear En.
  split.
  - rewrite <-app_assoc, seg_app. split; [|simpl; rewrite <-Ep, E; split_and!].
    + eapply seg_frame; [done| | |exact Hs1]; intros x; intros; links.
    + links.
    + split; [links|]. eapply seg_frame; [done| | |exact Hs2]; intros x Hx; intros;
        [specialize (Hp x Hx ltac:(done))|]; links.
  - rewrite NoDup_cons, NoDup_app, NoDup_cons in *. set_solver.
  - destruct Hv. set_solver.
Qed.

Lemma delete_links h hd xs e ys p n :
  dlist h hd (xs ++ e :: ys) → p = end_of hd xs → n = start_of ys hd →
  dlist (set_next p n (set_prev n p h)) hd (xs ++ ys).
Proof.
  intros Hd -> ->. destruct (ring_split ys hd) as [l E].
  assert (NoDup (hd :: xs ++ ys) ∧ (e ∉ hd :: xs ++ ys)) as [Hnd He].
  { pose proof (dl_nodup _ _ _ Hd) as H. rewrite NoDup_cons, NoDup_app, NoDup_cons in H.
    rewrite NoDup_cons, NoDup_app. set_solver. }
  pose proof (ring_position _ _ _ _ _ Hnd E) as (?&?&?&?&Hp&Hl).
  pose proof (end_of_elem hd xs). pose proof (start_of_elem ys hd).
  pose proof (dlist_valid _ _ _ (end_of hd xs) Hd ltac:(set_solver)).
  pose proof (dlist_valid _ _ _ (start_of ys hd) Hd ltac:(set_solver)).
  destruct Hd as [Hs Hnd' Hnull].
  rewrite <-app_assoc, seg_app in Hs. simpl in Hs. rewrite E in Hs. destruct Hs as (Hs1 & _ & _ & Hs2).
  remember (end_of hd xs) as p eqn:Ep. remember (start_of ys hd) as n eqn:En. clear En.
  split; [|done|set_solver].
  rewrite (seg_open _ _ _ _ _ _ E), <-Ep. split_and!; [|links|].
  - eapply seg_frame; [done| | |exact Hs1]; intros x; intros; links.
  - eapply seg_frame; [done| | |exact Hs2]; intros x Hx; intros;
      [specialize (Hp x Hx ltac:(done))|]; links.
Qed.

(** What the sentinel and an entry know about their neighbours. *)
Lemma dlist_sentinel h hd xs :
  dlist h hd xs → nxt h hd = Some (start_of xs hd) ∧ prv h hd = Some (end_of hd xs).
Proof.
  intros [Hs _ _]. split.
  - destruct xs; simpl in *; by destruct Hs as [[??] ?].
  - rewrite seg_app in Hs. by destruct Hs as (_ & [??] & _).
Qed.

Lemma dlist_entry h hd xs e ys :
  dlist h hd (xs ++ e :: ys) →
  nxt h e = Some (start_of ys hd) ∧ prv h e = Some (end_of hd xs).
Proof.
  intros [Hs _ _]. rewrite <-app_assoc, seg_app in Hs. simpl in Hs.
  destruct Hs as (_ & [??] & Hs). split; [|done].
  destruct ys; simpl in *; by destruct Hs as [[??] ?].
Qed.

Lemma dlist_nonnull h hd xs x : dlist h hd xs → x ∈ hd :: xs → x ≠ NULL.
Proof. intros Hd Hx. by apply (dlist_valid _ _ _ _ Hd Hx). Qed.

Lemma ld_next_head h hd xs : dlist h hd xs → ld_next h hd = Ok (start_of xs hd).
Proof.
  intros Hd. apply ld_next_nxt; [apply (dlist_nonnull _ _ _ _ Hd); set_solver|].
  by apply dlist_sentinel.
Qed.

(** Two rings become one: [xs] is moved to the front of the ring of [hd]. *)
Lemma splice_links h hd ys lst x xs at_ :
  dlist h lst (x :: xs) → dlist h hd ys → (∀ p, p ∈ lst :: x :: xs → p ∉ hd :: ys) →
  at_ = start_of ys hd →
  dlist (set_prev at_ (end_of x xs) (set_next (end_of x xs) at_
           (set_next hd x (set_prev x hd h)))) hd ((x :: xs) ++ ys).
Proof.
  intros Hd1 Hd2 Hdis ->. destruct (ring_split ys hd) as [l E].
  pose proof (ring_position hd [] ys _ _ (dl_nodup _ _ _ Hd2) E) as (_&?&_&?&Hp&Hl).
  pose proof (dlist_valid _ _ _ hd Hd2 ltac:(set_solver)).
  pose proof (dlist_valid _ _ _ x Hd1 ltac:(set_solver)).
  pose proof (start_of_elem ys hd). pose proof (end_of_elem x xs) as Hend.
  pose proof (dlist_valid _ _ _ (start_of ys hd) Hd2 ltac:(set_solver)).
  pose proof (dlist_valid _ _ _ (end_of x xs) Hd1 ltac:(set_solver)).
  destruct Hd1 as [Hs1 Hnd1 Hnull1], Hd2 as [Hs2 Hnd2 Hnull2].
  simpl in Hs1. rewrite seg_app in Hs1. destruct Hs1 as (_ & Hs1 & _).
  rewrite E in Hs2. simpl in Hs2. destruct Hs2 as (_ & Hs2).
  assert (NoDup (x :: xs)) as Hnx by (by apply NoDup_cons in Hnd1 as [_ ?]).
  pose proof Hnx as [? _]%NoDup_cons.
  assert (∀ z, z ∈ x :: xs → z ∉ start_of ys hd :: l) as Hsep.
  { intros z Hz. rewrite Hl. apply Hdis. set_solver. }
  assert (hd ∉ x :: xs) by (intros Hin; apply (Hdis hd); set_solver).
  pose proof (Hsep _ Hend). pose proof (Hsep x ltac:(set_solver)).
  assert (start_of ys hd ∉ x :: xs) by (intros Hin; apply (Hsep _ Hin); set_solver).
  remember (end_of x xs) as e eqn:Ee. remember (start_of ys hd) as n eqn:En. clear En.
  assert ((n ∉ xs) ∧ e ≠ hd ∧ n ≠ x ∧ hd ≠ x) as (?&?&?&?) by set_solver.
  assert ((x ∉ l) ∧ (e ∉ l) ∧ n ≠ e) as (?&?&?) by set_solver.
  split.
  - simpl. split; [links|]. rewrite <-app_assoc, seg_app, <-Ee, E. split; [|split; [links|]].
    + eapply seg_frame; [done| | |exact Hs1]; intros z; intros; links.
    + eapply seg_frame; [done| | |exact Hs2]; intros z Hz; intros;
        [specialize (Hp z Hz ltac:(done)); simpl in Hp|]; links.
  - rewrite NoDup_cons, NoDup_app in *. set_solver.
  - set_solver.
Qed.

(** ** What each operation does to a ring *)

(** The frame of an operation: it writes only to [ps] and allocates nothing. *)
Definition frame (ps : list Z) (h h' : heap) : Prop := same_off ps h h' ∧ same_objs h h'.

Lemma frame_trans ps h1 h2 h3 : frame ps h1 h2 → frame ps h2 h3 → frame ps h1 h3.
Proof. intros [??] [??]. split; [by eapply same_off_trans|by eapply same_objs_trans]. Qed.
Lemma frame_weaken ps qs h h' : ps ⊆ qs → frame ps h h' → frame qs h h'.
Proof. intros ? [??]. split; [by eapply same_off_weaken|done]. Qed.
Lemma frame_valid ps h h' p : frame ps h h' → valid h p → valid h' p.
Proof. intros [_ ?]. by apply same_objs_valid. Qed.
Lemma frame_dlist ps h h' hd xs :
  frame ps h h' → (∀ x, x ∈ hd :: xs → x ∉ ps) → dlist h hd xs → dlist h' hd xs.
Proof. intros [? _]. by apply dlist_frame. Qed.

Ltac framed := split; [footprint|objs].

(** Symbolic execution of stores on valid addresses. *)
Ltac exec :=
  repeat first
    [ progress simpl
    | rewrite st_next_valid by (autorewrite with klist; auto)
    | rewrite st_prev_valid by (autorewrite with klist; auto) ].

Lemma init_run h p :
  valid h p → ∃ h', Klist.INIT_LIST_HEAD h p = Ok h' ∧ dlist h' p [] ∧ frame [p] h h'.
Proof.
  intros Hv. eexists. unfold Klist.INIT_LIST_HEAD. exec.
  split; [done|]. split; [|framed].
  split; [|apply NoDup_singleton|destruct Hv; set_solver].
  simpl. links.
Qed.

Lemma add_between h hd xs ys new :
  dlist h hd (xs ++ ys) → valid h new → new ∉ hd :: xs ++ ys →
  ∃ h', Klist.__list_add h new (end_of hd xs) (start_of ys hd) = Ok h' ∧
        dlist h' hd (xs ++ new :: ys) ∧ frame (new :: hd :: xs ++ ys) h h'.
Proof.
  intros Hd Hv Hnew. pose proof (end_of_elem hd xs). pose proof (start_of_elem ys hd).
  pose proof (dlist_valid _ _ _ (end_of hd xs) Hd ltac:(set_solver)).
  pose proof (dlist_valid _ _ _ (start_of ys hd) Hd ltac:(set_solver)).
  eexists. unfold Klist.__list_add. exec.
  split; [done|]. split; [by apply insert_links|framed].
Qed.

Lemma list_add_run h hd xs new :
  dlist h hd xs → valid h new → new ∉ hd :: xs →
  ∃ h', Klist.list_add h new hd = Ok h' ∧ dlist h' hd (new :: xs) ∧ frame (new :: hd :: xs) h h'.
Proof.
  intros Hd Hv Hnew. destruct (dlist_sentinel _ _ _ Hd) as [Hn _].
  unfold Klist.list_add. rewrite (ld_next_nxt _ _ _ (dlist_nonnull _ _ _ hd Hd ltac:(set_solver)) Hn).
  apply (add_between h hd [] xs new Hd Hv Hnew).
Qed.

Lemma list_add_tail_run h hd xs new :
  dlist h hd xs → valid h new → new ∉ hd :: xs →
  ∃ h', Klist.list_add_tail h new hd = Ok h' ∧ dlist h' hd (xs ++ [new]) ∧ frame (new :: hd :: xs) h h'.
Proof.
  intros Hd Hv Hnew. destruct (dlist_sentinel _ _ _ Hd) as [_ Hp].
  unfold Klist.list_add_tail. rewrite (ld_prev_prv _ _ _ (dlist_nonnull _ _ _ hd Hd ltac:(set_solver)) Hp).
  pose proof (add_between h hd xs [] new) as Hb. rewrite app_nil_r in Hb. by apply Hb.
Qed.

(** The unlink both [list_del]s, [list_del_init] and the moves start with. *)
Lemma unlink_run h hd xs e ys :
  dlist h hd (xs ++ e :: ys) →
  ∃ h', (prev ← ld_prev h e; next ← ld_next h e; Klist.__list_del h prev next) = Ok h' ∧
        ld_prev h e = Ok (end_of hd xs) ∧ ld_next h e = Ok (start_of ys hd) ∧
        dlist h' hd (xs ++ ys) ∧ frame (hd :: xs ++ ys) h h'.
Proof.
  intros Hd. destruct (dlist_entry _ _ _ _ _ Hd) as [Hn Hp].
  assert (e ≠ NULL) by (apply (dlist_nonnull _ _ _ _ Hd); set_solver).
  rewrite (ld_next_nxt _ _ _ ltac:(done) Hn), (ld_prev_prv _ _ _ ltac:(done) Hp).
  pose proof (end_of_elem hd xs). pose proof (start_of_elem ys hd).
  pose proof (dlist_valid _ _ _ (end_of hd xs) Hd ltac:(set_solver)).
  pose proof (dlist_valid _ _ _ (start_of ys hd) Hd ltac:(set_solver)).
  eexists. unfold Klist.__list_del. exec. split_and!; [done..| |framed].
  by eapply delete_links.
Qed.

Lemma dlist_remove_notin h hd xs e ys :
  dlist h hd (xs ++ e :: ys) → (e ∉ hd :: xs ++ ys) ∧ valid h e.
Proof.
  intros Hd. split; [|apply (dlist_valid _ _ _ _ Hd); set_solver].
  pose proof (dl_nodup _ _ _ Hd) as Hnd. rewrite NoDup_cons, NoDup_app, NoDup_cons in Hnd.
  set_solver.
Qed.

Lemma klist_del_run h hd xs e ys :
  dlist h hd (xs ++ e :: ys) →
  ∃ h', Klist.list_del h e = Ok h' ∧ dlist h' hd (xs ++ ys) ∧ frame (e :: hd :: xs ++ ys) h h' ∧
        h' !! e = Some (ListHead NULL NULL).
Proof.
  intros Hd. destruct (unlink_run _ _ _ _ _ Hd) as (h1 & Hrun & Hp & Hn & Hd1 & Hf).
  destruct (dlist_remove_notin _ _ _ _ _ Hd) as [He Hv].
  unfold Klist.list_del. rewrite Hp, Hn in *. simpl in *. rewrite Hrun.
  pose proof (frame_valid _ _ _ _ Hf Hv). eexists. exec. split; [done|].
  assert (frame [e] h1 (set_prev e NULL (set_next e NULL h1))) as Hf1 by framed.
  split_and!.
  - apply (frame_dlist _ _ _ _ _ Hf1); [set_solver|done].
  - eapply frame_trans; (eapply frame_weaken; [|done]); set_solver.
  - destruct H as [_ [n Hn1]]. unfold set_prev, set_next.
    by rewrite lookup_alter_eq, lookup_alter_eq, Hn1.
Qed.

Lemma utils_del_run h hd xs e ys :
  dlist h hd (xs ++ e :: ys) →
  ∃ h', UtilsList.list_del h e = Ok h' ∧ dlist h' hd (xs ++ ys) ∧ frame (e :: hd :: xs ++ ys) h h' ∧
        h' !! e = h !! e.
Proof.
  intros Hd. destruct (unlink_run _ _ _ _ _ Hd) as (h1 & Hrun & Hp & Hn & Hd1 & Hf).
  destruct (dlist_remove_notin _ _ _ _ _ Hd) as [He Hv].
  exists h1. split; [exact Hrun|]. split_and!; [done| |by apply Hf].
  eapply frame_weaken; [|done]. set_solver.
Qed.

Lemma del_init_run h hd xs e ys :
  dlist h hd (xs ++ e :: ys) →
  ∃ h', Klist.list_del_init h e = Ok h' ∧ dlist h' hd (xs ++ ys) ∧ dlist h' e [] ∧
        frame (e :: hd :: xs ++ ys) h h'.
Proof.
  intros Hd. destruct (unlink_run _ _ _ _ _ Hd) as (h1 & Hrun & Hp & Hn & Hd1 & Hf).
  destruct (dlist_remove_notin _ _ _ _ _ Hd) as [He Hv].
  unfold Klist.list_del_init. rewrite Hp, Hn in *. simpl in *. rewrite Hrun.
  destruct (init_run h1 e (frame_valid _ _ _ _ Hf Hv)) as (h2 & Hi & Hd2 & Hf2).
  exists h2. split_and!; [done| |done|].
  - apply (frame_dlist _ _ _ _ _ Hf2); [set_solver|done].
  - eapply frame_trans; (eapply frame_weaken; [|done]); set_solver.
Qed.

(** [list_move] between two rings. *)
Lemma move_run h hd xs e ys hd2 zs :
  dlist h hd (xs ++ e :: ys) → dlist h hd2 zs →
  (∀ p, p ∈ hd :: xs ++ e :: ys → p ∉ hd2 :: zs) →
  ∃ h', Klist.list_move h e hd2 = Ok h' ∧ dlist h' hd (xs ++ ys) ∧ dlist h' hd2 (e :: zs) ∧
        frame (e :: hd :: xs ++ ys ++ hd2 :: zs) h h'.
Proof.
  intros Hd Hd2 Hdis. destruct (unlink_run _ _ _ _ _ Hd) as (h1 & Hrun & Hp & Hn & Hd1 & Hf).
  destruct (dlist_remove_notin _ _ _ _ _ Hd) as [He Hv].
  unfold Klist.list_move. rewrite Hp, Hn in *. simpl in *. rewrite Hrun.
  assert (dlist h1 hd2 zs) as Hd2'.
  { apply (frame_dlist _ _ _ _ _ Hf); [|done]. intros x Hx Hin. apply (Hdis x); set_solver. }
  destruct (list_add_run h1 hd2 zs e Hd2' (frame_valid _ _ _ _ Hf Hv)) as (h2 & Hr & Hd3 & Hf2).
  { apply Hdis. set_solver. }
  exists h2. split_and!; [done| |done|].
  - apply (frame_dlist _ _ _ _ _ Hf2); [|done]. intros x Hx Hin.
    apply elem_of_cons in Hin as [->|Hin]; [done|]. apply (Hdis x); set_solver.
  - eapply frame_trans; (eapply frame_weaken; [|done]); set_solver.
Qed.

(** [list_move_tail] between two rings. *)
Lemma move_tail_run h hd xs e ys hd2 zs :
  dlist h hd (xs ++ e :: ys) → dlist h hd2 zs →
  (∀ p, p ∈ hd :: xs ++ e :: ys → p ∉ hd2 :: zs) →
  ∃ h', Klist.list_move_tail h e hd2 = Ok h' ∧ dlist h' hd (xs ++ ys) ∧ dlist h' hd2 (zs ++ [e]).
Proof.
  intros Hd Hd2 Hdis. destruct (unlink_run _ _ _ _ _ Hd) as (h1 & Hrun & Hp & Hn & Hd1 & Hf).
  destruct (dlist_remove_notin _ _ _ _ _ Hd) as [He Hv].
  unfold Klist.list_move_tail. rewrite Hp, Hn in *. simpl in *. rewrite Hrun.
  assert (dlist h1 hd2 zs) as Hd2'.
  { apply (frame_dlist _ _ _ _ _ Hf); [|done]. intros x Hx Hin. apply (Hdis x); set_solver. }
  destruct (list_add_tail_run h1 hd2 zs e Hd2' (frame_valid _ _ _ _ Hf Hv)) as (h2 & Hr & Hd3 & Hf2).
  { apply Hdis. set_solver. }
  exists h2. split_and!; [done| |done].
  apply (frame_dlist _ _ _ _ _ Hf2); [|done]. intros x Hx Hin.
  apply elem_of_cons in Hin as [->|Hin]; [done|]. apply (Hdis x); set_solver.
Qed.

Lemma list_empty_run h hd xs :
  dlist h hd xs → Klist.list_empty h hd = Ok (bool_decide (xs = [])).
Proof.
  intros Hd. destruct (dlist_sentinel _ _ _ Hd) as [Hn _].
  unfold Klist.list_empty. rewrite (ld_next_nxt _ _ _ (dlist_nonnull _ _ _ hd Hd ltac:(set_solver)) Hn).
  simpl. unfold mret, res_ret. f_equal. apply bool_decide_ext.
  pose proof (dl_nodup _ _ _ Hd) as Hnd. rewrite NoDup_cons in Hnd.
  destruct xs as [|x xs]; simpl; set_solver.
Qed.

Lemma splice_core h lst xs hd ys :
  dlist h lst xs → xs ≠ [] → dlist h hd ys → (∀ p, p ∈ lst :: xs → p ∉ hd :: ys) →
  ∃ h', Klist.__list_splice h lst hd = Ok h' ∧ dlist h' hd (xs ++ ys) ∧ frame (xs ++ hd :: ys) h h'.
Proof.
  intros Hd1 Hne Hd2 Hdis. destruct xs as [|x xs]; [done|].
  destruct (dlist_sentinel _ _ _ Hd1) as [Hn1 Hp1], (dlist_sentinel _ _ _ Hd2) as [Hn2 _].
  pose proof (start_of_elem ys hd). pose proof (end_of_elem x xs).
  pose proof (dlist_valid _ _ _ x Hd1 ltac:(set_solver)).
  pose proof (dlist_valid _ _ _ (end_of x xs) Hd1 ltac:(set_solver)).
  pose proof (dlist_valid _ _ _ hd Hd2 ltac:(set_solver)) as Hv.
  pose proof (dlist_valid _ _ _ (start_of ys hd) Hd2 ltac:(set_solver)).
  assert (lst ≠ NULL) by (apply (dlist_nonnull _ _ _ _ Hd1); set_solver).
  simpl in *. unfold Klist.__list_splice.
  rewrite (ld_next_nxt _ _ _ ltac:(done) Hn1), (ld_prev_prv _ _ _ ltac:(done) Hp1).
  rewrite (ld_next_nxt _ _ _ (proj1 Hv) Hn2). simpl. exec. eexists. split; [done|].
  split; [by eapply splice_links|framed].
Qed.

Lemma splice_run h lst xs hd ys :
  dlist h lst xs → dlist h hd ys → (∀ p, p ∈ lst :: xs → p ∉ hd :: ys) →
  ∃ h', Klist.list_splice h lst hd = Ok h' ∧ dlist h' hd (xs ++ ys) ∧
        frame (xs ++ hd :: ys) h h'.
Proof.
  intros Hd1 Hd2 Hdis. unfold Klist.list_splice. rewrite (list_empty_run _ _ _ Hd1). simpl.
  case_bool_decide as Hxs; simpl.
  - subst xs. exists h. done.
  - by apply splice_core.
Qed.

Lemma splice_init_run h lst xs hd ys :
  dlist h lst xs → dlist h hd ys → (∀ p, p ∈ lst :: xs → p ∉ hd :: ys) →
  ∃ h', Klist.list_splice_init h lst hd = Ok h' ∧ dlist h' hd (xs ++ ys) ∧ dlist h' lst [].
Proof.
  intros Hd1 Hd2 Hdis. unfold Klist.list_splice_init. rewrite (list_empty_run _ _ _ Hd1). simpl.
  case_bool_decide as Hxs; simpl.
  - subst xs. exists h. done.
  - destruct (splice_core h lst xs hd ys) as (h1 & Hr & Hd3 & Hf); [done..|].
    rewrite Hr. simpl.
    destruct (init_run h1 lst) as (h2 & Hi & Hd4 & Hf2).
    { apply (frame_valid _ _ _ _ Hf), (dlist_valid _ _ _ _ Hd1). set_solver. }
    exists h2. split_and!; [done| |done].
    apply (frame_dlist _ _ _ _ _ Hf2); [|done]. intros p Hp ->%list_elem_of_singleton.
    pose proof (dl_nodup _ _ _ Hd1) as Hnd. rewrite NoDup_cons in Hnd.
    apply (Hdis lst); set_solver.
Qed.

(** ** Traversals *)

Section traversal.
Context {A : Type} (f : A → Z → A).

Lemma for_each_from_run h hd pre todo fuel body a :
  (∀ x h' a, x ∈ todo → body x h' a = Ok (h', f a x)) →
  dlist h hd (pre ++ todo) → (length todo < fuel)%nat →
  Klist.for_each_from fuel ld_next body hd (start_of todo hd) h a = Ok (h, foldl f a todo).
Proof.
  revert pre fuel a. induction todo as [|x todo IH]; intros pre fuel a Hb Hd Hf;
    (destruct fuel as [|fuel]; [simpl in Hf; lia|]); simpl; [by rewrite decide_True|].
  pose proof (dl_nodup _ _ _ Hd) as Hnd. rewrite NoDup_cons in Hnd.
  rewrite decide_False by set_solver. rewrite Hb by set_solver. simpl.
  destruct (dlist_entry _ _ _ _ _ Hd) as [Hn _].
  rewrite (ld_next_nxt _ _ _ (dlist_nonnull _ _ _ x Hd ltac:(set_solver)) Hn). simpl.
  apply (IH (pre ++ [x])); [set_solver| |simpl in Hf; lia].
  by rewrite <-app_assoc.
Qed.

Lemma for_each_prev_from_run h hd todo post fuel body a :
  (∀ x h' a, x ∈ todo → body x h' a = Ok (h', f a x)) →
  dlist h hd (todo ++ post) → (length todo < fuel)%nat →
  Klist.for_each_from fuel ld_prev body hd (end_of hd todo) h a =
    Ok (h, foldl f a (reverse todo)).
Proof.
  revert post fuel a. induction todo as [|x todo IH] using rev_ind; intros post fuel a Hb Hd Hf;
    rewrite ?length_app in Hf; (destruct fuel as [|fuel]; [simpl in Hf; lia|]); simpl;
    [by rewrite decide_True|].
  rewrite end_of_app, reverse_snoc. simpl.
  rewrite <-app_assoc in Hd. simpl in Hd.
  pose proof (dl_nodup _ _ _ Hd) as Hnd. rewrite NoDup_cons in Hnd.
  rewrite decide_False by set_solver. rewrite Hb by set_solver. simpl.
  destruct (dlist_entry _ _ _ _ _ Hd) as [_ Hp].
  rewrite (ld_prev_prv _ _ _ (dlist_nonnull _ _ _ x Hd ltac:(set_solver)) Hp). simpl.
  apply (IH (x :: post)); [set_solver|done|simpl in Hf; lia].
Qed.

(** Any body that removes the visited node from the ring. *)
Definition removes (body : Z → heap → A → res (heap * A)) : Prop :=
  ∀ h hd x xs a, dlist h hd (x :: xs) →
    ∃ h', body x h a = Ok (h', f a x) ∧ dlist h' hd xs ∧ frame (x :: hd :: xs) h h'.

Lemma for_each_safe_from_run h hd todo fuel body a :
  removes body → dlist h hd todo → (length todo < fuel)%nat →
  ∃ h', Klist.for_each_safe_from fuel body hd (start_of todo hd) (start_of (tail todo) hd) h a =
          Ok (h', foldl f a todo) ∧ dlist h' hd [] ∧ frame (hd :: todo) h h'.
Proof.
  intros Hb. revert h fuel a. induction todo as [|x todo IH]; intros h fuel a Hd Hf;
    (destruct fuel as [|fuel]; [simpl in Hf; lia|]); simpl.
  { rewrite decide_True by done. exists h. done. }
  pose proof (dl_nodup _ _ _ Hd) as Hnd. rewrite NoDup_cons in Hnd.
  rewrite decide_False by set_solver.
  destruct (Hb _ _ _ _ a Hd) as (h1 & Hr & Hd1 & Hf1). rewrite Hr. simpl.
  assert (ld_next h1 (start_of todo hd) = Ok (start_of (tail todo) hd)) as ->.
  { apply ld_next_nxt.
    - apply (dlist_nonnull _ _ _ _ Hd1), start_of_elem.
    - destruct todo as [|y todo]; simpl; [apply (dlist_sentinel _ _ _ Hd1)|].
      apply (dlist_entry _ _ [] _ _ Hd1). }
  simpl. destruct (IH h1 fuel (f a x) Hd1) as (h2 & Hr2 & Hd2 & Hf2); [simpl in Hf; lia|].
  exists h2. split_and!; [done..|]. eapply frame_trans; (eapply frame_weaken; [|done]); set_solver.
Qed.

Lemma for_each_safe_run h hd xs fuel body a :
  removes body → dlist h hd xs → (length xs < fuel)%nat →
  ∃ h', Klist.list_for_each_safe fuel body hd h a = Ok (h', foldl f a xs) ∧
        dlist h' hd [] ∧ frame (hd :: xs) h h'.
Proof.
  intros Hb Hd Hf. unfold Klist.list_for_each_safe.
  rewrite (ld_next_head _ _ _ Hd). simpl.
  assert (ld_next h (start_of xs hd) = Ok (start_of (tail xs) hd)) as ->.
  { apply ld_next_nxt.
    - apply (dlist_nonnull _ _ _ _ Hd), start_of_elem.
    - destruct xs as [|x xs]; simpl; [apply (dlist_sentinel _ _ _ Hd)|].
      apply (dlist_entry _ _ [] _ _ Hd). }
  simpl. by apply for_each_safe_from_run.
Qed.
End traversal.

(** The entry macros are the node macros with the structure handed to the body. *)
Section entry_loops.
Context {A : Type} (off : Z) (body : Z → heap → A → res (heap * A)).

Lemma for_each_entry_from_eq fuel head pos h a :
  Klist.for_each_entry_from off body fuel head pos h a =
  Klist.for_each_from fuel ld_next (λ p, body (Klist.list_entry p off)) head (pos + off) h a.
Proof.
  revert pos h a. induction fuel as [|fuel IH]; intros pos h a; [done|]. simpl. unfold Klist.list_entry.
  rewrite Z.add_simpl_r. destruct (decide (pos + off = head)); [done|].
  destruct (body pos h a) as [[h' a']| |]; [|done..]. simpl.
  destruct (ld_next h' (pos + off)) as [n2| |]; [|done..]. simpl. rewrite IH.
  by rewrite Z.sub_add.
Qed.

Lemma list_for_each_entry_eq fuel head h a :
  Klist.list_for_each_entry off body fuel head h a =
  Klist.list_for_each fuel (λ p, body (Klist.list_entry p off)) head h a.
Proof.
  unfold Klist.list_for_each_entry, Klist.list_for_each. destruct (ld_next h head); [|done..]. simpl.
  rewrite for_each_entry_from_eq. unfold Klist.list_entry. by rewrite Z.sub_add.
Qed.

Lemma for_each_entry_safe_from_eq fuel head pos n h a :
  Klist.for_each_entry_safe_from off body fuel head pos n h a =
  Klist.for_each_safe_from fuel (λ p, body (Klist.list_entry p off)) head (pos + off) (n + off) h a.
Proof.
  revert pos n h a. induction fuel as [|fuel IH]; intros pos n h a; [done|]. simpl. unfold Klist.list_entry.
  rewrite Z.add_simpl_r. destruct (decide (pos + off = head)); [done|].
  destruct (body pos h a) as [[h' a']| |]; [|done..]. simpl.
  destruct (ld_next h' (n + off)) as [n2| |]; [|done..]. simpl. rewrite IH.
  by rewrite Z.sub_add.
Qed.

Lemma list_for_each_entry_safe_eq fuel head h a :
  Klist.list_for_each_entry_safe off body fuel head h a =
  Klist.list_for_each_safe fuel (λ p, body (Klist.list_entry p off)) head h a.
Proof.
  unfold Klist.list_for_each_entry_safe, Klist.list_for_each_safe.
  destruct (ld_next h head) as [n2| |]; [|done..]. simpl. unfold Klist.list_entry at 1. rewrite Z.sub_add.
  destruct (ld_next h n2); [|done..]. simpl. rewrite for_each_entry_safe_from_eq. unfold Klist.list_entry.
  by rewrite !Z.sub_add.
Qed.
End entry_loops.

(** ** The interface the lists offer to the components that embed them *)

(** Operations. *)
Class ListOps := {
  lo_init : heap → Z → res heap;
  lo_add : heap → Z → Z → res heap;
  lo_add_tail : heap → Z → Z → res heap;
  lo_del : heap → Z → res heap;
  lo_empty : heap → Z → res bool;
}.

(** Laws: the ring is a sequence, the operations are the sequence operations,
    and nothing outside the ring is touched. *)
Class ListLaws (L : ListOps) : Prop := {
  ll_init h p : valid h p →
    ∃ h', lo_init h p = Ok h' ∧ dlist h' p [] ∧ frame [p] h h';
  ll_add h hd xs new : dlist h hd xs → valid h new → new ∉ hd :: xs →
    ∃ h', lo_add h new hd = Ok h' ∧ dlist h' hd (new :: xs) ∧ frame (new :: hd :: xs) h h';
  ll_add_tail h hd xs new : dlist h hd xs → valid h new → new ∉ hd :: xs →
    ∃ h', lo_add_tail h new hd = Ok h' ∧ dlist h' hd (xs ++ [new]) ∧ frame (new :: hd :: xs) h h';
  ll_del h hd xs e ys : dlist h hd (xs ++ e :: ys) →
    ∃ h', lo_del h e = Ok h' ∧ dlist h' hd (xs ++ ys) ∧ frame (e :: hd :: xs ++ ys) h h';
  ll_empty h hd xs : dlist h hd xs → lo_empty h hd = Ok (bool_decide (xs = []));
}.

#[global] Instance klist_ops : ListOps := {|
  lo_init := Klist.INIT_LIST_HEAD; lo_add := Klist.list_add;
  lo_add_tail := Klist.list_add_tail; lo_del := Klist.list_del;
  lo_empty := Klist.list_empty |}.

Definition utils_ops : ListOps := {|
  lo_init := UtilsList.INIT_LIST_HEAD; lo_add := UtilsList.list_add;
  lo_add_tail := UtilsList.list_add_tail; lo_del := UtilsList.list_del;
  lo_empty := UtilsList.list_empty |}.

#[global] Instance klist_laws : ListLaws klist_ops.
Proof.
  split.
  - apply init_run.
  - apply list_add_run.
  - apply list_add_tail_run.
  - intros h hd xs e ys Hd. destruct (klist_del_run _ _ _ _ _ Hd) as (h' & ?&?&?&_). eauto.
  - apply list_empty_run.
Qed.

#[global] Instance utils_laws : ListLaws utils_ops.
Proof.
  split.
  - apply init_run.
  - apply list_add_run.
  - apply list_add_tail_run.
  - intros h hd xs e ys Hd. destruct (utils_del_run _ _ _ _ _ Hd) as (h' & ?&?&?&_). eauto.
  - apply list_empty_run.
Qed.

(** A ring determines every object on it. *)
Lemma dlist_unique h h' hd xs x :
  dlist h hd xs → dlist h' hd xs → x ∈ hd :: xs → h' !! x = h !! x.
Proof.
  assert (∀ n m : option list_head,
    lh_next <$> n = lh_next <$> m → lh_prev <$> n = lh_prev <$> m → m = n) as Heta.
  { intros [[]|] [[]|]; simpl; naive_solver. }
  intros Hd Hd' [->|Hx]%elem_of_cons.
  - destruct (dlist_sentinel _ _ _ Hd) as [Hn Hp], (dlist_sentinel _ _ _ Hd') as [Hn' Hp'].
    apply Heta; unfold nxt, prv in *; congruence.
  - apply list_elem_of_split in Hx as (l1 & l2 & ->).
    destruct (dlist_entry _ _ _ _ _ Hd) as [Hn Hp], (dlist_entry _ _ _ _ _ Hd') as [Hn' Hp'].
    apply Heta; unfold nxt, prv in *; congruence.
Qed.

(** ** Properties *)

(** A concrete ring: sentinel 8, entries 16 and 24; 32 and 40 are unlinked nodes. *)
Definition demo : heap := list_to_map
  [(8, ListHead 16 24); (16, ListHead 24 8); (24, ListHead 8 16); (32, ListHead 0 0);
   (40, ListHead 48 48); (48, ListHead 40 40)].

Ltac ring_compute :=
  split; [repeat split; reflexivity | apply (bool_decide_unpack _); vm_compute; exact I
         | apply (bool_decide_unpack _); vm_compute; exact I].
Ltac valid_compute := split; [discriminate | eexists; reflexivity].

Lemma demo_ring : dlist demo 8 [16; 24].
Proof. ring_compute. Qed.
Lemma demo_ring2 : dlist demo 40 [48].
Proof. ring_compute. Qed.

(** C11: on a ring that holds [xs], [list_add] makes the new node the first entry
    (a stack push) and [list_add_tail] makes it the last one (a queue put); both
    run without undefined behaviour, keep the ring well formed in both
    directions, and change no object outside the ring and the new node. *)
Theorem list_add_sequence h hd xs new :
  dlist h hd xs → valid h new → new ∉ hd :: xs →
  (∃ h', Klist.list_add h new hd = Ok h' ∧ dlist h' hd (new :: xs) ∧
         frame (new :: hd :: xs) h h') ∧
  (∃ h', Klist.list_add_tail h new hd = Ok h' ∧ dlist h' hd (xs ++ [new]) ∧
         frame (new :: hd :: xs) h h').
Proof. intros. split; [by apply list_add_run|by apply list_add_tail_run]. Qed.

Lemma list_add_sequence_witness :
  ∃ h', Klist.list_add_tail demo 32 8 = Ok h' ∧ dlist h' 8 [16; 24; 32].
Proof.
  destruct (list_add_sequence demo 8 [16; 24] 32 demo_ring) as (_ & h' & ? & ? & _).
  - valid_compute.
  - apply (bool_decide_unpack _). vm_compute. exact I.
  - eauto.
Defined.

(** Adding an entry and deleting it again restores every object of the ring
    bit for bit; klist.h leaves the removed entry with null links, list.h leaves
    its links dangling, and that is the only difference between the two. *)
Lemma list_add_del_roundtrip h hd xs new h1 :
  dlist h hd xs → valid h new → new ∉ hd :: xs → Klist.list_add h new hd = Ok h1 →
  ∃ hk hu, Klist.list_del h1 new = Ok hk ∧ UtilsList.list_del h1 new = Ok hu ∧
    (∀ p, p ≠ new → hk !! p = h !! p ∧ hu !! p = h !! p) ∧
    hk !! new = Some (ListHead NULL NULL) ∧ hu !! new = h1 !! new.
Proof.
  intros Hd Hv Hnew Hadd. destruct (list_add_run _ _ _ _ Hd Hv Hnew) as (h1' & Hr & Hd1 & [Hf1 _]).
  rewrite Hadd in Hr. injection Hr as <-.
  destruct (klist_del_run h1 hd [] new xs Hd1) as (hk & Hk & Hdk & [Hfk _] & Hek).
  destruct (utils_del_run h1 hd [] new xs Hd1) as (hu & Hu & Hdu & [Hfu _] & Heu).
  exists hk, hu. split_and!; [done..| |done|done]. intros p Hp. simpl in *.
  destruct (decide (p ∈ hd :: xs)) as [Hin|Hout].
  - split; by apply (dlist_unique _ _ hd xs).
  - rewrite Hfk, Hfu, Hf1 by set_solver. done.
Qed.

Lemma list_add_del_roundtrip_witness :
  ∃ h1 hk, Klist.list_add demo 32 8 = Ok h1 ∧ Klist.list_del h1 32 = Ok hk ∧ hk !! 8 = demo !! 8.
Proof.
  destruct (list_add_run demo 8 [16; 24] 32 demo_ring) as (h1 & Hr & _).
  - valid_compute.
  - apply (bool_decide_unpack _). vm_compute. exact I.
  - destruct (list_add_del_roundtrip demo 8 [16; 24] 32 h1 demo_ring) as (hk & hu & Hk & _ & Hp & _).
    + valid_compute.
    + apply (bool_decide_unpack _). vm_compute. exact I.
    + exact Hr.
    + exists h1, hk. split_and!; [exact Hr|exact Hk|]. apply Hp. discriminate.
Defined.

(** C35: [list_splice_init] moves a whole ring, in order, to the front of another
    one and leaves the source ring empty and usable, whether or not it was empty
    before; [list_move] moves one entry between rings. *)
Theorem list_splice_move_concat h lst xs hd ys :
  dlist h lst xs → dlist h hd ys → (∀ p, p ∈ lst :: xs → p ∉ hd :: ys) →
  (∃ h', Klist.list_splice_init h lst hd = Ok h' ∧ dlist h' hd (xs ++ ys) ∧ dlist h' lst []) ∧
  (∀ xs1 e xs2, xs = xs1 ++ e :: xs2 →
   ∃ h', Klist.list_move h e hd = Ok h' ∧ dlist h' lst (xs1 ++ xs2) ∧ dlist h' hd (e :: ys)).
Proof.
  intros Hd1 Hd2 Hdis. split; [by apply splice_init_run|].
  intros xs1 e xs2 ->. destruct (move_run _ _ _ _ _ _ _ Hd1 Hd2 Hdis) as (h' & ?&?&?&_). eauto.
Qed.

Lemma list_splice_move_concat_witness :
  ∃ h', Klist.list_splice_init demo 8 40 = Ok h' ∧ dlist h' 40 [16; 24; 48] ∧ dlist h' 8 [].
Proof.
  apply (list_splice_move_concat demo 8 [16; 24] 40 [48] demo_ring demo_ring2).
  intros p Hp. apply (bool_decide_unpack _).
  repeat (apply elem_of_cons in Hp as [->|Hp]; [vm_compute; exact I|]).
  by apply elem_of_nil in Hp.
Defined.

(** The iteration macros terminate and visit the entries exactly once, in
    order, forwards and backwards: with a body that leaves the heap alone,
    [list_for_each] folds it over [xs] and [list_for_each_prev] over the reverse
    of [xs]; one more unit of fuel than there are entries is enough. *)
Lemma list_for_each_folds {A} (f : A → Z → A) h hd xs fuel a :
  dlist h hd xs → (length xs < fuel)%nat →
  Klist.list_for_each fuel (λ x h a, Ok (h, f a x)) hd h a = Ok (h, foldl f a xs) ∧
  Klist.list_for_each_prev fuel (λ x h a, Ok (h, f a x)) hd h a = Ok (h, foldl f a (reverse xs)).
Proof.
  intros Hd Hf. destruct (dlist_sentinel _ _ _ Hd) as [Hn Hp].
  pose proof (dlist_nonnull _ _ _ hd Hd ltac:(set_solver)).
  unfold Klist.list_for_each, Klist.list_for_each_prev.
  rewrite (ld_next_nxt _ _ _ H Hn), (ld_prev_prv _ _ _ H Hp). split; simpl.
  - by apply (for_each_from_run f h hd [] xs).
  - apply (for_each_prev_from_run f h hd xs []); [done| |done]. by rewrite app_nil_r.
Qed.

Lemma list_for_each_folds_witness :
  Klist.list_for_each 3 (λ x h a, Ok (h, a ++ [x])) 8 demo [] = Ok (demo, [16; 24]).
Proof. apply (list_for_each_folds (λ a x, a ++ [x]) demo 8 [16; 24] 3 [] demo_ring). simpl. lia. Defined.

(** C34: [list_for_each_safe] tolerates a body that deletes the current entry:
    with either header's [list_del] as the body the loop visits every entry once
    in order, never reads a removed node, and ends with an empty ring. *)
Theorem list_for_each_safe_del (L : ListOps) `{!ListLaws L} h hd xs fuel :
  dlist h hd xs → (length xs < fuel)%nat →
  ∃ h', Klist.list_for_each_safe fuel (λ x h seen, h ← lo_del h x; mret (h, seen ++ [x])) hd h [] =
          Ok (h', xs) ∧ dlist h' hd [] ∧ frame (hd :: xs) h h'.
Proof.
  intros Hd Hf.
  destruct (for_each_safe_run (λ seen x, seen ++ [x]) h hd xs fuel
    (λ x h seen, h ← lo_del h x; mret (h, seen ++ [x])) []) as (h' & Hr & ? & ?); [|done..|].
  - intros h1 hd1 x ys a Hd1. destruct (ll_del h1 hd1 [] x ys Hd1) as (h2 & Hr & ?&?).
    exists h2. by rewrite Hr.
  - exists h'. split_and!; [|done..]. rewrite Hr. do 2 f_equal.
    assert (∀ acc, foldl (λ (seen : list Z) x, seen ++ [x]) acc xs = acc ++ xs) as E.
    { clear. induction xs as [|x xs IH]; intros acc; simpl; [by rewrite app_nil_r|].
      by rewrite IH, <-app_assoc. }
    apply E.
Qed.

Lemma list_for_each_safe_del_witness :
  ∃ h', Klist.list_for_each_safe 3
          (λ x h seen, h ← UtilsList.list_del h x; mret (h, seen ++ [x])) 8 demo [] =
        Ok (h', [16; 24]) ∧ dlist h' 8 [].
Proof.
  destruct (list_for_each_safe_del utils_ops demo 8 [16; 24] 3 demo_ring) as (h' & ? & ? & _).
  - simpl. lia.
  - exists h'. split; assumption.
Defined.
