(* ===== verification/RealTimeFifo.v ===== *)
(** * RealTimeFifo: the drop-oldest queue of linux/utils/src/real_time_fifo.c

    The queue embeds a [list_head] and works through the interface [ListOps] of
    KList (list.h in the source).  Its state is the record [real_time_fifo_t];
    the release callback belongs to the client and acts on a state [W] of the
    client's.  [int] counters are checked for signed overflow.  The mutex calls
    bracket the accesses listed in [put_locked]/[put_unlocked]; the last part of
    the file looks at what happens between them. *)

From S2P Require Import Prelude KList.

Section fifo.
Context {W : Type} `{L : ListOps}.

(** [head] is the address of the embedded sentinel. *)
Record real_time_fifo_t := RealTimeFifo {
  rf_in : Z;
  rf_out : Z;
  rf_size : Z;
  rf_head : Z;
  rf_release : option (Z → W → W);
  rf_is_initial : Z;
}.

Definition set_in v r := RealTimeFifo v (rf_out r) (rf_size r) (rf_head r) (rf_release r) (rf_is_initial r).
Definition set_out v r := RealTimeFifo (rf_in r) v (rf_size r) (rf_head r) (rf_release r) (rf_is_initial r).

(** The objects a call works on: heap, queue and client state. *)
Record fstate := FState { f_heap : heap; f_rf : real_time_fifo_t; f_w : W }.

(** [(NULL == rfifo->release) ? : rfifo->release(ptr)] *)
Definition call_release (r : real_time_fifo_t) (ptr : Z) (w : W) : W :=
  match rf_release r with
  | None => w
  | Some release => release ptr w
  end.

(** A null [rfifo] is [None].  The sentinel [hd] is a member of the object. *)
Definition real_time_fifo_init (rfifo : option fstate) (size : Z) (func : option (Z → W → W))
    : res (Z * option fstate) :=
  match rfifo with
  | None => mret (-1, None)
  | Some s =>
      let hd := rf_head (f_rf s) in
      h ← lo_init (f_heap s) hd;
      mret (0, Some (FState h (RealTimeFifo 0 0 size hd func 1) (f_w s)))
  end.

(** The part of [real_time_fifo_put] inside the mutex. *)
Definition put_locked (s : fstate) : res fstate :=
  let r := f_rf s in
  d ← signed_op 32 (rf_out r - rf_in r);
  e ← (if decide (d = rf_size r) then e ← lo_empty (f_heap s) (rf_head r); mret (negb e)
       else mret false);
  s ← (if (e : bool) then
         ptr ← ld_next (f_heap s) (rf_head r);
         h ← lo_del (f_heap s) ptr;
         mret (FState h r (call_release r ptr (f_w s)))
       else mret s);
  i ← signed_op 32 (rf_in (f_rf s) + 1);
  mret (FState (f_heap s) (set_in i (f_rf s)) (f_w s)).

(** The part after the mutex was released. *)
Definition put_unlocked (s : fstate) (list : Z) : res fstate :=
  h ← lo_add_tail (f_heap s) list (rf_head (f_rf s));
  o ← signed_op 32 (rf_out (f_rf s) + 1);
  mret (FState h (set_out o (f_rf s)) (f_w s)).

Definition real_time_fifo_put (rfifo : option fstate) (list : Z) : res (Z * option fstate) :=
  match rfifo with
  | None => mret (-1, None)
  | Some s =>
      if decide (list = NULL) then mret (-1, Some s)
      else if decide (rf_is_initial (f_rf s) = 0) then mret (-1, Some s)
      else
        s ← put_locked s;
        s ← put_unlocked s list;
        mret (0, Some s)
  end.

(** [*list] is the second component of the result ([None]: not written). *)
Definition real_time_fifo_get (rfifo : option fstate) (list_is_null : bool)
    : res (Z * option Z * option fstate) :=
  match rfifo with
  | None => mret (-1, None, None)
  | Some s =>
      if list_is_null then mret (-1, None, Some s)
      else if decide (rf_is_initial (f_rf s) = 0) then mret (-1, None, Some s)
      else
        let r := f_rf s in
        e ← lo_empty (f_heap s) (rf_head r);
        if (e : bool) then mret (-1, None, Some s)
        else
          p ← ld_next (f_heap s) (rf_head r);
          h ← lo_del (f_heap s) p;
          i ← signed_op 32 (rf_in r + 1);
          mret (0, Some p, Some (FState h (set_in i r) (f_w s)))
  end.

(** [fuel] bounds the iterations of [list_for_each_safe]. *)
Definition real_time_fifo_destroy (fuel : nat) (rfifo : option fstate) : res (Z * option fstate) :=
  match rfifo with
  | None => mret (-1, None)
  | Some s =>
      let r := f_rf s in
      q ← UtilsList.list_for_each_safe fuel
            (λ pos h w, h ← lo_del h pos; mret (h, call_release r pos w))
            (rf_head r) (f_heap s) (f_w s);
      mret (0, Some (FState q.1 (RealTimeFifo 0 0 (rf_size r) (rf_head r) (rf_release r) 0) q.2))
  end.

(** A client: a sequence of calls, with what each [get] returned. *)
Inductive op := Put (node : Z) | Get.

Fixpoint run (ops : list op) (s : fstate) : res (list (option Z) * fstate) :=
  match ops with
  | [] => mret ([], s)
  | Put n :: ops =>
      r ← real_time_fifo_put (Some s) n;
      match r.2 with
      | Some s => run ops s
      | None => Ub NullDeref
      end
  | Get :: ops =>
      r ← real_time_fifo_get (Some s) false;
      match r.2 with
      | Some s => q ← run ops s; mret (r.1.2 :: q.1, q.2)
      | None => Ub NullDeref
      end
  end.
End fifo.
Arguments real_time_fifo_t W : clear implicits.
Arguments fstate W : clear implicits.

(** ** The abstract queue *)
Module Spec.

(** A first-in first-out queue without a capacity. *)
Fixpoint run (q : list Z) (ops : list op) : list (option Z) * list Z :=
  match ops with
  | [] => ([], q)
  | Put n :: ops => run (q ++ [n]) ops
  | Get :: ops =>
      match q with
      | [] => let r := run [] ops in (None :: r.1, r.2)
      | x :: q => let r := run q ops in (Some x :: r.1, r.2)
      end
  end.

(** The client hands in allocated nodes that are not already queued. *)
Fixpoint well_used (h : heap) (hd : Z) (q : list Z) (ops : list op) : Prop :=
  match ops with
  | [] => True
  | Put n :: ops => valid h n ∧ (n ∉ hd :: q) ∧ well_used h hd (q ++ [n]) ops
  | Get :: ops => well_used h hd (tail q) ops
  end.
End Spec.

Section proofs.
Context {W : Type} `{!ListLaws L}.
Implicit Types s : fstate W.

(** Invariant of an initialised queue that holds [q]. *)
Record fifo_ok s (q : list Z) : Prop := {
  fo_ring : dlist (f_heap s) (rf_head (f_rf s)) q;
  fo_init : rf_is_initial (f_rf s) = 1;
  fo_bal : 0 ≤ rf_out (f_rf s) ≤ rf_in (f_rf s);
}.

(** What an operation leaves alone: the allocation and the configuration. *)
Record same_conf s s' : Prop := {
  sc_objs : same_objs (f_heap s) (f_heap s');
  sc_head : rf_head (f_rf s') = rf_head (f_rf s);
  sc_size : rf_size (f_rf s') = rf_size (f_rf s);
  sc_rel : rf_release (f_rf s') = rf_release (f_rf s);
}.

Lemma well_used_objs h h' hd q ops :
  same_objs h h' → Spec.well_used h hd q ops → Spec.well_used h' hd q ops.
Proof.
  intros Ho. revert q. induction ops as [|[n|] ops IH]; intros q; simpl; [done| |apply IH].
  intros (?&?&?). split_and!; [by eapply same_objs_valid|done|by apply IH].
Qed.

Lemma put_run s q n :
  fifo_ok s q → 0 < rf_size (f_rf s) → rf_in (f_rf s) < 2 ^ 31 - 1 →
  valid (f_heap s) n → n ∉ rf_head (f_rf s) :: q →
  ∃ s', real_time_fifo_put (Some s) n = Ok (0, Some s') ∧ fifo_ok s' (q ++ [n]) ∧
        same_conf s s' ∧ f_w s' = f_w s ∧ rf_in (f_rf s') = rf_in (f_rf s) + 1.
Proof.
  intros [Hd Hi Hb] Hsz Hin Hv Hn. destruct s as [h r w]; simpl in *.
  unfold real_time_fifo_put. rewrite decide_False by (by destruct Hv). simpl. rewrite Hi. simpl.
  unfold put_locked. simpl. rewrite signed_op_ok by (unfold in_s; lia). simpl.
  rewrite decide_False by lia. simpl. rewrite signed_op_ok by (unfold in_s; lia). simpl.
  unfold put_unlocked. simpl. destruct (ll_add_tail h (rf_head r) q n Hd Hv Hn) as (h' & Hr & Hd' & _ & Ho).
  rewrite Hr. simpl. rewrite signed_op_ok by (unfold in_s; lia). simpl.
  eexists. split; [done|]. split_and!; [|done|done|done]. split; simpl; [done|done|lia].
Qed.

Lemma get_run s q :
  fifo_ok s q → rf_in (f_rf s) < 2 ^ 31 - 1 →
  ∃ s', real_time_fifo_get (Some s) false =
          Ok (if decide (q = []) then (-1, None, Some s') else (0, hd_error q, Some s')) ∧
        fifo_ok s' (tail q) ∧ same_conf s s' ∧ f_w s' = f_w s ∧
        rf_in (f_rf s') ≤ rf_in (f_rf s) + 1.
Proof.
  intros [Hd Hi Hb] Hin. destruct s as [h r w]; simpl in *.
  unfold real_time_fifo_get. simpl. rewrite Hi. simpl. rewrite (ll_empty _ _ _ Hd). simpl.
  case_bool_decide as Hq; simpl.
  - subst q. exists (FState h r w). split; [done|].
    split_and!; [split; done|done|done|simpl; lia].
  - destruct q as [|x q]; [done|].
    rewrite (ld_next_head _ _ _ Hd). simpl.
    destruct (ll_del h (rf_head r) [] x q Hd) as (h' & Hr & Hd' & _ & Ho). rewrite Hr. simpl.
    rewrite signed_op_ok by (unfold in_s; lia). simpl.
    eexists. split; [done|]. split_and!; [split; simpl; [done|done|lia]|done|done|simpl; lia].
Qed.

Lemma run_refines ops s q :
  fifo_ok s q → 0 < rf_size (f_rf s) →
  rf_in (f_rf s) + Z.of_nat (length ops) < 2 ^ 31 →
  Spec.well_used (f_heap s) (rf_head (f_rf s)) q ops →
  ∃ s', run ops s = Ok ((Spec.run q ops).1, s') ∧ fifo_ok s' (Spec.run q ops).2 ∧
        same_conf s s' ∧ f_w s' = f_w s.
Proof.
  revert s q. induction ops as [|[n|] ops IH]; intros s q Hok Hsz Hin Hwu; cbn [run Spec.run] in *.
  - by exists s.
  - destruct Hwu as (Hv & Hn & Hwu).
    destruct (put_run s q n) as (s1 & Hr & Hok1 & [Ho Hh Hs Hrl] & Hw & Hi); [done|done|simpl in *; lia|done|done|].
    rewrite Hr. cbn.
    destruct (IH s1 (q ++ [n])) as (s2 & Hr2 & Hok2 & [Ho2 Hh2 Hs2 Hrl2] & Hw2);
      [done|by rewrite Hs|rewrite Hi; simpl in *; lia|rewrite Hh; by eapply well_used_objs|].
    rewrite Hr2. exists s2. split_and!; [done..| |congruence].
    split; [by eapply same_objs_trans|congruence..].
  - destruct (get_run s q) as (s1 & Hr & Hok1 & [Ho Hh Hs Hrl] & Hw & Hi); [done|simpl in *; lia|].
    rewrite Hr.
    destruct (IH s1 (tail q)) as (s2 & Hr2 & Hok2 & [Ho2 Hh2 Hs2 Hrl2] & Hw2);
      [done|by rewrite Hs|simpl in *; lia|rewrite Hh; by eapply well_used_objs|].
    exists s2. destruct q as [|x q]; [rewrite decide_True by done|rewrite decide_False by done]; cbn in *;
      rewrite Hr2; cbn; (split_and!; [done..| |congruence]);
      (split; [by eapply same_objs_trans|congruence..]).
Qed.

(** [in] is an [int] that every [put] and every successful [get] advances. *)
Lemma counter_overflow s q n :
  fifo_ok s q → 0 < rf_size (f_rf s) → rf_in (f_rf s) = 2 ^ 31 - 1 → n ≠ NULL →
  real_time_fifo_put (Some s) n = Ub SignedOverflow ∧
  (q ≠ [] → real_time_fifo_get (Some s) false = Ub SignedOverflow).
Proof.
  intros [Hd Hi Hb] Hsz Hin Hn. destruct s as [h r w]; simpl in *.
  assert (Hov : signed_op 32 (rf_in r + 1) = Ub SignedOverflow).
  { unfold signed_op. rewrite decide_False; [done|]. unfold in_s. lia. }
  split.
  - unfold real_time_fifo_put. rewrite decide_False by done. simpl. rewrite Hi. simpl.
    unfold put_locked. simpl. ints. rewrite decide_False by lia. simpl. by rewrite Hov.
  - intros Hq. destruct q as [|x q]; [done|].
    unfold real_time_fifo_get. simpl. rewrite Hi. simpl. rewrite (ll_empty _ _ _ Hd). simpl.
    rewrite (ld_next_head _ _ _ Hd). simpl.
    destruct (ll_del h (rf_head r) [] x q Hd) as (h' & Hr & _). rewrite Hr. simpl. by rewrite Hov.
Qed.
End proofs.

(** ** The unlocked part of [put] under interleaving

    [real_time_fifo_put] releases the mutex before it calls [list_add_tail].  A
    thread inside that call is modelled store by store. *)
Module Race.

Record thread := Thread { t_pc : nat; t_new : Z; t_prev : Z }.

(** One memory access of [list_add_tail(new, head)]. *)
Definition step (head : Z) (t : thread) (h : heap) : res (thread * heap) :=
  let next_pc := S (t_pc t) in
  match t_pc t with
  | 0%nat => p ← ld_prev h head; mret (Thread next_pc (t_new t) p, h)
  | 1%nat => h ← st_prev h head (t_new t); mret (Thread next_pc (t_new t) (t_prev t), h)
  | 2%nat => h ← st_next h (t_new t) head; mret (Thread next_pc (t_new t) (t_prev t), h)
  | 3%nat => h ← st_prev h (t_new t) (t_prev t); mret (Thread next_pc (t_new t) (t_prev t), h)
  | 4%nat => h ← st_next h (t_prev t) (t_new t); mret (Thread next_pc (t_new t) (t_prev t), h)
  | _ => mret (t, h)
  end.

(** A schedule says which of the two threads moves next. *)
Fixpoint schedule (head : Z) (sched : list bool) (t1 t2 : thread) (h : heap)
    : res (thread * thread * heap) :=
  match sched with
  | [] => mret (t1, t2, h)
  | true :: sched => r ← step head t1 h; schedule head sched r.1 t2 r.2
  | false :: sched => r ← step head t2 h; schedule head sched t1 r.1 r.2
  end.

(** Running one thread alone is [list_add_tail]. *)
Lemma alone head new p0 t2 h :
  (r ← schedule head [true; true; true; true; true] (Thread 0 new p0) t2 h; mret r.2) =
  UtilsList.list_add_tail h new head.
Proof.
  unfold UtilsList.list_add_tail, UtilsList.__list_add. simpl. unfold step. simpl.
  destruct (ld_prev h head) as [p| |]; [|done..]. simpl.
  destruct (st_prev h head new) as [h1| |]; [|done..]. simpl.
  destruct (st_next h1 new head) as [h2| |]; [|done..]. simpl.
  destruct (st_prev h2 new p) as [h3| |]; [|done..]. simpl.
  by destruct (st_next h3 p new).
Qed.
End Race.

(** ** Properties *)

Definition demo_fifo (size : Z) : fstate (list Z) :=
  FState demo (RealTimeFifo 0 0 size 8 (Some (λ p w, w ++ [p])) 1) [].

Lemma demo_fifo_ok size : fifo_ok (demo_fifo size) [16; 24].
Proof. split; simpl; [apply demo_ring|done|lia]. Qed.

(** C3: refinement.  For every positive configured size, with the calls made one
    at a time: any sequence of [put]s of fresh allocated nodes and [get]s on a
    well-formed queue, short enough for the [int] counter [in] (which counts the
    puts and the successful gets and never goes down), behaves exactly like an
    unbounded first-in first-out queue: it has no undefined behaviour, [get]
    returns the oldest entry or fails on an empty queue, the ring holds exactly
    the abstract contents, and the release callback is never called.  Once the
    counter is at [INT_MAX], the next [put] is undefined, and so is the next [get]
    of a queue that is not empty. *)
Theorem fifo_refines_queue {W} (ops : list op) (s : fstate W) q :
  let _ := utils_ops in
  fifo_ok s q → 0 < rf_size (f_rf s) →
  (rf_in (f_rf s) + Z.of_nat (length ops) < 2 ^ 31 →
   Spec.well_used (f_heap s) (rf_head (f_rf s)) q ops →
   ∃ s', run ops s = Ok ((Spec.run q ops).1, s') ∧ fifo_ok s' (Spec.run q ops).2 ∧ f_w s' = f_w s) ∧
  (rf_in (f_rf s) = 2 ^ 31 - 1 →
   (∀ n, n ≠ NULL → real_time_fifo_put (Some s) n = Ub SignedOverflow) ∧
   (q ≠ [] → real_time_fifo_get (Some s) false = Ub SignedOverflow)).
Proof.
  intros L Hok Hs. split.
  - intros Hi Hwu. destruct (run_refines ops s q) as (s' & ?&?&_&?); [done..|]. eauto.
  - intros Hi. split; [intros n Hn; by apply (counter_overflow s q n)|].
    by apply (counter_overflow s q 1).
Qed.

Lemma fifo_refines_queue_witness :
  let _ := utils_ops in
  (∃ s', run [Put 32; Get; Get; Get; Get] (demo_fifo 1) =
           Ok ([Some 16; Some 24; Some 32; None], s') ∧ fifo_ok s' []) ∧
  real_time_fifo_get
    (Some (FState demo (RealTimeFifo (2 ^ 31 - 1) 0 1 8 (None : option (Z → unit → unit)) 1) tt)) false =
    Ub SignedOverflow.
Proof.
  split.
  - destruct (fifo_refines_queue [Put 32; Get; Get; Get; Get] (demo_fifo 1) [16; 24]
      (demo_fifo_ok 1) eq_refl) as [(s' & ? & ? & _) _].
    + reflexivity.
    + simpl. split_and!; [valid_compute|apply (bool_decide_unpack _); vm_compute; exact I|exact I].
    + exists s'. split; assumption.
  - apply (fifo_refines_queue []
      (FState demo (RealTimeFifo (2 ^ 31 - 1) 0 1 8 (None : option (Z → unit → unit)) 1) tt) [16; 24]).
    + split; simpl; [apply demo_ring|reflexivity|lia].
    + reflexivity.
    + reflexivity.
    + discriminate.
Defined.

(** The capacity is not enforced.  Because [put] advances both [in] and
    [out], their difference never reaches a positive [size]: any number of
    entries can be put, all of them stay queued and none is released, however
    small [size] is. *)
Lemma fifo_put_never_drops {W} (nodes : list Z) (s : fstate W) q :
  let _ := utils_ops in
  fifo_ok s q → 0 < rf_size (f_rf s) →
  rf_in (f_rf s) + Z.of_nat (length nodes) < 2 ^ 31 →
  Spec.well_used (f_heap s) (rf_head (f_rf s)) q (Put <$> nodes) →
  ∃ s', run (Put <$> nodes) s = Ok ([], s') ∧ fifo_ok s' (q ++ nodes) ∧ f_w s' = f_w s.
Proof.
  intros ? Hok Hs Hi Hwu.
  assert (∀ q, Spec.run q (Put <$> nodes) = ([], q ++ nodes)) as E.
  { clear. induction nodes as [|n nodes IH]; intros q; simpl; [by rewrite app_nil_r|].
    by rewrite IH, <-app_assoc. }
  destruct (run_refines (Put <$> nodes) s q) as (s' & Hr&Hk&_&?); [done..|by rewrite length_fmap|done|].
  rewrite E in *. eauto.
Qed.

Lemma fifo_put_never_drops_witness :
  let _ := utils_ops in
  ∃ s', run (Put <$> [32]) (demo_fifo 1) = Ok ([], s') ∧ fifo_ok s' [16; 24; 32] ∧ f_w s' = [].
Proof.
  apply (fifo_put_never_drops [32] (demo_fifo 1) [16; 24] (demo_fifo_ok 1)).
  - reflexivity.
  - reflexivity.
  - simpl. split_and!; [valid_compute|apply (bool_decide_unpack _); vm_compute; exact I|exact I].
Defined.

(** With size 0 and no [get] so far, the queue is a one-place mailbox: a
    [put] on a queue whose counters agree unlinks the oldest entry, hands exactly
    that entry to the release callback (when there is one), and appends the new
    node; starting from one entry only the newest remains. *)
Lemma fifo_zero_size_drops_oldest {W} (s : fstate W) x q n :
  let _ := utils_ops in
  fifo_ok s (x :: q) → rf_size (f_rf s) = 0 → rf_out (f_rf s) = rf_in (f_rf s) →
  rf_in (f_rf s) < 2 ^ 31 - 1 → valid (f_heap s) n → n ∉ rf_head (f_rf s) :: x :: q →
  ∃ s', real_time_fifo_put (Some s) n = Ok (0, Some s') ∧ fifo_ok s' (q ++ [n]) ∧
        f_w s' = call_release (f_rf s) x (f_w s) ∧ rf_out (f_rf s') = rf_in (f_rf s').
Proof.
  intros L [Hd Hi Hb] Hsz He Hin Hv Hn. destruct s as [h r w]; simpl in *.
  unfold real_time_fifo_put. rewrite decide_False by (by destruct Hv). simpl. rewrite Hi. simpl.
  unfold put_locked. simpl. rewrite signed_op_ok by (unfold in_s; lia). simpl.
  rewrite decide_True by lia.
  pose proof (ll_empty _ _ _ Hd) as Hem. simpl in Hem. rewrite Hem. simpl.
  rewrite (ld_next_head _ _ _ Hd). simpl.
  destruct (ll_del (L := utils_ops) h (rf_head r) [] x q Hd) as (h' & Hr & Hd' & Hf). simpl in Hr.
  rewrite Hr. simpl. rewrite signed_op_ok by (unfold in_s; lia). simpl.
  unfold put_unlocked. simpl.
  destruct (ll_add_tail (L := utils_ops) h' (rf_head r) q n Hd') as (h2 & Hr2 & Hd2 & _);
    [by eapply frame_valid|set_solver|]. simpl in Hr2.
  rewrite Hr2. simpl. rewrite signed_op_ok by (unfold in_s; lia). simpl.
  eexists. split; [done|]. split_and!; [split; simpl; [done|done|lia]|done|simpl; lia].
Qed.

Lemma fifo_zero_size_drops_oldest_witness :
  let _ := utils_ops in
  ∃ s', real_time_fifo_put (Some (demo_fifo 0)) 32 = Ok (0, Some s') ∧
        fifo_ok s' [24; 32] ∧ f_w s' = [16].
Proof.
  destruct (fifo_zero_size_drops_oldest (demo_fifo 0) 16 [24] 32 (demo_fifo_ok 0))
    as (s' & ? & ? & ? & _).
  - reflexivity.
  - reflexivity.
  - reflexivity.
  - valid_compute.
  - apply (bool_decide_unpack _). vm_compute. exact I.
  - exists s'. split_and!; assumption.
Defined.

(** [real_time_fifo_destroy] terminates, unlinks every entry and passes all
    of them to the release callback in queue order, and marks the object
    uninitialised, so that later [put]s and [get]s fail with -1 and change
    nothing. *)
Lemma fifo_destroy_releases_all {W} (s : fstate W) q fuel :
  let _ := utils_ops in
  fifo_ok s q → (length q < fuel)%nat →
  ∃ s', real_time_fifo_destroy fuel (Some s) = Ok (0, Some s') ∧
        dlist (f_heap s') (rf_head (f_rf s)) [] ∧
        f_w s' = foldl (λ w x, call_release (f_rf s) x w) (f_w s) q ∧
        (∀ n, real_time_fifo_put (Some s') n = Ok (-1, Some s')) ∧
        real_time_fifo_get (Some s') false = Ok (-1, None, Some s').
Proof.
  intros ? [Hd _ _] Hf. destruct s as [h r w]; simpl in *.
  destruct (for_each_safe_run (λ w x, call_release r x w) h (rf_head r) q fuel
    (λ pos h w, h ← UtilsList.list_del h pos; mret (h, call_release r pos w)) w)
    as (h' & Hr & Hd' & _); [|done..|].
  { intros h1 hd1 x ys a Hd1. destruct (utils_del_run h1 hd1 [] x ys Hd1) as (h2 & Hr & ?&?&_).
    exists h2. by rewrite Hr. }
  unfold real_time_fifo_destroy, UtilsList.list_for_each_safe. simpl.
  unfold Klist.list_for_each_safe in Hr. rewrite Hr. simpl.
  eexists. split; [done|]. simpl. split_and!; [done..| |done].
  intros n. by case_decide.
Qed.

Lemma fifo_destroy_releases_all_witness :
  let _ := utils_ops in
  ∃ s', real_time_fifo_destroy 3 (Some (demo_fifo 4)) = Ok (0, Some s') ∧ f_w s' = [16; 24].
Proof.
  destruct (fifo_destroy_releases_all (demo_fifo 4) [16; 24] 3 (demo_fifo_ok 4))
    as (s' & ? & _ & ? & _).
  - simpl. lia.
  - exists s'. split; assumption.
Defined.

(** [list_add_tail] runs outside the mutex, and two concurrent [put]s can
    lose an entry: from an empty ring there is an interleaving of the two
    threads' stores after which both calls have finished, every store was
    defined, and the ring holds only the second node. *)
Lemma fifo_put_race_loses_entry h hd n1 n2 :
  dlist h hd [] → valid h n1 → valid h n2 → NoDup [hd; n1; n2] →
  ∃ sched t1 t2 h', Race.schedule hd sched (Race.Thread 0 n1 0) (Race.Thread 0 n2 0) h =
      Ok (t1, t2, h') ∧
    Race.t_pc t1 = 5%nat ∧ Race.t_pc t2 = 5%nat ∧ dlist h' hd [n2].
Proof.
  intros Hd Hv1 Hv2 Hnd. pose proof (dlist_valid _ _ _ hd Hd ltac:(set_solver)) as Hv.
  assert (hd ≠ n1 ∧ hd ≠ n2 ∧ n1 ≠ n2) as (?&?&?).
  { rewrite !NoDup_cons in Hnd. set_solver. }
  destruct (dlist_sentinel _ _ _ Hd) as [_ Hp]. simpl in Hp.
  exists [true; false; true; true; true; true; false; false; false; false].
  do 3 eexists. split.
  { pose proof (ld_prev_prv _ _ _ (proj1 Hv) Hp) as Hld.
    cbn. rewrite Hld. cbn. rewrite Hld. cbn.
    repeat first
      [ rewrite st_next_valid by (autorewrite with klist; auto)
      | rewrite st_prev_valid by (autorewrite with klist; auto)
      | progress cbn ].
    done. } split_and!; [done..|].
  split; [|apply NoDup_cons_2; [set_solver|apply NoDup_singleton]|destruct Hv, Hv2; set_solver].
  simpl. links.
Qed.

Lemma fifo_put_race_loses_entry_witness :
  ∃ sched t1 t2 h', Race.schedule 8 sched (Race.Thread 0 16 0) (Race.Thread 0 24 0)
      (<[8 := ListHead 8 8]> demo) = Ok (t1, t2, h') ∧ dlist h' 8 [24].
Proof.
  destruct (fifo_put_race_loses_entry (<[8 := ListHead 8 8]> demo) 8 16 24)
    as (sched & t1 & t2 & h' & ? & _ & _ & ?).
  - ring_compute.
  - valid_compute.
  - valid_compute.
  - apply (bool_decide_unpack _). vm_compute. exact I.
  - exists sched, t1, t2, h'. split; assumption.
Defined.
