(* ===== verification/Crc32.v ===== *)
(** * Crc32: the checksums of linux/utils/src/crc32.c

    The 256-entry table is an array of 32-bit words, bytes are values below 256
    and every buffer access is checked.  [crc_bits] is the reference: the
    bit-serial division, eight shift steps per byte.  The theorems show that the
    four table-driven routines compute it, that it can be fed in pieces, and
    which transmission errors it always detects. *)

From S2P Require Import Prelude.

Definition POLY : Z := 0xedb88320.

(** Body of the inner loop of the table constructions:
    [if (c & 1) c = 0xedb88320U ^ (c >> 1); else c = c >> 1;] *)
Definition crc_step (c : Z) : Z :=
  if decide (Z.land c 1 ≠ 0) then Z.lxor POLY (Z.shiftr c 1) else Z.shiftr c 1.

(** [for (j = 0; j < 8; j++)] *)
Definition table_entry (i : Z) : Z := Nat.iter 8 crc_step i.

(** Fills the static [crc_table]. *)
Definition init_crc_table (crc_table : list Z) : res (list Z) :=
  for_up 256 0 (λ i t, arr_set t i (table_entry i)) crc_table.

(** The static table before any initialisation. *)
Definition crc_table0 : list Z := replicate 256 0.

Definition crc32 (crc_table : list Z) (crc : Z) (buffer : list Z) (size : Z) : res Z :=
  for_up (Z.to_nat size) 0
    (λ i crc,
       b ← arr_get buffer i;
       e ← arr_get crc_table (Z.land (Z.lxor crc b) 0xff);
       mret (Z.lxor e (Z.shiftr crc 8))) crc.

Definition calc_crc (crc_table : list Z) (buf : list Z) (size : Z) : res Z :=
  crc32 crc_table 0xffffffff buf size.

(** [~x] on an [unsigned int]. *)
Definition not32 (x : Z) : Z := Z.lxor x 0xffffffff.

(** The local table of [lut_crc32]: the same loop with the two assignments
    [rem >>= 1; rem ^= 0xedb88320;] in sequence. *)
Definition lut_step (rem : Z) : Z :=
  if decide (Z.land rem 1 ≠ 0) then Z.lxor (Z.shiftr rem 1) POLY else Z.shiftr rem 1.
Definition lut_table : res (list Z) :=
  for_up 256 0 (λ i t, arr_set t i (Nat.iter 8 lut_step i)) crc_table0.

Definition lut_crc32 (crc : Z) (buf : list Z) (len : Z) : res Z :=
  table ← lut_table;
  c ← for_up (Z.to_nat len) 0
        (λ i crc,
           octet ← arr_get buf i;
           e ← arr_get table (Z.lxor (Z.land crc 0xff) octet);
           mret (Z.lxor (Z.shiftr crc 8) e)) (not32 crc);
  mret (not32 c).

(** [alloc] says whether [calloc] succeeds; [None] is the null result. *)
Definition crc32_alloc_init_table (alloc : bool) : res (option (list Z)) :=
  if alloc then
    t ← for_up 256 0 (λ i t, arr_set t i (table_entry i)) (replicate 256 0);
    mret (Some t)
  else mret None.

Definition crc32_get (table : list Z) (buf : list Z) (size : Z) : res Z :=
  c ← for_up (Z.to_nat size) 0
        (λ i crc,
           b ← arr_get buf i;
           e ← arr_get table (Z.land (Z.lxor crc b) 0xff);
           mret (Z.lxor e (Z.shiftr crc 8))) 0xffffffff;
  mret (not32 c).

(** [free] of the table at [table]; null is accepted, a table that is not live is not. *)
Definition crc32_destroy (tables : gmap Z (list Z)) (table : Z) : res (gmap Z (list Z) * Z) :=
  if decide (table ≠ 0) then
    _ ← or_ub BadPtr (tables !! table);
    mret (delete table tables, 0)
  else mret (tables, 0).

(** ** Reference *)

(** Feed one byte, then a message. *)
Definition crc_byte (c b : Z) : Z := Nat.iter 8 crc_step (Z.lxor c b).
Definition crc_bits (c : Z) (bs : list Z) : Z := foldl crc_byte c bs.

Abbreviation bytes := (Forall (λ b, 0 ≤ b < 256)).

(** The finished table. *)
Definition the_table : list Z := table_entry <$> seqZ 0 256.

(** ** The shift step is linear and injective *)

Lemma crc_step_alt c : crc_step c = Z.lxor (Z.shiftr c 1) (if Z.testbit c 0 then POLY else 0).
Proof.
  unfold crc_step. assert (Z.land c 1 = c mod 2) as -> by exact (Z.land_ones c 1 ltac:(lia)).
  rewrite Z.bit0_eqb.
  case_decide as H; destruct (Z.eqb_spec (c mod 2) 1).
  - apply Z.lxor_comm.
  - pose proof (Z.mod_pos_bound c 2). lia.
  - lia.
  - by rewrite Z.lxor_0_r.
Qed.

Lemma crc_step_lxor a b : crc_step (Z.lxor a b) = Z.lxor (crc_step a) (crc_step b).
Proof.
  rewrite !crc_step_alt, Z.shiftr_lxor, Z.lxor_spec.
  destruct (Z.testbit a 0), (Z.testbit b 0); bitwise i; simpl;
    rewrite ?Z.bits_0; repeat destruct (Z.testbit _ _); done.
Qed.

Lemma crc_steps_lxor n a b :
  Nat.iter n crc_step (Z.lxor a b) = Z.lxor (Nat.iter n crc_step a) (Nat.iter n crc_step b).
Proof. induction n; simpl; [done|]. by rewrite IHn, crc_step_lxor. Qed.

Lemma crc_step_even x : crc_step (Z.shiftl x 1) = x.
Proof.
  rewrite crc_step_alt, Z.shiftl_spec_low by lia. rewrite Z.lxor_0_r.
  rewrite Z.shiftr_shiftl_l by lia. apply Z.shiftl_0_r.
Qed.

Lemma crc_steps_shiftl n x : Nat.iter n crc_step (Z.shiftl x (Z.of_nat n)) = x.
Proof.
  revert x. induction n as [|n IH]; intros x; [apply Z.shiftl_0_r|].
  rewrite Nat.iter_succ_r.
  replace (Z.shiftl x (Z.of_nat (S n))) with (Z.shiftl (Z.shiftl x (Z.of_nat n)) 1).
  - rewrite crc_step_even. apply IH.
  - rewrite Z.shiftl_shiftl by lia. f_equal. lia.
Qed.

Lemma crc_steps_shiftl8 x : Nat.iter 8 crc_step (Z.shiftl x 8) = x.
Proof. exact (crc_steps_shiftl 8 x). Qed.

Lemma in_u_bits w x : 0 ≤ w → (in_u w x ↔ 0 ≤ x ∧ ∀ i, w ≤ i → Z.testbit x i = false).
Proof.
  intros Hw. unfold in_u. split.
  - intros [??]. split; [done|]. intros i Hi. destruct (decide (x = 0)) as [->|]; [apply Z.bits_0|].
    apply Z.bits_above_log2; [done|]. assert (Z.log2 x < w) by (apply Z.log2_lt_pow2; lia). lia.
  - intros [? Hb]. split; [done|]. destruct (decide (x = 0)) as [->|]; [by apply Z.pow_pos_nonneg|].
    apply Z.log2_lt_pow2; [lia|]. destruct (decide (Z.log2 x < w)); [done|].
    specialize (Hb (Z.log2 x) ltac:(lia)). rewrite Z.bit_log2 in Hb by lia. done.
Qed.

Lemma lxor_in_u w a b : 0 ≤ w → in_u w a → in_u w b → in_u w (Z.lxor a b).
Proof.
  intros Hw. rewrite !in_u_bits by done. intros [? Ha] [? Hb]. split.
  - by apply Z.lxor_nonneg.
  - intros i Hi. by rewrite Z.lxor_spec, Ha, Hb.
Qed.

Lemma shiftr_in_u w a k : 0 ≤ w → 0 ≤ k → in_u w a → in_u w (Z.shiftr a k).
Proof.
  intros Hw Hk. rewrite !in_u_bits by done. intros [? Ha]. split.
  - by apply Z.shiftr_nonneg.
  - intros i Hi. rewrite Z.shiftr_spec by lia. apply Ha. lia.
Qed.

Lemma crc_step_in c : in_u 32 c → in_u 32 (crc_step c).
Proof.
  intros Hc. rewrite crc_step_alt. apply lxor_in_u; [lia|by apply shiftr_in_u|].
  destruct (Z.testbit c 0); unfold in_u, POLY; lia.
Qed.

Lemma crc_steps_in n c : in_u 32 c → in_u 32 (Nat.iter n crc_step c).
Proof. intros. induction n; simpl; [done|by apply crc_step_in]. Qed.

(** The top bit of the polynomial is set, so a step loses no information. *)
Lemma crc_step_zero c : in_u 32 c → crc_step c = 0 → c = 0.
Proof.
  intros Hc H. rewrite crc_step_alt in H. apply Z.lxor_eq in H.
  assert (Z.testbit (Z.shiftr c 1) 31 = false) as H31.
  { rewrite Z.shiftr_spec by lia. by apply (in_u_bits 32 c ltac:(lia)). }
  destruct (Z.testbit c 0) eqn:H0.
  - by rewrite H in H31.
  - apply Z.bits_inj'. intros i Hi. rewrite Z.bits_0.
    destruct (decide (i = 0)) as [->|]; [done|].
    replace i with ((i - 1) + 1) by lia. rewrite <-Z.shiftr_spec by lia. by rewrite H, Z.bits_0.
Qed.

Lemma crc_steps_inj n a b :
  in_u 32 a → in_u 32 b → Nat.iter n crc_step a = Nat.iter n crc_step b → a = b.
Proof.
  intros Ha Hb He. apply Z.lxor_eq.
  assert (Nat.iter n crc_step (Z.lxor a b) = 0) as Hz
    by (by rewrite crc_steps_lxor, He, Z.lxor_nilpotent).
  assert (in_u 32 (Z.lxor a b)) as Hi by (by apply lxor_in_u). revert Hz.
  induction n as [|n IH]; [done|]. simpl. intros Hz. apply IH.
  - revert He. simpl. intros He.
    apply Z.lxor_eq. rewrite <-crc_steps_lxor. apply crc_step_zero; [by apply crc_steps_in|done].
  - apply crc_step_zero; [by apply crc_steps_in|done].
Qed.

(** From here on the step is used only through the lemmas above. *)
#[local] Opaque crc_step.

(** ** Table construction and lookup *)

Lemma init_crc_table_run t : length t = 256%nat → init_crc_table t = Ok the_table.
Proof. intros Ht. unfold init_crc_table. by rewrite (fill_array table_entry 256). Qed.

Lemma lut_table_run : lut_table = Ok the_table.
Proof.
  unfold lut_table. rewrite (fill_array (λ i, Nat.iter 8 lut_step i) 256) by done.
  vm_compute. reflexivity.
Qed.

Lemma table_get i : 0 ≤ i < 256 → arr_get the_table i = Ok (table_entry i).
Proof.
  intros Hi. apply arr_get_lookup. split; [lia|]. unfold the_table.
  rewrite list_lookup_fmap, lookup_seqZ_lt by lia. simpl. do 2 f_equal. lia.
Qed.

Lemma land_ff x : Z.land x 0xff = x mod 256.
Proof. exact (Z.land_ones x 8 ltac:(lia)). Qed.

Lemma land_lxor a b m : Z.land (Z.lxor a b) m = Z.lxor (Z.land a m) (Z.land b m).
Proof. bitwise i. by destruct (Z.testbit a i), (Z.testbit b i), (Z.testbit m i). Qed.

Lemma low_byte x : 0 ≤ Z.land x 0xff < 256.
Proof. rewrite land_ff. by apply Z.mod_pos_bound. Qed.

Lemma split_byte x : x = Z.lxor (Z.land x 0xff) (Z.shiftl (Z.shiftr x 8) 8).
Proof.
  bitwise i. rewrite Z.shiftl_spec by lia. change 0xff with (Z.ones 8).
  destruct (decide (i < 8)).
  - rewrite Z.ones_spec_low, (Z.testbit_neg_r _ (i - 8)) by lia. by rewrite andb_true_r, xorb_false_r.
  - rewrite Z.ones_spec_high, Z.shiftr_spec by lia. rewrite andb_false_r, xorb_false_l.
    f_equal. lia.
Qed.

Lemma byte_shiftr b : 0 ≤ b < 256 → Z.shiftr b 8 = 0.
Proof. intros. rewrite Z.shiftr_div_pow2 by lia. apply Z.div_small. simpl. lia. Qed.

(** One table lookup is eight bit steps. *)
Lemma crc_byte_table c b :
  0 ≤ b < 256 →
  crc_byte c b = Z.lxor (table_entry (Z.land (Z.lxor c b) 0xff)) (Z.shiftr c 8).
Proof.
  intros Hb. unfold crc_byte, table_entry. rewrite (split_byte (Z.lxor c b)) at 1.
  rewrite (crc_steps_lxor 8), crc_steps_shiftl8.
  rewrite Z.shiftr_lxor, (byte_shiftr b), Z.lxor_0_r by done. done.
Qed.

Lemma crc_byte_in c b : in_u 32 c → 0 ≤ b < 256 → in_u 32 (crc_byte c b).
Proof.
  intros. apply crc_steps_in, lxor_in_u; [lia|done|]. unfold in_u in *. lia.
Qed.

Lemma crc_bits_in c bs : in_u 32 c → bytes bs → in_u 32 (crc_bits c bs).
Proof.
  intros Hc Hbs. revert c Hc. induction Hbs; intros c Hc; simpl; [done|].
  apply IHHbs. by apply crc_byte_in.
Qed.

Lemma crc_bits_cons c b bs : crc_bits c (b :: bs) = crc_bits (crc_byte c b) bs.
Proof. exact eq_refl. Qed.

Lemma crc_bits_app c a b : crc_bits c (a ++ b) = crc_bits (crc_bits c a) b.
Proof. apply foldl_app. Qed.

(** The table-driven loops, with the index and the xor written either way. *)
Lemma loop_crc_bits body c bs :
  bytes bs →
  (∀ i b c, 0 ≤ b < 256 → bs !! i = Some b → body (Z.of_nat i) c =
     Ok (Z.lxor (table_entry (Z.land (Z.lxor c b) 0xff)) (Z.shiftr c 8))) →
  for_up (length bs) 0 body c = Ok (crc_bits c bs).
Proof.
  intros Hbs Hb. apply for_up_fold0. intros i b a Hi.
  assert (0 ≤ b < 256) as Hr by (by apply (Forall_lookup_1 _ _ _ _ Hbs Hi)).
  rewrite (Hb _ _ _ Hr Hi). by rewrite (crc_byte_table _ _ Hr).
Qed.

Lemma crc32_run c bs :
  bytes bs → crc32 the_table c bs (Z.of_nat (length bs)) = Ok (crc_bits c bs).
Proof.
  intros Hbs. unfold crc32. rewrite Nat2Z.id. apply loop_crc_bits; [done|].
  intros i b a Hb Hi. rewrite (arr_get_nat _ _ _ Hi). simpl.
  by rewrite (table_get _ (low_byte _)).
Qed.

Lemma lut_crc32_run c bs :
  bytes bs → lut_crc32 c bs (Z.of_nat (length bs)) = Ok (not32 (crc_bits (not32 c) bs)).
Proof.
  intros Hbs. unfold lut_crc32. rewrite lut_table_run, Nat2Z.id. simpl.
  rewrite (loop_crc_bits _ (not32 c) bs); [done|done|].
  intros i b a Hb Hi. rewrite (arr_get_nat _ _ _ Hi). simpl.
  assert (Z.lxor (Z.land a 255) b = Z.land (Z.lxor a b) 255) as ->.
  { rewrite <-(Z.mod_small b 256) at 1 by done. by rewrite <-land_ff, land_lxor. }
  rewrite (table_get _ (low_byte _)). simpl. by rewrite Z.lxor_comm.
Qed.

Lemma crc32_get_run bs :
  bytes bs → crc32_get the_table bs (Z.of_nat (length bs)) = Ok (not32 (crc_bits 0xffffffff bs)).
Proof.
  intros Hbs. unfold crc32_get. rewrite Nat2Z.id.
  rewrite (loop_crc_bits _ 0xffffffff bs); [done|done|].
  intros i b a Hb Hi. rewrite (arr_get_nat _ _ _ Hi). simpl.
  by rewrite (table_get _ (low_byte _)).
Qed.

Lemma not32_involutive x : not32 (not32 x) = x.
Proof. unfold not32. by rewrite Z.lxor_assoc, Z.lxor_nilpotent, Z.lxor_0_r. Qed.

(** ** Windows of at most four bytes *)

(** Little-endian value of a window. *)
Fixpoint le_word (w : list Z) : Z :=
  match w with
  | [] => 0
  | b :: w => Z.lxor b (Z.shiftl (le_word w) 8)
  end.

Lemma le_word_in w : bytes w → in_u (8 * Z.of_nat (length w)) (le_word w).
Proof.
  induction 1 as [|b w Hb Hw IH]; cbn [le_word length]; [done|].
  replace (8 * Z.of_nat (S (length w))) with (8 + 8 * Z.of_nat (length w)) by lia.
  assert (0 < 2 ^ (8 * Z.of_nat (length w))) by (apply Z.pow_pos_nonneg; lia).
  apply lxor_in_u; [lia| |]; unfold in_u in *; rewrite Z.pow_add_r by lia.
  - change (2 ^ 8) with 256. nia.
  - rewrite Z.shiftl_mul_pow2 by lia. change (2 ^ 8) with 256. nia.
Qed.

Lemma le_word_inj w1 w2 :
  bytes w1 → bytes w2 → length w1 = length w2 → le_word w1 = le_word w2 → w1 = w2.
Proof.
  intros H1. revert w2. induction H1 as [|b1 w1 Hb1 Hw1 IH]; intros [|b2 w2] H2 Hl He; try done.
  inversion_clear H2 as [|?? Hb2 Hw2]. simpl in Hl, He.
  assert (∀ b z, 0 ≤ b < 256 → Z.land (Z.lxor b (Z.shiftl z 8)) 0xff = b ∧
                 Z.shiftr (Z.lxor b (Z.shiftl z 8)) 8 = z) as Hsplit.
  { intros b z Hb. split.
    - rewrite land_lxor, !land_ff, Z.shiftl_mul_pow2 by lia. change (2 ^ 8) with 256.
      rewrite Z.mod_mul, Z.mod_small by lia. apply Z.lxor_0_r.
    - rewrite Z.shiftr_lxor, (byte_shiftr b), Z.shiftr_shiftl_l by lia. by rewrite Z.shiftl_0_r. }
  destruct (Hsplit b1 (le_word w1) Hb1) as [E1 F1], (Hsplit b2 (le_word w2) Hb2) as [E2 F2].
  f_equal; [congruence|]. apply IH; [done|lia|congruence].
Qed.

Lemma crc_bits_window c w :
  bytes w → crc_bits c w = Nat.iter (8 * length w) crc_step (Z.lxor c (le_word w)).
Proof.
  intros Hw. revert c. induction Hw as [|b w Hb Hw IH]; intros c; [simpl; by rewrite Z.lxor_0_r|].
  rewrite crc_bits_cons, IH. cbn [le_word length].
  replace (8 * S (length w))%nat with (8 * length w + 8)%nat by lia.
  rewrite Nat.iter_add, <-Z.lxor_assoc, (crc_steps_lxor 8 (Z.lxor c b)), crc_steps_shiftl8.
  unfold crc_byte. exact eq_refl.
Qed.

Lemma lxor_cancel s a b : Z.lxor s a = Z.lxor s b → a = b.
Proof.
  intros H. apply (f_equal (Z.lxor s)) in H. rewrite <-!Z.lxor_assoc in H.
  by rewrite Z.lxor_nilpotent, !Z.lxor_0_l in H.
Qed.

(** Different register values stay different under the same further input. *)
Lemma crc_bits_inj bs x y :
  bytes bs → in_u 32 x → in_u 32 y → crc_bits x bs = crc_bits y bs → x = y.
Proof.
  intros Hbs. revert x y. induction Hbs as [|b bs Hb Hbs IH]; intros x y Hx Hy; [done|]. simpl.
  intros He. apply IH in He; [|by apply crc_byte_in..].
  assert (in_u 32 b) by (unfold in_u; lia).
  apply crc_steps_inj in He; [|by apply lxor_in_u..].
  rewrite !(Z.lxor_comm _ b) in He. by apply lxor_cancel in He.
Qed.

Lemma window_in s w :
  in_u 32 s → bytes w → (length w ≤ 4)%nat → in_u 32 (Z.lxor s (le_word w)).
Proof.
  intros Hs Hw Hl. apply lxor_in_u; [lia|done|]. pose proof (le_word_in w Hw) as [? Hb].
  split; [done|]. eapply Z.lt_le_trans; [exact Hb|]. apply Z.pow_le_mono_r; lia.
Qed.

(** ** Properties *)

(** C7: the table-driven loop equals the bit-serial reference: after
    [init_crc_table] (from any 256-word array), [crc32] over a buffer of bytes
    runs in bounds and returns the result of eight shift-and-xor steps per byte,
    a 32-bit value. *)
Theorem crc32_is_bitwise t c bs :
  length t = 256%nat → in_u 32 c → bytes bs →
  ∃ t', init_crc_table t = Ok t' ∧
    crc32 t' c bs (Z.of_nat (length bs)) = Ok (crc_bits c bs) ∧ in_u 32 (crc_bits c bs).
Proof.
  intros Ht Hc Hbs. exists the_table. split_and!.
  - by apply init_crc_table_run.
  - by apply crc32_run.
  - by apply crc_bits_in.
Qed.

Lemma crc32_is_bitwise_witness :
  ∃ t', init_crc_table crc_table0 = Ok t' ∧
    crc32 t' 0 [0x31; 0x32] (Z.of_nat 2) = Ok (crc_bits 0 [0x31; 0x32]) ∧
    in_u 32 (crc_bits 0 [0x31; 0x32]).
Proof.
  apply (crc32_is_bitwise crc_table0 0 [0x31; 0x32]).
  - reflexivity.
  - unfold in_u. lia.
  - repeat constructor; lia.
Defined.

(** The three interfaces agree: for every message, [crc32_get] with the
    allocated table, [lut_crc32] started at 0, and the complement of [calc_crc]
    are the same number, and a failed allocation is reported as null. *)
Lemma crc_interfaces_agree bs t t0 :
  length t0 = 256%nat → bytes bs → init_crc_table t0 = Ok t →
  ∃ c, calc_crc t bs (Z.of_nat (length bs)) = Ok c ∧
    lut_crc32 0 bs (Z.of_nat (length bs)) = Ok (not32 c) ∧
    crc32_alloc_init_table false = Ok None ∧
    ∃ t', crc32_alloc_init_table true = Ok (Some t') ∧
      crc32_get t' bs (Z.of_nat (length bs)) = Ok (not32 c).
Proof.
  intros Ht Hbs Hinit. rewrite init_crc_table_run in Hinit by done. injection Hinit as <-.
  exists (crc_bits 0xffffffff bs). split_and!.
  - by apply crc32_run.
  - by rewrite lut_crc32_run.
  - done.
  - exists the_table. unfold crc32_alloc_init_table. rewrite (fill_array table_entry 256) by done.
    split; [done|]. by apply crc32_get_run.
Qed.

Lemma crc_interfaces_agree_witness :
  ∃ c, calc_crc the_table [0x61; 0x62; 0x63] (Z.of_nat 3) = Ok c ∧
    lut_crc32 0 [0x61; 0x62; 0x63] (Z.of_nat 3) = Ok (not32 c).
Proof.
  destruct (crc_interfaces_agree [0x61; 0x62; 0x63] the_table crc_table0) as (c & ? & ? & _).
  - reflexivity.
  - repeat constructor; lia.
  - apply init_crc_table_run. reflexivity.
  - exists c. split; assumption.
Defined.

(** Streaming.  A message can be fed in two pieces, the result of the first
    being the start value of the second, through [crc32] and through
    [lut_crc32]; the result is that of the whole message. *)
Lemma crc_streaming c a b :
  in_u 32 c → bytes a → bytes b →
  (x ← crc32 the_table c a (Z.of_nat (length a)); crc32 the_table x b (Z.of_nat (length b))) =
    crc32 the_table c (a ++ b) (Z.of_nat (length (a ++ b))) ∧
  (x ← lut_crc32 c a (Z.of_nat (length a)); lut_crc32 x b (Z.of_nat (length b))) =
    lut_crc32 c (a ++ b) (Z.of_nat (length (a ++ b))).
Proof.
  intros Hc Ha Hb. assert (bytes (a ++ b)) by (by apply Forall_app).
  rewrite !crc32_run, !lut_crc32_run by done. simpl.
  rewrite crc32_run, lut_crc32_run by done. by rewrite not32_involutive, !crc_bits_app.
Qed.

Lemma crc_streaming_witness :
  (x ← lut_crc32 0 [0x61] (Z.of_nat 1); lut_crc32 x [0x62; 0x63] (Z.of_nat 2)) =
    lut_crc32 0 [0x61; 0x62; 0x63] (Z.of_nat 3).
Proof.
  apply (crc_streaming 0 [0x61] [0x62; 0x63]).
  - unfold in_u. lia.
  - repeat constructor; lia.
  - repeat constructor; lia.
Defined.

(** C28: error detection.  Two messages of the same length that differ only
    inside a window of at most four bytes (so in particular any burst of up to 25
    bits, and any error confined to one word) have different checksums, for every
    start value and whatever surrounds the window. *)
Theorem crc_detects_window c pre w1 w2 post :
  in_u 32 c → bytes pre → bytes post → bytes w1 → bytes w2 →
  length w1 = length w2 → (length w1 ≤ 4)%nat → w1 ≠ w2 →
  crc32 the_table c (pre ++ w1 ++ post) (Z.of_nat (length (pre ++ w1 ++ post))) ≠
  crc32 the_table c (pre ++ w2 ++ post) (Z.of_nat (length (pre ++ w2 ++ post))).
Proof.
  intros Hc Hpre Hpost H1 H2 Hl H4 Hne.
  rewrite !crc32_run by (rewrite !Forall_app; auto). intros He. apply Hne.
  injection He as He. rewrite !crc_bits_app in He.
  pose proof (crc_bits_in c pre Hc Hpre) as Hin. set (s := crc_bits c pre) in *.
  apply crc_bits_inj in He; [|done|by apply crc_bits_in..].
  rewrite !crc_bits_window, Hl in He by done.
  apply crc_steps_inj in He; [|apply window_in; [done|done|lia]..].
  apply le_word_inj; [done..|]. by apply lxor_cancel in He.
Qed.

Lemma crc_detects_window_witness :
  crc32 the_table 0 ([1] ++ [0; 0] ++ [2]) (Z.of_nat 4) ≠
  crc32 the_table 0 ([1] ++ [0; 128] ++ [2]) (Z.of_nat 4).
Proof.
  apply (crc_detects_window 0 [1] [0; 0] [0; 128] [2]);
    first [repeat constructor; lia | unfold in_u; lia | simpl; lia | discriminate | reflexivity].
Defined.

(** The nine-byte test message "123456789" of the CRC catalogues. *)
Definition check_msg : list Z := [0x31; 0x32; 0x33; 0x34; 0x35; 0x36; 0x37; 0x38; 0x39].

(** Known answers.  On the catalogue's test message [crc32_get] and
    [lut_crc32] give the CRC-32 check value 0xCBF43926; [calc_crc] gives
    0x340BC6D9 (CRC-32/JAMCRC), not the value 0x0376E6E7 of the CRC-32/MPEG-2
    its comment names. *)
Lemma crc_known_answers :
  lut_crc32 0 check_msg 9 = Ok 0xCBF43926 ∧
  (t ← crc32_alloc_init_table true;
   match t with Some t => crc32_get t check_msg 9 | None => Ub NullDeref end) = Ok 0xCBF43926 ∧
  (t ← init_crc_table crc_table0; calc_crc t check_msg 9) = Ok 0x340BC6D9 ∧
  0x340BC6D9 ≠ 0x0376E6E7.
Proof. vm_compute. split_and!; congruence. Qed.

(** A table is freed once; destroying it again is undefined. *)
Lemma crc32_destroy_once tables p t :
  p ≠ 0 → tables !! p = Some t →
  crc32_destroy tables p = Ok (delete p tables, 0) ∧ crc32_destroy (delete p tables) p = Ub BadPtr.
Proof.
  intros Hp Ht. unfold crc32_destroy. rewrite !(decide_True (P := p ≠ 0)) by done.
  rewrite Ht, lookup_delete_eq. split; done.
Qed.
