(* ===== verification/SundayMatch.v ===== *)
(** * SundayMatch: the substring search of algorithm/SundayMatch.c

    [sunday_match] is the C routine, [Sunday] the C++ one above it.  Text and
    pattern are arrays of [char] values, all accesses and the [int] arithmetic are
    checked, and the outer loop runs on fuel.  The reference is [first_match]: the smallest position at
    which the pattern occurs. *)

From S2P Require Import Prelude.

(** Both routines fill the shift table in two loops: the default, then for each
    pattern character the distance from its last occurrence to the end. *)
Definition fill_default (n : nat) (v : Z) (shift : list Z) : res (list Z) :=
  for_up n 0 (λ a shift, arr_set shift a v) shift.

Definition fill_shift (pattern : list Z) (pattern_len : Z) (shift : list Z) : res (list Z) :=
  for_up (Z.to_nat pattern_len) 0
    (λ i shift,
       c ← arr_get pattern i;
       v ← signed_op 32 (pattern_len - i);
       arr_set shift c v) shift.

(** [while (src[i + j] == pattern[j]) { j++; if (j >= pattern_len) return i; }]:
    [true] when the whole pattern was matched.  [fuel] bounds the iterations. *)
Fixpoint match_at (fuel : nat) (src pattern : list Z) (pattern_len i j : Z) : res bool :=
  match fuel with
  | O => NoFuel
  | S fuel =>
      ij ← signed_op 32 (i + j);
      a ← arr_get src ij;
      b ← arr_get pattern j;
      if decide (a = b) then
        j ← signed_op 32 (j + 1);
        if decide (pattern_len ≤ j) then mret true
        else match_at fuel src pattern pattern_len i j
      else mret false
  end.

(** [while (i <= src_len - pattern_len)] *)
Fixpoint search (fuel : nat) (shift src pattern : list Z) (src_len pattern_len i : Z) : res Z :=
  match fuel with
  | O => NoFuel
  | S fuel =>
      last ← signed_op 32 (src_len - pattern_len);
      if decide (i ≤ last) then
        m ← match_at (S (Z.to_nat pattern_len)) src pattern pattern_len i 0;
        if (m : bool) then mret i
        else
          k ← signed_op 32 (i + pattern_len);
          c ← arr_get src k;
          d ← arr_get shift c;
          i ← signed_op 32 (i + d);
          search fuel shift src pattern src_len pattern_len i
      else mret (-1)
  end.

(** The C routine: a 256-entry table on the stack. *)
Definition sunday_match (fuel : nat) (src : list Z) (src_len : Z) (pattern : list Z)
    (pattern_len : Z) : res Z :=
  v ← signed_op 32 (pattern_len + 1);
  shift ← fill_default 256 v (replicate 256 0);
  shift ← fill_shift pattern pattern_len shift;
  search fuel shift src pattern src_len pattern_len 0.

Definition maxNum : Z := 1005.

(** The C++ routine works on a static table and on [std::string]s, whose
    [operator[]] at [length()] yields the terminating null character; the lengths
    are converted to [int]. *)
Definition Sunday (fuel : nat) (shift T P : list Z) : res Z :=
  let n := s32 (Z.of_nat (length T)) in
  let m := s32 (Z.of_nat (length P)) in
  v ← signed_op 32 (m + 1);
  shift ← fill_default (Z.to_nat maxNum) v shift;
  shift ← fill_shift P m shift;
  search fuel shift (T ++ [0]) (P ++ [0]) n m 0.

(** ** Reference *)

(** [p] occurs in [t] at position [i]. *)
Definition occurs (t p : list Z) (i : nat) : Prop := take (length p) (drop i t) = p.
#[global] Instance occurs_dec t p i : Decision (occurs t p i).
Proof. unfold occurs. apply _. Defined.

(** [r] is the first occurrence of [p] in [t], or -1 when there is none. *)
Definition first_match (t p : list Z) (r : Z) : Prop :=
  (r = -1 ∧ ∀ i, ¬ occurs t p i) ∨
  (∃ i, r = Z.of_nat i ∧ occurs t p i ∧ ∀ k, (k < i)%nat → ¬ occurs t p k).

(** What a shift table must satisfy for pattern [p]: moving by less than the
    entry of [c] would align [c] with a different pattern character. *)
Definition good_shift (p : list Z) (upto : Z) (c d : Z) : Prop :=
  1 ≤ d ≤ Z.of_nat (length p) + 1 ∧
  ∀ k : nat, Z.of_nat (length p) - d < Z.of_nat k < upto → p !! k ≠ Some c.

Definition good_table (p : list Z) (upto : Z) (shift : list Z) : Prop :=
  ∀ c, 0 ≤ c < Z.of_nat (length shift) → ∃ d, arr_get shift c = Ok d ∧ good_shift p upto c d.

(** The [int]s of the routines: lengths are below [INT_MAX]. *)
Abbreviation int_len l := (Z.of_nat (length l) < 2 ^ 31 - 1).

(** ** The shift table *)

Lemma fill_default_run n v shift :
  length shift = n → fill_default n v shift = Ok (replicate n v).
Proof.
  intros Hn. unfold fill_default. rewrite (fill_array (λ _, v)) by done. f_equal.
  apply list_eq. intros i. rewrite list_lookup_fmap. destruct (decide (i < n)%nat).
  - by rewrite lookup_seqZ_lt, lookup_replicate_2 by lia.
  - rewrite !lookup_ge_None_2; [done| |]; rewrite ?length_replicate, ?length_seqZ; lia.
Qed.

Lemma arr_get_insert (t : list Z) i c v :
  0 ≤ i < Z.of_nat (length t) → 0 ≤ c →
  arr_get (<[Z.to_nat i := v]> t) c = if decide (c = i) then Ok v else arr_get t c.
Proof.
  intros Hi Hc. unfold arr_get. rewrite (decide_True (P := 0 ≤ c)) by done.
  case_decide; [subst|].
  - by rewrite list_lookup_insert_eq by lia.
  - rewrite list_lookup_insert_ne by lia. by rewrite decide_True.
Qed.

Lemma fill_shift_run p rest n :
  int_len p → Forall (λ c, 0 ≤ c < Z.of_nat n) p →
  ∃ t, fill_shift (p ++ rest) (Z.of_nat (length p)) (replicate n (Z.of_nat (length p) + 1)) = Ok t ∧
       length t = n ∧ good_table p (Z.of_nat (length p)) t.
Proof.
  intros Hlen Hp. unfold fill_shift. rewrite Nat2Z.id.
  destruct (for_up_inv (λ k t, length t = n ∧ good_table p k t) (length p) 0
    (λ i t, c ← arr_get (p ++ rest) i; v ← signed_op 32 (Z.of_nat (length p) - i); arr_set t c v)
    (replicate n (Z.of_nat (length p) + 1))) as (t & Hr & Hl & Hg).
  - rewrite length_replicate. split; [done|]. intros c Hc. rewrite length_replicate in Hc.
    exists (Z.of_nat (length p) + 1). split; [|split; [lia|lia]].
    apply arr_get_lookup. split; [lia|]. rewrite lookup_replicate_2; [done|lia].
  - intros k t Hk [Hl Hg]. destruct (lookup_lt_is_Some_2 p (Z.to_nat k)) as [c Hc]; [lia|].
    assert (0 ≤ c < Z.of_nat n) as Hcr by (by apply (Forall_lookup_1 _ _ _ _ Hp Hc)).
    assert (arr_get (p ++ rest) k = Ok c) as ->.
    { apply arr_get_lookup. split; [lia|]. by apply lookup_app_l_Some. }
    rewrite bind_Ok. ints. rewrite arr_set_ok by lia. eexists. split; [done|]. rewrite length_insert. split; [done|].
    intros c' Hc'. rewrite length_insert in Hc'. rewrite arr_get_insert by lia.
    case_decide as E.
    + eexists. split; [done|]. split; lia.
    + destruct (Hg c' Hc') as (d & Hd & Hd1 & Hd2). exists d. split; [done|]. split; [done|].
      intros j Hj. destruct (decide (j = Z.to_nat k)) as [->|]; [congruence|]. apply Hd2. lia.
  - exists t. rewrite Z.add_0_l in Hg. done.
Qed.

(** ** The inner loop *)

Lemma match_at_run fuel src pat (m i j : nat) :
  (j < m)%nat → (m - j ≤ fuel)%nat → (i + m ≤ length src)%nat → (m ≤ length pat)%nat →
  Z.of_nat (i + m) < 2 ^ 31 - 1 →
  match_at fuel src pat (Z.of_nat m) (Z.of_nat i) (Z.of_nat j) =
    Ok (bool_decide (take (m - j) (drop (i + j) src) = take (m - j) (drop j pat))).
Proof.
  revert j. induction fuel as [|fuel IH]; intros j Hj Hf Hs Hp Hint; [lia|]. cbn [match_at].
  destruct (lookup_lt_is_Some_2 src (i + j)) as [a Ha]; [lia|].
  destruct (lookup_lt_is_Some_2 pat j) as [b Hb]; [lia|].
  replace (Z.of_nat i + Z.of_nat j) with (Z.of_nat (i + j)) by lia.
  ints. rewrite (arr_get_nat _ _ _ Ha), (arr_get_nat _ _ _ Hb). rewrite !bind_Ok.
  rewrite (drop_S src a (i + j) Ha), (drop_S pat b j Hb).
  replace (m - j)%nat with (S (m - S j)) by lia. cbn [take].
  case_decide as Hab; [subst b|].
  - replace (Z.of_nat j + 1) with (Z.of_nat (S j)) by lia. ints. case_decide as Hm.
    + replace (m - S j)%nat with 0%nat by lia. by rewrite !take_0, bool_decide_true.
    + rewrite IH by lia. replace (i + S j)%nat with (S (i + j)) by lia. f_equal.
      apply bool_decide_ext. split; [by intros ->|]. by injection 1.
  - rewrite bool_decide_false; [done|]. by injection 1.
Qed.

(** At a valid position the loop decides whether the pattern occurs there. *)
Lemma match_at_occurs t p e1 e2 i :
  p ≠ [] → (i + length p ≤ length t)%nat → int_len t →
  match_at (S (length p)) (t ++ e1) (p ++ e2) (Z.of_nat (length p)) (Z.of_nat i) 0 =
    Ok (bool_decide (occurs t p i)).
Proof.
  intros Hp Hi Hint. assert (0 < length p)%nat by (destruct p; simpl; [done|lia]).
  rewrite (match_at_run _ _ _ _ _ 0) by (rewrite ?length_app; lia).
  rewrite Nat.sub_0_r, Nat.add_0_r. f_equal. apply bool_decide_ext. unfold occurs.
  rewrite drop_0, (take_app_length p e2), drop_app_le by lia.
  by rewrite take_app_le by (rewrite length_drop; lia).
Qed.

(** ** The outer loop *)

Lemma occurs_bound t p i : p ≠ [] → occurs t p i → (i + length p ≤ length t)%nat.
Proof.
  unfold occurs. intros Hp H. apply (f_equal length) in H.
  rewrite length_take, length_drop in H.
  assert (0 < length p)%nat by (destruct p; simpl; [done|lia]). lia.
Qed.

Lemma occurs_lookup t p i k c :
  occurs t p i → (t !! (i + k)%nat) = Some c → (k < length p)%nat → p !! k = Some c.
Proof.
  unfold occurs. intros H Hc Hk. rewrite <-H. rewrite lookup_take_lt by done.
  by rewrite lookup_drop.
Qed.

Lemma first_match_unique t p r1 r2 : first_match t p r1 → first_match t p r2 → r1 = r2.
Proof.
  intros [[-> H1]|(i1 & -> & H1 & M1)] [[-> H2]|(i2 & -> & H2 & M2)]; try done.
  - by destruct (H1 i2).
  - by destruct (H2 i1).
  - destruct (decide (i1 < i2)%nat) as [H|]; [by destruct (M2 i1 H)|].
    destruct (decide (i2 < i1)%nat) as [H|]; [by destruct (M1 i2 H)|]. lia.
Qed.

(** A shift by [d] skips no occurrence. *)
Lemma shift_safe t z p (i : nat) c d :
  p ≠ [] → (t ++ [z]) !! (i + length p)%nat = Some c →
  good_shift p (Z.of_nat (length p)) c d →
  ∀ k : nat, (i < k)%nat → Z.of_nat k < Z.of_nat i + d → ¬ occurs t p k.
Proof.
  intros Hp Hc [Hd Hg] k Hik Hkd Hocc. pose proof (occurs_bound t p k Hp Hocc).
  apply (Hg (i + length p - k)%nat); [lia|].
  apply (occurs_lookup t p k); [done| |lia].
  replace (k + (i + length p - k))%nat with (i + length p)%nat by lia.
  rewrite lookup_app_l in Hc by lia. done.
Qed.

Lemma search_run fuel shift t z e1 p e2 (i : nat) :
  p ≠ [] → int_len t → int_len p → good_table p (Z.of_nat (length p)) shift →
  Forall (λ c, 0 ≤ c < Z.of_nat (length shift)) (t ++ [z]) →
  (∀ k, (k < i)%nat → ¬ occurs t p k) → (length t + 1 < fuel + i)%nat → (0 < fuel)%nat →
  ∃ r, search fuel shift (t ++ [z] ++ e1) (p ++ e2) (Z.of_nat (length t)) (Z.of_nat (length p))
         (Z.of_nat i) = Ok r ∧ first_match t p r.
Proof.
  intros Hp Hit Hip Hg Ht. revert i.
  induction fuel as [|fuel IH]; intros i Hno Hf Hf0; [lia|]. cbn [search].
  assert (0 < length p)%nat by (destruct p; simpl; [done|lia]). ints.
  case_decide as Hi.
  - rewrite Nat2Z.id, match_at_occurs by (done || lia). simpl.
    case_bool_decide as Hocc.
    + exists (Z.of_nat i). split; [done|]. right. eauto.
    + destruct (lookup_lt_is_Some_2 (t ++ [z]) (i + length p)) as [c Hc].
      { rewrite length_app. simpl. lia. }
      replace (Z.of_nat i + Z.of_nat (length p)) with (Z.of_nat (i + length p)) by lia.
      assert ((t ++ [z] ++ e1) !! (i + length p)%nat = Some c) as Hc'.
      { rewrite app_assoc. by apply lookup_app_l_Some. }
      ints. rewrite (arr_get_nat _ _ _ Hc' : arr_get (t ++ z :: e1) _ = _), bind_Ok.
      pose proof (Forall_lookup_1 _ _ _ _ Ht Hc) as Hcr. simpl in Hcr.
      destruct (Hg c Hcr) as (d & Hd & Hgd). rewrite Hd, bind_Ok.
      pose proof (shift_safe t z p i c d Hp Hc Hgd) as Hsafe. destruct Hgd as [Hd1 _].
      replace (Z.of_nat i + d) with (Z.of_nat (i + Z.to_nat d)) by lia.
      ints. apply IH; [|lia|lia]. intros k Hk.
      destruct (decide (k < i)%nat); [by apply Hno|].
      destruct (decide (k = i)) as [->|]; [done|]. apply Hsafe; lia.
  - exists (-1). split; [done|]. left. split; [done|]. intros k Hocc.
    pose proof (occurs_bound t p k Hp Hocc). apply (Hno k); [lia|done].
Qed.

(** ** Properties *)

(** C8: [sunday_match] finds the first occurrence.  For a nonempty pattern and
    a text followed by one more readable character (the terminator of a C
    string), all of them in the range of the 256-entry table and both lengths
    below [INT_MAX], the search stays in bounds, no [int] overflows, it
    terminates, and it returns the smallest index at which the pattern occurs, or
    -1 when it does not occur. *)
Theorem sunday_match_first t z e1 p e2 :
  p ≠ [] → Forall (λ c, 0 ≤ c < 256) p → Forall (λ c, 0 ≤ c < 256) (t ++ [z]) →
  int_len t → int_len p →
  ∃ r, sunday_match (length t + 2) (t ++ [z] ++ e1) (Z.of_nat (length t)) (p ++ e2)
         (Z.of_nat (length p)) = Ok r ∧ first_match t p r.
Proof.
  intros Hne Hp Ht Hit Hip. unfold sunday_match. ints. rewrite fill_default_run by done. rewrite bind_Ok.
  destruct (fill_shift_run p e2 256 Hip Hp) as (shift & Hr & Hl & Hg). rewrite Hr. rewrite bind_Ok.
  apply (search_run _ _ _ _ _ _ _ 0); [done..|by rewrite Hl|lia|lia|lia].
Qed.

Lemma sunday_match_first_witness :
  ∃ r, sunday_match 7 ([97; 98; 97; 98; 99] ++ [0] ++ []) 5 ([97; 98; 99] ++ []) 3 = Ok r ∧
       first_match [97; 98; 97; 98; 99] [97; 98; 99] r.
Proof.
  apply (sunday_match_first [97; 98; 97; 98; 99] 0 [] [97; 98; 99] []).
  - discriminate.
  - repeat constructor; lia.
  - repeat constructor; lia.
  - reflexivity.
  - reflexivity.
Defined.

(** The C++ routine [Sunday] and the C routine give the same answer on
    every text and nonempty pattern over the characters 0..255, although their
    tables differ in size and the former starts from a dirty static table. *)
Lemma sunday_agrees shift t p :
  length shift = Z.to_nat maxNum → p ≠ [] →
  Forall (λ c, 0 ≤ c < 256) p → Forall (λ c, 0 ≤ c < 256) t → int_len t → int_len p →
  ∃ r, Sunday (length t + 2) shift t p = Ok r ∧
       sunday_match (length t + 2) (t ++ [0]) (Z.of_nat (length t)) p (Z.of_nat (length p)) = Ok r ∧
       first_match t p r.
Proof.
  intros Hs Hne Hp Ht Hit Hip.
  assert (Forall (λ c, 0 ≤ c < 256) (t ++ [0])) as Ht0 by (apply Forall_app; split; [done|repeat constructor; lia]).
  assert (∀ l, Forall (λ c, 0 ≤ c < 256) l → Forall (λ c, 0 ≤ c < Z.of_nat (Z.to_nat maxNum)) l) as Hw.
  { intros l Hl. eapply Forall_impl; [exact Hl|]. intros c [? ?]. split; [done|]. change (c < 1005). lia. }
  unfold Sunday. rewrite !wrap_s_small by (unfold in_s; lia). ints.
  rewrite fill_default_run by done. rewrite bind_Ok.
  destruct (fill_shift_run p [] (Z.to_nat maxNum) Hip (Hw _ Hp)) as (shift' & Hr & Hl & Hg).
  rewrite app_nil_r in Hr. rewrite Hr. rewrite bind_Ok.
  destruct (search_run (length t + 2) shift' t 0 [] p [0] 0) as (r & Hrun & Hf);
    [done..|rewrite Hl; by apply Hw|lia|lia|lia|].
  unfold sunday_match. ints. rewrite fill_default_run by done. rewrite bind_Ok.
  destruct (fill_shift_run p [] 256 Hip Hp) as (shift2 & Hr2 & Hl2 & Hg2).
  rewrite app_nil_r in Hr2. rewrite Hr2. rewrite bind_Ok.
  destruct (search_run (length t + 2) shift2 t 0 [] p [] 0) as (r2 & Hrun2 & Hf2);
    [done..|by rewrite Hl2|lia|lia|lia|].
  rewrite !app_nil_r in *. exists r. split_and!; [done| |done].
  by rewrite (first_match_unique t p r r2).
Qed.

Lemma sunday_agrees_witness :
  ∃ r, Sunday 5 (replicate 1005 7) [1; 2; 3] [2; 3] = Ok r ∧
       sunday_match 5 [1; 2; 3; 0] 3 [2; 3] 2 = Ok r ∧ first_match [1; 2; 3] [2; 3] r.
Proof.
  apply (sunday_agrees (replicate 1005 7) [1; 2; 3] [2; 3]).
  - reflexivity.
  - discriminate.
  - repeat constructor; lia.
  - repeat constructor; lia.
  - reflexivity.
  - reflexivity.
Defined.

(** A text of [INT_MAX] characters without the pattern makes the position
    overflow when the last shift is the default. *)
Lemma sunday_position_overflow fuel shift src pattern m c :
  0 < m → match_at (S (Z.to_nat m)) src pattern m (2 ^ 31 - 1 - m) 0 = Ok false →
  m < 2 ^ 31 → arr_get src (2 ^ 31 - 1) = Ok c → arr_get shift c = Ok (m + 1) →
  search (S fuel) shift src pattern (2 ^ 31 - 1) m (2 ^ 31 - 1 - m) = Ub SignedOverflow.
Proof.
  intros Hm Hno Hm2 Hc Hd. cbn [search]. ints. rewrite decide_True by lia. rewrite Hno, bind_Ok.
  replace (2 ^ 31 - 1 - m + m) with (2 ^ 31 - 1) by lia. ints. rewrite Hc, bind_Ok, Hd, bind_Ok.
  unfold signed_op. by rewrite decide_False by (unfold in_s; lia).
Qed.

(** The search looks one character past the text.  When text and pattern
    have the same length and differ, the first iteration already reads
    [src[src_len]]: on a buffer of exactly [src_len] characters this is an
    out-of-bounds access. *)
Lemma sunday_match_overread t p fuel :
  p ≠ [] → Forall (λ c, 0 ≤ c < 256) p → length t = length p → t ≠ p → int_len t →
  (0 < fuel)%nat →
  sunday_match fuel t (Z.of_nat (length t)) p (Z.of_nat (length p)) = Ub OutOfBounds.
Proof.
  intros Hne Hp Hl Htp Hi Hf. unfold sunday_match. ints. rewrite fill_default_run by done. rewrite bind_Ok.
  destruct (fill_shift_run p [] 256 ltac:(lia) Hp) as (shift & Hr & _).
  rewrite app_nil_r in Hr. rewrite Hr. rewrite bind_Ok. destruct fuel as [|fuel]; [lia|].
  cbn [search]. ints. rewrite decide_True by lia. rewrite Nat2Z.id.
  pose proof (match_at_occurs t p [] [] 0 Hne ltac:(lia) Hi) as Hm.
  rewrite !app_nil_r in Hm. rewrite (Hm : match_at _ _ _ _ 0 0 = _), bind_Ok.
  rewrite bool_decide_false.
  - ints. by rewrite arr_get_oob by lia.
  - unfold occurs. rewrite drop_0, <-Hl, firstn_all. done.
Qed.

Lemma sunday_match_overread_witness : sunday_match 1 [65] 1 [66] 1 = Ub OutOfBounds.
Proof.
  apply (sunday_match_overread [65] [66] 1);
    first [discriminate | reflexivity | lia | repeat constructor; lia].
Defined.
