(* ===== verification/PacketBuffer.v ===== *)
(** * PacketBuffer: header/body reassembly of linux/utils/src/packet_buffer.c

    A packet is received in two phases, header then body; the caller reads
    [req_len] bytes to [buf + index] and reports how many arrived.  Heap blocks
    are modelled by their sizes, [gmap Z Z] from block address to size in bytes;
    what the allocator answers is an argument of the operations that allocate.
    The members [handle] and [ops] are reserved in the source and never used. *)

From S2P Require Import Prelude.

(** Values of [recv_state_e]. *)
Definition RECV_STATE_IN_PROGRESS : Z := 0.
Definition RECV_STATE_HEADER_COMPLETE : Z := 1.
Definition RECV_STATE_BODY_COMPLETE : Z := 2.

Inductive buffer_state_e := BUFFER_STATE_HEADER | BUFFER_STATE_BODY | BUFFER_STATE_BUTT.
#[global] Instance buffer_state_eq_dec : EqDecision buffer_state_e.
Proof. solve_decision. Defined.

(** Pointers are block addresses, 0 is the null pointer. *)
Record packet_buffer_t := PacketBuffer {
  header_len : Z;
  header_buffer : Z;
  body_len : Z;
  body : Z;
  index : Z;
  req_len : Z;
  buf : Z;
  state : buffer_state_e;
}.

Abbreviation blocks := (gmap Z Z).

(** [calloc]/[malloc]: [None] when it fails, else the address it chose. *)
Definition alloc (m : blocks) (answer : option Z) (size : Z) : option (Z * blocks) :=
  match answer with
  | None => None
  | Some b => Some (b, <[b := size]> m)
  end.

(** [free(p)]; freeing the null pointer is a no-op. *)
Definition free (m : blocks) (p : Z) : res blocks :=
  if decide (p = 0) then mret m
  else match m !! p with
       | Some _ => mret (delete p m)
       | None => Ub BadPtr
       end.

(** [realloc(p, size)]: on failure the old block stays. *)
Definition realloc (m : blocks) (p : Z) (answer : option Z) (size : Z) : res (option Z * blocks) :=
  match answer with
  | None => mret (None, m)
  | Some b => m ← free m p; mret (Some b, <[b := size]> m)
  end.

(** A null [packet] is [None]. *)
Definition packet_buffer_update_header (packet : option packet_buffer_t)
    : Z * option packet_buffer_t :=
  match packet with
  | None => (-1, None)
  | Some p =>
      (0, Some (PacketBuffer (header_len p) (header_buffer p) (body_len p) (body p)
                  0 (header_len p) (header_buffer p) BUFFER_STATE_HEADER))
  end.

(** The argument [hlen] is the [header_len] parameter of the source. *)
Definition packet_buffer_init (m : blocks) (answer : option Z) (packet : option packet_buffer_t)
    (hlen : Z) : res (Z * option packet_buffer_t * blocks) :=
  match alloc m answer (u64 hlen) with
  | None => mret (-1, packet, m)
  | Some (header, m) =>
      match packet with
      | None => Ub NullDeref
      | Some p =>
          let p := PacketBuffer hlen header 0 0 (index p) (req_len p) (buf p) (state p) in
          let r := packet_buffer_update_header (Some p) in
          mret (r, m)
      end
  end.

Definition packet_buffer_destroy (m : blocks) (packet : option packet_buffer_t)
    : res (Z * option packet_buffer_t * blocks) :=
  match packet with
  | None => mret (0, None, m)
  | Some p =>
      m ← (if decide (header_buffer p ≠ 0) then free m (header_buffer p) else mret m);
      m ← (if decide (body p ≠ 0) then free m (body p) else mret m);
      mret (0, Some (PacketBuffer 0 0 0 0 (index p) 0 0 (state p)), m)
  end.

(** [len] is the number of bytes that arrived. *)
Definition packet_buffer_update_index (packet : option packet_buffer_t) (len : Z)
    : res (Z * option packet_buffer_t) :=
  match packet with
  | None => mret (-1, None)
  | Some p =>
      idx ← signed_op 32 (index p + len);
      req ← (match state p with
             | BUFFER_STATE_HEADER => signed_op 32 (header_len p - idx)
             | BUFFER_STATE_BODY => signed_op 32 (body_len p - idx)
             | BUFFER_STATE_BUTT => mret (req_len p)
             end);
      let upd req := PacketBuffer (header_len p) (header_buffer p) (body_len p) (body p)
                       idx req (buf p) (state p) in
      if decide (req > 0) then mret (RECV_STATE_IN_PROGRESS, Some (upd req))
      else
        let req := if decide (req < 0) then 0 else req in
        let ret := match state p with
                   | BUFFER_STATE_BODY => RECV_STATE_BODY_COMPLETE
                   | BUFFER_STATE_HEADER => RECV_STATE_HEADER_COMPLETE
                   | BUFFER_STATE_BUTT => 0
                   end in
        mret (ret, Some (upd req))
  end.

(** The argument [blen] is the [body_len] parameter of the source. *)
Definition packet_buffer_update_body (m : blocks) (answer : option Z)
    (packet : option packet_buffer_t) (blen : Z) : res (Z * option packet_buffer_t * blocks) :=
  match packet with
  | None => mret (-1, None, m)
  | Some p =>
      let finish bd bf m :=
        mret (0, Some (PacketBuffer (header_len p) (header_buffer p) blen bd
                         0 blen bf BUFFER_STATE_BODY), m) in
      if decide (blen > body_len p) then
        r ← realloc m (body p) answer (u64 blen);
        match r.1 with
        | None => mret (-1, Some p, r.2)
        | Some ptr => finish ptr ptr r.2
        end
      else finish (body p) (buf p) m
  end.

(** The pointer [buf + index] as block and offset; [(char * ) -1] for null. *)
Definition packet_buffer_get_buf (packet : option packet_buffer_t) : Z * Z :=
  match packet with
  | None => (0, -1)
  | Some p => (buf p, index p)
  end.

Definition packet_buffer_get_len (packet : option packet_buffer_t) : Z :=
  match packet with
  | None => -1
  | Some p => index p
  end.

(** ** Well-formedness and the receive window *)

(** The packet owns its two blocks and knows their sizes: the header block has
    [header_len] bytes, the body block at least [body_len]. *)
Record packet_ok (m : blocks) (p : packet_buffer_t) : Prop := {
  po_hlen : 0 ≤ header_len p < 2 ^ 31;
  po_blen : 0 ≤ body_len p < 2 ^ 31;
  po_index : 0 ≤ index p;
  po_hdr : header_buffer p ≠ 0 ∧ m !! header_buffer p = Some (header_len p);
  po_body : (body p = 0 ∧ body_len p = 0) ∨
            (body p ≠ 0 ∧ body p ≠ header_buffer p ∧
             ∃ cap, m !! body p = Some cap ∧ body_len p ≤ cap);
}.

(** The next read, [req_len] bytes at [buf + index], stays inside its block. *)
Definition window_ok (m : blocks) (p : packet_buffer_t) : Prop :=
  req_len p = 0 ∨
  ∃ size, m !! buf p = Some size ∧ 0 ≤ index p ∧ 0 ≤ req_len p ∧ index p + req_len p ≤ size.

(** [buf] points to the block of the phase. *)
Definition phase_ok (p : packet_buffer_t) : Prop :=
  match state p with
  | BUFFER_STATE_HEADER => buf p = header_buffer p ∧ req_len p = Z.max 0 (header_len p - index p)
  | BUFFER_STATE_BODY => buf p = body p ∧ req_len p = Z.max 0 (body_len p - index p)
  | BUFFER_STATE_BUTT => False
  end.

Lemma phase_window m p : packet_ok m p → phase_ok p → window_ok m p.
Proof.
  intros [Hh Hb Hi [_ Hhd] Hbd] Hp. unfold phase_ok in Hp. unfold window_ok.
  destruct (state p); [| |done].
  - destruct Hp as [-> Hr]. destruct (decide (req_len p = 0)); [by left|right].
    exists (header_len p). split; [done|]. lia.
  - destruct Hp as [-> Hr]. destruct (decide (req_len p = 0)); [by left|right].
    destruct Hbd as [[??]|(?&?&cap&?&?)]; [lia|]. exists cap. split; [done|]. lia.
Qed.

(** Reports of arrived bytes, with the last result. *)
Fixpoint feed (lens : list Z) (packet : option packet_buffer_t) : res (Z * option packet_buffer_t) :=
  match lens with
  | [] => mret (RECV_STATE_IN_PROGRESS, packet)
  | [len] => packet_buffer_update_index packet len
  | len :: lens => r ← packet_buffer_update_index packet len; feed lens r.2
  end.

Definition sum (l : list Z) : Z := foldr Z.add 0 l.

(** Length of the phase, and what its completion returns. *)
Definition phase_len (p : packet_buffer_t) : Z :=
  match state p with
  | BUFFER_STATE_HEADER => header_len p
  | _ => body_len p
  end.
Definition phase_done (p : packet_buffer_t) : Z :=
  match state p with
  | BUFFER_STATE_HEADER => RECV_STATE_HEADER_COMPLETE
  | _ => RECV_STATE_BODY_COMPLETE
  end.
Definition advance (p : packet_buffer_t) (len : Z) : packet_buffer_t :=
  PacketBuffer (header_len p) (header_buffer p) (body_len p) (body p)
    (index p + len) (Z.max 0 (phase_len p - (index p + len))) (buf p) (state p).

(** ** The operations on a well-formed packet *)

Lemma update_index_run p len :
  state p ≠ BUFFER_STATE_BUTT → 0 ≤ index p → 0 ≤ len →
  0 ≤ phase_len p < 2 ^ 31 → index p + len < 2 ^ 31 →
  packet_buffer_update_index (Some p) len =
    Ok (if decide (index p + len < phase_len p) then RECV_STATE_IN_PROGRESS else phase_done p,
        Some (advance p len)).
Proof.
  intros Hs Hi Hl Hp Hn. unfold packet_buffer_update_index, advance, phase_len, phase_done in *.
  rewrite signed_op_ok by (unfold in_s; lia). simpl.
  destruct (state p); [| |done]; rewrite signed_op_ok by (unfold in_s; lia); simpl;
    repeat case_decide; try lia; unfold mret, res_ret; do 4 f_equal; lia.
Qed.

Lemma advance_phase_ok p len : phase_ok p → phase_ok (advance p len).
Proof. unfold phase_ok, advance, phase_len. destruct (state p) eqn:E; simpl; naive_solver. Qed.

Lemma advance_packet_ok m p len : 0 ≤ len → packet_ok m p → packet_ok m (advance p len).
Proof. intros ? []. split; simpl; [done|done|lia|done|done]. Qed.

Lemma phase_not_butt p : phase_ok p → state p ≠ BUFFER_STATE_BUTT.
Proof. unfold phase_ok. by destruct (state p). Qed.

Lemma phase_len_range m p : packet_ok m p → 0 ≤ phase_len p < 2 ^ 31.
Proof. intros []. unfold phase_len. by destruct (state p). Qed.

Lemma update_header_run p :
  ∃ p', packet_buffer_update_header (Some p) = (0, Some p') ∧
    (∀ m, packet_ok m p → packet_ok m p' ∧ phase_ok p').
Proof.
  eexists. split; [done|]. intros m []. split; [split; simpl; (done || lia)|].
  unfold phase_ok. simpl. split; [done|lia].
Qed.

(** A growing body is reallocated; the old block is gone. *)
Lemma update_body_grow m p blen b :
  packet_ok m p → body_len p < blen < 2 ^ 31 → b ≠ 0 →
  (m !! b = None ∨ b = body p) →
  ∃ p' m', packet_buffer_update_body m (Some b) (Some p) blen = Ok (0, Some p', m') ∧
    packet_ok m' p' ∧ phase_ok p' ∧ body_len p' = blen ∧ index p' = 0 ∧ state p' = BUFFER_STATE_BODY.
Proof.
  intros [Hh Hb Hi [Hh0 Hhd] Hbd] Hg Hb0 Hf. unfold packet_buffer_update_body.
  rewrite decide_True by lia. unfold realloc, free.
  assert (u64 blen = blen) as Hu by (apply wrap_u_small; unfold in_u; lia).
  assert (b ≠ header_buffer p).
  { intros ->. destruct Hf as [Hf|Hf]; [congruence|]. destruct Hbd as [[? ?]|(?&?&_)]; congruence. }
  destruct (decide (body p = 0)) as [Hz|Hz]; simpl.
  - do 2 eexists. split; [done|]. split; [|split; [unfold phase_ok; simpl; split; [done|lia]|done]].
    split; simpl; [lia|lia|lia| |].
    + split; [done|]. by rewrite lookup_insert_ne.
    + right. split_and!; [done|done|]. exists (u64 blen). rewrite lookup_insert_eq. split; [done|lia].
  - destruct Hbd as [[? ?]|(?&?&cap&Hc&?)]; [done|]. rewrite Hc. simpl.
    do 2 eexists. split; [done|]. split; [|split; [unfold phase_ok; simpl; split; [done|lia]|done]].
    split; simpl; [lia|lia|lia| |].
    + split; [done|]. by rewrite lookup_insert_ne, lookup_delete_ne.
    + right. split_and!; [done|done|]. exists (u64 blen). rewrite lookup_insert_eq. split; [done|lia].
Qed.

(** A body that fits is received where [buf] happens to point. *)
Lemma update_body_reuse m a p blen :
  packet_ok m p → 0 ≤ blen ≤ body_len p →
  ∃ p', packet_buffer_update_body m a (Some p) blen = Ok (0, Some p', m) ∧
    packet_ok m p' ∧ buf p' = buf p ∧ index p' = 0 ∧ req_len p' = blen ∧
    body p' = body p ∧ body_len p' = blen ∧ state p' = BUFFER_STATE_BODY.
Proof.
  intros [Hh Hb Hi Hhd Hbd] Hl. unfold packet_buffer_update_body. rewrite decide_False by lia.
  eexists. split; [done|]. split_and!; [|done..].
  split; simpl; [done|lia|lia|done|].
  destruct Hbd as [[??]|(?&?&cap&?&?)]; [left; lia|right]. split_and!; [done..|]. exists cap. split; [done|lia].
Qed.

(** ** Executions

    The calls of a client that reports no more bytes than were requested, and
    whose packets each have a longer body than all earlier ones (or whose shorter
    body directly follows another body).  The allocator answers with a block that
    is not in use; [realloc] may also keep the old block where it is. *)
Inductive step : blocks * packet_buffer_t → blocks * packet_buffer_t → Prop :=
  | step_header m p p' :
      packet_buffer_update_header (Some p) = (0, Some p') → step (m, p) (m, p')
  | step_index m p len r p' :
      0 ≤ len ≤ req_len p → packet_buffer_update_index (Some p) len = Ok (r, Some p') →
      step (m, p) (m, p')
  | step_body m p blen a r p' m' :
      0 ≤ blen < 2 ^ 31 → (body_len p < blen ∨ state p = BUFFER_STATE_BODY) →
      (∀ b, a = Some b → b ≠ 0 ∧ (m !! b = None ∨ b = body p)) →
      packet_buffer_update_body m a (Some p) blen = Ok (r, Some p', m') →
      step (m, p) (m', p').

Definition good (c : blocks * packet_buffer_t) : Prop :=
  packet_ok c.1 c.2 ∧ phase_ok c.2 ∧ index c.2 ≤ phase_len c.2.

(** A report of no more bytes than were requested. *)
Lemma update_index_good m p len :
  good (m, p) → 0 ≤ len ≤ req_len p →
  ∃ r, packet_buffer_update_index (Some p) len = Ok (r, Some (advance p len)) ∧ good (m, advance p len).
Proof.
  intros (Hok & Hph & Hix) Hl. cbn [fst snd] in *. pose proof (phase_len_range m p Hok).
  pose proof (po_index m p Hok).
  assert (index p + len ≤ phase_len p) by (unfold phase_ok, phase_len in *; destruct (state p); lia).
  rewrite update_index_run by (try apply phase_not_butt; lia || done). eexists. split; [done|].
  split; [apply advance_packet_ok; [lia|done]|]. split; [by apply advance_phase_ok|]. done.
Qed.

Lemma update_body_good m p blen a :
  good (m, p) → 0 ≤ blen < 2 ^ 31 → (body_len p < blen ∨ state p = BUFFER_STATE_BODY) →
  (∀ b, a = Some b → b ≠ 0 ∧ (m !! b = None ∨ b = body p)) →
  ∃ r p' m', packet_buffer_update_body m a (Some p) blen = Ok (r, Some p', m') ∧ good (m', p').
Proof.
  intros (Hok & Hph & Hix) Hb Hc Ha. cbn [fst snd] in *. destruct (decide (body_len p < blen)) as [Hg|Hg].
  - destruct a as [b|].
    + destruct (Ha b eq_refl) as [Hb0 Hbf].
      destruct (update_body_grow m p blen b) as (p1 & m1 & H1 & H2 & H3 & H4 & H5 & H6); [done|lia|done|done|].
      exists 0, p1, m1. split; [done|]. split; [done|]. split; [done|]. unfold phase_len.
      cbn [snd]. rewrite H5, H6, H4. lia.
    + exists (-1), p, m. split; [|done]. unfold packet_buffer_update_body. by rewrite decide_True by lia.
  - destruct Hc as [?|Hst]; [lia|].
    destruct (update_body_reuse m a p blen) as (p1 & H1 & H2 & Hbf & Hi & Hrq & Hbd & Hbl & Hs1); [done|lia|].
    exists 0, p1, m. split; [done|]. split; [done|]. unfold phase_ok, phase_len in *. cbn [snd].
    rewrite Hst in Hph. rewrite Hs1, Hbf, Hbd, Hi, Hrq, Hbl. split; [|lia]. split; [apply Hph|lia].
Qed.

Lemma step_good c c' : good c → step c c' → good c'.
Proof.
  intros Hg Hs. destruct Hs as [m p p' Hr|m p len r p' Hl Hr|m p blen a r p' m' Hb Hc Ha Hr].
  - destruct Hg as (Hok & _ & _). injection Hr as <-. pose proof (po_hlen _ _ Hok).
    destruct (update_header_run p) as (p1 & [= <-] & H2). destruct (H2 m Hok) as [? ?].
    split; [done|]. split; [done|]. simpl. unfold phase_len. simpl in *. lia.
  - destruct (update_index_good m p len Hg Hl) as (? & H1 & ?). rewrite H1 in Hr. by injection Hr as <- <-.
  - destruct (update_body_good m p blen a Hg Hb Hc Ha) as (? & ? & ? & H1 & ?). rewrite H1 in Hr.
    by injection Hr as <- <- <-.
Qed.

Lemma reachable_good c c' : good c → rtc step c c' → good c'.
Proof. intros Hg Hr. induction Hr; eauto using step_good. Qed.

Lemma feed_run m p lens :
  packet_ok m p → phase_ok p → lens ≠ [] → Forall (λ l, 0 ≤ l) lens →
  index p + sum lens ≤ phase_len p →
  feed lens (Some p) =
    Ok (if decide (index p + sum lens < phase_len p) then RECV_STATE_IN_PROGRESS else phase_done p,
        Some (advance p (sum lens))).
Proof.
  intros Hok Hph Hne Hl. revert p Hok Hph. induction Hl as [|len lens Hlen Hl IH]; intros p Hok Hph Hs; [done|].
  pose proof (phase_len_range _ _ Hok). pose proof (po_index _ _ Hok).
  assert (0 ≤ sum lens) by (clear -Hl; induction Hl; simpl in *; lia).
  assert (state p ≠ BUFFER_STATE_BUTT) by by apply phase_not_butt.
  unfold sum in *. cbn [foldr] in *. destruct lens as [|len2 lens].
  - cbn [feed foldr] in *. rewrite !Z.add_0_r in *. rewrite update_index_run by (lia || done). done.
  - change (feed (len :: len2 :: lens) (Some p))
      with (r ← packet_buffer_update_index (Some p) len; feed (len2 :: lens) r.2).
    rewrite update_index_run by (lia || done). rewrite bind_Ok. cbn [snd].
    rewrite IH; [|done|by apply advance_packet_ok|by apply advance_phase_ok|].
    + unfold advance. cbn [index phase_len header_len body_len state phase_done].
      unfold phase_len, phase_done. cbn [index phase_len header_len body_len state].
      replace (index p + len + foldr Z.add 0 (len2 :: lens))
        with (index p + (len + foldr Z.add 0 (len2 :: lens))) by lia. done.
    + unfold advance, phase_len in *. cbn [index header_len body_len state] in *. lia.
Qed.

(** ** Properties *)

(** A packet with a 4-byte header in block 100, right after [init]. *)
Definition demo_packet : packet_buffer_t :=
  PacketBuffer 4 100 0 0 0 4 100 BUFFER_STATE_HEADER.
Definition demo_blocks : blocks := {[ 100 := 4 ]}.

Lemma demo_good : good (demo_blocks, demo_packet).
Proof. split; [split; simpl; (lia || (split; [done|reflexivity]) || auto)|]. by split; [split|]. Qed.

(** C14: buffer safety.  From a freshly initialised packet, along any sequence
    of header resets, progress reports that do not exceed the requested length,
    and body requests that grow the body or follow another body (a request may
    fail for lack of memory, and a growing block may move or stay): every read the
    packet asks for ([req_len] bytes at [buf + index]) lies inside the block
    [buf] points to, [buf] is the block of the current phase, and the next such
    call is defined. *)
Theorem packet_window_safe m a hlen p0 p m1 m2 p2 :
  0 ≤ hlen < 2 ^ 31 → (∀ b, a = Some b → b ≠ 0 ∧ m !! b = None) →
  packet_buffer_init m a (Some p0) hlen = Ok (0, Some p, m1) →
  rtc step (m1, p) (m2, p2) →
  window_ok m2 p2 ∧ phase_ok p2 ∧
  (∀ len, 0 ≤ len ≤ req_len p2 → ∃ r p', packet_buffer_update_index (Some p2) len = Ok (r, Some p')) ∧
  (∀ blen a2, 0 ≤ blen < 2 ^ 31 → (body_len p2 < blen ∨ state p2 = BUFFER_STATE_BODY) →
     (∀ b, a2 = Some b → b ≠ 0 ∧ (m2 !! b = None ∨ b = body p2)) →
     ∃ r p' m', packet_buffer_update_body m2 a2 (Some p2) blen = Ok (r, Some p', m')).
Proof.
  intros Hh Ha Hinit Hr. unfold packet_buffer_init, alloc in Hinit. destruct a as [b|]; [|done].
  destruct (Ha b eq_refl) as [Hb _]. simpl in Hinit. injection Hinit as <- <-.
  assert (Hg : good (m2, p2)).
  { eapply reachable_good; [|exact Hr].
    split; [|split; [unfold phase_ok; simpl; split; [done|lia]|unfold phase_len; simpl; lia]].
    split; simpl; [lia|lia|lia| |by left]. split; [done|]. rewrite lookup_insert_eq.
    f_equal. apply wrap_u_small. unfold in_u. lia. }
  pose proof Hg as (Hok & Hph & _). split; [by apply phase_window|]. split; [done|]. split.
  - intros len Hl. destruct (update_index_good m2 p2 len Hg Hl) as (r & ? & _). eauto.
  - intros blen a2 H1 H2 H3. destruct (update_body_good m2 p2 blen a2 Hg H1 H2 H3) as (r & p' & m' & ? & _). eauto.
Qed.

(** A header of 4 bytes, a body of 8 in block 200, another header, and a body of 16
    for which the block grows in place, of which 5 bytes have arrived. *)
Lemma packet_window_safe_witness :
  ∃ m2 p2, rtc step (<[100 := 4]> ∅, demo_packet) (m2, p2) ∧ m2 !! 200 = Some 16 ∧
    packet_buffer_get_buf (Some p2) = (200, 5) ∧ req_len p2 = 11 ∧ window_ok m2 p2 ∧ phase_ok p2.
Proof.
  assert (∃ m2 p2, rtc step (<[100 := 4]> ∅, demo_packet) (m2, p2) ∧ m2 !! 200 = Some 16 ∧
    packet_buffer_get_buf (Some p2) = (200, 5) ∧ req_len p2 = 11) as (m2 & p2 & Hr & Hm & Hb & Hq).
  { eexists _, _. split.
    - eapply rtc_l; [eapply (step_index _ _ 4); [vm_compute; split; discriminate|vm_compute; reflexivity]|].
      eapply rtc_l; [eapply (step_body _ _ 8 (Some 200)); [split; lia|left; vm_compute; reflexivity| |vm_compute; reflexivity]|].
      { intros b [= <-]. split; [discriminate|left; reflexivity]. }
      eapply rtc_l; [eapply (step_index _ _ 8); [vm_compute; split; discriminate|vm_compute; reflexivity]|].
      eapply rtc_l; [apply step_header; vm_compute; reflexivity|].
      eapply rtc_l; [eapply (step_index _ _ 4); [vm_compute; split; discriminate|vm_compute; reflexivity]|].
      eapply rtc_l; [eapply (step_body _ _ 16 (Some 200)); [split; lia|left; vm_compute; reflexivity| |vm_compute; reflexivity]|].
      { intros b [= <-]. split; [discriminate|right; reflexivity]. }
      eapply rtc_l; [eapply (step_index _ _ 5); [vm_compute; split; discriminate|vm_compute; reflexivity]|].
      apply rtc_refl.
    - split; [reflexivity|split; reflexivity]. }
  exists m2, p2. split; [exact Hr|]. split; [exact Hm|]. split; [exact Hb|]. split; [exact Hq|].
  destruct (packet_window_safe ∅ (Some 100) 4 demo_packet demo_packet (<[100 := 4]> ∅) m2 p2)
    as (H1 & H2 & _).
  - lia.
  - intros b [= <-]. split; [discriminate|reflexivity].
  - reflexivity.
  - exact Hr.
  - split; [exact H1|exact H2].
Defined.

(** Reassembly does not depend on how the bytes arrive.  Reporting any
    nonempty list of chunk lengths that together do not exceed the phase returns
    "in progress" exactly while bytes are missing and "complete" (header or body)
    exactly when the last one arrived, with [index] the total received and
    [req_len] what is left. *)
Lemma packet_feed_chunks m p lens :
  packet_ok m p → phase_ok p → lens ≠ [] → Forall (λ l, 0 ≤ l) lens →
  index p + sum lens ≤ phase_len p →
  ∃ r p', feed lens (Some p) = Ok (r, Some p') ∧
    (r = RECV_STATE_IN_PROGRESS ↔ index p + sum lens < phase_len p) ∧
    (r = phase_done p ↔ index p + sum lens = phase_len p) ∧
    index p' = index p + sum lens ∧ req_len p' = phase_len p - index p' ∧
    packet_buffer_get_len (Some p') = index p + sum lens ∧
    packet_buffer_get_buf (Some p') = (buf p, index p + sum lens).
Proof.
  intros Hok Hph Hne Hl Hs. rewrite (feed_run m) by done. do 2 eexists. split; [done|].
  assert (phase_done p ≠ RECV_STATE_IN_PROGRESS) by (unfold phase_done; by destruct (state p)).
  simpl. split_and!; try done.
  - case_decide; split; intros; (done || lia).
  - case_decide; split; intros; (done || lia || congruence).
  - lia.
Qed.

Lemma packet_feed_chunks_witness :
  ∃ r p', feed [1; 2; 1] (Some demo_packet) = Ok (r, Some p') ∧ r = RECV_STATE_HEADER_COMPLETE.
Proof.
  destruct (packet_feed_chunks demo_blocks demo_packet [1; 2; 1]) as (r & p' & Hr & _ & Hd & _).
  - apply demo_good.
  - apply demo_good.
  - discriminate.
  - repeat constructor; lia.
  - vm_compute. discriminate.
  - exists r, p'. split; [exact Hr|]. apply Hd. reflexivity.
Defined.

(** A shorter second body is received into the header block.  When
    [update_body] follows [update_header] and the body fits the existing body
    block, [buf] still points to the header: if the body is longer than the
    header, the requested read overruns the header block. *)
Lemma packet_short_body_overruns m a p blen p1 p2 m2 :
  packet_ok m p → header_len p < blen ≤ body_len p →
  packet_buffer_update_header (Some p) = (0, Some p1) →
  packet_buffer_update_body m a (Some p1) blen = Ok (0, Some p2, m2) →
  buf p2 = header_buffer p2 ∧ req_len p2 = blen ∧ ¬ window_ok m2 p2.
Proof.
  intros Hok Hb Hh Hu. destruct (update_header_run p) as (p1' & Hh' & Hok1).
  rewrite Hh in Hh'. injection Hh' as <-. destruct (Hok1 m Hok) as [Hk _].
  simpl in Hh. injection Hh as Hh.
  assert (buf p1 = header_buffer p ∧ header_buffer p1 = header_buffer p ∧ body_len p1 = body_len p)
    as (E1 & E2 & E3) by (by subst p1).
  destruct (update_body_reuse m a p1 blen Hk) as (p2' & Hu' & _ & Hbf & Hix & Hrq & _).
  { destruct Hok. lia. }
  rewrite Hu in Hu'. injection Hu' as <- <-.
  assert (header_buffer p2 = header_buffer p) as E4.
  { unfold packet_buffer_update_body in Hu. rewrite decide_False in Hu by lia.
    injection Hu as <-. done. }
  rewrite E4. split_and!; [congruence|done|]. intros [Hz|(size & Hs & _ & _ & Hle)].
  - destruct Hok. lia.
  - rewrite Hbf, E1 in Hs. destruct (po_hdr _ _ Hok) as [_ Hsz]. rewrite Hsz in Hs.
    injection Hs as <-. lia.
Qed.

Lemma packet_short_body_overruns_witness :
  ∃ p1 p2, packet_buffer_update_header (Some (PacketBuffer 4 100 64 200 64 0 200 BUFFER_STATE_BODY)) =
      (0, Some p1) ∧
    packet_buffer_update_body {[ 100 := 4; 200 := 64 ]} None (Some p1) 32 =
      Ok (0, Some p2, {[ 100 := 4; 200 := 64 ]}) ∧
    ¬ window_ok {[ 100 := 4; 200 := 64 ]} p2.
Proof.
  do 2 eexists. split; [reflexivity|]. split; [reflexivity|].
  eapply (packet_short_body_overruns {[ 100 := 4; 200 := 64 ]} None
            (PacketBuffer 4 100 64 200 64 0 200 BUFFER_STATE_BODY) 32).
  - split; simpl; [lia|lia|lia|split; [done|reflexivity]|right].
    split_and!; [done|done|]. exists 64. split; [reflexivity|lia].
  - simpl. lia.
  - reflexivity.
  - reflexivity.
Defined.

(** [packet_buffer_destroy] frees exactly the two blocks of the packet,
    each once, and a second call frees nothing. *)
Lemma packet_destroy_frees m p :
  packet_ok m p →
  ∃ p' m', packet_buffer_destroy m (Some p) = Ok (0, Some p', m') ∧
    m' !! header_buffer p = None ∧ (body p ≠ 0 → m' !! body p = None) ∧
    (∀ b, b ≠ header_buffer p → b ≠ body p → m' !! b = m !! b) ∧
    (∀ m2, packet_buffer_destroy m2 (Some p') = Ok (0, Some p', m2)).
Proof.
  intros [_ _ _ [Hh0 Hhd] Hbd]. unfold packet_buffer_destroy, free.
  rewrite decide_True by done. rewrite decide_False by done. rewrite Hhd. simpl.
  destruct Hbd as [[Hb0 _]|(Hb0 & Hbh & cap & Hc & _)].
  - rewrite decide_False by auto. simpl. do 2 eexists. split; [done|].
    rewrite lookup_delete_eq. split_and!; [done|done| |done].
    intros b ? _. by rewrite lookup_delete_ne.
  - rewrite decide_True by done. rewrite decide_False by done.
    rewrite lookup_delete_ne, Hc by done. simpl. do 2 eexists. split; [done|].
    rewrite lookup_delete_eq. split_and!; [|done| |done].
    + by rewrite lookup_delete_ne, lookup_delete_eq.
    + intros b ??. by rewrite !lookup_delete_ne.
Qed.

Lemma packet_destroy_frees_witness :
  ∃ p' m', packet_buffer_destroy demo_blocks (Some demo_packet) = Ok (0, Some p', m') ∧
    m' !! 100 = None.
Proof.
  destruct (packet_destroy_frees demo_blocks demo_packet) as (p' & m' & ? & ? & _).
  - apply demo_good.
  - exists p', m'. split; assumption.
Defined.
