(* ===== verification/Stats.v ===== *)
(** * Stats: running statistics of linux/utils/src/stats.c

    Minimum, maximum and a batched mean of a stream of [int] samples.  The
    members keep their C widths: [min], [max] and [batch] are [uint64_t],
    [average] is [int64_t], the counters are [int].  A sample is converted to
    [uint64_t] before it is compared or added, as the usual arithmetic
    conversions require. *)

From S2P Require Import Prelude.

(** [MIN] and [MAX] of linux/utils/include/common_macro.h, on operands already
    converted to their common type. *)
Definition MAX (a b : Z) : Z := if decide (a < b) then b else a.
Definition MIN (a b : Z) : Z := if decide (a > b) then b else a.

Record stats_t := Stats {
  min : Z;
  max : Z;
  average : Z;
  nr_samples : Z;
  batch : Z;
  nr_batch : Z;
  max_batch : Z;
}.

(** A null [stats] is [None]. *)
Definition flush_batch (stats : option stats_t) : res (option stats_t) :=
  match stats with
  | None => mret None
  | Some s =>
      if decide (nr_batch s = 0) then mret (Some s)
      else
        avg ← (if decide (nr_samples s = 0) then div_op (batch s) (u64 (nr_batch s))
               else
                 prod ← signed_op 64 (average s * nr_samples s);
                 n ← signed_op 32 (nr_samples s + nr_batch s);
                 div_op (u64 (prod + batch s)) (u64 n));
        n ← signed_op 32 (nr_samples s + nr_batch s);
        mret (Some (Stats (min s) (max s) (s64 avg) n 0 0 (max_batch s)))
  end.

(** [-1UL] is [2^64 - 1]. *)
Definition stats_init (stats : option stats_t) : Z * option stats_t :=
  match stats with
  | None => (-1, None)
  | Some _ => (0, Some (Stats (u64 (-1)) 0 0 0 0 0 32))
  end.

Definition stats_add (stats : option stats_t) (value : Z) : res (Z * option stats_t) :=
  match stats with
  | None => mret (-1, None)
  | Some s =>
      let v := u64 value in
      let s := Stats (MIN (min s) v) (MAX (max s) v) (average s) (nr_samples s)
                 (batch s) (nr_batch s) (max_batch s) in
      let wraps := bool_decide (u64 (batch s + v) < batch s) in
      full ← (if wraps then mret true
              else n ← signed_op 32 (nr_batch s + 1); mret (bool_decide (n = max_batch s)));
      os ← (if full : bool then flush_batch (Some s) else mret (Some s));
      match os with
      | None => Ub NullDeref
      | Some s =>
          n ← signed_op 32 (nr_batch s + 1);
          mret (0, Some (Stats (min s) (max s) (average s) (nr_samples s)
                           (u64 (batch s + v)) n (max_batch s)))
      end
  end.

Definition stats_set_max_batch (stats : option stats_t) (mb : Z) : Z * option stats_t :=
  match stats with
  | None => (-1, None)
  | Some s =>
      (0, Some (Stats (min s) (max s) (average s) (nr_samples s) (batch s) (nr_batch s) mb))
  end.

(** The report is the tuple handed to [LOG_INFO]: min, max, average, nr_samples. *)
Definition stats_print (stats : option stats_t)
    : res (option (Z * Z * Z * Z) * option stats_t) :=
  match stats with
  | None => mret (None, None)
  | Some _ =>
      os ← flush_batch stats;
      match os with
      | None => Ub NullDeref
      | Some s => mret (Some (min s, max s, average s, nr_samples s), Some s)
      end
  end.

(** Samples recorded one after the other. *)
Fixpoint add_all (stats : option stats_t) (vs : list Z) : res (option stats_t) :=
  match vs with
  | [] => mret stats
  | v :: vs => r ← stats_add stats v; add_all r.2 vs
  end.

(** A whole use of the module: initialise, choose the batch size, record the
    samples and print. *)
Definition session (s0 : stats_t) (mb : Z) (vs : list Z) : res (option (Z * Z * Z * Z)) :=
  let s := (stats_init (Some s0)).2 in
  let s := (stats_set_max_batch s mb).2 in
  s ← add_all s vs;
  r ← stats_print s;
  mret r.1.

(** ** The running mean *)

Definition sum (vs : list Z) : Z := foldr Z.add 0 vs.
Definition minimum (vs : list Z) : Z := foldr Z.min (2 ^ 64 - 1) vs.
Definition maximum (vs : list Z) : Z := foldr Z.max 0 vs.

Lemma sum_snoc vs v : sum (vs ++ [v]) = sum vs + v.
Proof. induction vs as [|x vs IH]; simpl; [lia|]. unfold sum in *. simpl. lia. Qed.
Lemma minimum_snoc vs v : minimum (vs ++ [v]) = Z.min (minimum vs) (Z.min v (2 ^ 64 - 1)).
Proof. induction vs as [|x vs IH]; unfold minimum in *; simpl in *; lia. Qed.
Lemma maximum_snoc vs v : maximum (vs ++ [v]) = Z.max (maximum vs) (Z.max v 0).
Proof. induction vs as [|x vs IH]; unfold maximum in *; simpl in *; lia. Qed.

(** A sample that fits a non-negative [int]. *)
Definition sample_ok (v : Z) : Prop := 0 ≤ v < 2 ^ 31.

Lemma sum_bound vs :
  Forall sample_ok vs → 0 ≤ sum vs ≤ Z.of_nat (length vs) * (2 ^ 31 - 1).
Proof.
  induction 1 as [|v vs Hv _ IH]; unfold sum in *; simpl; [lia|].
  unfold sample_ok in Hv. lia.
Qed.

(** After the samples [vs] and [f] flushes: the counters add up, and [f]
    truncating divisions have lost at most [nr_samples - 1] each from the
    total. *)
Record tracks (s : stats_t) (vs : list Z) (f : Z) : Prop := {
  tr_count : nr_samples s + nr_batch s = Z.of_nat (length vs);
  tr_ns : 0 ≤ nr_samples s;
  tr_nb : 0 ≤ nr_batch s;
  tr_avg : 0 ≤ average s;
  tr_batch : 0 ≤ batch s;
  tr_f : 0 ≤ f ∧ (nr_samples s = 0 → f = 0);
  tr_low : average s * nr_samples s + batch s ≤ sum vs;
  tr_high : sum vs ≤ average s * nr_samples s + batch s + f * (nr_samples s - 1);
}.

Definition bounded (vs : list Z) : Prop :=
  Forall sample_ok vs ∧ Z.of_nat (length vs) < 2 ^ 31.

(** Replacing a mean of [n] samples and a batch of [k] by the truncated mean of
    all of them. *)
Lemma mean_step a n b k f S :
  0 ≤ n → 0 < k → 0 ≤ f → (n = 0 → f = 0) →
  a * n + b ≤ S ≤ a * n + b + f * (n - 1) →
  (a * n + b) / (n + k) * (n + k) ≤ S ≤
  (a * n + b) / (n + k) * (n + k) + (f + 1) * (n + k - 1).
Proof.
  intros. pose proof (Z.div_mod (a * n + b) (n + k)) as Hd.
  pose proof (Z.mod_pos_bound (a * n + b) (n + k)).
  assert (f * (n - 1) ≤ f * (n + k - 1)) by nia. nia.
Qed.

Lemma flush_tracks s vs f :
  bounded vs → tracks s vs f → nr_batch s ≠ 0 →
  ∃ s', flush_batch (Some s) = Ok (Some s') ∧ tracks s' vs (f + 1) ∧
        nr_batch s' = 0 ∧ batch s' = 0 ∧ max_batch s' = max_batch s ∧
        nr_samples s' = nr_samples s + nr_batch s ∧ min s' = min s ∧ max s' = max s.
Proof.
  intros [Hok Hlen] [Hc Hns Hnb Ha Hb [Hf Hf0] Hlo Hhi] Hnz.
  pose proof (sum_bound vs Hok) as HS.
  assert (0 ≤ average s * nr_samples s) by nia.
  assert (sum vs < 2 ^ 62) by nia.
  set (q := (average s * nr_samples s + batch s) / (nr_samples s + nr_batch s)).
  assert (Hq : 0 ≤ q < 2 ^ 62).
  { split; [apply Z.div_pos; lia|]. apply Z.div_lt_upper_bound; nia. }
  pose proof (mean_step (average s) (nr_samples s) (batch s) (nr_batch s) f (sum vs)
    Hns ltac:(lia) Hf Hf0 ltac:(lia)) as Hstep. fold q in Hstep.
  exists (Stats (min s) (max s) q (nr_samples s + nr_batch s) 0 0 (max_batch s)).
  split; [|split; [split; simpl; lia|done]].
  unfold flush_batch. rewrite decide_False by done.
  rewrite !(signed_op_ok 32) by (unfold in_s; lia).
  assert (Hs : (if decide (nr_samples s = 0) then div_op (batch s) (u64 (nr_batch s))
    else prod ← signed_op 64 (average s * nr_samples s);
         n ← Ok (nr_samples s + nr_batch s); div_op (u64 (prod + batch s)) (u64 n)) = Ok q).
  { case_decide as Hz.
    - rewrite wrap_u_small by (unfold in_u; lia). rewrite div_op_pos by lia.
      f_equal. unfold q. by rewrite Hz, Z.mul_0_r, !Z.add_0_l.
    - rewrite signed_op_ok by (unfold in_s; lia). simpl.
      rewrite !wrap_u_small by (unfold in_u; lia). by rewrite div_op_pos by lia. }
  rewrite Hs. simpl. by rewrite wrap_s_small by (unfold in_s; lia).
Qed.

(** How many flushes a batch size causes before the final one. *)
Definition cadence (s : stats_t) (vs : list Z) (mb f : Z) : Prop :=
  max_batch s = mb ∧ (vs ≠ [] → 1 ≤ nr_batch s) ∧
  (if decide (2 ≤ mb) then f * (mb - 1) = nr_samples s ∧ nr_batch s ≤ mb - 1 else f = 0).

Lemma flush_idle s : nr_batch s = 0 → flush_batch (Some s) = Ok (Some s).
Proof. intros E. unfold flush_batch. by rewrite decide_True. Qed.

Lemma bounded_snoc vs v : bounded (vs ++ [v]) → bounded vs ∧ sample_ok v ∧
  Z.of_nat (length vs) + 1 < 2 ^ 31.
Proof.
  intros [[H1 H2]%Forall_app H3]. rewrite length_app in H3. simpl in H3.
  rewrite Forall_singleton in H2. split; [split; [done|lia]|split; [exact H2|lia]].
Qed.

(** The last stores of [stats_add]: the sample joins the current batch. *)
Lemma tracks_snoc mn mx s vs f v :
  tracks s vs f → sample_ok v →
  tracks (Stats mn mx (average s) (nr_samples s) (batch s + v) (nr_batch s + 1) (max_batch s))
    (vs ++ [v]) f.
Proof.
  intros [Hc Hns Hnb Ha Hb [Hf Hf0] Hlo Hhi] Hv. unfold sample_ok in Hv.
  split; simpl; rewrite ?sum_snoc, ?length_app; simpl; lia.
Qed.

Lemma tracks_extremes mn mx s vs f :
  tracks s vs f →
  tracks (Stats mn mx (average s) (nr_samples s) (batch s) (nr_batch s) (max_batch s)) vs f.
Proof. intros []. by split. Qed.

Definition extremes (s : stats_t) (vs : list Z) : Prop :=
  min s = minimum vs ∧ max s = maximum vs.

(** The conditional flush inside [stats_add]. *)
Lemma maybe_flush s vs f mb :
  bounded vs → tracks s vs f → cadence s vs mb f →
  ∃ s' f', (if bool_decide (nr_batch s + 1 = max_batch s) then flush_batch (Some s)
            else mret (Some s)) = Ok (Some s') ∧
    tracks s' vs f' ∧ max_batch s' = mb ∧ min s' = min s ∧ max s' = max s ∧
    (if decide (2 ≤ mb) then f' * (mb - 1) = nr_samples s' ∧ nr_batch s' < mb - 1 else f' = 0).
Proof.
  intros Hvs Ht (Hmb & Hne & Hcad). pose proof (tr_nb _ _ _ Ht).
  case_bool_decide as Hfull; [destruct (decide (nr_batch s = 0)) as [Hz|Hz]|].
  - exists s, f. rewrite flush_idle by done. split_and!; try done. case_decide; lia.
  - destruct (flush_tracks s vs f Hvs Ht Hz) as (s' & Hfl & Ht' & Hnb & Hb & Hm & Hn & Hx & Hy).
    exists s', (f + 1). split_and!; try done; [by rewrite Hm|].
    rewrite decide_True in Hcad |- * by lia. lia.
  - exists s, f. split_and!; try done. case_decide; lia.
Qed.

Lemma stats_add_tracks s vs f mb v :
  bounded (vs ++ [v]) → tracks s vs f → cadence s vs mb f → extremes s vs →
  ∃ s' f', stats_add (Some s) v = Ok (0, Some s') ∧
    tracks s' (vs ++ [v]) f' ∧ cadence s' (vs ++ [v]) mb f' ∧ extremes s' (vs ++ [v]).
Proof.
  intros (Hvs & Hv & Hlen)%bounded_snoc Ht Hcad [Hmin Hmax]. pose proof Ht as Hs.
  destruct Hs as [Hc Hns Hnb Ha Hb [Hf Hf0] Hlo Hhi].
  pose proof (sum_bound vs (proj1 Hvs)) as HS. pose proof Hv as Hv'. unfold sample_ok in Hv'.
  assert (Hsb : batch s + v < 2 ^ 63) by nia.
  unfold stats_add. cbv zeta. cbn [min max average nr_samples batch nr_batch max_batch].
  rewrite !(wrap_u_small 64 v) by (unfold in_u; lia).
  rewrite (wrap_u_small 64 (batch s + v)) by (unfold in_u; lia).
  rewrite bool_decide_false by lia. rewrite signed_op_ok by (unfold in_s; lia).
  rewrite !bind_Ok.
  destruct (maybe_flush (Stats (MIN (min s) v) (MAX (max s) v) (average s) (nr_samples s)
      (batch s) (nr_batch s) (max_batch s)) vs f mb Hvs (tracks_extremes _ _ _ _ _ Ht) Hcad)
    as (s' & f' & Hfl & Ht' & Hm' & Hx & Hy & Hcad').
  cbn [min max average nr_samples batch nr_batch max_batch] in Hfl, Hx, Hy.
  rewrite Hfl, bind_Ok. pose proof (tr_count _ _ _ Ht'). pose proof (tr_ns _ _ _ Ht').
  pose proof (tr_batch _ _ _ Ht'). pose proof (tr_low _ _ _ Ht').
  pose proof (tr_avg _ _ _ Ht'). pose proof (tr_nb _ _ _ Ht').
  assert (0 ≤ average s' * nr_samples s') by nia.
  rewrite signed_op_ok by (unfold in_s; lia). rewrite bind_Ok.
  rewrite (wrap_u_small 64 (batch s' + v)) by (unfold in_u; nia).
  eexists _, f'. split; [done|]. split; [by apply tracks_snoc|].
  split; [split_and!; simpl; [done|lia|case_decide; lia]|].
  unfold extremes. simpl. rewrite Hx, Hy, Hmin, Hmax, minimum_snoc, maximum_snoc.
  clear Hcad Hcad' Hfl. unfold MIN, MAX. split; case_decide; lia.
Qed.

Lemma add_all_tracks vs s pre f mb :
  bounded (pre ++ vs) → tracks s pre f → cadence s pre mb f → extremes s pre →
  ∃ s' f', add_all (Some s) vs = Ok (Some s') ∧
    tracks s' (pre ++ vs) f' ∧ cadence s' (pre ++ vs) mb f' ∧ extremes s' (pre ++ vs).
Proof.
  revert s pre f. induction vs as [|v vs IH]; intros s pre f Hb Ht Hc He.
  - rewrite app_nil_r in *. by exists s, f.
  - rewrite cons_middle, app_assoc in *.
    assert (bounded (pre ++ [v])).
    { destruct Hb as [[? ?]%Forall_app Hl]. rewrite length_app in Hl. split; [done|lia]. }
    destruct (stats_add_tracks s pre f mb v) as (s1 & f1 & Ha & ? & ? & ?); try done.
    cbn [add_all]. rewrite Ha, bind_Ok. cbn [snd]. eauto.
Qed.

(** The number of truncating divisions a session of [n] samples performs. *)
Definition flushes (mb n : Z) : Z :=
  if decide (2 ≤ mb) then (n - 1) / (mb - 1) + 1 else 1.

(** C23: statistics of non-negative samples: for any batch size and any sequence
    of fewer than [2^31] samples that are non-negative [int]s, a session has no
    undefined behaviour and reports the exact minimum, maximum and number of
    samples; the reported average never exceeds the true mean and is below it
    by less than the number of batches that were flushed, so it is the exact
    truncated mean when one batch holds all samples. *)
Theorem stats_session (s0 : stats_t) (mb : Z) (vs : list Z) :
  vs ≠ [] → Forall sample_ok vs → Z.of_nat (length vs) < 2 ^ 31 →
  ∃ avg, session s0 mb vs = Ok (Some (minimum vs, maximum vs, avg, Z.of_nat (length vs))) ∧
    avg ≤ sum vs / Z.of_nat (length vs) < avg + flushes mb (Z.of_nat (length vs)).
Proof.
  intros Hne Hok Hlen.
  set (s1 := Stats (u64 (-1)) 0 0 0 0 0 mb).
  destruct (add_all_tracks vs s1 [] 0 mb) as (s & f & Ha & Ht & (Hmb & Hnb & Hcad) & [Hmin Hmax]).
  1: by split.
  1: by split; simpl; try lia.
  1: split_and!; simpl; [done|done|case_decide; lia].
  1: by split.
  destruct (flush_tracks s vs f) as (s' & Hfl & Ht' & Hnb' & Hb' & _ & Hn & Hx & Hy);
    [by split|done|specialize (Hnb Hne); simpl in *; lia|].
  exists (average s'). unfold session. cbn [stats_init stats_set_max_batch snd].
  fold s1. cbn. fold s1. rewrite Ha, bind_Ok. unfold stats_print. rewrite Hfl. simpl.
  pose proof (tr_count _ _ _ Ht') as Hc. pose proof (tr_count _ _ _ Ht) as Hc0.
  simpl in *. rewrite Hx, Hy, Hmin, Hmax. split; [repeat f_equal; lia|].
  pose proof (tr_low _ _ _ Ht') as Hl. pose proof (tr_high _ _ _ Ht') as Hh.
  rewrite Hb', Hnb' in *. replace (nr_samples s') with (Z.of_nat (length vs)) in * by lia.
  specialize (Hnb Hne). set (n := Z.of_nat (length vs)) in *.
  destruct (tr_f _ _ _ Ht) as [Hf0 _].
  assert (Hff : f + 1 ≤ flushes mb n).
  { clear Hfl. unfold flushes. case_decide; [|lia].
    enough (f ≤ (n - 1) / (mb - 1)) by lia. apply Z.div_le_lower_bound; nia. }
  split; [apply Z.div_le_lower_bound; nia|apply Z.div_lt_upper_bound; nia].
Qed.

Lemma stats_session_witness :
  ∃ avg, session (Stats 0 0 0 0 0 0 0) 3 [7; 2; 9; 4; 4] = Ok (Some (2, 9, avg, 5)) ∧
    avg ≤ 26 / 5 < avg + flushes 3 5.
Proof.
  apply (stats_session (Stats 0 0 0 0 0 0 0) 3 [7; 2; 9; 4; 4]).
  - done.
  - by repeat constructor; try lia.
  - simpl. lia.
Defined.

(** A negative [int] sample. *)
Definition negative (v : Z) : Prop := - 2 ^ 31 ≤ v < 0.

Lemma u64_shift k z : 0 ≤ z + k * 2 ^ 64 < 2 ^ 64 → u64 z = z + k * 2 ^ 64.
Proof. intros. unfold wrap_u. symmetry. apply Z.mod_unique with (q := - k); lia. Qed.

Lemma u64_negative v : negative v → u64 v = 2 ^ 64 + v.
Proof. unfold negative. intros. rewrite (u64_shift 1) by lia. lia. Qed.

Lemma add_negative_first mb v :
  negative v →
  stats_add (Some (Stats (u64 (-1)) 0 0 0 0 0 mb)) v =
  Ok (0, Some (Stats (2 ^ 64 + v) (2 ^ 64 + v) 0 0 (2 ^ 64 + v) 1 mb)).
Proof.
  intros Hv. unfold stats_add. rewrite (u64_negative v Hv). unfold negative in Hv. cbv zeta.
  cbn [min max average nr_samples batch nr_batch max_batch]. rewrite Z.add_0_l.
  rewrite (wrap_u_small 64 (2 ^ 64 + v)) by (unfold in_u; lia).
  rewrite bool_decide_false by lia. change (signed_op 32 (0 + 1)) with (Ok 1). rewrite !bind_Ok.
  replace (MIN (u64 (-1)) (2 ^ 64 + v)) with (2 ^ 64 + v)
    by (change (u64 (-1)) with (2 ^ 64 - 1); unfold MIN; case_decide; lia).
  replace (MAX 0 (2 ^ 64 + v)) with (2 ^ 64 + v) by (unfold MAX; case_decide; lia).
  case_bool_decide; [rewrite flush_idle by done|]; rewrite bind_Ok;
    cbn [min max average nr_samples batch nr_batch max_batch];
    change (signed_op 32 (0 + 1)) with (Ok 1); rewrite bind_Ok, Z.add_0_l;
    by rewrite (wrap_u_small 64 (2 ^ 64 + v)) by (unfold in_u; lia).
Qed.

Lemma add_negative_second mb a b :
  negative a → negative b →
  stats_add (Some (Stats (2 ^ 64 + a) (2 ^ 64 + a) 0 0 (2 ^ 64 + a) 1 mb)) b =
  Ok (0, Some (Stats (2 ^ 64 + Z.min a b) (2 ^ 64 + Z.max a b) a 1 (2 ^ 64 + b) 1 mb)).
Proof.
  intros Ha Hb. unfold stats_add. rewrite (u64_negative b Hb). unfold negative in *. cbv zeta.
  cbn [min max average nr_samples batch nr_batch max_batch].
  rewrite (u64_shift (-1)) by lia. rewrite bool_decide_true by lia. rewrite !bind_Ok.
  unfold flush_batch. cbn [min max average nr_samples batch nr_batch max_batch].
  rewrite decide_False, decide_True by lia. change (u64 1) with 1. rewrite div_op_pos by lia.
  change (signed_op 32 (0 + 1)) with (Ok 1). rewrite !bind_Ok, Z.div_1_r.
  cbn [min max average nr_samples batch nr_batch max_batch].
  change (signed_op 32 (0 + 1)) with (Ok 1). rewrite !bind_Ok, Z.add_0_l.
  rewrite (wrap_u_small 64 (2 ^ 64 + b)) by (unfold in_u; lia).
  replace (s64 (2 ^ 64 + a)) with a.
  2: { unfold wrap_s. rewrite <-(Z.mod_unique (2 ^ 64 + a + 2 ^ (64 - 1)) (2 ^ 64) 1 (a + 2 ^ 63)); lia. }
  replace (MIN (2 ^ 64 + a) (2 ^ 64 + b)) with (2 ^ 64 + Z.min a b)
    by (unfold MIN; case_decide; lia).
  by replace (MAX (2 ^ 64 + a) (2 ^ 64 + b)) with (2 ^ 64 + Z.max a b)
    by (unfold MAX; case_decide; lia).
Qed.

(** Negative samples: the samples are [int]s but the members are unsigned, so
    for any two negative samples the reported minimum and maximum are off by
    [2^64] and the reported average is a positive number near [2^63] although
    the true mean is negative. *)
Lemma stats_negative_samples (s0 : stats_t) (mb a b : Z) :
  negative a → negative b →
  session s0 mb [a; b] =
    Ok (Some (2 ^ 64 + Z.min a b, 2 ^ 64 + Z.max a b, 2 ^ 63 + (a + b) / 2, 2)).
Proof.
  intros Ha Hb. unfold session. cbn [stats_init stats_set_max_batch snd add_all].
  cbn [min max average nr_samples batch nr_batch max_batch].
  rewrite (add_negative_first mb a Ha), bind_Ok. cbn [snd].
  rewrite (add_negative_second mb a b Ha Hb), !bind_Ok. cbn [snd].
  unfold mret, res_ret. unfold negative in *.
  unfold stats_print, flush_batch. cbn [min max average nr_samples batch nr_batch max_batch].
  rewrite !decide_False by done. change (signed_op 32 (1 + 1)) with (Ok 2).
  rewrite signed_op_ok by (unfold in_s; lia). rewrite !bind_Ok.
  rewrite (u64_shift 0) by lia. change (u64 2) with 2. rewrite div_op_pos by lia. rewrite !bind_Ok.
  cbn [min max average nr_samples fst]. rewrite wrap_s_small; [|lia|].
  - cbn [fst]. repeat f_equal.
    replace (a * 1 + (2 ^ 64 + b) + 0 * 2 ^ 64) with (a + b + 2 ^ 63 * 2) by lia.
    rewrite Z.div_add by lia. apply Z.add_comm.
  - unfold in_s. split; [|apply Z.div_lt_upper_bound; lia].
    etransitivity; [|apply Z.div_pos; lia]. lia.
Qed.

Lemma stats_negative_samples_witness :
  session (Stats 0 0 0 0 0 0 0) 32 [-3; -5] =
    Ok (Some (2 ^ 64 - 5, 2 ^ 64 - 3, 2 ^ 63 - 4, 2)).
Proof. apply (stats_negative_samples (Stats 0 0 0 0 0 0 0) 32 (-3) (-5)); by split. Defined.
