(* ===== verification/Hsm.v ===== *)
(** * Hsm: the hierarchical state machine of linux/glb_hsm

    A state is an object with entry, exit and message handlers; a handler asked
    with [HSM_EMPTY_SIG] stores its superstate in [next_state] of the machine
    it belongs to.  The program has one machine ([m_glb_hsm]), so the member
    [hsm] of a state is either null or that machine; [hsm_of] is the set of
    states where it is set.  What the handlers print is the list [out].

    The machinery of glb_hsm.c is proved against the class [Hierarchy], which
    states what client states promise; the three states of level_state.c,
    level2_state.c and level3_state.c are an instance. *)

From S2P Require Import Prelude.

Definition HSM_MAX_NEST_DEPTH_ : nat := 4.
Definition HSM_EMPTY_SIG : Z := 0.

(** [event_status_e] *)
Definition EVT_STATUS_SUPER : Z := 0.
Definition EVT_STATUS_HANDLED : Z := 1.
Definition EVT_STATUS_IGNORED : Z := 2.
Definition EVT_STATUS_UNHANDLE : Z := 3.
Definition EVT_STATUS_TRAN : Z := 4.

(** The mutable part: [cur_state] and [next_state] of the machine, the states
    attached to it and the output so far. *)
Record glb_hsm_t := Hsm {
  cur_state : Z;
  next_state : Z;
  hsm_of : gset Z;
  out : list (string * string);
}.

Definition set_next (w : glb_hsm_t) (s : Z) : glb_hsm_t :=
  Hsm (cur_state w) s (hsm_of w) (out w).
Definition set_cur (w : glb_hsm_t) (s : Z) : glb_hsm_t :=
  Hsm s (next_state w) (hsm_of w) (out w).
Definition say (w : glb_hsm_t) (o : list (string * string)) : glb_hsm_t :=
  Hsm (cur_state w) (next_state w) (hsm_of w) (out w ++ o).
Definition attach (w : glb_hsm_t) (s : Z) : glb_hsm_t :=
  Hsm (cur_state w) (next_state w) ({[s]} ∪ hsm_of w) (out w).

Definition action_func := glb_hsm_t → Z → res (Z * glb_hsm_t).
Definition msg_handler_func := glb_hsm_t → Z → Z → res (Z * glb_hsm_t).

(** Null function pointers are [None]. *)
Record super_state_t := SuperState {
  on_entry : option action_func;
  on_exit : option action_func;
  handler : option msg_handler_func;
}.

(** [EVT_SUPER(super->hsm, p)] in a handler of the state [self]. *)
Definition EVT_SUPER (w : glb_hsm_t) (self p : Z) : res (Z * glb_hsm_t) :=
  if decide (self ∈ hsm_of w) then mret (EVT_STATUS_SUPER, set_next w p) else Ub NullDeref.

(** ** The root state *)

Definition root : Z := 1.

Definition hsm_root_handler : msg_handler_func := λ w _ _, mret (EVT_STATUS_IGNORED, w).

Definition m_root_state : super_state_t := SuperState None None (Some hsm_root_handler).

(** ** glb_hsm.c *)

Section machine.
(** The state objects of the program, by address. *)
Context (states : Z → option super_state_t).

Definition state_at (s : Z) : res super_state_t :=
  if decide (s = 0) then Ub NullDeref else or_ub BadPtr (states s).

Definition call_handler (w : glb_hsm_t) (s sig : Z) : res (Z * glb_hsm_t) :=
  st ← state_at s; h ← or_ub NullDeref (handler st); h w s sig.
Definition call_entry (w : glb_hsm_t) (s : Z) : res (Z * glb_hsm_t) :=
  st ← state_at s; h ← or_ub NullDeref (on_entry st); h w s.
Definition call_exit (w : glb_hsm_t) (s : Z) : res (Z * glb_hsm_t) :=
  st ← state_at s; h ← or_ub NullDeref (on_exit st); h w s.

Definition SET_STATE_HSM (w : glb_hsm_t) (s : Z) : res glb_hsm_t :=
  _ ← state_at s; mret (attach w s).

(** [path[HSM_MAX_NEST_DEPTH_]] with entries that are not initialised. *)
Abbreviation path_t := (list (option Z)).
Definition path_get (path : path_t) (i : Z) : res Z :=
  o ← arr_get path i; or_ub Uninit o.

(** [while (hsm->next_state != cur_state) { ... }] of [glb_hsm_init]. *)
Fixpoint init_climb (fuel : nat) (w : glb_hsm_t) (cur ip : Z) (path : path_t)
    : res (glb_hsm_t * Z * path_t) :=
  match fuel with
  | O => NoFuel
  | S fuel =>
      if decide (next_state w = cur) then mret (w, ip, path)
      else
        path ← arr_set path (ip + 1) (Some (next_state w));
        w ← SET_STATE_HSM w (next_state w);
        r ← call_handler w (next_state w) HSM_EMPTY_SIG;
        init_climb fuel r.2 cur (ip + 1) path
  end.

(** Enter [path[n-1]], ..., [path[0]]. *)
Fixpoint enter_path (n : nat) (w : glb_hsm_t) (path : path_t) : res glb_hsm_t :=
  match n with
  | O => mret w
  | S i => s ← path_get path (Z.of_nat i); r ← call_entry w s; enter_path i r.2 path
  end.

(** The climb stores one path entry per iteration, so
    [HSM_MAX_NEST_DEPTH_ + 1] rounds are enough for any machine. *)
Definition glb_hsm_init (w : glb_hsm_t) : res glb_hsm_t :=
  let cur := cur_state w in
  let path := [Some (next_state w); None; None; None] in
  w ← SET_STATE_HSM w (next_state w);
  r ← call_handler w (next_state w) HSM_EMPTY_SIG;
  c ← init_climb (S HSM_MAX_NEST_DEPTH_) r.2 cur 0 path;
  let '(w, ip, path) := c in
  p0 ← path_get path 0;
  w ← enter_path (Z.to_nat (ip + 1)) (set_next w p0) path;
  p0 ← path_get path 0;
  mret (set_next (set_cur w p0) p0).

Definition get_super_state (w : glb_hsm_t) (s : Z) : res (Z * glb_hsm_t) :=
  call_handler w s HSM_EMPTY_SIG.

(** [exit(0)] on a path overflow ends the program. *)
Inductive tran_result :=
  | Tran (ip : Z) (path : path_t) (w : glb_hsm_t)
  | Exit0 (w : glb_hsm_t).

(** Loop (e): climb from the target, storing the entry path, until the source
    [s] is met ([inl ip]) or the root declines ([inr ip]). *)
Fixpoint entry_loop (fuel : nat) (w : glb_hsm_t) (status s ip : Z) (path : path_t)
    : res ((Z + Z) * path_t * glb_hsm_t + glb_hsm_t) :=
  match fuel with
  | O => NoFuel
  | S fuel =>
      if decide (status = EVT_STATUS_SUPER) then
        let ip := ip + 1 in
        path ← arr_set path ip (Some (next_state w));
        if decide (next_state w = s) then
          if decide (ip > Z.of_nat HSM_MAX_NEST_DEPTH_) then mret (inr w)
          else mret (inl (inl (ip - 1), path, w))
        else
          r ← get_super_state w (next_state w);
          entry_loop fuel r.2 r.1 s ip path
      else mret (inl (inr ip, path, w))
  end.

(** Loop (f): is [t] among [path[n-1]], ..., [path[0]]?  The index found. *)
Fixpoint lca_scan (n : nat) (t : Z) (path : path_t) : res (option Z) :=
  match n with
  | O => mret None
  | S i =>
      p ← path_get path (Z.of_nat i);
      if decide (t = p) then mret (Some (Z.of_nat i)) else lca_scan i t path
  end.

(** Loop (g): exit the superstates of the source until one is on the path. *)
Fixpoint exit_loop (fuel : nat) (w : glb_hsm_t) (t ip : Z) (path : path_t) : res tran_result :=
  match fuel with
  | O => NoFuel
  | S fuel =>
      r ← call_exit w t;
      w ← (if decide (r.1 = EVT_STATUS_HANDLED) then g ← get_super_state r.2 t; mret g.2
           else mret r.2);
      let t := next_state w in
      o ← lca_scan (Z.to_nat (ip + 1)) t path;
      match o with
      | Some iq => mret (Tran (iq - 1) path w)
      | None => exit_loop fuel w t ip path
      end
  end.

(** The (e), (f), (g) part of [hsm_tran]; [t1] is the superstate of the target
    and [next_state] that of the source. *)
Definition tran_general (fuel : nat) (w : glb_hsm_t) (s t1 : Z) (path : path_t)
    : res tran_result :=
  path ← arr_set path 1 (Some t1);
  let t := next_state w in
  p1 ← path_get path 1;
  r ← get_super_state w p1;
  l ← entry_loop (S HSM_MAX_NEST_DEPTH_) r.2 r.1 s 1 path;
  match l with
  | inr w => mret (Exit0 w)
  | inl (inl ip, path, w) => mret (Tran ip path w)
  | inl (inr ip, path, w) =>
      if decide (ip > Z.of_nat HSM_MAX_NEST_DEPTH_) then mret (Exit0 w)
      else
        r ← call_exit w s;
        o ← lca_scan (Z.to_nat (ip + 1)) t path;
        match o with
        | Some iq => mret (Tran (iq - 1) path r.2)
        | None => exit_loop fuel r.2 t ip path
        end
  end.

Definition hsm_tran (fuel : nat) (me : glb_hsm_t) (path : path_t) : res tran_result :=
  t ← path_get path 0;
  s ← path_get path 2;
  if decide (s = t) then r ← call_exit me s; mret (Tran 0 path r.2)
  else
    r ← get_super_state me t;
    let t1 := next_state r.2 in
    if decide (s = t1) then mret (Tran 0 path r.2)
    else
      r ← get_super_state r.2 s;
      if decide (next_state r.2 = t1) then r ← call_exit r.2 s; mret (Tran 0 path r.2)
      else
        p0 ← path_get path 0;
        if decide (next_state r.2 = p0) then r ← call_exit r.2 s; mret (Tran (-1) path r.2)
        else tran_general fuel r.2 s t1 path.

(** The [do ... while (status == EVT_STATUS_SUPER)] of [glb_hsm_dispatch]: the
    last status and the state that gave it. *)
Fixpoint process_event (fuel : nat) (w : glb_hsm_t) (sig : Z) : res (Z * Z * glb_hsm_t) :=
  match fuel with
  | O => NoFuel
  | S fuel =>
      let st := next_state w in
      r ← call_handler w st sig;
      r ← (if decide (r.1 = EVT_STATUS_HANDLED) then get_super_state r.2 st else mret r);
      if decide (r.1 = EVT_STATUS_SUPER) then process_event fuel r.2 sig
      else mret (r.1, st, r.2)
  end.

(** [for (; next_state != cur_state; next_state = hsm->next_state)] *)
Fixpoint exit_to_source (fuel : nat) (w : glb_hsm_t) (st cur : Z) : res glb_hsm_t :=
  match fuel with
  | O => NoFuel
  | S fuel =>
      if decide (st = cur) then mret w
      else
        r ← call_exit w st;
        w ← (if decide (r.1 = EVT_STATUS_HANDLED) then g ← get_super_state r.2 st; mret g.2
             else mret r.2);
        exit_to_source fuel w (next_state w) cur
  end.

(** [while (hsm->next_state != next_state) { ... }] after the transition. *)
Fixpoint drill (fuel : nat) (w : glb_hsm_t) (target ip : Z) (path : path_t)
    : res (Z * path_t * glb_hsm_t) :=
  match fuel with
  | O => NoFuel
  | S fuel =>
      if decide (next_state w = target) then mret (ip, path, w)
      else
        path ← arr_set path (ip + 1) (Some (next_state w));
        r ← get_super_state w (next_state w);
        drill fuel r.2 target (ip + 1) path
  end.

(** [inr] is the [exit(0)] of [hsm_tran]. *)
Definition glb_hsm_dispatch (fuel : nat) (hsm : glb_hsm_t) (sig : Z)
    : res (glb_hsm_t + glb_hsm_t) :=
  let cur := cur_state hsm in
  p ← process_event fuel hsm sig;
  let '(status, st, w) := p in
  if decide (EVT_STATUS_TRAN ≤ status) then
    let path := [Some (next_state w); Some st; Some cur; None] in
    w ← exit_to_source fuel w st cur;
    tr ← hsm_tran fuel w path;
    match tr with
    | Exit0 w => mret (inr w)
    | Tran ip path w =>
        w ← enter_path (Z.to_nat (ip + 1)) w path;
        target ← path_get path 0;
        let w := set_next w target in
        path ← arr_set path 0 (Some target);
        r ← get_super_state w target;
        d ← drill (S HSM_MAX_NEST_DEPTH_) r.2 target 0 path;
        let '(ip, path, w) := d in
        p0 ← path_get path 0;
        w ← enter_path (Z.to_nat (ip + 1)) (set_next w p0) path;
        p0 ← path_get path 0;
        mret (inl (set_next (set_cur w p0) p0))
    end
  else mret (inl (set_next (set_cur w st) st)).

Definition glb_hsm_ctor (w : glb_hsm_t) (initial : Z) : glb_hsm_t :=
  Hsm root initial (hsm_of w) (out w).

Definition hsm_init (w : glb_hsm_t) (state : Z) : res glb_hsm_t :=
  glb_hsm_init (glb_hsm_ctor w state).

End machine.

(** ** What client states promise *)

(** [parent s] is the superstate a state reports on [HSM_EMPTY_SIG] once it is
    attached; entering and leaving a state prints something and changes nothing
    else.  [exit_status] is what the exit actions return. *)
Class Hierarchy (states : Z → option super_state_t) := {
  parent : Z → option Z;
  entry_msg : Z → list (string * string);
  exit_msg : Z → list (string * string);
  exit_status : Z;
  hier_root : states root = Some m_root_state ∧ parent root = None;
  hier_state : ∀ s p, parent s = Some p → s ≠ 0 ∧ is_Some (states s);
  hier_super : ∀ s p w, parent s = Some p → s ∈ hsm_of w →
    call_handler states w s HSM_EMPTY_SIG = Ok (EVT_STATUS_SUPER, set_next w p);
  hier_entry : ∀ s p w, parent s = Some p →
    ∃ r, call_entry states w s = Ok (r, say w (entry_msg s));
  hier_exit : ∀ s p w, parent s = Some p →
    call_exit states w s = Ok (exit_status, say w (exit_msg s));
}.

Section hierarchy.
Context (states : Z → option super_state_t) `{!Hierarchy states}.

(** [chain s l]: [l] lists [s], its superstate, ..., the root. *)
Inductive chain : Z → list Z → Prop :=
  | chain_root : chain root [root]
  | chain_up s p l : parent s = Some p → chain p l → chain s (s :: l).

Definition attached (w : glb_hsm_t) (l : list Z) : Prop :=
  ∀ s, s ∈ l → s ≠ root → s ∈ hsm_of w.

Lemma parent_root s p : parent s = Some p → s ≠ root.
Proof. intros Hp ->. destruct hier_root. congruence. Qed.

Lemma chain_inv s l : chain s l → s ≠ root →
  ∃ p l', parent s = Some p ∧ chain p l' ∧ l = s :: l'.
Proof. intros [|s' p l' Hp Hc] Hs; [done|]. eauto. Qed.

Lemma chain_head s l : chain s l → ∃ l', l = s :: l'.
Proof. intros [|]; eauto. Qed.

Lemma chain_root_inv l : chain root l → l = [root].
Proof.
  intros Hc. inversion Hc as [|s p l' Hp]; subst; [done|].
  by apply parent_root in Hp.
Qed.

Lemma chain_det s l l' : chain s l → chain s l' → l = l'.
Proof.
  intros Hc. revert l'. induction Hc as [|s p l Hp Hc IH]; intros l' Hc'.
  - symmetry. by apply chain_root_inv.
  - destruct (chain_inv s l' Hc') as (p' & l1 & Hp' & Hc1 & ->); [by eapply parent_root|].
    f_equal. apply IH. congruence.
Qed.

(** Every member of a chain starts the rest of it. *)
Lemma chain_suffix s l x l1 l2 : chain s l → l = l1 ++ x :: l2 → chain x (x :: l2).
Proof.
  intros Hc. revert l1. induction Hc as [|s p l Hp Hc IH]; intros l1 E.
  - destruct l1 as [|? [|]]; simplify_eq/=. constructor.
  - destruct l1 as [|y l1]; simplify_eq/=; [by econstructor|]. by eapply IH.
Qed.

Lemma chain_NoDup s l : chain s l → NoDup l.
Proof.
  induction 1 as [|s p l Hp Hc IH]; [apply NoDup_singleton|].
  apply NoDup_cons. split; [|done]. intros (l1 & l2 & E)%list_elem_of_split.
  pose proof (chain_suffix p l s l1 l2 Hc E) as Hs.
  assert (s :: l2 = s :: l) as E' by (eapply chain_det; [done|by econstructor]).
  apply (f_equal length) in E, E'. rewrite length_app in E. simpl in *. lia.
Qed.

Lemma get_super_root w : get_super_state states w root = Ok (EVT_STATUS_IGNORED, w).
Proof.
  unfold get_super_state, call_handler, state_at. destruct hier_root as [-> _]. done.
Qed.

Lemma get_super_parent w s p :
  parent s = Some p → s ∈ hsm_of w →
  get_super_state states w s = Ok (EVT_STATUS_SUPER, set_next w p).
Proof. apply hier_super. Qed.

Lemma set_hsm_ok w s l : chain s l → SET_STATE_HSM states w s = Ok (attach w s).
Proof.
  intros [|s' p l' Hp Hc]; unfold SET_STATE_HSM, state_at.
  - by destruct hier_root as [-> _].
  - destruct (hier_state s' p Hp) as [? [st ->]]. by rewrite decide_False.
Qed.

(** *** Entering a path *)

Definition entry_out (l : list Z) : list (string * string) := l ≫= entry_msg.
Definition exit_out (l : list Z) : list (string * string) := l ≫= exit_msg.

Lemma say_nil w : say w [] = w.
Proof. destruct w. unfold say. simpl. by rewrite app_nil_r. Qed.
Lemma say_say w a b : say (say w a) b = say w (a ++ b).
Proof. unfold say. simpl. by rewrite app_assoc. Qed.

(** [path] starts with the states of [l]. *)
Definition holds (path : list (option Z)) (l : list Z) : Prop :=
  take (length l) path = Some <$> l.

Lemma path_get_holds path l i s : holds path l → l !! i = Some s →
  path_get path (Z.of_nat i) = Ok s.
Proof.
  intros Hh Hi. unfold path_get. rewrite (arr_get_nat path i (Some s)); [done|].
  rewrite <-(lookup_take_lt path (length l)) by (by eapply lookup_lt_Some).
  rewrite Hh, list_lookup_fmap, Hi. done.
Qed.

Lemma holds_prefix path l1 l2 : holds path (l1 ++ l2) → holds path l1.
Proof.
  unfold holds. intros H. apply (f_equal (take (length l1))) in H.
  rewrite take_take, length_app, Nat.min_l in H by lia.
  rewrite H, fmap_app. apply take_app_length'. by rewrite length_fmap.
Qed.

Lemma holds_snoc path l x :
  holds path l → (length l < length path)%nat →
  ∃ path', arr_set path (Z.of_nat (length l)) (Some x) = Ok path' ∧
           holds path' (l ++ [x]) ∧ length path' = length path.
Proof.
  intros Hh Hl. eexists. rewrite arr_set_ok by lia. split; [done|].
  rewrite Nat2Z.id, length_insert. split; [|done]. unfold holds in *.
  rewrite length_app, fmap_app, <-Hh. simpl. rewrite Nat.add_1_r.
  rewrite (take_S_r _ _ (Some x)) by (by apply list_lookup_insert_eq).
  by rewrite take_insert_ge by lia.
Qed.

(** The states are entered outermost first. *)
Lemma enter_path_ok l w path :
  holds path l → (∀ s, s ∈ l → is_Some (parent s)) →
  enter_path states (length l) w path = Ok (say w (entry_out (reverse l))).
Proof.
  revert w. induction l as [|s l IH] using rev_ind; intros w Hh Hp.
  - simpl. by rewrite say_nil.
  - rewrite length_app, Nat.add_1_r. cbn [enter_path].
    rewrite (path_get_holds path (l ++ [s]) (length l) s) by
      (try done; by rewrite lookup_app_r, Nat.sub_diag by lia).
    rewrite bind_Ok. destruct (Hp s) as [p Hs]; [set_solver|].
    destruct (hier_entry s p w Hs) as [r ->]. rewrite bind_Ok. cbn [snd].
    rewrite IH by (try (by eapply holds_prefix); intros; apply Hp; set_solver).
    rewrite say_say, reverse_app. done.
Qed.

(** *** Initialisation *)

Lemma chain_below_root x l : chain x (l ++ [root]) →
  (l = [] ∧ x = root) ∨
  ∃ p l', l = x :: l' ∧ parent x = Some p ∧ chain p (l' ++ [root]) ∧ x ≠ root.
Proof.
  intros Hc. destruct (decide (x = root)) as [->|Hx].
  - apply chain_root_inv in Hc. left. by destruct l as [|? [|]].
  - right. destruct (chain_inv x _ Hc Hx) as (p & l' & Hp & Hc' & E).
    destruct l as [|y l]; simplify_eq/=. eauto 10.
Qed.

Lemma init_climb_spec l w x pre path fuel :
  chain x (l ++ [root]) → next_state w = x →
  holds path pre → pre ≠ [] → length path = HSM_MAX_NEST_DEPTH_ →
  (length pre ≤ HSM_MAX_NEST_DEPTH_)%nat → (6 ≤ fuel + length pre)%nat →
  let run := init_climb states fuel w root (Z.of_nat (length pre) - 1) path in
  if decide (length pre + length l ≤ HSM_MAX_NEST_DEPTH_)%nat then
    ∃ path', run = Ok (Hsm (cur_state w) root (list_to_set l ∪ hsm_of w) (out w),
                       Z.of_nat (length (pre ++ l)) - 1, path') ∧ holds path' (pre ++ l)
  else run = Ub OutOfBounds.
Proof.
  intros Hc Hn Hh Hpre Hlp Hle Hf. cbv zeta.
  revert w x pre path fuel Hc Hn Hh Hpre Hlp Hle Hf.
  induction l as [|y l IH]; intros w x pre path fuel Hc Hn Hh Hpre Hlp Hle Hf;
    (destruct fuel as [|fuel]; [unfold HSM_MAX_NEST_DEPTH_ in *; lia|]);
    cbn [init_climb]; destruct (chain_below_root x _ Hc) as
      [[E ->]|(p & l' & E & Hp & Hc' & Hx)]; simplify_eq.
  - rewrite decide_True by (simpl; lia). exists path. rewrite decide_True by done. rewrite app_nil_r. split; [|done]. repeat f_equal.
    destruct w; simpl in *; subst. f_equal. set_solver.
  - rewrite (decide_False (P := next_state w = root)) by congruence.
    replace (Z.of_nat (length pre) - 1 + 1) with (Z.of_nat (length pre)) by lia.
    destruct (decide (length pre < HSM_MAX_NEST_DEPTH_)%nat) as [Hlt|Hge].
    + destruct (holds_snoc path pre (next_state w) Hh) as (path' & -> & Hh' & Hlp'); [lia|].
      rewrite bind_Ok, (set_hsm_ok w _ _ Hc), bind_Ok.
      rewrite (hier_super _ p) by (try done; cbn; set_solver). rewrite bind_Ok. cbn [snd].
      pose proof (IH (set_next (attach w (next_state w)) p) p (pre ++ [next_state w]) path' fuel
        Hc' eq_refl Hh' ltac:(by destruct pre) ltac:(congruence)) as IH'.
      rewrite !length_app in IH'. cbn [length] in IH'.
      replace (Z.of_nat (length pre + 1) - 1) with (Z.of_nat (length pre)) in IH' by lia.
      specialize (IH' ltac:(lia) ltac:(lia)). cbn [length].
      case_decide; case_decide; try lia; [|done].
      destruct IH' as (path'' & -> & Hh''). exists path''.
      rewrite <-app_assoc in Hh''. split; [|done]. rewrite !length_app.
      cbn [attach set_next cur_state hsm_of out length].
      assert (list_to_set l' ∪ ({[next_state w]} ∪ hsm_of w) =
              list_to_set (next_state w :: l') ∪ hsm_of w) as -> by set_solver.
      do 3 f_equal. lia.
    + rewrite decide_False by (simpl; lia). unfold arr_set. by rewrite decide_False by lia.
Qed.

Lemma glb_hsm_init_spec w s l :
  chain s (l ++ [root]) → s ≠ root →
  hsm_init states w s =
    if decide (length l ≤ HSM_MAX_NEST_DEPTH_)%nat
    then Ok (Hsm s s (list_to_set l ∪ hsm_of w) (out w ++ entry_out (reverse l)))
    else Ub OutOfBounds.
Proof.
  intros Hc Hs. unfold hsm_init, glb_hsm_init, glb_hsm_ctor. cbn [cur_state next_state].
  rewrite (set_hsm_ok _ _ _ Hc), bind_Ok. cbn [attach next_state].
  destruct (chain_below_root s l Hc) as [[_ ->]|(p & l' & -> & Hp & Hc' & _)]; [done|].
  rewrite (hier_super _ p) by (try done; cbn; set_solver). rewrite bind_Ok. cbn [snd].
  set (w1 := set_next _ p).
  pose proof (init_climb_spec l' w1 p [s] [Some s; None; None; None] (S HSM_MAX_NEST_DEPTH_)
    Hc' eq_refl eq_refl ltac:(done) eq_refl) as Hcl.
  cbn [length] in *. specialize (Hcl ltac:(unfold HSM_MAX_NEST_DEPTH_; lia)
    ltac:(unfold HSM_MAX_NEST_DEPTH_; lia)). cbv zeta in Hcl.
  change (Z.of_nat 1 - 1) with 0 in Hcl. case_decide as Hd; case_decide as Hd'; try lia.
  2: by rewrite Hcl.
  destruct Hcl as (path & -> & Hh). rewrite bind_Ok. cbn [app] in *.
  pose proof (path_get_holds path (s :: l') 0 s Hh eq_refl) as Hp0. change (Z.of_nat 0) with 0 in Hp0.
  rewrite Hp0, bind_Ok.
  replace (Z.to_nat (Z.of_nat (length (s :: l')) - 1 + 1)) with (length (s :: l')) by lia.
  rewrite enter_path_ok; [|done|].
  - rewrite !bind_Ok.
    unfold mret, res_ret, w1, set_next, set_cur, say. cbn. do 2 f_equal. set_solver.
  - intros x Hx. clear Hh. change (s :: l' ++ [root]) with ((s :: l') ++ [root]) in Hc.
    apply list_elem_of_split in Hx as (l1 & l2 & E). rewrite E, <-app_assoc in Hc.
    apply (chain_suffix _ _ x l1 (l2 ++ [root])) in Hc; [|done].
    destruct (chain_below_root x (x :: l2) Hc) as [[? ?]|(q & ? & _ & Hq & _)]; [done|eauto].
Qed.

(** *** Transitions *)

(** Two chains meet at [x]: below it they have nothing in common. *)
Definition meet (s t : Z) (a c : list Z) (x : Z) (b : list Z) : Prop :=
  chain s (a ++ x :: b) ∧ chain t (c ++ x :: b) ∧ (∀ y, y ∈ a → (y ∉ c)).

Lemma meet_sym s t a c x b : meet s t a c x b → meet t s c a x b.
Proof. intros (? & ? & H). split_and!; try done. intros y ? ?. by eapply H. Qed.

Lemma app_cons_shorter {A} (a a' b b' : list A) x x' :
  a ++ x :: b = a' ++ x' :: b' → (length a < length a')%nat → a' !! length a = Some x.
Proof.
  intros E Hl. rewrite <-(lookup_app_l a' (x' :: b')) by done. rewrite <-E.
  by rewrite lookup_app_r, Nat.sub_diag by lia.
Qed.

Lemma meet_le s t a c x b a' c' x' b' :
  meet s t a c x b → meet s t a' c' x' b' → (length a' ≤ length a)%nat.
Proof.
  intros (Ha & Hc & _) (Ha' & Hc' & Hd). apply Nat.nlt_ge. intros Hl.
  pose proof (chain_det _ _ _ Ha Ha') as Ea. pose proof (chain_det _ _ _ Hc Hc') as Ec.
  pose proof (f_equal length Ea) as La. pose proof (f_equal length Ec) as Lc.
  rewrite !length_app in La, Lc. simpl in *.
  apply (Hd x).
  - eapply list_elem_of_lookup_2, (app_cons_shorter a a'); done.
  - eapply list_elem_of_lookup_2, (app_cons_shorter c c'); [done|lia].
Qed.

Lemma meet_unique s t a c x b a' c' x' b' :
  meet s t a c x b → meet s t a' c' x' b' → a = a' ∧ c = c'.
Proof.
  intros H H'.
  pose proof (meet_le _ _ _ _ _ _ _ _ _ _ H H'). pose proof (meet_le _ _ _ _ _ _ _ _ _ _ H' H).
  pose proof (meet_le _ _ _ _ _ _ _ _ _ _ (meet_sym _ _ _ _ _ _ H) (meet_sym _ _ _ _ _ _ H')).
  pose proof (meet_le _ _ _ _ _ _ _ _ _ _ (meet_sym _ _ _ _ _ _ H') (meet_sym _ _ _ _ _ _ H)).
  destruct H as (Ha & Hc & _), H' as (Ha' & Hc' & _).
  pose proof (chain_det _ _ _ Ha Ha') as Ea. pose proof (chain_det _ _ _ Hc Hc') as Ec.
  apply app_inj_1 in Ea, Ec; [naive_solver|lia|lia].
Qed.

Lemma lca_scan_hit path l x l1 l2 :
  holds path l → NoDup l → l = l1 ++ x :: l2 →
  lca_scan (length l) x path = Ok (Some (Z.of_nat (length l1))).
Proof.
  intros Hh Hnd E. revert l l2 Hh Hnd E.
  intros l l2. revert l. induction l2 as [|y l2 IH] using rev_ind; intros l Hh Hnd ->.
  - rewrite length_app, Nat.add_1_r. cbn [lca_scan].
    rewrite (path_get_holds path _ (length l1) x Hh) by
      (by rewrite lookup_app_r, Nat.sub_diag by lia).
    rewrite bind_Ok. by rewrite decide_True.
  - rewrite app_comm_cons, app_assoc in Hh, Hnd |- *.
    rewrite length_app, Nat.add_1_r. cbn [lca_scan].
    rewrite (path_get_holds path _ (length (l1 ++ x :: l2)) y Hh) by
      (by rewrite lookup_app_r, Nat.sub_diag by lia).
    rewrite bind_Ok. apply NoDup_app in Hnd as (Hnd & Hy & _).
    rewrite decide_False.
    2: { intros <-. apply (Hy x); [|by apply list_elem_of_singleton].
         apply elem_of_app. right. by left. }
    apply IH; [by eapply holds_prefix|done|done].
Qed.

Lemma lca_scan_miss path l x :
  holds path l → (x ∉ l) → lca_scan (length l) x path = Ok None.
Proof.
  induction l as [|y l IH] using rev_ind; intros Hh Hx; [done|].
  rewrite length_app, Nat.add_1_r. cbn [lca_scan].
  rewrite (path_get_holds path _ (length l) y Hh) by (by rewrite lookup_app_r, Nat.sub_diag by lia).
  rewrite not_elem_of_app, list_elem_of_singleton in Hx. destruct Hx as [Hx Hy].
  rewrite bind_Ok, decide_False by done. apply IH; [by eapply holds_prefix|done].
Qed.

(** Loop (e) from the state reached so far: [rest] is still to be climbed. *)
Definition climbing (w : glb_hsm_t) (status : Z) (rest : list Z) : Prop :=
  match rest with
  | [] => status = EVT_STATUS_IGNORED
  | x :: _ => status = EVT_STATUS_SUPER ∧ next_state w = x
  end.

Lemma get_super_climbing w x rest :
  chain x (x :: rest) → attached w [x] →
  ∃ status n, get_super_state states w x = Ok (status, set_next w n) ∧
              climbing (set_next w n) status rest.
Proof.
  intros Hc Hat. destruct (decide (x = root)) as [->|Hx].
  - apply chain_root_inv in Hc. simplify_eq. exists EVT_STATUS_IGNORED, (next_state w).
    rewrite get_super_root. by destruct w.
  - destruct (chain_inv x _ Hc Hx) as (p & l' & Hp & Hc' & E). simplify_eq.
    destruct (chain_head p _ Hc') as [l ->]. exists EVT_STATUS_SUPER, p.
    rewrite (get_super_parent w x p); [done|done|]. apply Hat; [by left|done].
Qed.

Lemma attached_app w l1 l2 : attached w (l1 ++ l2) → attached w l1 ∧ attached w l2.
Proof. intros H. split; intros y Hy; apply H, elem_of_app; auto. Qed.

Lemma entry_loop_spec t s rest w status pre path fuel :
  chain t (pre ++ rest) → attached w (pre ++ rest) → climbing w status rest →
  holds path pre → length path = HSM_MAX_NEST_DEPTH_ →
  (length (pre ++ rest) ≤ HSM_MAX_NEST_DEPTH_)%nat → (length rest < fuel)%nat →
  ∃ n path', length path' = HSM_MAX_NEST_DEPTH_ ∧
    ((∃ r1 r2, rest = r1 ++ s :: r2 ∧ holds path' (pre ++ r1 ++ [s]) ∧
       entry_loop states fuel w status s (Z.of_nat (length pre) - 1) path =
         Ok (inl (inl (Z.of_nat (length (pre ++ r1)) - 1), path', set_next w n))) ∨
     ((s ∉ rest) ∧ holds path' (pre ++ rest) ∧
       entry_loop states fuel w status s (Z.of_nat (length pre) - 1) path =
         Ok (inl (inr (Z.of_nat (length (pre ++ rest)) - 1), path', set_next w n)))).
Proof.
  revert w status pre path fuel.
  induction rest as [|x rest IH]; intros w status pre path fuel Hc Hat Hcl Hh Hlp Hle Hf;
    (destruct fuel as [|fuel]; [simpl in Hf; lia|]); cbn [entry_loop].
  - simpl in Hcl. subst status. exists (next_state w), path. split; [done|]. right.
    rewrite app_nil_r. split_and!; [apply not_elem_of_nil|done|by destruct w].
  - destruct Hcl as [-> Hn]. rewrite decide_True by done.
    replace (Z.of_nat (length pre) - 1 + 1) with (Z.of_nat (length pre)) by lia.
    rewrite length_app in Hle. simpl in Hle.
    destruct (holds_snoc path pre (next_state w) Hh) as (path' & -> & Hh' & Hlp'); [lia|].
    rewrite Hn, bind_Ok in *. case_decide as Hs.
    + subst x. rewrite decide_False by (unfold HSM_MAX_NEST_DEPTH_ in *; lia).
      exists (next_state w), path'. split; [congruence|]. left. exists [], rest.
      rewrite app_nil_r, <-Hs. split_and!; [done|done|by destruct w].
    + assert (Hcx : chain x (x :: rest)) by (by eapply chain_suffix).
      destruct (attached_app w pre (x :: rest) Hat) as [_ Hatx].
      destruct (get_super_climbing w x rest Hcx) as (st & n & -> & Hcl').
      { by apply (attached_app w [x] rest). }
      rewrite bind_Ok. cbn [fst snd]. rewrite cons_middle, app_assoc in Hc, Hat.
      destruct (IH (set_next w n) st (pre ++ [x]) path' fuel Hc Hat Hcl' Hh')
        as (n' & path'' & Hlp'' & Hres); [congruence|rewrite ?length_app; simpl in *; lia..|].
      exists n', path''. split; [done|].
      replace (Z.of_nat (length (pre ++ [x])) - 1) with (Z.of_nat (length pre)) in Hres
        by (rewrite length_app; simpl; lia).
      destruct Hres as [(r1 & r2 & -> & Hh'' & ->)|(Hni & Hh'' & ->)].
      * left. exists (x :: r1), r2. rewrite <-!app_assoc in *. done.
      * right. rewrite <-!app_assoc in *. split_and!; try done.
        rewrite not_elem_of_cons. naive_solver.
Qed.

Lemma exit_loop_spec fuel w a u x b c path :
  exit_status = EVT_STATUS_HANDLED →
  chain u (u :: a ++ x :: b) → attached w (u :: a) →
  (∀ y, y ∈ u :: a → (y ∉ c ++ x :: b)) → NoDup (c ++ x :: b) → holds path (c ++ x :: b) →
  (length a < fuel)%nat →
  ∃ n, exit_loop states fuel w u (Z.of_nat (length (c ++ x :: b)) - 1) path =
       Ok (Tran (Z.of_nat (length c) - 1) path (set_next (say w (exit_out (u :: a))) n)).
Proof.
  intros Hex Hc Hat Hni Hnd Hh Hf.
  revert w u fuel Hc Hat Hni Hf. induction a as [|v a IH]; intros w u fuel Hc Hat Hni Hf;
    (destruct fuel as [|fuel]; [simpl in Hf; lia|]); cbn [exit_loop];
    (assert (Hu : u ≠ root);
      [intros ->; apply chain_root_inv in Hc; simplify_eq|]);
    destruct (chain_inv u _ Hc Hu) as (p & l' & Hp & Hc' & E);
    rewrite (hier_exit u p w Hp), bind_Ok; cbn [fst snd]; rewrite decide_True by done;
    (rewrite (get_super_parent _ u p); [|done|by apply Hat; [left|]]); rewrite !bind_Ok;
    cbn [set_next next_state snd];
    replace (Z.to_nat (Z.of_nat (length (c ++ x :: b)) - 1 + 1)) with (length (c ++ x :: b)) by lia;
    injection E as E; destruct (chain_head p _ Hc') as [l2 ->]; simplify_eq/=.
  - rewrite (lca_scan_hit path _ p c l2) by done. rewrite bind_Ok. exists p.
    unfold exit_out. simpl. rewrite app_nil_r. done.
  - rewrite lca_scan_miss; [|done|apply Hni; right; by left]. rewrite bind_Ok.
    destruct (IH (set_next (say w (exit_msg u)) p) p fuel) as [n Hr]; try done.
    + intros y Hy. apply Hat. by right.
    + intros y Hy. apply Hni. by right.
    + lia.
    + exists n. unfold set_next, say in Hr |- *. simpl in *. rewrite Hr. unfold exit_out.
      simpl. by rewrite <-app_assoc.
Qed.

(** What a transition from [s] to [t] leaves and what it enters (innermost
    first), [a] and [c] being the parts of the two chains below their meeting
    point; a transition to itself leaves and re-enters the state. *)
Definition exits (s t : Z) (a : list Z) : list Z := if decide (s = t) then [s] else a.
Definition entries (s t : Z) (c : list Z) : list Z := if decide (s = t) then [t] else c.

(** The outcome of [hsm_tran]: leave [ex], prepare to enter [en] on the way to [t]. *)
Definition tran_done (w : glb_hsm_t) (t : Z) (ex en : list Z) (r : res tran_result) : Prop :=
  ∃ path n, r = Ok (Tran (Z.of_nat (length en) - 1) path (set_next (say w (exit_out ex)) n)) ∧
    holds path en ∧ length path = HSM_MAX_NEST_DEPTH_ ∧ path_get path 0 = Ok t.

(** The general case: neither state is the other's superstate and they have no
    common superstate. *)
Lemma tran_general_spec fuel w s s1 t t1 ls lt a c x b q2 q3 :
  exit_status = EVT_STATUS_HANDLED →
  parent s = Some s1 → chain s1 (s1 :: ls) → chain t (t :: t1 :: lt) → chain t1 (t1 :: lt) →
  meet s t a c x b → s ≠ t → s ≠ t1 → next_state w = s1 →
  attached w (a ++ x :: b) → attached w (c ++ x :: b) →
  (length (c ++ x :: b) ≤ HSM_MAX_NEST_DEPTH_)%nat → (length a ≤ fuel)%nat →
  tran_done w t a c (tran_general states fuel w s t1 [Some t; q2; Some s; q3]).
Proof.
  intros Hex Hps Hcs1 Hct Hct1 Hm Hst Hst1 Hn Hata Hatc Hle Hfu.
  pose proof Hm as (Hca & Hcc & Hdis).
  pose proof (chain_det _ _ _ Hct Hcc) as Elt.
  assert (Hcs : chain s (s :: s1 :: ls)) by (by econstructor).
  unfold tran_general. change (arr_set _ 1 _) with (Ok [Some t; Some t1; Some s; q3]).
  rewrite bind_Ok. change (path_get _ 1) with (Ok t1). rewrite bind_Ok.
  rewrite <-Elt in Hatc, Hle, Hcc.
  destruct (get_super_climbing w t1 lt Hct1) as (st & n & -> & Hcl).
  { intros y ->%list_elem_of_singleton. apply Hatc. right. by left. }
  rewrite bind_Ok. cbn [fst snd].
  destruct (entry_loop_spec t s lt (set_next w n) st [t; t1] [Some t; Some t1; Some s; q3]
    (S HSM_MAX_NEST_DEPTH_) Hct Hatc Hcl eq_refl eq_refl Hle) as (n' & path & Hlp & Hres);
    [simpl in Hle; lia|].
  change (Z.of_nat (length [t; t1]) - 1) with 1 in Hres.
  destruct Hres as [(r1 & r2 & -> & Hh & ->)|(Hni & Hh & ->)]; rewrite bind_Ok.
  - destruct (meet_unique s t a c x b [] ([t; t1] ++ r1) s r2 Hm) as [-> ->].
    { split_and!; [by eapply (chain_suffix t _ s ([t; t1] ++ r1))|done|by intros y ?%not_elem_of_nil]. }
    exists path, n'. rewrite app_assoc in Hh. apply holds_prefix in Hh. split_and!; try done.
    + unfold exit_out. simpl. by rewrite say_nil.
    + by apply (path_get_holds path _ 0 t Hh).
  - rewrite decide_False by (simpl in *; lia).
    rewrite (hier_exit s s1 _ Hps), bind_Ok. cbn [snd].
    assert (Hp0 : path_get path 0 = Ok t) by (by apply (path_get_holds path _ 0 t Hh)).
    assert (Hsni : s ∉ t :: t1 :: lt) by (rewrite !not_elem_of_cons; done).
    replace (Z.to_nat (Z.of_nat (length ([t; t1] ++ lt)) - 1 + 1))
      with (length ([t; t1] ++ lt)) by lia. cbn [app] in *. rewrite Elt in *.
    destruct a as [|s' a].
    { simpl in Hca. pose proof (chain_det _ _ _ Hcs Hca) as E. simplify_eq.
      exfalso. apply Hsni, elem_of_app. right. by left. }
    pose proof (chain_det _ _ _ Hcs Hca) as E. injection E as <- E.
    pose proof (chain_NoDup _ _ Hcc) as Hnd. rewrite Hn.
    destruct a as [|s2 a]; injection E as -> ->.
    + rewrite (lca_scan_hit path _ x c b) by done. rewrite bind_Ok. exists path, n'.
      split_and!; try done; [|by eapply holds_prefix].
      unfold exit_out. simpl. by rewrite app_nil_r.
    + assert (Hdis' : ∀ y, y ∈ s2 :: a → (y ∉ c ++ x :: b)).
      { intros y Hy [Hyc|Hyb]%elem_of_app; [eapply Hdis; [by right|done]|].
        apply chain_NoDup in Hcs1. rewrite app_comm_cons in Hcs1.
        apply NoDup_app in Hcs1 as (_ & Hd & _). by eapply (Hd y). }
      rewrite lca_scan_miss; [|done|apply Hdis'; by left]. rewrite bind_Ok.
      destruct (exit_loop_spec fuel (say (set_next (set_next w n) n') (exit_msg s)) a s2 x b c path)
        as [m ->]; try done.
      * intros y Hy. apply Hata, elem_of_app. left. by right.
      * simpl in Hfu. lia.
      * exists path, m. split_and!; try done; [|by eapply holds_prefix].
        unfold set_next, say, exit_out. simpl. by rewrite !app_assoc.
Qed.

Lemma hsm_tran_spec fuel w s t a c x b q2 q3 :
  exit_status = EVT_STATUS_HANDLED → s ≠ root → t ≠ root →
  meet s t a c x b → attached w (a ++ x :: b) → attached w (c ++ x :: b) →
  (length (c ++ x :: b) ≤ HSM_MAX_NEST_DEPTH_)%nat → (length a ≤ fuel)%nat →
  tran_done w t (exits s t a) (entries s t c)
    (hsm_tran states fuel w [Some t; q2; Some s; q3]).
Proof.
  intros Hex Hs Ht Hm Hata Hatc Hle Hfu. pose proof Hm as (Hca & Hcc & Hdis).
  destruct (chain_inv s _ Hca Hs) as (s1 & ls0 & Hps & Hcs1 & Ea).
  destruct (chain_inv t _ Hcc Ht) as (t1 & lt0 & Hpt & Hct1 & Ec).
  destruct (chain_head _ _ Hcs1) as [ls ->]. destruct (chain_head _ _ Hct1) as [lt ->].
  assert (Hsa : s ∈ hsm_of w) by (apply Hata; [rewrite Ea; by left|done]).
  assert (Hta : t ∈ hsm_of w) by (apply Hatc; [rewrite Ec; by left|done]).
  unfold hsm_tran, exits, entries, tran_done.
  change (path_get [Some t; q2; Some s; q3] 0) with (Ok t).
  change (path_get [Some t; q2; Some s; q3] 2) with (Ok s). rewrite !bind_Ok.
  case_decide as Hst.
  { rewrite (hier_exit s s1 w Hps), bind_Ok. exists [Some t; q2; Some s; q3], (next_state w).
    unfold exit_out. simpl. by rewrite app_nil_r. }
  rewrite (get_super_parent w t t1 Hpt Hta), bind_Ok. cbn [snd next_state set_next].
  case_decide as Hst1.
  { subst t1. destruct (meet_unique s t a c x b [] [t] s lt Hm) as [-> ->].
    { split_and!; [done|by rewrite Ec in Hcc|by intros y ?%not_elem_of_nil]. }
    exists [Some t; q2; Some s; q3], s. unfold exit_out. simpl. by rewrite say_nil. }
  rewrite (get_super_parent (set_next w t1) s s1 Hps Hsa), bind_Ok. cbn [snd next_state set_next].
  case_decide as Hp.
  { subst t1. assert (ls = lt) as -> by (by pose proof (chain_det _ _ _ Hcs1 Hct1); simplify_eq).
    destruct (meet_unique s t a c x b [s] [t] s1 lt Hm) as [-> ->].
    { rewrite Ea in Hca. rewrite Ec in Hcc.
      split_and!; [done|done|]. intros y ->%list_elem_of_singleton ?%list_elem_of_singleton. done. }
    rewrite (hier_exit s s1 _ Hps), bind_Ok. exists [Some t; q2; Some s; q3], s1.
    unfold exit_out. simpl. by rewrite app_nil_r. }
  rewrite bind_Ok. case_decide as Hd.
  { subst s1. assert (ls = t1 :: lt) as ->.
    { rewrite Ec in Hcc. pose proof (chain_det _ _ _ Hcs1 Hcc). by simplify_eq. }
    destruct (meet_unique s t a c x b [s] [] t (t1 :: lt) Hm) as [-> ->].
    { rewrite Ea in Hca. rewrite Ec in Hcc.
      split_and!; [done|done|]. intros y _ ?%not_elem_of_nil. done. }
    rewrite (hier_exit s t _ Hps), bind_Ok. exists [Some t; q2; Some s; q3], t.
    unfold exit_out. simpl. by rewrite app_nil_r. }
  destruct (tran_general_spec fuel (set_next (set_next w t1) s1) s s1 t t1 ls lt a c x b q2 q3)
    as (path & n & -> & Hres); try done; [by rewrite <-Ec|]. exists path, n. done.
Qed.

Lemma chain_prefix_parent t c x b y : chain t (c ++ x :: b) → y ∈ c → is_Some (parent y).
Proof.
  intros Hc (c1 & c2 & ->)%list_elem_of_split.
  assert (Hy : chain y (y :: c2 ++ x :: b)) by (eapply chain_suffix; [done|by rewrite <-app_assoc]).
  destruct (decide (y = root)) as [->|Hr].
  - apply chain_root_inv in Hy. by destruct c2.
  - destruct (chain_inv y _ Hy Hr) as (p & _ & Hp & _). eauto.
Qed.

(** *** Dispatching *)

(** A state that lets the dispatcher go on to its superstate: it handled the
    event, or referred to its superstate. *)
Definition passes (sig s : Z) : Prop :=
  (∀ w, call_handler states w s sig = Ok (EVT_STATUS_HANDLED, w)) ∨
  (∀ w p, parent s = Some p → s ∈ hsm_of w →
     call_handler states w s sig = Ok (EVT_STATUS_SUPER, set_next w p)).

Lemma process_event_spec sig w s a y b st fuel :
  chain s (a ++ y :: b) → (∀ x, x ∈ a → passes sig x) → attached w a →
  (∀ w, call_handler states w y sig = Ok (st, w)) →
  st ≠ EVT_STATUS_SUPER → st ≠ EVT_STATUS_HANDLED →
  next_state w = s → (length a < fuel)%nat →
  process_event states fuel w sig = Ok (st, y, set_next w y).
Proof.
  intros Hc Hpa Hat Hy Hs1 Hs2 Hn Hf. revert w s fuel Hc Hat Hn Hf.
  induction a as [|x a IH]; intros w s fuel Hc Hat Hn Hf;
    (destruct fuel as [|fuel]; [simpl in Hf; lia|]); cbn [process_event].
  - destruct (chain_head _ _ Hc) as [l E]. simplify_eq/=. rewrite Hy, bind_Ok. cbn [fst].
    rewrite decide_False, bind_Ok by done. cbn [fst]. rewrite decide_False by done.
    by destruct w.
  - destruct (chain_head _ _ Hc) as [l E]. injection E as <- _.
    destruct (chain_prefix_parent x (x :: a) y b x Hc) as [p Hp]; [by left|].
    assert (Hxa : x ∈ hsm_of w) by (apply Hat; [by left|by eapply parent_root]).
    assert (Hrest : process_event states fuel (set_next w p) sig = Ok (st, y, set_next w y)).
    { apply (IH (λ z Hz, Hpa z ltac:(by right)) (set_next w p) p fuel).
      - destruct (chain_inv x _ Hc) as (p' & l' & Hp' & Hc' & E'); [by eapply parent_root|].
        simplify_eq/=. done.
      - intros z Hz. apply Hat. by right.
      - done.
      - simpl in Hf. lia. }
    rewrite Hn. destruct (Hpa x ltac:(by left)) as [Hh|Hsup].
    + rewrite Hh, bind_Ok. cbn [fst snd]. rewrite decide_True by done.
      rewrite (get_super_parent w x p Hp Hxa), bind_Ok. cbn [fst snd].
      by rewrite decide_True.
    + rewrite (Hsup w p Hp Hxa), bind_Ok. cbn [fst snd]. rewrite decide_False by done.
      rewrite bind_Ok. cbn [fst snd]. by rewrite decide_True.
Qed.

(** The loop after a transition never meets its target again. *)
Lemma drill_overflows fuel w t y l ip path :
  chain y l → (t ∉ l) → attached w l → next_state w = y →
  length path = HSM_MAX_NEST_DEPTH_ → 0 ≤ ip < Z.of_nat HSM_MAX_NEST_DEPTH_ →
  (HSM_MAX_NEST_DEPTH_ ≤ fuel + Z.to_nat ip)%nat →
  drill states fuel w t ip path = Ub OutOfBounds.
Proof.
  revert w y l ip path. induction fuel as [|fuel IH];
    intros w y l ip path Hc Ht Hat Hn Hlp Hip Hf; [lia|]. cbn [drill].
  destruct (chain_head _ _ Hc) as [l' ->]. rewrite not_elem_of_cons in Ht. destruct Ht as [Hty Htl].
  rewrite decide_False by congruence.
  destruct (decide (ip + 1 = Z.of_nat HSM_MAX_NEST_DEPTH_)) as [He|He].
  { unfold arr_set. by rewrite decide_False by lia. }
  rewrite arr_set_ok by lia. rewrite bind_Ok, Hn.
  destruct (decide (y = root)) as [->|Hy].
  - rewrite get_super_root, bind_Ok. apply chain_root_inv in Hc as E. simplify_eq.
    eapply (IH w root [root]); try done; try (rewrite ?length_insert; lia).
    by rewrite list_elem_of_singleton.
  - destruct (chain_inv y _ Hc Hy) as (p & l1 & Hp & Hc' & E). simplify_eq.
    rewrite (get_super_parent w _ p Hp) by (apply Hat; [by left|done]).
    rewrite bind_Ok. cbn [snd].
    eapply (IH _ p l1); try done; try (rewrite ?length_insert; lia).
    intros z Hz. apply Hat. by right.
Qed.

Lemma dispatch_tran_overflows fuel w sig s t a c x b :
  exit_status = EVT_STATUS_HANDLED → s ≠ root → t ≠ root →
  cur_state w = s → next_state w = s →
  call_handler states w s sig = Ok (EVT_STATUS_TRAN, set_next w t) →
  meet s t a c x b → attached w (a ++ x :: b) → attached w (c ++ x :: b) →
  (length (c ++ x :: b) ≤ HSM_MAX_NEST_DEPTH_)%nat → (length a < fuel)%nat →
  glb_hsm_dispatch states fuel w sig = Ub OutOfBounds.
Proof.
  intros Hex Hs Ht Hcur Hnext Hh Hm Hata Hatc Hle Hf.
  destruct fuel as [|fuel]; [lia|]. unfold glb_hsm_dispatch. cbn [process_event].
  rewrite Hnext, Hh, bind_Ok. cbn [fst snd]. rewrite decide_False, bind_Ok by done. cbn [fst snd].
  rewrite decide_False by done. change (mret ?z ≫= ?f) with (f z). cbv beta iota.
  rewrite decide_True by done. rewrite Hcur. cbn [exit_to_source].
  rewrite (decide_True (P := s = s)) by done. change (mret ?z ≫= ?f) with (f z). cbv beta.
  destruct (hsm_tran_spec (S fuel) (set_next w t) s t a c x b (Some s) None)
    as (path & n & Hrun & Hhold & Hlp & Hp0); try done; [lia|].
  change (next_state (set_next w t)) with t. rewrite Hrun, bind_Ok.
  destruct Hm as (_ & Hcc & _).
  replace (Z.to_nat (Z.of_nat (length (entries s t c)) - 1 + 1)) with (length (entries s t c)) by lia.
  destruct (chain_inv t _ Hcc Ht) as (t1 & lt & Hpt & Hct1 & Ec).
  rewrite enter_path_ok; [|done|].
  2: { unfold entries. intros y Hy. case_decide.
       - apply list_elem_of_singleton in Hy as ->. eauto.
       - by eapply chain_prefix_parent. }
  rewrite bind_Ok, Hp0, bind_Ok. rewrite arr_set_ok by (rewrite Hlp; unfold HSM_MAX_NEST_DEPTH_; lia). rewrite bind_Ok.
  rewrite (get_super_parent _ t t1 Hpt) by (apply (Hatc t); [rewrite Ec; by left|done]).
  rewrite bind_Ok. cbn [snd]. rewrite (drill_overflows _ _ t t1 lt); try done.
  - intros Hin. apply chain_NoDup in Hcc. rewrite Ec in Hcc. by apply NoDup_cons in Hcc as [? _].
  - intros z Hz. apply (Hatc z). rewrite Ec. by right.
  - by rewrite length_insert.
  - lia.
Qed.

(** *** Exit actions that do not report [EVT_STATUS_HANDLED] *)

Lemma exit_loop_stuck fuel w u p ip path :
  exit_status ≠ EVT_STATUS_HANDLED → parent u = Some p → next_state w = u →
  lca_scan (Z.to_nat (ip + 1)) u path = Ok None →
  exit_loop states fuel w u ip path = NoFuel.
Proof.
  intros Hex Hu Hn Hscan. revert w Hn. induction fuel as [|fuel IH]; intros w Hn; [done|].
  cbn [exit_loop]. rewrite (hier_exit u p w Hu), bind_Ok. cbn [fst snd].
  rewrite decide_False by done. change (mret ?z ≫= ?f) with (f z). cbv beta zeta.
  cbn [say next_state]. rewrite Hn, Hscan, bind_Ok. by apply IH.
Qed.

End hierarchy.

(** ** The states of common_level.c, level_state.c, level2_state.c, level3_state.c *)

Definition LEVEL_START_SIG : Z := HSM_EMPTY_SIG + 1.
Definition LEVEL_STOP_SIG : Z := LEVEL_START_SIG + 1.

(** Addresses of the three static state objects. *)
Definition level1 : Z := 2.
Definition level2 : Z := 3.
Definition level3 : Z := 4.

(** [name] of the [level_state_t] around a state. *)
Definition level_name (s : Z) : option string :=
  if decide (s = level1) then Some "level 1 state"%string
  else if decide (s = level2) then Some "level 2 state"%string
  else if decide (s = level3) then Some "level 3 state"%string
  else None.

Definition level_entry : action_func := λ w super,
  name ← or_ub BadPtr (level_name super); mret (0, say w [("level_entry"%string, name)]).
Definition level_exit : action_func := λ w super,
  name ← or_ub BadPtr (level_name super); mret (0, say w [("level_exit"%string, name)]).

Definition level_msg_handler : msg_handler_func := λ w super signal,
  if decide (signal = LEVEL_START_SIG) then mret (EVT_STATUS_HANDLED, w)
  else if decide (signal = LEVEL_STOP_SIG) then mret (EVT_STATUS_HANDLED, w)
  else EVT_SUPER w super root.
Definition level2_msg_handler : msg_handler_func := λ w super signal,
  if decide (signal = LEVEL_START_SIG) then mret (EVT_STATUS_HANDLED, w)
  else if decide (signal = LEVEL_STOP_SIG) then mret (EVT_STATUS_HANDLED, w)
  else EVT_SUPER w super level1.
Definition level3_msg_handler : msg_handler_func := λ w super signal,
  if decide (signal = LEVEL_START_SIG) then mret (EVT_STATUS_HANDLED, w)
  else if decide (signal = LEVEL_STOP_SIG) then mret (EVT_STATUS_HANDLED, w)
  else EVT_SUPER w super level2.

Definition m_level1_state := SuperState (Some level_entry) (Some level_exit) (Some level_msg_handler).
Definition m_level2_state := SuperState (Some level_entry) (Some level_exit) (Some level2_msg_handler).
Definition m_level3_state := SuperState (Some level_entry) (Some level_exit) (Some level3_msg_handler).

Definition level_states (s : Z) : option super_state_t :=
  if decide (s = root) then Some m_root_state
  else if decide (s = level1) then Some m_level1_state
  else if decide (s = level2) then Some m_level2_state
  else if decide (s = level3) then Some m_level3_state
  else None.

(** The superstates the handlers name, and what is printed. *)
Definition level_parent (s : Z) : option Z :=
  if decide (s = level1) then Some root
  else if decide (s = level2) then Some level1
  else if decide (s = level3) then Some level2
  else None.
Definition level_msg (what : string) (s : Z) : list (string * string) :=
  match level_name s with Some name => [(what, name)] | None => [] end.

Lemma level_parent_cases s p : level_parent s = Some p →
  (s = level1 ∧ p = root) ∨ (s = level2 ∧ p = level1) ∨ (s = level3 ∧ p = level2).
Proof. unfold level_parent. repeat case_decide; naive_solver. Qed.

Lemma EVT_SUPER_ok w self p :
  self ∈ hsm_of w → EVT_SUPER w self p = Ok (EVT_STATUS_SUPER, set_next w p).
Proof. intros. unfold EVT_SUPER. by rewrite decide_True. Qed.

#[export] Instance level_hierarchy : Hierarchy level_states.
Proof.
  refine {| parent := level_parent; entry_msg := level_msg "level_entry"%string;
            exit_msg := level_msg "level_exit"%string; exit_status := 0 |}.
  - done.
  - intros s p Hs. by destruct (level_parent_cases s p Hs) as [[-> _]|[[-> _]|[-> _]]].
  - intros s p w Hs Hin.
    destruct (level_parent_cases s p Hs) as [[-> ->]|[[-> ->]|[-> ->]]].
    + change (EVT_SUPER w level1 root = Ok (EVT_STATUS_SUPER, set_next w root)). by apply EVT_SUPER_ok.
    + change (EVT_SUPER w level2 level1 = Ok (EVT_STATUS_SUPER, set_next w level1)). by apply EVT_SUPER_ok.
    + change (EVT_SUPER w level3 level2 = Ok (EVT_STATUS_SUPER, set_next w level2)). by apply EVT_SUPER_ok.
  - intros s p w Hs. exists 0.
    by destruct (level_parent_cases s p Hs) as [[-> ->]|[[-> ->]|[-> ->]]].
  - intros s p w Hs. by destruct (level_parent_cases s p Hs) as [[-> ->]|[[-> ->]|[-> ->]]].
Defined.

Lemma level_chain : chain level_states level3 [level3; level2; level1; root].
Proof. repeat first [apply chain_root | eapply chain_up; [done|]]. Qed.

(** ** Properties *)

Section properties.
Context (states : Z → option super_state_t) `{!Hierarchy states}.

(** C27: initialisation: [hsm_init] on a state whose superstates below the root
    are [l] (innermost first) enters them outermost first, attaches them, and
    leaves the machine stable in the initial state; when there are more than
    [HSM_MAX_NEST_DEPTH_] of them it writes past the path array. *)
Theorem hsm_init_enters_chain (w : glb_hsm_t) (s : Z) (l : list Z) :
  chain states s (l ++ [root]) → s ≠ root →
  hsm_init states w s =
    if decide (length l ≤ HSM_MAX_NEST_DEPTH_)%nat
    then Ok (Hsm s s (list_to_set l ∪ hsm_of w) (out w ++ (reverse l ≫= entry_msg)))
    else Ub OutOfBounds.
Proof. apply glb_hsm_init_spec. Qed.

(** C2: [hsm_tran] computes the least common superstate: with exit actions that
    report [EVT_STATUS_HANDLED] and a target at most three levels below the
    root, it terminates without undefined behaviour, leaves exactly the states
    below the meeting point of the two chains (innermost first), and the entry
    path it hands back is exactly the target's part of the chain below that
    point; a transition to itself leaves and re-enters the state. *)
Theorem hsm_tran_lca (fuel : nat) (w : glb_hsm_t) (s t : Z) (a c : list Z) (x : Z) (b : list Z)
    (q2 q3 : option Z) :
  exit_status = EVT_STATUS_HANDLED → s ≠ root → t ≠ root →
  meet states s t a c x b → attached w (a ++ x :: b) → attached w (c ++ x :: b) →
  (length (c ++ x :: b) ≤ HSM_MAX_NEST_DEPTH_)%nat → (length a ≤ fuel)%nat →
  let ex := if decide (s = t) then [s] else a in
  let en := if decide (s = t) then [t] else c in
  ∃ path n,
    hsm_tran states fuel w [Some t; q2; Some s; q3] =
      Ok (Tran (Z.of_nat (length en) - 1) path (set_next (say w (ex ≫= exit_msg)) n)) ∧
    take (length en) path = Some <$> en ∧ path_get path 0 = Ok t.
Proof.
  intros Hex Hs Ht Hm Ha Hc Hl Hf. cbv zeta.
  destruct (hsm_tran_spec states fuel w s t a c x b q2 q3 Hex Hs Ht Hm Ha Hc Hl Hf)
    as (path & n & Hr & Hh & _ & Hp0). eauto.
Qed.

(** C37: an event that is handled is passed on: the dispatcher goes up past every
    state that handles the event or refers to its superstate, and leaves the
    machine in the first one that answers neither ([EVT_STATUS_IGNORED] or
    [EVT_STATUS_UNHANDLE]; at the latest the root), without calling any exit
    action. *)
Theorem hsm_dispatch_climbs (fuel : nat) (w : glb_hsm_t) (sig s : Z) (a : list Z) (y : Z)
    (b : list Z) (st : Z) :
  next_state w = s → chain states s (a ++ y :: b) → attached w a →
  (∀ x, x ∈ a → passes states sig x) →
  (∀ w, call_handler states w y sig = Ok (st, w)) →
  st = EVT_STATUS_IGNORED ∨ st = EVT_STATUS_UNHANDLE → (length a < fuel)%nat →
  glb_hsm_dispatch states fuel w sig = Ok (inl (Hsm y y (hsm_of w) (out w))).
Proof.
  intros Hn Hc Hat Hpa Hy Hst Hf. unfold glb_hsm_dispatch.
  rewrite (process_event_spec states sig w s a y b st fuel) by (by destruct Hst as [-> | ->]).
  rewrite bind_Ok. rewrite decide_False; [done|].
  unfold EVT_STATUS_TRAN, EVT_STATUS_IGNORED, EVT_STATUS_UNHANDLE in *. lia.
Qed.

(** C36: a transition asked for by the current state itself does not complete: with
    exit actions that report [EVT_STATUS_HANDLED], for a target that is not the root
    and lies at most three levels below it, the dispatcher carries the transition
    out and then keeps climbing from the target, which it never meets again, until
    it writes past the path array. *)
Theorem hsm_dispatch_tran_overflow (fuel : nat) (w : glb_hsm_t) (sig s t : Z)
    (a c : list Z) (x : Z) (b : list Z) :
  exit_status = EVT_STATUS_HANDLED → s ≠ root → t ≠ root →
  cur_state w = s → next_state w = s →
  call_handler states w s sig = Ok (EVT_STATUS_TRAN, set_next w t) →
  meet states s t a c x b → attached w (a ++ x :: b) → attached w (c ++ x :: b) →
  (length (c ++ x :: b) ≤ HSM_MAX_NEST_DEPTH_)%nat → (length a < fuel)%nat →
  glb_hsm_dispatch states fuel w sig = Ub OutOfBounds.
Proof. apply dispatch_tran_overflows. Qed.

(** [hsm_tran] relies on exit actions that report [EVT_STATUS_HANDLED]: with
    any other status a transition to a state directly below the root, from a
    state two levels or more below another one, leaves the source's superstate
    again and again and never ends. *)
Lemma hsm_tran_livelock (fuel : nat) (w : glb_hsm_t) (s s1 s2 t : Z) (q2 q3 : option Z) :
  exit_status ≠ EVT_STATUS_HANDLED →
  parent t = Some root → parent s = Some s1 → parent s1 = Some s2 →
  s ≠ t → s1 ≠ t → s ∈ hsm_of w → t ∈ hsm_of w →
  hsm_tran states fuel w [Some t; q2; Some s; q3] = NoFuel.
Proof.
  intros Hex Hpt Hps Hps1 Hst Hs1t Hs Ht.
  pose proof (parent_root states s s1 Hps). pose proof (parent_root states s1 s2 Hps1).
  unfold hsm_tran. change (path_get [Some t; q2; Some s; q3] 0) with (Ok t).
  change (path_get [Some t; q2; Some s; q3] 2) with (Ok s). rewrite !bind_Ok.
  rewrite decide_False by done.
  rewrite (get_super_parent states w t root Hpt Ht), bind_Ok. cbn [snd next_state set_next].
  rewrite decide_False by done.
  rewrite (get_super_parent states (set_next w root) s s1 Hps Hs), bind_Ok.
  cbn [snd next_state set_next]. rewrite decide_False, bind_Ok, decide_False by done.
  unfold tran_general. change (arr_set _ 1 _) with (Ok [Some t; Some root; Some s; q3]).
  rewrite bind_Ok. change (path_get _ 1) with (Ok root). rewrite bind_Ok.
  rewrite get_super_root, bind_Ok by done. cbn [fst snd entry_loop].
  rewrite decide_False by done. change (mret ?z ≫= ?f) with (f z). cbv beta iota.
  rewrite decide_False by (unfold HSM_MAX_NEST_DEPTH_; lia).
  rewrite (hier_exit s s1 _ Hps), bind_Ok. cbn [snd].
  assert (Hscan : lca_scan (Z.to_nat (1 + 1)) s1 [Some t; Some root; Some s; q3] = Ok None).
  { apply (lca_scan_miss _ [t; root]); [done|]. rewrite !not_elem_of_cons.
    split_and!; [done|done|apply not_elem_of_nil]. }
  cbn [next_state set_next]. rewrite Hscan, bind_Ok. by eapply exit_loop_stuck.
Qed.

End properties.

(** ** The properties on concrete machines *)

Lemma hsm_init_enters_chain_witness :
  hsm_init level_states (Hsm 0 0 ∅ []) level3 =
    Ok (Hsm level3 level3 (list_to_set [level3; level2; level1] ∪ ∅)
          [("level_entry"%string, "level 1 state"%string);
           ("level_entry"%string, "level 2 state"%string);
           ("level_entry"%string, "level 3 state"%string)]).
Proof.
  refine (eq_trans (hsm_init_enters_chain level_states (Hsm 0 0 ∅ []) level3
    [level3; level2; level1] level_chain _) _); [done|by vm_compute].
Defined.

(** The machine after [hsm_init(get_level3_state())]. *)
Definition level_world : glb_hsm_t := Hsm level3 level3 {[level3; level2; level1]} [].

Lemma level_attached l : (∀ s, s ∈ l → s ∈ [level3; level2; level1; root]) → attached level_world l.
Proof.
  intros Hl s Hs Hr. apply Hl in Hs. cbn. set_solver.
Qed.

Lemma level_passes s : s ∈ [level3; level2; level1] → passes level_states LEVEL_START_SIG s.
Proof.
  rewrite !elem_of_cons. intros [->|[->|[->|Hs]]]; [left; by intros..|].
  by apply not_elem_of_nil in Hs.
Qed.

(** The event [LEVEL_START_SIG] moves the machine from level 3 to the root. *)
Lemma hsm_dispatch_climbs_witness :
  glb_hsm_dispatch level_states 4 level_world LEVEL_START_SIG =
    Ok (inl (Hsm root root {[level3; level2; level1]} [])).
Proof.
  apply (hsm_dispatch_climbs level_states 4 level_world LEVEL_START_SIG level3
           [level3; level2; level1] root [] EVT_STATUS_IGNORED).
  - done.
  - apply level_chain.
  - apply level_attached. set_solver.
  - apply level_passes.
  - done.
  - by left.
  - simpl. lia.
Defined.

(** With the exit actions of common_level.c a transition from level 3 to level 1
    does not end. *)
Lemma hsm_tran_livelock_witness :
  hsm_tran level_states 1000 level_world [Some level1; None; Some level3; None] = NoFuel.
Proof.
  apply (hsm_tran_livelock level_states 1000 level_world level3 level2 level1 level1 None None);
    try done; cbn; set_solver.
Defined.

(** A second machine: states 3 and 5 below 2, state 4 below 3; exit actions
    report [EVT_STATUS_HANDLED] and signal 7 asks for a transition to 5. *)
Module Demo.

Definition parent_of (s : Z) : option Z :=
  if decide (s = 2) then Some root
  else if decide (s = 3) then Some 2
  else if decide (s = 4) then Some 3
  else if decide (s = 5) then Some 2
  else None.

Definition entry : action_func := λ w _, mret (0, say w [("entry"%string, EmptyString)]).
Definition exit : action_func := λ w _, mret (EVT_STATUS_HANDLED, say w [("exit"%string, EmptyString)]).
Definition handle (p : Z) : msg_handler_func := λ w super signal,
  if decide (signal = 7) then mret (EVT_STATUS_TRAN, set_next w 5) else EVT_SUPER w super p.

Definition states (s : Z) : option super_state_t :=
  if decide (s = root) then Some m_root_state
  else p ← parent_of s; Some (SuperState (Some entry) (Some exit) (Some (handle p))).

Lemma states_at s p : parent_of s = Some p →
  s ≠ 0 ∧ states s = Some (SuperState (Some entry) (Some exit) (Some (handle p))).
Proof.
  intros Hs. unfold states. rewrite Hs, decide_False; [split; [|done]|];
    intros ->; unfold parent_of in Hs; done.
Qed.

#[global] Instance hierarchy : Hierarchy states.
Proof.
  refine {| parent := parent_of; entry_msg := λ _, [("entry"%string, EmptyString)];
            exit_msg := λ _, [("exit"%string, EmptyString)]; exit_status := EVT_STATUS_HANDLED |}.
  - done.
  - intros s p [? ->]%states_at. eauto.
  - intros s p w [Hz Hs]%states_at Hin. unfold call_handler, state_at.
    rewrite decide_False, Hs by done. by apply EVT_SUPER_ok.
  - intros s p w [Hz Hs]%states_at. exists 0. unfold call_entry, state_at.
    by rewrite decide_False, Hs by done.
  - intros s p w [Hz Hs]%states_at. unfold call_exit, state_at. by rewrite decide_False, Hs by done.
Defined.

Definition world : glb_hsm_t := Hsm 4 4 {[2; 3; 4; 5]} [].

Lemma attached_all l : (∀ s, s ∈ l → s ∈ [1; 2; 3; 4; 5]) → attached world l.
Proof.
  intros Hl s Hs Hr. apply Hl in Hs. unfold root in Hr. cbn. set_solver.
Qed.

Lemma meeting : meet states 4 5 [4; 3] [5] 2 [root].
Proof.
  split_and!; [repeat first [apply chain_root | eapply chain_up; [done|]]..|]. set_solver.
Qed.

End Demo.

Lemma hsm_tran_lca_witness :
  ∃ path n,
    hsm_tran Demo.states 2 Demo.world [Some 5; None; Some 4; None] =
      Ok (Tran 0 path (set_next (say Demo.world
            [("exit"%string, EmptyString); ("exit"%string, EmptyString)]) n)) ∧
    take 1 path = [Some 5] ∧ path_get path 0 = Ok 5.
Proof.
  destruct (hsm_tran_lca Demo.states 2 Demo.world 4 5 [4; 3] [5] 2 [root] None None)
    as (path & n & Hr & Hp); try done;
    [apply Demo.meeting|apply Demo.attached_all; set_solver..|unfold HSM_MAX_NEST_DEPTH_; simpl; lia|].
  exists path, n. split; [exact Hr|exact Hp].
Defined.

Lemma hsm_dispatch_tran_overflow_witness :
  glb_hsm_dispatch Demo.states 3 Demo.world 7 = Ub OutOfBounds.
Proof.
  apply (hsm_dispatch_tran_overflow Demo.states 3 Demo.world 7 4 5 [4; 3] [5] 2 [root]);
    try done; [apply Demo.meeting|apply Demo.attached_all; set_solver..|
               unfold HSM_MAX_NEST_DEPTH_; simpl; lia|simpl; lia].
Defined.
