(* ===== verification/SinglyList.v ===== *)
(** * SinglyList: the singly linked list of list/singly_linked_list.h and .c

    A list is a stack or a queue depending on its [type].  Its member [tail]
    points to the link field the next node is stored in, so pointers to link
    fields are the type [slot]: the [head] member of a list object or the
    [next] member of a node.  Objects live in two maps, list objects and nodes
    ([template_t], whose first member is the [node_t]); fresh [malloc] memory
    is uninitialised ([None]). *)

From S2P Require Import Prelude.

Inductive insert_type_e := INSERT_TYPE_HEAD | INSERT_TYPE_TAIL.
#[global] Instance insert_type_eq_dec : EqDecision insert_type_e.
Proof. solve_decision. Defined.

(** [node_t **]: the address of a link field. *)
Inductive slot := SHead (list : Z) | SNext (node : Z).

Record template_t := Template { next : option Z; data : option Z }.

Record singly_linked_list_t := SinglyLinkedList {
  head : Z;
  tail : slot;
  type : insert_type_e;
}.

Record store := Store {
  lists : gmap Z singly_linked_list_t;
  nodes : gmap Z template_t;
}.

(** *** Memory accesses *)

Definition get_list (s : store) (l : Z) : res singly_linked_list_t :=
  if decide (l = 0) then Ub NullDeref else or_ub BadPtr (lists s !! l).
Definition get_node (s : store) (p : Z) : res template_t :=
  if decide (p = 0) then Ub NullDeref else or_ub BadPtr (nodes s !! p).
Definition put_list (s : store) (l : Z) (v : singly_linked_list_t) : store :=
  Store (<[l := v]> (lists s)) (nodes s).
Definition put_node (s : store) (p : Z) (v : template_t) : store :=
  Store (lists s) (<[p := v]> (nodes s)).

(** [*ptr] and [*ptr = v] for a pointer to a link field. *)
Definition ld_slot (s : store) (q : slot) : res Z :=
  match q with
  | SHead l => v ← get_list s l; mret (head v)
  | SNext p => n ← get_node s p; or_ub Uninit (next n)
  end.
Definition st_slot (s : store) (q : slot) (v : Z) : res store :=
  match q with
  | SHead l => o ← get_list s l; mret (put_list s l (SinglyLinkedList v (tail o) (type o)))
  | SNext p => n ← get_node s p; mret (put_node s p (Template (Some v) (data n)))
  end.
Definition st_tail (s : store) (l : Z) (q : slot) : res store :=
  o ← get_list s l; mret (put_list s l (SinglyLinkedList (head o) q (type o))).

(** [free] of a node and of a list object; freeing null does nothing. *)
Definition free_node (s : store) (p : Z) : res store :=
  if decide (p = 0) then mret s
  else _ ← or_ub BadPtr (nodes s !! p); mret (Store (lists s) (delete p (nodes s))).
Definition free_list (s : store) (l : Z) : res store :=
  if decide (l = 0) then mret s
  else _ ← or_ub BadPtr (lists s !! l); mret (Store (delete l (lists s)) (nodes s)).

(** ** singly_linked_list.h *)

(** The macro writes to the variable [list] of its caller, which is [l]. *)
Definition INIT_SINGLY_LINKED_LIST (s : store) (l : Z) (ty : insert_type_e) : store :=
  put_list s l (SinglyLinkedList 0 (SHead l) ty).

Definition singly_linked_list_add (s : store) (list new : Z) : res store :=
  o ← get_list s list;
  if decide (INSERT_TYPE_TAIL = type o) then
    s ← st_slot s (SNext new) 0;
    o ← get_list s list;
    s ← st_slot s (tail o) new;
    st_tail s list (SNext new)
  else
    v ← ld_slot s (tail o);
    s ← st_slot s (SNext new) v;
    s ← st_slot s (SHead list) new;
    st_tail s list (SHead list).

(** The loop of [singly_linked_list_del] from the link field [ptr]. *)
Fixpoint del_from (fuel : nat) (s : store) (list new : Z) (ptr : slot) : res store :=
  match fuel with
  | O => NoFuel
  | S fuel =>
      tmp ← ld_slot s ptr;
      if decide (tmp = 0) then mret s
      else if decide (tmp ≠ new) then del_from fuel s list new (SNext tmp)
      else
        nx ← ld_slot s (SNext tmp);
        s ← st_slot s ptr nx;
        o ← get_list s list;
        s ← (if decide (INSERT_TYPE_TAIL = type o) then
               v ← ld_slot s ptr;
               if decide (v = 0) then st_tail s list ptr else mret s
             else mret s);
        s ← free_node s tmp;
        v ← ld_slot s ptr;
        del_from fuel s list new (SNext v)
  end.

Definition singly_linked_list_del (fuel : nat) (s : store) (list new : Z) : res store :=
  del_from fuel s list new (SHead list).

(** [list_for_each_entry(pos, list->head, node)]: the node is the first member,
    so the container has the node's address; [body] sees each container. *)
Fixpoint for_each_entry {A} (fuel : nat) (s : store) (body : template_t → A → res A)
    (pos : Z) (a : A) : res A :=
  match fuel with
  | O => NoFuel
  | S fuel =>
      if decide (pos = 0) then mret a
      else
        n ← get_node s pos;
        a ← body n a;
        nx ← or_ub Uninit (next n);
        for_each_entry fuel s body nx a
  end.

(** ** singly_linked_list.c *)

(** [answer] is what [malloc] returns, [None] when it fails. *)
Definition single_list_new (s : store) (answer : option Z) (ty : insert_type_e) : Z * store :=
  match answer with
  | None => (0, s)
  | Some l => (l, INIT_SINGLY_LINKED_LIST s l ty)
  end.

(** The node is allocated first, then the list pointer is checked; the result
    of [malloc] is not. *)
Definition single_list_add (s : store) (answer : option Z) (list d : Z) : res (Z * store) :=
  let ptr := default 0 answer in
  let s := match answer with Some p => put_node s p (Template None None) | None => s end in
  if decide (list = 0) then mret (-1, s)
  else
    n ← get_node s ptr;
    s ← singly_linked_list_add (put_node s ptr (Template (next n) (Some d))) list ptr;
    mret (0, s).

Definition single_list_del (fuel : nat) (s : store) (list template : Z) : res (Z * store) :=
  s ← singly_linked_list_del fuel s list template; mret (0, s).

Fixpoint free_nodes (fuel : nat) (s : store) (list : Z) : res store :=
  match fuel with
  | O => NoFuel
  | S fuel =>
      o ← get_list s list;
      if decide (head o = 0) then mret s
      else
        let ptr := head o in
        nx ← ld_slot s (SNext ptr);
        s ← st_slot s (SHead list) nx;
        s ← free_node s ptr;
        free_nodes fuel s list
  end.

(** The function has no [return]; its [int] result is not modelled. *)
Definition single_list_free (fuel : nat) (s : store) (list : Z) : res store :=
  s ← free_nodes fuel s list; free_list s list.

(** The data handed to [do_show], in order; nothing without a callback. *)
Definition dump_template (fuel : nat) (s : store) (lst : Z) (do_show : bool)
    : res (list Z) :=
  o ← get_list s lst;
  for_each_entry fuel s
    (λ n shown, if do_show then d ← or_ub Uninit (data n); mret (shown ++ [d]) else mret shown)
    (head o) [].

(** ** Well-formed lists *)

(** A list holds pairs of a node's address and its data. *)
Definition first_or (xs : list (Z * Z)) (q : Z) : Z :=
  match xs with [] => q | x :: _ => x.1 end.

(** The nodes [xs] are linked in order and the last one points to [q]. *)
Fixpoint seg (n : gmap Z template_t) (xs : list (Z * Z)) (q : Z) : Prop :=
  match xs with
  | [] => True
  | x :: xs => x.1 ≠ 0 ∧ n !! x.1 = Some (Template (Some (first_or xs q)) (Some x.2)) ∧ seg n xs q
  end.

(** The link field after the nodes [xs]. *)
Definition slot_of (l : Z) (xs : list (Z * Z)) : slot :=
  match last xs with None => SHead l | Some x => SNext x.1 end.

Definition tail_slot (l : Z) (ty : insert_type_e) (xs : list (Z * Z)) : slot :=
  match ty with INSERT_TYPE_HEAD => SHead l | INSERT_TYPE_TAIL => slot_of l xs end.

Record slist (s : store) (l : Z) (ty : insert_type_e) (xs : list (Z * Z)) : Prop := {
  sl_nz : l ≠ 0;
  sl_obj : lists s !! l = Some (SinglyLinkedList (first_or xs 0) (tail_slot l ty xs) ty);
  sl_seg : seg (nodes s) xs 0;
  sl_nodup : NoDup xs.*1;
}.

Lemma first_or_app xs ys q : first_or (xs ++ ys) q = first_or xs (first_or ys q).
Proof. by destruct xs. Qed.

Lemma linked_app n xs ys q : seg n (xs ++ ys) q ↔ seg n xs (first_or ys q) ∧ seg n ys q.
Proof.
  induction xs as [|x xs IH]; simpl; [naive_solver|]. rewrite IH, first_or_app. tauto.
Qed.

Lemma linked_frame n n' xs q :
  (∀ x, x ∈ xs.*1 → n' !! x = n !! x) → seg n xs q → seg n' xs q.
Proof.
  induction xs as [|x xs IH]; simpl; [done|]. intros Hf (Hz & Hn & Hs). split_and!; [done| |].
  - rewrite Hf; [done|]. by left.
  - apply IH; [|done]. intros y Hy. apply Hf. by right.
Qed.

Lemma slot_of_snoc l xs x : slot_of l (xs ++ [x]) = SNext x.1.
Proof. unfold slot_of. by rewrite last_snoc. Qed.

Lemma get_list_ok s l o : l ≠ 0 → lists s !! l = Some o → get_list s l = Ok o.
Proof. intros. unfold get_list. rewrite decide_False by done. by rewrite H0. Qed.
Lemma get_node_ok s p n : p ≠ 0 → nodes s !! p = Some n → get_node s p = Ok n.
Proof. intros. unfold get_node. rewrite decide_False by done. by rewrite H0. Qed.

(** Loading and storing through the link field after [pre]. *)
Lemma ld_slot_of s l o pre q :
  l ≠ 0 → lists s !! l = Some o → seg (nodes s) pre q → head o = first_or pre q →
  ld_slot s (slot_of l pre) = Ok q.
Proof.
  intros Hl Ho Hs Hh. destruct pre as [|x pre _] using rev_ind.
  - simpl in *. unfold slot_of. simpl. rewrite (get_list_ok s l o Hl Ho). simpl. by rewrite Hh.
  - rewrite slot_of_snoc. apply linked_app in Hs as [_ (Hz & Hn & _)]. simpl.
    by rewrite (get_node_ok s _ _ Hz Hn).
Qed.

Lemma st_slot_of s l o pre q v :
  l ≠ 0 → lists s !! l = Some o → seg (nodes s) pre q → head o = first_or pre q → NoDup pre.*1 →
  ∃ s', st_slot s (slot_of l pre) v = Ok s' ∧ seg (nodes s') pre v ∧
    lists s' !! l = Some (SinglyLinkedList (first_or pre v) (tail o) (type o)) ∧
    (∀ x, (x ∉ pre.*1) → nodes s' !! x = nodes s !! x) ∧
    (∀ k, k ≠ l → lists s' !! k = lists s !! k).
Proof.
  intros Hl Ho Hs Hh Hnd. destruct pre as [|x pre _] using rev_ind.
  - unfold slot_of. simpl. rewrite (get_list_ok s l o Hl Ho). simpl. eexists. split; [done|].
    simpl. split_and!; try done; [by rewrite lookup_insert_eq|].
    intros k Hk. by rewrite lookup_insert_ne.
  - rewrite slot_of_snoc. apply linked_app in Hs as [Hs (Hz & Hn & _)]. simpl.
    rewrite (get_node_ok s _ _ Hz Hn). simpl. eexists. split; [done|].
    rewrite fmap_app in Hnd. apply NoDup_app in Hnd as (Hnd & Hx & _). simpl in *.
    split_and!; [|destruct o; simpl in *; by rewrite Ho, Hh, !first_or_app| |done].
    + apply linked_app. simpl. rewrite lookup_insert_eq. split_and!; try done.
      apply (linked_frame (nodes s)); [|done]. intros y Hy. apply lookup_insert_ne.
      intros <-. apply (Hx x.1 Hy). by left.
    + intros y Hy. rewrite fmap_app, not_elem_of_app in Hy. apply lookup_insert_ne.
      intros <-. apply (proj2 Hy). by left.
Qed.

Lemma st_tail_ok s l o q :
  l ≠ 0 → lists s !! l = Some o →
  st_tail s l q = Ok (put_list s l (SinglyLinkedList (head o) q (type o))).
Proof. intros Hl Ho. unfold st_tail. by rewrite (get_list_ok s l o Hl Ho). Qed.

(** ** Insertion *)

Definition inserted (ty : insert_type_e) (xs : list (Z * Z)) (x : Z * Z) : list (Z * Z) :=
  match ty with INSERT_TYPE_HEAD => x :: xs | INSERT_TYPE_TAIL => xs ++ [x] end.

Lemma add_spec s l ty xs new d nx :
  slist s l ty xs → new ≠ 0 → (new ∉ xs.*1) → nodes s !! new = Some (Template nx (Some d)) →
  ∃ s', singly_linked_list_add s l new = Ok s' ∧ slist s' l ty (inserted ty xs (new, d)) ∧
    (∀ y, (y ∉ xs.*1) → y ≠ new → nodes s' !! y = nodes s !! y) ∧
    (∀ k, k ≠ l → lists s' !! k = lists s !! k).
Proof.
  intros [Hl Ho Hs Hnd] Hz Hni Hn. unfold singly_linked_list_add.
  rewrite (get_list_ok s l _ Hl Ho), bind_Ok. cbn [type tail].
  destruct ty; cbn [tail_slot] in *.
  - rewrite decide_False by done.
    assert (ld_slot s (SHead l) = Ok (first_or xs 0)) as ->
      by (by apply (ld_slot_of s l _ [] _ Hl Ho)).
    rewrite bind_Ok. cbn [st_slot]. rewrite (get_node_ok s new _ Hz Hn). rewrite !bind_Ok.
    cbn [data]. change (mret ?z ≫= ?f) with (f z). cbv beta.
    rewrite (get_list_ok (put_node s new (Template (Some (first_or xs 0)) (Some d))) l _ Hl Ho).
    rewrite bind_Ok. cbn.
    erewrite st_tail_ok; [|done|simpl; apply lookup_insert_eq]. cbn.
    eexists. split; [done|]. split; [split; try done; cbn|split].
    + by rewrite !lookup_insert_eq.
    + rewrite lookup_insert_eq. split_and!; try done. apply (linked_frame (nodes s)); [|done].
      intros y Hy. apply lookup_insert_ne. congruence.
    + by apply NoDup_cons.
    + intros y _ Hy. cbn. by rewrite lookup_insert_ne.
    + intros k Hk. cbn. by rewrite !lookup_insert_ne.
  - rewrite decide_True by done. cbn [st_slot]. rewrite (get_node_ok s new _ Hz Hn), !bind_Ok.
    change (mret ?z ≫= ?f) with (f z). cbv beta.
    set (s1 := put_node s new _). rewrite (get_list_ok s1 l _ Hl Ho), bind_Ok. cbn [tail].
    destruct (st_slot_of s1 l _ xs 0 new Hl Ho) as (s2 & -> & Hs2 & Hl2 & Hf2 & Hk2); try done.
    { apply (linked_frame (nodes s)); [|done]. intros y Hy. apply lookup_insert_ne. congruence. }
    rewrite bind_Ok. erewrite st_tail_ok by done. eexists. split; [done|].
    assert (Hn2 : nodes s2 !! new = Some (Template (Some 0) (Some d))).
    { rewrite Hf2 by done. apply lookup_insert_eq. }
    split; [split; try done; cbn|split].
    + by rewrite lookup_insert_eq, slot_of_snoc, first_or_app.
    + apply linked_app. by cbn.
    + rewrite fmap_app. apply NoDup_app. split_and!; [done| |apply NoDup_singleton].
      intros y Hy ->%list_elem_of_singleton. done.
    + intros y Hy Hy'. cbn. rewrite Hf2 by done. by apply lookup_insert_ne.
    + intros k Hk. cbn. rewrite lookup_insert_ne by done. by apply Hk2.
Qed.

(** ** Deletion *)

Lemma del_walk s l ty pre ys rest new fuel :
  slist s l ty (pre ++ ys ++ rest) → (new ∉ ys.*1) →
  del_from (length ys + fuel) s l new (slot_of l pre) = del_from fuel s l new (slot_of l (pre ++ ys)).
Proof.
  intros Hsl. pose proof Hsl as [Hl Ho Hs _].
  revert pre Hsl Ho Hs. induction ys as [|y ys IH]; intros pre Hsl Ho Hs Hni.
  - simpl. by rewrite app_nil_r.
  - pose proof Hs as [Hs1 (Hz & Hn & _)]%linked_app. cbn [length Nat.add del_from].
    rewrite (ld_slot_of s l _ pre y.1 Hl Ho) by (try done; cbn; by rewrite first_or_app).
    rewrite bind_Ok, decide_False by done. simpl in Hni. rewrite not_elem_of_cons in Hni.
    rewrite decide_True by naive_solver.
    replace (SNext y.1) with (slot_of l (pre ++ [y])) by apply slot_of_snoc.
    change (pre ++ (y :: ys) ++ rest) with (pre ++ [y] ++ (ys ++ rest)) in *.
    rewrite (app_assoc pre [y]) in *. change (y :: ys) with ([y] ++ ys).
    rewrite (app_assoc pre [y]). apply IH; [done..|exact (proj2 Hni)].
Qed.

Lemma free_node_ok s p n : p ≠ 0 → nodes s !! p = Some n →
  free_node s p = Ok (Store (lists s) (delete p (nodes s))).
Proof. intros Hp Hn. unfold free_node. rewrite decide_False by done. by rewrite Hn. Qed.

Lemma first_or_zero xs n q : seg n xs q → xs ≠ [] → first_or xs q ≠ 0.
Proof. destruct xs; [done|]. by intros (Hz & _) _. Qed.

(** The tail pointer stays right when the node before it goes away. *)
Lemma fix_tail s l ty pre rest o :
  l ≠ 0 → lists s !! l = Some o → type o = ty → head o = first_or (pre ++ rest) 0 →
  seg (nodes s) pre (first_or rest 0) → seg (nodes s) rest 0 →
  (rest ≠ [] → tail o = tail_slot l ty (pre ++ rest)) →
  (ty = INSERT_TYPE_HEAD → tail o = SHead l) →
  ∃ s', (if decide (INSERT_TYPE_TAIL = ty) then
           v ← ld_slot s (slot_of l pre);
           if decide (v = 0) then st_tail s l (slot_of l pre) else mret s
         else mret s) = Ok s' ∧ nodes s' = nodes s ∧
    lists s' !! l = Some (SinglyLinkedList (first_or (pre ++ rest) 0) (tail_slot l ty (pre ++ rest)) ty).
Proof.
  intros Hl Ho Hty Hh Hpre Hrest Ht Hth. rewrite first_or_app in Hh. destruct ty.
  - rewrite decide_False by done. exists s. split_and!; [done..|].
    rewrite Ho, first_or_app. destruct o; simpl in *. by rewrite Hth, Hty, Hh by done.
  - rewrite decide_True by done. rewrite (ld_slot_of s l o pre _ Hl Ho Hpre Hh), bind_Ok.
    destruct rest as [|r rest].
    + cbn. rewrite (st_tail_ok s l o _ Hl Ho). eexists. split_and!; [done..|]. cbn.
      rewrite lookup_insert_eq, app_nil_r, Hty, Hh. done.
    + rewrite decide_False by (by eapply first_or_zero). exists s. split_and!; [done..|].
      rewrite Ho, first_or_app. destruct o; simpl in *. by rewrite Hty, Ht, Hh by done.
Qed.

Lemma tail_slot_drop l ty pre x rest : rest ≠ [] →
  tail_slot l ty (pre ++ x :: rest) = tail_slot l ty (pre ++ rest).
Proof.
  intros Hr. destruct ty; [done|]. destruct rest as [|r rest _] using rev_ind; [done|].
  cbn [tail_slot]. rewrite app_comm_cons, !app_assoc, !slot_of_snoc. done.
Qed.

Lemma del_found s l ty pre new d rest fuel :
  slist s l ty (pre ++ (new, d) :: rest) →
  ∃ s', del_from (S fuel) s l new (slot_of l pre) = del_from fuel s' l new (SNext (first_or rest 0)) ∧
    slist s' l ty (pre ++ rest) ∧ nodes s' !! new = None ∧
    (∀ y, (y ∉ (pre ++ (new, d) :: rest).*1) → nodes s' !! y = nodes s !! y).
Proof.
  intros [Hl Ho Hs Hnd]. apply linked_app in Hs as [Hpre (Hz & Hn & Hrest)].
  cbn [first_or fst snd] in *. cbn [del_from].
  rewrite fmap_app in Hnd. apply NoDup_app in Hnd as (Hnd1 & Hdis & [Hnr Hnd2]%NoDup_cons).
  assert (Hnp : new ∉ pre.*1) by (intros Hin; apply (Hdis new Hin); by left).
  rewrite (ld_slot_of s l _ pre new Hl Ho) by (try done; cbn; by rewrite first_or_app).
  rewrite bind_Ok, decide_False, decide_False by naive_solver.
  cbn [ld_slot]. rewrite (get_node_ok s new _ Hz Hn), !bind_Ok. cbn [next or_ub]. rewrite bind_Ok.
  destruct (st_slot_of s l _ pre new (first_or rest 0) Hl Ho) as (s1 & -> & Hp1 & Hl1 & Hf1 & _);
    [done|cbn; by rewrite first_or_app|done|]. cbn [tail type] in Hl1.
  rewrite bind_Ok, (get_list_ok s1 l _ Hl Hl1), bind_Ok. cbn [type].
  assert (Hr1 : seg (nodes s1) rest 0).
  { apply (linked_frame (nodes s)); [|done]. intros y Hy. apply Hf1. intros Hin.
    apply (Hdis y Hin). by right. }
  destruct (fix_tail s1 l ty pre rest _ Hl Hl1) as (s2 & -> & Hn2 & Hl2); try done.
  { cbn. by rewrite first_or_app. }
  { intros Hr. cbn. by apply tail_slot_drop. }
  { by intros ->. }
  assert (Hnew : nodes s2 !! new = Some (Template (Some (first_or rest 0)) (Some d))).
  { by rewrite Hn2, Hf1. }
  rewrite bind_Ok, (free_node_ok s2 new _ Hz Hnew), bind_Ok. rewrite <-Hn2 in *.
  set (s3 := Store _ _).
  assert (Hp3 : seg (nodes s3) pre (first_or rest 0)).
  { apply (linked_frame (nodes s2)); [|done]. intros y Hy. apply lookup_delete_ne. congruence. }
  rewrite (ld_slot_of s3 l _ pre _ Hl Hl2 Hp3) by (cbn; by rewrite first_or_app).
  rewrite bind_Ok. exists s3. split_and!; [done| |apply lookup_delete_eq|].
  - split; [done|done| |].
    + apply linked_app. split; [done|]. apply (linked_frame (nodes s2)); [|done].
      intros y Hy. apply lookup_delete_ne. by intros ->.
    + rewrite fmap_app. apply NoDup_app. split_and!; try done.
      intros y Hy Hy'. apply (Hdis y Hy). by right.
  - intros y Hy. rewrite fmap_app, not_elem_of_app in Hy. destruct Hy as [Hy1 Hy2].
    simpl in Hy2. rewrite not_elem_of_cons in Hy2. cbn.
    rewrite lookup_delete_ne by naive_solver. by rewrite Hf1.
Qed.

Lemma del_absent s l ty pre rest new fuel :
  slist s l ty (pre ++ rest) → (new ∉ rest.*1) → (length rest < fuel)%nat →
  del_from fuel s l new (slot_of l pre) = Ok s.
Proof.
  intros Hsl Hni Hf. rewrite <-(app_nil_r rest) in Hsl.
  replace fuel with (length rest + S (fuel - length rest - 1))%nat by lia.
  rewrite (del_walk s l ty pre rest []) by done. cbn [del_from].
  destruct Hsl as [Hl Ho Hs _]. rewrite app_nil_r in *.
  rewrite (ld_slot_of s l _ _ 0 Hl Ho) by done. by rewrite bind_Ok, decide_True.
Qed.

Lemma del_spec s l ty ys new d rest fuel :
  slist s l ty (ys ++ (new, d) :: rest) → (length (ys ++ (new, d) :: rest) < fuel)%nat →
  ∃ s', singly_linked_list_del fuel s l new = (if decide (rest = []) then Ub NullDeref else Ok s') ∧
    slist s' l ty (ys ++ rest) ∧ nodes s' !! new = None ∧
    (∀ y, (y ∉ (ys ++ (new, d) :: rest).*1) → nodes s' !! y = nodes s !! y).
Proof.
  intros Hsl Hf. rewrite length_app in Hf. simpl in Hf. unfold singly_linked_list_del.
  pose proof (sl_nodup _ _ _ _ Hsl) as Hnd. rewrite fmap_app in Hnd.
  apply NoDup_app in Hnd as (_ & Hdis & [Hnr _]%NoDup_cons).
  assert (Hny : new ∉ ys.*1) by (intros Hin; apply (Hdis new Hin); by left).
  replace fuel with (length ys + S (fuel - length ys - 1))%nat by lia.
  change (SHead l) with (slot_of l []). rewrite (del_walk s l ty [] ys ((new, d) :: rest)) by done.
  cbn [app]. destruct (del_found s l ty ys new d rest (fuel - length ys - 1) Hsl)
    as (s' & -> & Hsl' & Hnone & Hfr).
  exists s'. split; [|done]. destruct rest as [|r rest].
  - rewrite decide_True by done. destruct (fuel - length ys - 1)%nat eqn:E; [lia|]. done.
  - rewrite decide_False by done. cbn [first_or].
    replace (SNext r.1) with (slot_of l (ys ++ [r])) by apply slot_of_snoc.
    rewrite cons_middle, app_assoc in Hsl'. eapply del_absent; [done| |simpl in *; lia].
    intros Hin. apply Hnr. by right.
Qed.

(** ** Traversal and release *)

Lemma for_each_entry_spec s xs fuel acc :
  seg (nodes s) xs 0 → (length xs < fuel)%nat →
  for_each_entry fuel s (λ n shown, d ← or_ub Uninit (data n); mret (shown ++ [d]))
    (first_or xs 0) acc = Ok (acc ++ xs.*2).
Proof.
  revert fuel acc. induction xs as [|x xs IH]; intros fuel acc Hs Hf;
    (destruct fuel as [|fuel]; [simpl in Hf; lia|]); cbn [for_each_entry first_or].
  - simpl. by rewrite app_nil_r.
  - destruct Hs as (Hz & Hn & Hs). rewrite decide_False by done.
    rewrite (get_node_ok s _ _ Hz Hn), bind_Ok. cbn [data next or_ub].
    change (Ok x.2 ≫= ?f) with (f x.2). cbv beta. change (mret ?z ≫= ?f) with (f z). cbv beta.
    rewrite bind_Ok, IH by (try done; simpl in Hf; lia). simpl. by rewrite <-app_assoc.
Qed.

Lemma free_nodes_spec s l o xs fuel :
  l ≠ 0 → lists s !! l = Some o → head o = first_or xs 0 → seg (nodes s) xs 0 →
  NoDup xs.*1 → (length xs < fuel)%nat →
  ∃ s', free_nodes fuel s l = Ok s' ∧ is_Some (lists s' !! l) ∧
    (∀ y, nodes s' !! y = if decide (y ∈ xs.*1) then None else nodes s !! y) ∧
    (∀ k, k ≠ l → lists s' !! k = lists s !! k).
Proof.
  intros Hl. revert s o fuel. induction xs as [|x xs IH]; intros s o fuel Ho Hh Hs Hnd Hf;
    (destruct fuel as [|fuel]; [simpl in Hf; lia|]); cbn [free_nodes];
    rewrite (get_list_ok s l o Hl Ho), bind_Ok.
  - rewrite decide_True by done. exists s. by split_and!; eauto.
  - destruct Hs as (Hz & Hn & Hs). cbn [first_or] in Hh. rewrite Hh, decide_False by done.
    cbn [ld_slot]. rewrite (get_node_ok s _ _ Hz Hn), bind_Ok. cbn [next or_ub]. rewrite bind_Ok.
    cbn [st_slot]. rewrite (get_list_ok s l o Hl Ho), bind_Ok.
    change (mret ?z ≫= ?f) with (f z). cbv beta.
    erewrite free_node_ok; [|done|exact Hn]. rewrite bind_Ok. cbn [put_list lists nodes].
    apply NoDup_cons in Hnd as [Hni Hnd].
    set (o1 := SinglyLinkedList _ _ _).
    destruct (IH (Store (<[l:=o1]> (lists s)) (delete x.1 (nodes s))) o1 fuel)
      as (s' & -> & Hsome & Hn' & Hk'); [apply lookup_insert_eq|done| |done|simpl in Hf; lia|].
    { apply (linked_frame (nodes s)); [|done]. intros y Hy. apply lookup_delete_ne. by intros E; rewrite <-E in Hy. }
    exists s'. split_and!; [done|done| |].
    + intros y. rewrite Hn'. cbn [nodes fmap list_fmap].
      destruct (decide (y = x.1)) as [->|Hy].
      * rewrite lookup_delete_eq, (decide_True (P := x.1 ∈ _ :: _)) by (by left). by case_decide.
      * rewrite lookup_delete_ne by done. apply decide_ext. rewrite elem_of_cons. naive_solver.
    + intros k Hk. rewrite Hk' by done. by apply lookup_insert_ne.
Qed.

(** ** Properties *)

(** Adding data one after the other at the given fresh addresses. *)
Fixpoint add_seq (s : store) (l : Z) (xs : list (Z * Z)) : res (list Z * store) :=
  match xs with
  | [] => mret ([], s)
  | x :: xs =>
      r ← single_list_add s (Some x.1) l x.2;
      q ← add_seq r.2 l xs;
      mret (r.1 :: q.1, q.2)
  end.

Lemma single_list_add_spec s l ty xs p d :
  slist s l ty xs → p ≠ 0 → nodes s !! p = None →
  ∃ s', single_list_add s (Some p) l d = Ok (0, s') ∧ slist s' l ty (inserted ty xs (p, d)) ∧
    (∀ y, (y ∉ xs.*1) → y ≠ p → nodes s' !! y = nodes s !! y) ∧
    (∀ k, k ≠ l → lists s' !! k = lists s !! k).
Proof.
  intros Hsl Hp Hnone. pose proof Hsl as [Hl Ho Hs Hnd].
  assert (Hni : p ∉ xs.*1).
  { intros (x & -> & Hx)%list_elem_of_fmap. apply list_elem_of_split in Hx as (l1 & l2 & ->).
    apply linked_app in Hs as [_ (_ & Hx & _)]. congruence. }
  unfold single_list_add. change (default 0 (Some p)) with p. rewrite decide_False by done.
  erewrite get_node_ok; [|done|apply lookup_insert_eq]. rewrite bind_Ok. cbn [next].
  set (s1 := put_node (put_node s p (Template None None)) p (Template None (Some d))).
  assert (Hother : ∀ y, y ≠ p → nodes s1 !! y = nodes s !! y).
  { intros y Hy. cbn. by rewrite !lookup_insert_ne. }
  destruct (add_spec s1 l ty xs p d None) as (s2 & -> & Hsl2 & Hn2 & Hk2); try done.
  - split; try done. apply (linked_frame (nodes s)); [|done]. intros y Hy. apply Hother. congruence.
  - apply lookup_insert_eq.
  - exists s2. split_and!; try done. intros y Hy Hy'. rewrite Hn2 by done. by apply Hother.
Qed.

Definition inserted_all (ty : insert_type_e) (ys xs : list (Z * Z)) : list (Z * Z) :=
  match ty with INSERT_TYPE_HEAD => reverse xs ++ ys | INSERT_TYPE_TAIL => ys ++ xs end.

Lemma add_seq_spec s l ty ys xs :
  slist s l ty ys → (∀ x, x ∈ xs.*1 → x ≠ 0 ∧ nodes s !! x = None) → NoDup xs.*1 →
  ∃ s', add_seq s l xs = Ok (replicate (length xs) 0, s') ∧
    slist s' l ty (inserted_all ty ys xs) ∧
    (∀ y, (y ∉ ys.*1) → (y ∉ xs.*1) → nodes s' !! y = nodes s !! y) ∧
    (∀ k, k ≠ l → lists s' !! k = lists s !! k).
Proof.
  revert s ys. induction xs as [|[p d] xs IH]; intros s ys Hsl Hfresh Hnd.
  - exists s. split_and!; try done. destruct ty; cbn; [done|by rewrite app_nil_r].
  - cbn [add_seq fst snd]. apply NoDup_cons in Hnd as [Hni Hnd].
    destruct (Hfresh p) as [Hp Hnone]; [by left|].
    destruct (single_list_add_spec s l ty ys p d Hsl Hp Hnone) as (s1 & -> & Hsl1 & Hn1 & Hk1).
    rewrite bind_Ok. cbn [fst snd].
    assert (Hys : ∀ y, nodes s !! y = None → (y ∉ ys.*1)).
    { intros y Hy (x & -> & Hx)%list_elem_of_fmap. apply list_elem_of_split in Hx as (l1 & l2 & ->).
      pose proof (sl_seg _ _ _ _ Hsl) as [_ (_ & Hx & _)]%linked_app. congruence. }
    destruct (IH s1 (inserted ty ys (p, d)) Hsl1) as (s2 & -> & Hsl2 & Hn2 & Hk2); [|done|].
    { intros x Hx. destruct (Hfresh x) as [Hx0 Hxn]; [by right|]. split; [done|].
      rewrite Hn1; [done|by apply Hys|by intros ->]. }
    exists s2. split_and!; [done| | |].
    + destruct ty; cbn [inserted inserted_all] in *; [by rewrite reverse_cons, <-app_assoc|].
      by rewrite <-app_assoc in Hsl2.
    + intros y Hy1 Hy2. cbn in Hy2. rewrite not_elem_of_cons in Hy2.
      destruct Hy2 as [Hyp Hyx]. rewrite Hn2; [by apply Hn1| |done].
      destruct ty; cbn [inserted]; [by apply not_elem_of_cons|].
      rewrite fmap_app, not_elem_of_app. split; [done|]. by intros ?%list_elem_of_singleton.
    + intros k Hk. rewrite Hk2 by done. by apply Hk1.
Qed.

(** A whole life of a list: create it, add, show the contents, free it. *)
Definition lifecycle (fuel : nat) (s : store) (l : Z) (ty : insert_type_e) (xs : list (Z * Z))
    : res (list Z * list Z * store) :=
  let (l, s) := single_list_new s (Some l) ty in
  r ← add_seq s l xs;
  shown ← dump_template fuel r.2 l true;
  s ← single_list_free fuel r.2 l;
  mret (r.1, shown, s).

(** C21: a list behaves as the sequence its type announces: after creating it and
    adding any data, every addition having returned 0, the traversal shows the
    data in order of insertion for [INSERT_TYPE_TAIL] and in reverse order for
    [INSERT_TYPE_HEAD]; freeing it releases every node and the list object and
    nothing else, so the memory is what it was before. *)
Theorem slist_lifecycle (fuel : nat) (s : store) (l : Z) (ty : insert_type_e) (xs : list (Z * Z)) :
  l ≠ 0 → lists s !! l = None → NoDup xs.*1 →
  (∀ x, x ∈ xs.*1 → x ≠ 0 ∧ nodes s !! x = None) → (length xs < fuel)%nat →
  lifecycle fuel s l ty xs =
    Ok (replicate (length xs) 0,
        match ty with INSERT_TYPE_TAIL => xs.*2 | INSERT_TYPE_HEAD => reverse xs.*2 end, s).
Proof.
  intros Hl Hnone Hnd Hfresh Hf. unfold lifecycle, single_list_new.
  set (s0 := INIT_SINGLY_LINKED_LIST s l ty).
  assert (H0 : slist s0 l ty []).
  { split; [done| |done|apply NoDup_nil_2]. cbn. by rewrite lookup_insert_eq; destruct ty. }
  destruct (add_seq_spec s0 l ty [] xs H0 Hfresh Hnd) as (s1 & -> & [_ Ho Hs Hnd1] & Hn1 & Hk1).
  rewrite bind_Ok. cbn [fst snd]. unfold dump_template, single_list_free.
  set (zs := inserted_all ty [] xs) in *.
  assert (Hlen : length zs = length xs).
  { unfold zs. destruct ty; cbn [inserted_all app]; [|done]. by rewrite app_nil_r, length_reverse. }
  assert (Hin : ∀ y, y ∈ zs.*1 ↔ y ∈ xs.*1).
  { unfold zs. intros y. destruct ty; cbn [inserted_all app]; [|done].
    by rewrite app_nil_r, fmap_reverse, elem_of_reverse. }
  rewrite (get_list_ok s1 l _ Hl Ho), bind_Ok. cbn [head].
  rewrite (for_each_entry_spec s1 zs fuel []) by (try done; lia). rewrite bind_Ok.
  destruct (free_nodes_spec s1 l _ zs fuel Hl Ho) as (s2 & -> & [o2 Ho2] & Hn2 & Hk2); try done; [lia|].
  rewrite bind_Ok. unfold free_list. rewrite decide_False, Ho2 by done. cbn [or_ub]. rewrite !bind_Ok.
  change (mret ?z ≫= ?f) with (f z). cbv beta. cbn [app].
  assert (Store (delete l (lists s2)) (nodes s2) = s) as ->.
  { destruct s as [ls ns]. f_equal; apply map_eq; intros k.
    - destruct (decide (k = l)) as [->|Hk]; [by rewrite lookup_delete_eq|].
      rewrite lookup_delete_ne, Hk2, Hk1 by done. cbn. by rewrite lookup_insert_ne.
    - rewrite Hn2. case_decide as Hd; rewrite Hin in Hd.
      + by destruct (Hfresh k Hd) as [_ ?].
      + by rewrite Hn1 by (try done; apply not_elem_of_nil). }
  unfold mret, res_ret, zs. destruct ty; cbn [inserted_all app]; [|done].
  by rewrite app_nil_r, fmap_reverse.
Qed.

Lemma slist_lifecycle_witness :
  lifecycle 4 (Store ∅ ∅) 100 INSERT_TYPE_HEAD [(10, 1); (20, 2); (30, 3)] =
    Ok ([0; 0; 0], [3; 2; 1], Store ∅ ∅).
Proof.
  apply (slist_lifecycle 4 (Store ∅ ∅) 100 INSERT_TYPE_HEAD [(10, 1); (20, 2); (30, 3)]).
  - done.
  - apply lookup_empty.
  - by apply (bool_decide_unpack (NoDup [10; 20; 30])).
  - intros x Hx. split; [|apply lookup_empty]. cbn in Hx. set_solver.
  - simpl. lia.
Defined.

(** Deletion: in a well-formed list, [singly_linked_list_del] of a node that
    is not the last one unlinks and frees exactly that node and keeps the list
    (tail pointer included) well-formed; but when the node is the last one the
    loop goes on from the null link it has just written and dereferences a null
    pointer. *)
Lemma slist_del_last_crashes (fuel : nat) (s : store) (l : Z) (ty : insert_type_e)
    (ys : list (Z * Z)) (new d : Z) (rest : list (Z * Z)) :
  slist s l ty (ys ++ (new, d) :: rest) → (length (ys ++ (new, d) :: rest) < fuel)%nat →
  match rest with
  | [] => singly_linked_list_del fuel s l new = Ub NullDeref
  | _ => ∃ s', singly_linked_list_del fuel s l new = Ok s' ∧
           slist s' l ty (ys ++ rest) ∧ nodes s' !! new = None ∧
           (∀ y, (y ∉ (ys ++ (new, d) :: rest).*1) → nodes s' !! y = nodes s !! y)
  end.
Proof.
  intros Hsl Hf. destruct (del_spec s l ty ys new d rest fuel Hsl Hf) as (s' & Hr & Hs').
  destruct rest; [done|]. rewrite decide_False in Hr by done. by exists s'.
Qed.

(** A queue of two nodes. *)
Definition demo_store : store :=
  Store {[100 := SinglyLinkedList 10 (SNext 20) INSERT_TYPE_TAIL]}
        {[10 := Template (Some 20) (Some 1); 20 := Template (Some 0) (Some 2)]}.

Lemma slist_del_last_crashes_witness :
  singly_linked_list_del 3 demo_store 100 20 = Ub NullDeref.
Proof.
  apply (slist_del_last_crashes 3 demo_store 100 INSERT_TYPE_TAIL [(10, 1)] 20 2 []).
  - split; [done|done|by repeat split|by apply (bool_decide_unpack (NoDup [10; 20]))].
  - simpl. lia.
Defined.
