(* ===== verification/ImageSplit.v ===== *)
(** * ImageSplit: cutting an image into tiles, linux/utils/src/image_split.c

    [addr] is 64 bits wide, the other members 32; [num] and [align] are [int]s
    that the unsigned arithmetic of the source converts to 32 bits, so every
    product wraps where C wraps it.  The destination is an array of records. *)

From S2P Require Import Prelude.

Record split_image_t := SplitImage {
  addr : Z;
  width : Z;
  height : Z;
  stride : Z;
}.

Inductive split_dir_e := SPLIT_DIR_WIDTH | SPLIT_DIR_HEIGHT.
#[global] Instance split_dir_eq_dec : EqDecision split_dir_e.
Proof. solve_decision. Defined.

(** [((len / num) / align) * align] on [uint32_t]. *)
Definition split_len (len num align : Z) : res Z :=
  a ← div_op len (u32 num);
  b ← div_op a (u32 align);
  mret (u32 (b * u32 align)).

(** [for (i = 0; i < num; i++) dst[i] = ...]: one record per iteration. *)
Definition fill_tiles (dst : list split_image_t) (num : Z) (tile : Z → split_image_t)
    : res (list split_image_t) :=
  for_up (Z.to_nat num) 0 (λ i dst, arr_set dst i (tile i)) dst.

(** Null pointers are [None]. *)
Definition split_multiple_image_horizontal_scan (src : option split_image_t)
    (dst : option (list split_image_t)) (num : Z) (split_dir : split_dir_e) (align : Z)
    : res (Z * option (list split_image_t)) :=
  match src, dst with
  | Some src, Some dst =>
      dst ← (if decide (SPLIT_DIR_WIDTH = split_dir) then
               w ← split_len (width src) num align;
               fill_tiles dst num (λ i,
                 SplitImage (u64 (addr src + u32 (i * w))) w (height src) (stride src))
             else
               h ← split_len (height src) num align;
               fill_tiles dst num (λ i,
                 SplitImage (u64 (addr src + u32 (u32 (i * stride src) * h)))
                   (width src) h (stride src)));
      mret (0, Some dst)
  | _, _ => mret (-1, dst)
  end.

Definition split_multiple_image_vertical_scan (src : option split_image_t)
    (dst : option (list split_image_t)) (num : Z) (split_dir : split_dir_e) (align : Z)
    : res (Z * option (list split_image_t)) :=
  match src, dst with
  | Some src, Some dst =>
      dst ← (if decide (SPLIT_DIR_WIDTH = split_dir) then
               w ← split_len (width src) num align;
               fill_tiles dst num (λ i,
                 SplitImage (u64 (addr src + u32 (u32 (i * w) * stride src))) w (height src) (stride src))
             else
               h ← split_len (height src) num align;
               fill_tiles dst num (λ i,
                 SplitImage (u64 (addr src + u32 (u32 (i * width src) * h)))
                   (width src) h (stride src)));
      mret (0, Some dst)
  | _, _ => mret (-1, dst)
  end.

(** ** Tiles as windows of the source *)

(** The two scan orders: where the pixel in column [x] and row [y] lies. *)
Inductive scan := Horizontal | Vertical.
Definition pixel (sc : scan) (im : split_image_t) (x y : Z) : Z :=
  match sc with
  | Horizontal => addr im + y * stride im + x
  | Vertical => addr im + x * stride im + y
  end.

Definition split (sc : scan) :=
  match sc with
  | Horizontal => split_multiple_image_horizontal_scan
  | Vertical => split_multiple_image_vertical_scan
  end.

(** The members fit their types and the image fits below 4 GiB and the end of
    the address space. *)
Record image_ok (sc : scan) (im : split_image_t) : Prop := {
  im_addr : 0 ≤ addr im;
  im_end : addr im + 2 ^ 32 ≤ 2 ^ 64;
  im_w : 0 ≤ width im < 2 ^ 32;
  im_h : 0 ≤ height im < 2 ^ 32;
  im_s : 0 ≤ stride im < 2 ^ 32;
  im_size : match sc with
            | Horizontal => width im ≤ stride im ∧ stride im * height im < 2 ^ 32
            | Vertical => height im ≤ stride im ∧ stride im * width im < 2 ^ 32
            end;
}.

(** The tile length the code computes: the largest multiple of [align] that fits
    [num] times. *)
Definition tile_len (len num align : Z) : Z := len / num / align * align.

Lemma tile_len_bounds len num align :
  0 ≤ len → 0 < num → 0 < align →
  0 ≤ tile_len len num align ∧ num * tile_len len num align ≤ len < num * (tile_len len num align + align) ∧
  (align | tile_len len num align).
Proof.
  intros Hl Hn Ha. unfold tile_len.
  pose proof (Z.div_pos len num Hl Hn). pose proof (Z.div_pos (len / num) align).
  pose proof (Z.mul_div_le len num Hn). pose proof (Z.mul_div_le (len / num) align Ha).
  pose proof (Z.mul_succ_div_gt len num Hn). pose proof (Z.mul_succ_div_gt (len / num) align Ha).
  split_and!; [nia|nia|nia|]. by exists (len / num / align).
Qed.

Lemma split_len_ok len num align :
  0 ≤ len < 2 ^ 32 → 0 < num < 2 ^ 31 → 0 < align < 2 ^ 31 →
  split_len len num align = Ok (tile_len len num align).
Proof.
  intros Hl Hn Ha. unfold split_len. destruct (tile_len_bounds len num align) as (H0 & H1 & _); try lia.
  rewrite !wrap_u_small by (unfold in_u; lia). rewrite div_op_pos, bind_Ok by lia.
  rewrite div_op_pos, bind_Ok by (try apply Z.div_pos; lia).
  fold (tile_len len num align). rewrite wrap_u_small; [done|]. unfold in_u. nia.
Qed.

Lemma fill_tiles_ok dst num tile :
  0 ≤ num ≤ Z.of_nat (length dst) →
  ∃ dst', fill_tiles dst num tile = Ok dst' ∧ length dst' = length dst ∧
    (∀ i, 0 ≤ i < num → dst' !! Z.to_nat i = Some (tile i)) ∧
    (∀ i, (Z.to_nat num ≤ i)%nat → dst' !! i = dst !! i).
Proof.
  intros Hn. unfold fill_tiles.
  destruct (for_up_inv (λ k d, length d = length dst ∧
      (∀ i, 0 ≤ i < k → d !! Z.to_nat i = Some (tile i)) ∧
      (∀ i, (Z.to_nat k ≤ i)%nat → d !! i = dst !! i))
    (Z.to_nat num) 0 (λ i d, arr_set d i (tile i)) dst) as (d & Hr & Hl & Hi & Ho).
  - split_and!; [done|lia|done].
  - intros k d Hk (Hl & Hi & Ho). rewrite arr_set_ok by lia. eexists. split; [done|].
    rewrite length_insert. split_and!; [done| |].
    + intros i Hi'. destruct (decide (i = k)) as [->|]; [rewrite list_lookup_insert_eq by lia; done|].
      rewrite list_lookup_insert_ne by lia. apply Hi. lia.
    + intros i Hi'. rewrite list_lookup_insert_ne by lia. apply Ho. lia.
  - exists d. replace (0 + Z.of_nat (Z.to_nat num)) with num in * by lia. done.
Qed.

(** Tile [i] of [num]: a window of the source at column [x0] and row [y0]. *)
Definition window (sc : scan) (src t : split_image_t) (x0 y0 : Z) : Prop :=
  0 ≤ x0 ∧ x0 + width t ≤ width src ∧ 0 ≤ y0 ∧ y0 + height t ≤ height src ∧
  ∀ x y, pixel sc t x y = pixel sc src (x0 + x) (y0 + y).

Lemma u32_mul_l a b : u32 (u32 a * b) = u32 (a * b).
Proof. unfold wrap_u. by rewrite Z.mul_mod_idemp_l by lia. Qed.

(** The address arithmetic is exact for offsets below 4 GiB. *)
Lemma tile_addr src off :
  0 ≤ addr src → addr src + 2 ^ 32 ≤ 2 ^ 64 → 0 ≤ off < 2 ^ 32 →
  u64 (addr src + u32 off) = addr src + off.
Proof. intros. rewrite (wrap_u_small 32), wrap_u_small by (unfold in_u; lia). done. Qed.

Lemma tiles_from (P : Z → split_image_t → Prop) dst num tile :
  0 ≤ num ≤ Z.of_nat (length dst) → (∀ i, 0 ≤ i < num → P i (tile i)) →
  ∃ dst', (d ← fill_tiles dst num tile; mret (0, Some d)) = Ok (0, Some dst') ∧
    length dst' = length dst ∧ (∀ i, (Z.to_nat num ≤ i)%nat → dst' !! i = dst !! i) ∧
    (∀ i, 0 ≤ i < num → ∃ t, dst' !! Z.to_nat i = Some t ∧ P i t).
Proof.
  intros Hn HP. destruct (fill_tiles_ok dst num tile Hn) as (d & -> & Hl & Hi & Ho).
  exists d. split_and!; [done..|]. intros i Hi'. rewrite Hi by done. eauto.
Qed.

(** C32: tiles of a horizontally scanned image (both directions) and of a
    vertically scanned image cut along its width: for positive [num] and
    [align] and an image below 4 GiB the call succeeds, fills the first [num]
    records and no other, and tile [i] is exactly the [i]-th window of the
    source, inside its bounds, with a length that is a multiple of [align] and
    the largest such that [num] of them fit. *)
Theorem split_tiles_windows (sc : scan) (dir : split_dir_e) (src : split_image_t)
    (dst : list split_image_t) (num align : Z) :
  image_ok sc src → 0 < num < 2 ^ 31 → 0 < align < 2 ^ 31 → num ≤ Z.of_nat (length dst) →
  ¬ (sc = Vertical ∧ dir = SPLIT_DIR_HEIGHT) →
  let len := match dir with SPLIT_DIR_WIDTH => width src | SPLIT_DIR_HEIGHT => height src end in
  let n := tile_len len num align in
  (align | n) ∧ num * n ≤ len < num * (n + align) ∧
  ∃ dst', split sc (Some src) (Some dst) num dir align = Ok (0, Some dst') ∧
    length dst' = length dst ∧
    (∀ i, (Z.to_nat num ≤ i)%nat → dst' !! i = dst !! i) ∧
    (∀ i, 0 ≤ i < num → ∃ t, dst' !! Z.to_nat i = Some t ∧
       match dir with
       | SPLIT_DIR_WIDTH => width t = n ∧ height t = height src ∧ window sc src t (i * n) 0
       | SPLIT_DIR_HEIGHT => height t = n ∧ width t = width src ∧ window sc src t 0 (i * n)
       end).
Proof.
  intros [Ha He Hw Hh Hs Hz] Hn Hal Hd Hnot. cbv zeta.
  set (len := match dir with SPLIT_DIR_WIDTH => width src | SPLIT_DIR_HEIGHT => height src end).
  assert (Hlen : 0 ≤ len < 2 ^ 32) by (by destruct dir).
  destruct (tile_len_bounds len num align) as (H0 & H1 & H2); try lia.
  split; [done|]. split; [done|]. set (n := tile_len len num align) in *.
  assert (Hi : ∀ i, 0 ≤ i < num → 0 ≤ i * n < 2 ^ 32 ∧ i * n + n ≤ len) by (intros; nia).
  destruct sc, dir; [..|by destruct Hnot]; cbn in len; subst len; unfold split,
    split_multiple_image_horizontal_scan, split_multiple_image_vertical_scan;
    rewrite ?(decide_True (P := SPLIT_DIR_WIDTH = SPLIT_DIR_WIDTH)) by done;
    rewrite ?(decide_False (P := SPLIT_DIR_WIDTH = SPLIT_DIR_HEIGHT)) by done;
    rewrite split_len_ok, bind_Ok by lia; fold n.
  - apply (tiles_from (λ i t, width t = n ∧ height t = height src ∧ window Horizontal src t (i * n) 0));
      [lia|].
    intros i Hin. specialize (Hi i Hin). rewrite tile_addr by lia.
    unfold window; cbn. split_and!; lia.
  - apply (tiles_from (λ i t, height t = n ∧ width t = width src ∧ window Horizontal src t 0 (i * n)));
      [lia|].
    intros i Hin. specialize (Hi i Hin).
    assert (0 ≤ i * stride src * n < 2 ^ 32) by (split; nia).
    rewrite u32_mul_l, tile_addr by lia. unfold window; cbn. split_and!; lia.
  - apply (tiles_from (λ i t, width t = n ∧ height t = height src ∧ window Vertical src t (i * n) 0));
      [lia|].
    intros i Hin. specialize (Hi i Hin).
    assert (0 ≤ i * n * stride src < 2 ^ 32) by (split; nia).
    rewrite u32_mul_l, tile_addr by lia. unfold window; cbn. split_and!; lia.
Qed.

Lemma split_tiles_windows_witness :
  ∃ dst', split Horizontal (Some (SplitImage 4096 100 50 128))
            (Some (replicate 4 (SplitImage 0 0 0 0))) 3 SPLIT_DIR_WIDTH 16 = Ok (0, Some dst') ∧
    length dst' = 4%nat.
Proof.
  destruct (split_tiles_windows Horizontal SPLIT_DIR_WIDTH (SplitImage 4096 100 50 128)
    (replicate 4 (SplitImage 0 0 0 0)) 3 16) as (_ & _ & d & Hr & Hl & _).
  - by split; cbn; lia.
  - lia.
  - lia.
  - cbn. lia.
  - by intros [? _].
  - exists d. split; [exact Hr|exact Hl].
Defined.

(** A vertically scanned image cut along its height: the code offsets tile
    [i] by [i * width * n] instead of [i * n], so with two tiles of an image
    that is packed in columns and at least two columns wide, the second tile is
    not the window below the first one, and its last pixel lies beyond the end
    of the source image. *)
Lemma split_vertical_height_overruns (src : split_image_t) (dst : list split_image_t) (n : Z) :
  image_ok Vertical src → (2 ≤ length dst)%nat → 0 < n → height src = 2 * n → stride src = 2 * n →
  2 ≤ width src →
  ∃ t dst', split Vertical (Some src) (Some dst) 2 SPLIT_DIR_HEIGHT 1 = Ok (0, Some dst') ∧
    dst' !! 1%nat = Some t ∧ width t = width src ∧ height t = n ∧
    pixel Vertical t 0 0 ≠ pixel Vertical src 0 n ∧
    pixel Vertical t (width t - 1) (height t - 1) > pixel Vertical src (width src - 1) (height src - 1).
Proof.
  intros [Ha He Hw Hh Hs Hz] Hd Hn Hhn Hsn Hw2. unfold split, split_multiple_image_vertical_scan.
  rewrite decide_False, split_len_ok, bind_Ok by (done || lia).
  assert (tile_len (height src) 2 1 = n) as ->.
  { unfold tile_len. rewrite Hhn, (Z.mul_comm 2 n), Z.div_mul, Z.div_1_r by lia. lia. }
  destruct (fill_tiles_ok dst 2 (λ i, SplitImage (u64 (addr src + u32 (u32 (i * width src) * n)))
    (width src) n (stride src))) as (d & -> & Hl & Hi & _); [lia|].
  rewrite bind_Ok. eexists _, d. split; [done|]. split; [by apply (Hi 1)|]. cbn.
  rewrite u32_mul_l, tile_addr by nia. split_and!; try done; nia.
Qed.

Lemma split_vertical_height_overruns_witness :
  ∃ t dst', split Vertical (Some (SplitImage 4096 6 8 8)) (Some (replicate 2 (SplitImage 0 0 0 0)))
              2 SPLIT_DIR_HEIGHT 1 = Ok (0, Some dst') ∧
    dst' !! 1%nat = Some t ∧ width t = 6 ∧ height t = 4 ∧
    pixel Vertical t 0 0 ≠ 4096 + 4 ∧ pixel Vertical t (width t - 1) (height t - 1) > 4096 + 5 * 8 + 7.
Proof.
  by apply (split_vertical_height_overruns (SplitImage 4096 6 8 8)
    (replicate 2 (SplitImage 0 0 0 0)) 4).
Defined.
