(* ===== verification/Serial.v ===== *)
(** * Serial: line settings of linux/serial/basic_serial.c

    The functions translate a speed, a number of data and stop bits and a parity
    letter into the [termios] flags of a port.  The flag constants, [cfmakeraw]
    and [cfsetispeed]/[cfsetospeed] come from the C library: they are the class
    [Termios], with the laws the manual pages document, and the Linux values are
    an instance.  Whether [tcgetattr] and [tcsetattr] succeed is an argument. *)

From S2P Require Import Prelude.

(** The part of [struct termios] the code touches; [baud] stands for the speed
    encoding, which only the library functions interpret. *)
Record termios := Termios_ {
  c_iflag : Z;
  c_cflag : Z;
  c_ispeed : Z;
  c_ospeed : Z;
  vtime : Z;
  vmin : Z;
}.

Definition with_cflag (t : termios) (v : Z) : termios :=
  Termios_ (c_iflag t) v (c_ispeed t) (c_ospeed t) (vtime t) (vmin t).
Definition with_iflag (t : termios) (v : Z) : termios :=
  Termios_ v (c_cflag t) (c_ispeed t) (c_ospeed t) (vtime t) (vmin t).

(** What the C library provides.  [B n] is the constant [Bn]. *)
Class Termios := {
  CSIZE : Z; CS5 : Z; CS6 : Z; CS7 : Z; CS8 : Z;
  CSTOPB : Z; PARENB : Z; PARODD : Z; INPCK : Z;
  B : Z → Z;
  cfmakeraw : termios → termios;
  cfsetispeed : termios → Z → termios;
  cfsetospeed : termios → Z → termios;
  (** The character size masks lie in the field [CSIZE], whose all-ones value is [CS8]. *)
  cs_field : ∀ c, c = CS5 ∨ c = CS6 ∨ c = CS7 ∨ c = CS8 → Z.land c CSIZE = c;
  cs8_all : CS8 = CSIZE;
  cs_distinct : NoDup [CS5; CS6; CS7; CS8];
  (** The fields are disjoint. *)
  disj_stop : Z.land CSIZE CSTOPB = 0;
  disj_par : Z.land CSIZE PARENB = 0;
  disj_odd : Z.land CSIZE PARODD = 0;
  disj_stop_par : Z.land CSTOPB PARENB = 0;
  disj_stop_odd : Z.land CSTOPB PARODD = 0;
  disj_par_odd : Z.land PARENB PARODD = 0;
  baud_nonneg : ∀ s, 0 ≤ B s;
  (** [c_cflag &= ~(CSIZE | PARENB); c_cflag |= CS8] *)
  raw_cflag : ∀ t, c_cflag (cfmakeraw t) = Z.lor (Z.ldiff (c_cflag t) (Z.lor CSIZE PARENB)) CS8;
  (** Setting a speed does not change the character format. *)
  speed_frame : ∀ t b m, m = CSIZE ∨ m = CSTOPB ∨ m = PARENB ∨ m = PARODD →
    Z.land (c_cflag (cfsetispeed t b)) m = Z.land (c_cflag t) m ∧
    Z.land (c_cflag (cfsetospeed t b)) m = Z.land (c_cflag t) m;
}.

(** A port: its settings and the flush requests it has seen. *)
Inductive flush_e := TCIFLUSH | TCIOFLUSH.
Record port := Port { attrs : termios; flushed : list flush_e }.

Definition tcflush (p : port) (q : flush_e) : port := Port (attrs p) (flushed p ++ [q]).
Definition tcsetattr (ok : bool) (p : port) (t : termios) : Z * port :=
  if ok then (0, Port t (flushed p)) else (-1, p).

Section serial.
Context `{Termios}.

Definition m_map_table : list (Z * Z) :=
  (λ s, (s, B s)) <$>
    [115200; 110; 134; 150; 200; 300; 600; 1200; 1800; 2400; 4800; 9600; 19200; 38400;
     57600; 230400; 460800].

(** The loop over the table. *)
Fixpoint find_baudrate (table : list (Z * Z)) (speed : Z) : Z :=
  match table with
  | [] => -1
  | (s, b) :: table => if decide (s ≠ speed) then find_baudrate table speed else b
  end.
Definition get_baudrate (speed : Z) : Z := find_baudrate m_map_table speed.

Definition set_data_bits (options : termios) (data_bits : Z) : termios :=
  let orf c := with_cflag options (Z.lor (c_cflag options) c) in
  if decide (data_bits = 5) then orf CS5
  else if decide (data_bits = 6) then orf CS6
  else if decide (data_bits = 7) then orf CS7
  else orf CS8.

(** The parity is a [char]; letters by their ASCII codes. *)
Definition set_parity (options : termios) (parity : Z) : termios :=
  let c := c_cflag options in
  let i := c_iflag options in
  if decide (parity = 111 ∨ parity = 79) then (* o, O *)
    with_iflag (with_cflag options (Z.lor (Z.lor c PARENB) PARODD)) (Z.lor i INPCK)
  else if decide (parity = 101 ∨ parity = 69) then (* e, E *)
    with_iflag (with_cflag options (Z.ldiff (Z.lor c PARENB) PARODD)) (Z.lor i INPCK)
  else if decide (parity = 115 ∨ parity = 83) then (* s, S *)
    with_iflag (with_cflag options (Z.ldiff (Z.ldiff c PARENB) CSTOPB)) (Z.lor i INPCK)
  else (* n, N and, after a message, any other *)
    with_iflag (with_cflag options (Z.ldiff c PARENB)) (Z.ldiff i INPCK).

Definition set_stop_bits (options : termios) (stop_bits : Z) : termios :=
  if decide (stop_bits = 2) then with_cflag options (Z.lor (c_cflag options) CSTOPB)
  else with_cflag options (Z.ldiff (c_cflag options) CSTOPB).

(** The result of [tcgetattr] is not checked: when it fails, [opt] is read
    uninitialised. *)
Definition serial_set_speed (get_ok set_ok : bool) (p : port) (speed : Z) : res (Z * port) :=
  let baudrate := get_baudrate speed in
  if decide (baudrate < 0) then mret (-1, p)
  else
    let p := tcflush p TCIOFLUSH in
    opt ← (if get_ok then mret (attrs p) else Ub Uninit);
    let opt := cfsetispeed opt baudrate in
    let opt := cfsetospeed opt baudrate in
    let r := tcsetattr set_ok p opt in
    if decide (r.1 < 0) then mret (-1, r.2) else mret (0, r.2).

Definition serial_set_databits (get_ok set_ok : bool) (p : port) (data_bits : Z) : Z * port :=
  if get_ok then
    let options := set_data_bits (attrs p) data_bits in
    let p := tcflush p TCIFLUSH in
    let r := tcsetattr set_ok p options in
    if decide (r.1 ≠ 0) then (-1, r.2) else (0, r.2)
  else (-1, p).

Definition serial_set_conf (get_ok set_ok : bool) (p : port)
    (speed data_bits stop_bits parity : Z) : Z * port :=
  let baudrate := get_baudrate speed in
  if decide (baudrate < 0) then (-1, p)
  else if get_ok then
    let options := cfmakeraw (attrs p) in
    let options := cfsetispeed options baudrate in
    let options := cfsetospeed options baudrate in
    let options := set_data_bits options data_bits in
    let options := set_stop_bits options stop_bits in
    let options := set_parity options parity in
    let options := Termios_ (c_iflag options) (c_cflag options) (c_ispeed options)
                     (c_ospeed options) 150 0 in
    let p := tcflush p TCIFLUSH in
    let r := tcsetattr set_ok p options in
    if decide (r.1 ≠ 0) then (-1, r.2) else (0, r.2)
  else (-1, p).

(** The file operations, from what the system call answers.  [serial_read] and
    [serial_write] return [size_t]. *)
Definition serial_open (fd : Z) : Z := if decide (fd < 0) then -1 else fd.
Definition serial_close (fd ret : Z) : Z := if decide (fd < 0) then 0 else ret.
Definition serial_read (ret : Z) : Z := u64 ret.
Definition serial_write (ret : Z) : Z := u64 ret.

(** ** Fields of the control flags *)

Lemma land_lor x c m : Z.land (Z.lor x c) m = Z.lor (Z.land x m) (Z.land c m).
Proof. apply Z.land_lor_distr_l. Qed.

Lemma land_ldiff x c m : Z.land c m = 0 → Z.land (Z.ldiff x c) m = Z.land x m.
Proof.
  intros Hd. apply Z.bits_inj'. intros i Hi. rewrite !Z.land_spec, Z.ldiff_spec.
  apply (f_equal (λ z, Z.testbit z i)) in Hd. rewrite Z.land_spec, Z.bits_0 in Hd.
  destruct (Z.testbit x i), (Z.testbit c i), (Z.testbit m i); done.
Qed.

Lemma land_ldiff_same x m : Z.land (Z.ldiff x m) m = 0.
Proof.
  apply Z.bits_inj'. intros i Hi. rewrite Z.land_spec, Z.ldiff_spec, Z.bits_0.
  by destruct (Z.testbit x i), (Z.testbit m i).
Qed.

Lemma land_lor_same x m : Z.land (Z.lor x m) m = m.
Proof.
  apply Z.bits_inj'. intros i Hi. rewrite Z.land_spec, Z.lor_spec.
  by destruct (Z.testbit x i), (Z.testbit m i).
Qed.

Lemma land_lor_other x c m : Z.land c m = 0 → Z.land (Z.lor x c) m = Z.land x m.
Proof. intros Hd. by rewrite land_lor, Hd, Z.lor_0_r. Qed.

(** The disjointness laws in both directions. *)
Lemma frame_disjoint :
  Z.land CSTOPB CSIZE = 0 ∧ Z.land PARENB CSIZE = 0 ∧ Z.land PARODD CSIZE = 0 ∧
  Z.land PARENB CSTOPB = 0 ∧ Z.land PARODD CSTOPB = 0 ∧ Z.land PARODD PARENB = 0.
Proof.
  rewrite (Z.land_comm CSTOPB CSIZE), (Z.land_comm PARENB CSIZE), (Z.land_comm PARODD CSIZE),
    (Z.land_comm PARENB CSTOPB), (Z.land_comm PARODD CSTOPB), (Z.land_comm PARODD PARENB).
  split_and!; [apply disj_stop|apply disj_par|apply disj_odd|apply disj_stop_par
              |apply disj_stop_odd|apply disj_par_odd].
Qed.

Lemma land_ldiff_lor_size x : Z.land (Z.ldiff x (Z.lor CSIZE PARENB)) CSIZE = 0.
Proof.
  apply Z.bits_inj'. intros i Hi. rewrite Z.land_spec, Z.ldiff_spec, Z.lor_spec, Z.bits_0.
  by destruct (Z.testbit x i), (Z.testbit CSIZE i), (Z.testbit PARENB i).
Qed.

(** [set_data_bits] only adds to the character size. *)
Lemma data_bits_size t n :
  Z.land (c_cflag t) CSIZE = CS8 → Z.land (c_cflag (set_data_bits t n)) CSIZE = CS8.
Proof.
  intros Ht.
  assert (Hc : ∀ c, c = CS5 ∨ c = CS6 ∨ c = CS7 ∨ c = CS8 →
    Z.land (Z.lor (c_cflag t) c) CSIZE = CS8).
  { intros c Hc. rewrite land_lor, Ht, (cs_field c Hc). rewrite <-(cs_field c Hc), cs8_all.
    apply Z.bits_inj'. intros i Hi. rewrite Z.lor_spec, Z.land_spec.
    by destruct (Z.testbit c i), (Z.testbit CSIZE i). }
  unfold set_data_bits. repeat case_decide; apply Hc; auto.
Qed.

Lemma stop_bits_spec t n :
  Z.land (c_cflag (set_stop_bits t n)) CSTOPB = (if decide (n = 2) then CSTOPB else 0) ∧
  (∀ m, Z.land CSTOPB m = 0 →
     Z.land (c_cflag (set_stop_bits t n)) m = Z.land (c_cflag t) m).
Proof.
  unfold set_stop_bits. case_decide; cbn; split; intros;
    auto using land_lor_same, land_ldiff_same, land_lor_other, land_ldiff.
Qed.

(** The settings a parity letter selects. *)
Definition parity_on (parity : Z) : bool := bool_decide (parity = 111 ∨ parity = 79 ∨ parity = 101 ∨ parity = 69).
Definition parity_odd (parity : Z) : bool := bool_decide (parity = 111 ∨ parity = 79).
Definition parity_space (parity : Z) : bool := bool_decide (parity = 115 ∨ parity = 83).

Lemma parity_spec t c :
  let t' := set_parity t c in
  Z.land (c_cflag t') PARENB = (if parity_on c then PARENB else 0) ∧
  (parity_on c → Z.land (c_cflag t') PARODD = if parity_odd c then PARODD else 0) ∧
  Z.land (c_cflag t') CSTOPB = (if parity_space c then 0 else Z.land (c_cflag t) CSTOPB) ∧
  Z.land (c_cflag t') CSIZE = Z.land (c_cflag t) CSIZE.
Proof.
  destruct frame_disjoint as (D1 & D2 & D3 & D4 & D5 & D6).
  pose proof disj_stop as E1. pose proof disj_par as E2. pose proof disj_odd as E3.
  pose proof disj_stop_par as E4. pose proof disj_stop_odd as E5. pose proof disj_par_odd as E6.
  cbv zeta. unfold set_parity, parity_on, parity_odd, parity_space.
  destruct (decide (c = 111 ∨ c = 79)) as [Ho|Ho];
    [|destruct (decide (c = 101 ∨ c = 69)) as [He|He];
      [|destruct (decide (c = 115 ∨ c = 83)) as [Hs|Hs]]];
    cbn [with_iflag with_cflag c_cflag].
  - rewrite !(bool_decide_true (c = 111 ∨ _)), (bool_decide_false (c = 115 ∨ _)) by lia.
    split_and!; intros; [|apply land_lor_same|by rewrite !land_lor_other..].
    by rewrite land_lor_other, land_lor_same.
  - rewrite (bool_decide_true (c = 111 ∨ c = 79 ∨ _)), (bool_decide_false (c = 111 ∨ c = 79)),
      (bool_decide_false (c = 115 ∨ _)) by lia.
    split_and!; intros; [|apply land_ldiff_same|by rewrite land_ldiff, land_lor_other..].
    by rewrite land_ldiff, land_lor_same.
  - rewrite (bool_decide_false (c = 111 ∨ c = 79 ∨ _)), (bool_decide_true (c = 115 ∨ _)) by lia.
    split_and!; [|done|apply land_ldiff_same|by rewrite !land_ldiff].
    by rewrite land_ldiff, land_ldiff_same.
  - rewrite (bool_decide_false (c = 111 ∨ c = 79 ∨ _)), (bool_decide_false (c = 115 ∨ _)) by lia.
    split_and!; [apply land_ldiff_same|done|by rewrite land_ldiff..].
Qed.

(** ** Properties *)

Definition speeds : list Z :=
  [115200; 110; 134; 150; 200; 300; 600; 1200; 1800; 2400; 4800; 9600; 19200; 38400;
   57600; 230400; 460800].

Lemma find_baudrate_spec l speed :
  find_baudrate ((λ s, (s, B s)) <$> l) speed = if decide (speed ∈ l) then B speed else -1.
Proof.
  induction l as [|s l IH]; [done|]. cbn [fmap list_fmap find_baudrate].
  destruct (decide (s = speed)) as [->|Hne].
  - rewrite decide_False by naive_solver. rewrite decide_True; [done|by left].
  - rewrite decide_True by done. etransitivity; [apply IH|]. apply decide_ext.
    rewrite elem_of_cons. naive_solver.
Qed.

Lemma get_baudrate_spec speed :
  get_baudrate speed = if decide (speed ∈ speeds) then B speed else -1.
Proof. apply (find_baudrate_spec speeds). Qed.

(** Raw mode with the speed set has eight data bits. *)
Lemma raw_size t b : Z.land (c_cflag (cfsetospeed (cfsetispeed (cfmakeraw t) b) b)) CSIZE = CS8.
Proof.
  rewrite (proj2 (speed_frame _ b CSIZE ltac:(auto))), (proj1 (speed_frame _ b CSIZE ltac:(auto))).
  rewrite raw_cflag, land_lor, (cs_field CS8) by auto. rewrite land_ldiff_lor_size. apply Z.lor_0_l.
Qed.

(** [serial_set_conf] on every branch: an unknown speed or a failing
    [tcgetattr] leaves the port alone and returns -1, a failing [tcsetattr]
    returns -1; otherwise the stop bit and parity flags are those the arguments
    ask for (the space parity clears the second stop bit), but the character
    size is 8 bits whatever [data_bits] is, since raw mode has already set all
    bits of the field [set_data_bits] only adds to. *)
Lemma serial_conf_format (p : port) (get_ok set_ok : bool) (speed data_bits stop_bits parity : Z) :
  let (ret, p') := serial_set_conf get_ok set_ok p speed data_bits stop_bits parity in
  if decide (speed ∈ speeds ∧ get_ok ∧ set_ok) then
    ret = 0 ∧
    Z.land (c_cflag (attrs p')) CSIZE = CS8 ∧
    Z.land (c_cflag (attrs p')) CSTOPB =
      (if decide (stop_bits = 2 ∧ ¬ parity_space parity) then CSTOPB else 0) ∧
    Z.land (c_cflag (attrs p')) PARENB = (if parity_on parity then PARENB else 0) ∧
    (parity_on parity →
       Z.land (c_cflag (attrs p')) PARODD = if parity_odd parity then PARODD else 0) ∧
    vtime (attrs p') = 150 ∧ vmin (attrs p') = 0
  else ret = -1 ∧ attrs p' = attrs p.
Proof.
  unfold serial_set_conf. rewrite get_baudrate_spec.
  destruct (decide (speed ∈ speeds)) as [Hs|Hs].
  2: { rewrite decide_True by lia. rewrite decide_False by naive_solver. done. }
  pose proof (baud_nonneg speed). rewrite decide_False by lia.
  destruct get_ok; [|rewrite decide_False by naive_solver; done].
  set (t1 := cfsetospeed _ _). set (t2 := set_data_bits t1 data_bits).
  set (t3 := set_stop_bits t2 stop_bits). set (t4 := set_parity t3 parity).
  destruct set_ok; unfold tcsetattr; cbn [fst snd].
  2: { rewrite decide_True, decide_False by naive_solver. done. }
  rewrite decide_False, decide_True by naive_solver. cbn [attrs c_cflag vtime vmin].
  destruct (parity_spec t3 parity) as (Hp & Hodd & Hstop & Hsize). fold t4 in Hp, Hodd, Hstop, Hsize.
  destruct (stop_bits_spec t2 stop_bits) as [Hst Hother]. fold t3 in Hst, Hother.
  split_and!; try done.
  - rewrite Hsize, Hother by (apply frame_disjoint). apply data_bits_size, raw_size.
  - rewrite Hstop, Hst. destruct (parity_space parity); repeat case_decide; naive_solver.
Qed.

End serial.

(** ** The Linux values *)

Definition linux_baud (speed : Z) : Z :=
  default 0 (list_to_map (M := gmap Z Z)
    [(110, 3); (134, 4); (150, 5); (200, 6); (300, 7); (600, 8); (1200, 9); (1800, 10);
     (2400, 11); (4800, 12); (9600, 13); (19200, 14); (38400, 15); (57600, 4097);
     (115200, 4098); (230400, 4099); (460800, 4100)] !! speed).

(** [CBAUD], the speed field of [c_cflag]. *)
Definition linux_CBAUD : Z := 4111.
Definition linux_setspeed (t : termios) (b : Z) : termios :=
  with_cflag t (Z.lor (Z.ldiff (c_cflag t) linux_CBAUD) (Z.land b linux_CBAUD)).

#[export] Instance linux_termios : Termios.
Proof.
  refine {| CSIZE := 48; CS5 := 0; CS6 := 16; CS7 := 32; CS8 := 48; CSTOPB := 64;
            PARENB := 256; PARODD := 512; INPCK := 16; B := linux_baud;
            cfmakeraw := λ t, with_cflag t (Z.lor (Z.ldiff (c_cflag t) (Z.lor 48 256)) 48);
            cfsetispeed := linux_setspeed; cfsetospeed := linux_setspeed |}; try done.
  - intros c [->|[->|[->| ->]]]; done.
  - by apply (bool_decide_unpack _).
  - intros s. unfold linux_baud. destruct (_ !! s) as [b|] eqn:E; [|done]. cbn.
    apply elem_of_list_to_map_2 in E.
    repeat (apply elem_of_cons in E as [E|E]; [injection E as _ ->; lia|]).
    by apply not_elem_of_nil in E.
  - intros t b m Hm.
    assert (Hd : Z.land linux_CBAUD m = 0 ∧ Z.land (Z.land b linux_CBAUD) m = 0).
    { rewrite <-Z.land_assoc. destruct Hm as [->|[->|[->| ->]]]; cbn; by rewrite Z.land_0_r. }
    destruct Hd as [H1 H2]. unfold linux_setspeed. cbn.
    by rewrite land_lor_other, land_ldiff.
Defined.

Definition demo_port : port := Port (Termios_ 0 0 0 0 0 0) [].

(** Seven data bits, two stop bits and even parity on Linux: the character size
    is [CS8]. *)
Lemma serial_conf_format_witness :
  let (ret, p') := serial_set_conf true true demo_port 9600 7 2 101 in
  ret = 0 ∧ Z.land (c_cflag (attrs p')) CSIZE = CS8.
Proof.
  pose proof (serial_conf_format demo_port true true 9600 7 2 101) as H.
  destruct (serial_set_conf true true demo_port 9600 7 2 101) as [ret p'].
  rewrite decide_True in H; [by destruct H as (? & ? & _)|].
  split; [|done]. by apply (bool_decide_unpack (9600 ∈ speeds)).
Defined.
