(* ===== verification/Heartbeat.v ===== *)
(** * Heartbeat: recognising and replaying heartbeat frames

    The packet filter of socket/sniffer.c ([is_heartbeat],
    [build_keep_alive_command], [handle_packet]), its receive loop and the
    private command it hands to the driver ([send_priv_cmd]), the filter of
    socket/sniffer_test.c ([alive_match]) and the message socket/udp_test.c
    sends.  Frames are lists of bytes.  [sniffer.c] reads them through plain
    [char], whose signedness the implementation chooses: it is the argument
    [sgn].  Integers in memory are little-endian. *)

From S2P Require Import Prelude.

Definition byte_ok (b : Z) : Prop := 0 ≤ b < 256.

(** A byte read through [char]. *)
Definition ch (sgn : bool) (b : Z) : Z := if sgn then s8 b else b.

(** [v0 == p[i0] && v1 == p[i1] && ...], left to right, stopping at the first
    difference. *)
Fixpoint bytes_are (rd : Z → Z) (p : list Z) (l : list (Z * Z)) : res bool :=
  match l with
  | [] => mret true
  | (i, v) :: l =>
      b ← arr_get p i;
      if decide (v = rd b) then bytes_are rd p l else mret false
  end.

Definition user_data_len : list (Z * Z) := [(38, 0); (39, 40)].
Definition heartbeat_msg : list (Z * Z) :=
  [(42, 102); (43, 136); (44, 102); (45, 136); (47, 24); (48, 0); (49, 8); (54, 1)].

(** [iph->protocol] is the byte at offset 9 of the IP header, which follows the
    14 bytes of the Ethernet header. *)
Definition ip_protocol (p : list Z) : res Z := arr_get p (14 + 9).

(** ** socket/sniffer.c *)

Definition is_heartbeat (sgn : bool) (eth_data : list Z) : res Z :=
  proto ← ip_protocol eth_data;
  if decide (proto ≠ 17) then mret 0
  else
    a ← bytes_are (ch sgn) eth_data user_data_len;
    if negb a then mret 0
    else
      m ← bytes_are (ch sgn) eth_data heartbeat_msg;
      if negb m then mret 0 else mret 1.

(** Lower-case hexadecimal digits of a 32-bit value, least significant first. *)
Definition hex_digit (n : Z) : Z := if decide (n < 10) then 48 + n else 87 + n.
Fixpoint hex_rev (fuel : nat) (n : Z) : list Z :=
  match fuel with
  | O => []
  | S fuel => if decide (n < 16) then [hex_digit n] else hex_digit (n mod 16) :: hex_rev fuel (n / 16)
  end.

(** ["%02x"] on an [int] argument. *)
Definition fmt_02x (v : Z) : list Z :=
  let d := reverse (hex_rev 8 (u32 v)) in
  if decide (length d < 2)%nat then 48 :: d else d.

(** Appending to the string in a [char] array of [cap] bytes, with its NUL. *)
Definition str_append (cap : Z) (cmd s : list Z) : res (list Z) :=
  if decide (Z.of_nat (length cmd + length s) + 1 ≤ cap) then mret (cmd ++ s) else Ub OutOfBounds.

(** ["keep_alive 0 10000 0x"] *)
Definition keep_alive_prefix : list Z :=
  [107; 101; 101; 112; 95; 97; 108; 105; 118; 101; 32; 48; 32; 49; 48; 48; 48; 48; 32; 48; 120].

(** [cmd] is the string in the caller's array of [cap] bytes. *)
Definition build_keep_alive_command (sgn : bool) (eth_data : list Z) (len cap : Z) (cmd : list Z)
    : res (list Z) :=
  cmd ← str_append cap cmd keep_alive_prefix;
  let copy_len := if decide (len < 116) then len else 116 in
  for_up (Z.to_nat ((copy_len + 3) / 4)) 0
    (λ k cmd,
       a ← arr_get eth_data (4 * k);
       b ← arr_get eth_data (4 * k + 1);
       c ← arr_get eth_data (4 * k + 2);
       d ← arr_get eth_data (4 * k + 3);
       str_append cap cmd (fmt_02x (ch sgn a) ++ fmt_02x (ch sgn b) ++
                           fmt_02x (ch sgn c) ++ fmt_02x (ch sgn d)))
    cmd.

(** The string handed to [send_priv_cmd], if any; [cmd] has 256 bytes. *)
Definition handle_packet (sgn : bool) (buffer : list Z) (size : Z) : res (option (list Z)) :=
  h ← is_heartbeat sgn buffer;
  if decide (h = 0) then mret None
  else cmd ← build_keep_alive_command sgn buffer size 256 []; mret (Some cmd).

(** The private command the driver receives. *)
Record dhd_priv_cmd := PrivCmd { pc_buf : list Z; used_len : Z; total_len : Z }.

(** [sock] and [io] are the results of [socket] and [ioctl]; the driver has received
    the command when there is a socket and [ioctl] does not fail.  The result is
    returned, and ignored by the caller. *)
Definition send_priv_cmd (sock io : Z) (cmd : list Z) (len : Z) : Z * option dhd_priv_cmd :=
  if decide (sock < 0) then (-1, None)
  else (io, if decide (io < 0) then None else Some (PrivCmd cmd len len)).

(** What one round of the receive loop meets: the frame [recvfrom] delivers, or
    its failure, and the results of the calls of [send_priv_cmd]. *)
Record round := Round { rx : option (list Z); rd_sock : Z; rd_ioctl : Z }.

(** [recvfrom] stores the frame, cut to the 1536 bytes of the buffer, over the
    beginning of what earlier frames have left there. *)
Definition recvfrom (buffer frame : list Z) : list Z * Z :=
  let f := take 1536 frame in (f ++ drop (length f) buffer, Z.of_nat (length f)).

(** The receive loop of [main] on the rounds so far: the buffer and the commands
    the driver has received. *)
Fixpoint sniffer_loop (sgn : bool) (buffer : list Z) (rs : list round) :
    res (list Z * list dhd_priv_cmd) :=
  match rs with
  | [] => mret (buffer, [])
  | r :: rs =>
      match rx r with
      | None => sniffer_loop sgn buffer rs
      | Some frame =>
          let (buffer, data_size) := recvfrom buffer frame in
          c ← handle_packet sgn buffer data_size;
          let sent := match c with
                      | None => None
                      | Some cmd => (send_priv_cmd (rd_sock r) (rd_ioctl r) cmd 256).2
                      end in
          t ← sniffer_loop sgn buffer rs;
          mret (t.1, option_list sent ++ t.2)
      end
  end.

(** [main]: the buffer's first content is what [malloc] returns. *)
Definition sniffer_main (alloc : option (list Z)) (raw_sock : Z) (sgn : bool) (rs : list round) :
    res (list dhd_priv_cmd) :=
  match alloc with
  | None => mret []
  | Some buffer => if decide (raw_sock < 0) then mret [] else t ← sniffer_loop sgn buffer rs; mret t.2
  end.

(** ** socket/sniffer_test.c: the same filter on [unsigned char] *)

Definition alive_match (eth_data : list Z) : res Z :=
  proto ← ip_protocol eth_data;
  if decide (proto ≠ 17) then mret 0
  else
    a ← bytes_are id eth_data user_data_len;
    if negb a then mret 0
    else
      m ← bytes_are id eth_data heartbeat_msg;
      if negb m then mret 0 else mret 1.

(** The hexadecimal text printed for the frame. *)
Definition alive_action (eth_data : list Z) (size : Z) : res (list Z) :=
  for_up (Z.to_nat size) 0 (λ i o, b ← arr_get eth_data i; mret (o ++ fmt_02x b)) [].

(** ** socket/udp_test.c: the message it sends *)

(** Bit fields of [MSG_ATTR_S], from the least significant bit. *)
Record MSG_ATTR_S := MsgAttr {
  msg_type : Z; priority : Z; mask_flag : Z; ack_req : Z; ack_flag : Z;
  split_msg : Z; last_msg : Z; curr_slice : Z; total_slice : Z;
}.
Definition MSG_ATTR_U (a : MSG_ATTR_S) : Z :=
  Z.lor (Z.shiftl (total_slice a) 21)
  (Z.lor (Z.shiftl (curr_slice a) 18)
  (Z.lor (Z.shiftl (last_msg a) 17)
  (Z.lor (Z.shiftl (split_msg a) 16)
  (Z.lor (Z.shiftl (ack_flag a) 14)
  (Z.lor (Z.shiftl (ack_req a) 13)
  (Z.lor (Z.shiftl (mask_flag a) 12)
  (Z.lor (Z.shiftl (priority a) 8) (msg_type a)))))))).

Record YB_SERVER_MSG_HEAD_S := MsgHead {
  magic : Z; msg_ver : Z; msg_headlen : Z; text_len : Z;
  msg_no : Z; msg_attr : Z; mask_code : Z; ack_no : Z;
}.

Definition htonl (v : Z) : Z :=
  Z.lor (Z.shiftl (Z.land v 255) 24)
  (Z.lor (Z.shiftl (Z.land (Z.shiftr v 8) 255) 16)
  (Z.lor (Z.shiftl (Z.land (Z.shiftr v 16) 255) 8) (Z.land (Z.shiftr v 24) 255))).
Definition htons (v : Z) : Z :=
  Z.lor (Z.shiftl (Z.land v 255) 8) (Z.land (Z.shiftr v 8) 255).

(** The object representation of an [n]-byte integer. *)
Fixpoint le_bytes (n : nat) (v : Z) : list Z :=
  match n with
  | O => []
  | S n => Z.land v 255 :: le_bytes n (Z.shiftr v 8)
  end.

Definition head_bytes (h : YB_SERVER_MSG_HEAD_S) : list Z :=
  le_bytes 4 (magic h) ++ le_bytes 1 (msg_ver h) ++ le_bytes 1 (msg_headlen h) ++
  le_bytes 2 (text_len h) ++ le_bytes 4 (msg_no h) ++ le_bytes 4 (msg_attr h) ++
  le_bytes 4 (mask_code h) ++ le_bytes 4 (ack_no h).

Definition SERVER_MSG_HEAD_LEN : Z := 24.
Definition YB_PRIVA_CODE : Z := 1720215176.
Definition YB_MSG_VER : Z := 1.
Definition YB_MSG_TYPE_PING : Z := 1.

(** [ping_text]: two reserved bytes, the port and the address. *)
Definition ping_text (ip_port : Z) : list Z :=
  [0; 0] ++ le_bytes 2 (htons (wrap_u 16 ip_port)) ++ le_bytes 4 (htonl 32).

(** [send_buf] as [main] fills it for the message number [no]. *)
Definition ping_message (no ip_port : Z) : list Z :=
  head_bytes (MsgHead (htonl YB_PRIVA_CODE) YB_MSG_VER SERVER_MSG_HEAD_LEN
                (htons 8) (htonl no)
                (MSG_ATTR_U (MsgAttr YB_MSG_TYPE_PING 0 0 1 0 0 0 0 0)) 0 0)
  ++ ping_text ip_port.

(** ** The filters as predicates on frames *)

Definition matches (rd : Z → Z) (p : list Z) (l : list (Z * Z)) : bool :=
  forallb (λ iv, bool_decide (iv.2 = rd (p !!! Z.to_nat iv.1))) l.

Definition heartbeat_frame (rd : Z → Z) (p : list Z) : bool :=
  bool_decide (p !!! 23%nat = 17) && matches rd p user_data_len && matches rd p heartbeat_msg.

Lemma arr_get_total (p : list Z) i : 0 ≤ i < Z.of_nat (length p) → arr_get p i = Ok (p !!! Z.to_nat i).
Proof.
  intros Hi. apply arr_get_lookup. split; [lia|]. apply list_lookup_lookup_total_lt. lia.
Qed.

Lemma bytes_are_total rd p l :
  (∀ iv, iv ∈ l → 0 ≤ iv.1 < Z.of_nat (length p)) → bytes_are rd p l = Ok (matches rd p l).
Proof.
  induction l as [|[i v] l IH]; intros Hl; [done|]. cbn [bytes_are matches forallb fst snd].
  rewrite arr_get_total by (apply (Hl (i, v)); by left). rewrite bind_Ok.
  destruct (decide (v = rd (p !!! Z.to_nat i))) as [Hv|Hv].
  - rewrite bool_decide_true by done. apply IH. intros iv Hiv. apply Hl. by right.
  - by rewrite bool_decide_false by done.
Qed.

(** All offsets read lie below 55. *)
Lemma offsets_ok (p : list Z) iv :
  55 ≤ Z.of_nat (length p) → iv ∈ user_data_len ++ heartbeat_msg → 0 ≤ iv.1 < Z.of_nat (length p).
Proof.
  intros Hp Hiv. enough (0 ≤ iv.1 < 55) by lia. revert iv Hiv. apply Forall_forall.
  repeat (constructor; [cbn; lia|]). constructor.
Qed.

Lemma filter_total rd p :
  55 ≤ Z.of_nat (length p) →
  (proto ← ip_protocol p;
   if decide (proto ≠ 17) then mret 0
   else
     a ← bytes_are rd p user_data_len;
     if negb a then mret 0
     else m ← bytes_are rd p heartbeat_msg; if negb m then mret 0 else mret 1) =
  Ok (if heartbeat_frame rd p then 1 else 0).
Proof.
  intros Hp. unfold ip_protocol, heartbeat_frame. rewrite arr_get_total, bind_Ok by lia.
  change (Z.to_nat (14 + 9)) with 23%nat.
  rewrite !bytes_are_total by (intros; apply offsets_ok; [done|apply elem_of_app; auto]).
  destruct (decide (p !!! 23%nat = 17)) as [H17|H17].
  - rewrite decide_False by naive_solver. rewrite bool_decide_true, bind_Ok by done.
    destruct (matches rd p user_data_len); [|done]. cbn [negb andb]. rewrite bind_Ok.
    by destruct (matches rd p heartbeat_msg).
  - rewrite decide_True by done. by rewrite bool_decide_false by done.
Qed.

(** ** Hexadecimal output *)

Lemma fmt_02x_byte b : byte_ok b → fmt_02x b = [hex_digit (b / 16); hex_digit (b mod 16)].
Proof.
  intros Hb. unfold byte_ok in Hb. unfold fmt_02x. rewrite wrap_u_small by (unfold in_u; lia).
  cbn [hex_rev]. destruct (decide (b < 16)) as [Hs|Hs].
  - rewrite Z.div_small, Z.mod_small by lia. done.
  - assert (b / 16 < 16) by (apply Z.div_lt_upper_bound; lia).
    rewrite (decide_True (P := b / 16 < 16)) by done. done.
Qed.

Definition hex_text (bs : list Z) : list Z := bs ≫= fmt_02x.

Lemma hex_text_length bs : Forall byte_ok bs → length (hex_text bs) = (2 * length bs)%nat.
Proof.
  induction 1 as [|b bs Hb _ IH]; [done|]. unfold hex_text in *. cbn.
  rewrite length_app, IH, fmt_02x_byte by done. simpl. lia.
Qed.

Lemma take_four (p : list Z) k : (k + 4 ≤ length p)%nat →
  take (k + 4) p = take k p ++ [p !!! k; p !!! (k + 1)%nat; p !!! (k + 2)%nat; p !!! (k + 3)%nat].
Proof.
  intros Hk. rewrite <-(take_drop k p) at 1. rewrite take_app_ge by (rewrite length_take; lia).
  f_equal. rewrite length_take. replace (k + 4 - k `min` length p)%nat with 4%nat by lia.
  assert (Hd : ∀ j, (j < 4)%nat → drop k p !! j = Some (p !!! (k + j)%nat)).
  { intros j Hj. rewrite lookup_drop. apply list_lookup_lookup_total_lt. lia. }
  pose proof (Hd 0%nat) as H0. pose proof (Hd 1%nat) as H1.
  pose proof (Hd 2%nat) as H2. pose proof (Hd 3%nat) as H3. rewrite Nat.add_0_r in H0.
  destruct (drop k p) as [|a [|b [|c [|d l]]]]; cbn in *; naive_solver lia.
Qed.

(** The loop of [build_keep_alive_command] on [unsigned char]s. *)
Lemma build_loop p n cap pre :
  Forall byte_ok p → (4 * n ≤ length p)%nat →
  Z.of_nat (length pre + 8 * n) + 1 ≤ cap →
  for_up n 0 (λ k cmd,
       a ← arr_get p (4 * k); b ← arr_get p (4 * k + 1);
       c ← arr_get p (4 * k + 2); d ← arr_get p (4 * k + 3);
       str_append cap cmd (fmt_02x (ch false a) ++ fmt_02x (ch false b) ++
                           fmt_02x (ch false c) ++ fmt_02x (ch false d))) pre =
  Ok (pre ++ hex_text (take (4 * n) p)).
Proof.
  intros Hp Hn Hcap.
  edestruct (for_up_inv (λ k cmd, 0 ≤ k ∧ cmd = pre ++ hex_text (take (4 * Z.to_nat k) p)) n 0)
    as (cmd & Hr & _ & ->); [| |rewrite Hr; by replace (Z.to_nat (0 + Z.of_nat n)) with n by lia].
  - cbn. by rewrite app_nil_r.
  - intros k cmd Hk [_ ->]. rewrite !arr_get_total by lia. rewrite !bind_Ok. cbn [ch].
    replace (Z.to_nat (4 * k)) with (4 * Z.to_nat k)%nat by lia.
    replace (Z.to_nat (4 * k + 1)) with (4 * Z.to_nat k + 1)%nat by lia.
    replace (Z.to_nat (4 * k + 2)) with (4 * Z.to_nat k + 2)%nat by lia.
    replace (Z.to_nat (4 * k + 3)) with (4 * Z.to_nat k + 3)%nat by lia.
    replace (4 * Z.to_nat (k + 1))%nat with (4 * Z.to_nat k + 4)%nat by lia.
    pose proof (take_four p (4 * Z.to_nat k) ltac:(lia)) as Ht.
    assert (Hq : Forall byte_ok (take (4 * Z.to_nat k + 4) p)) by (by apply Forall_take).
    pose proof (hex_text_length _ Hq) as Hl. rewrite length_take in Hl.
    rewrite Ht in Hl |- *. unfold hex_text in *. rewrite bind_app in Hl |- *.
    cbn [mbind list_bind] in Hl |- *. rewrite app_nil_r in Hl |- *.
    unfold str_append. rewrite decide_True.
    + eexists. split; [done|]. split; [lia|]. by rewrite <-app_assoc.
    + rewrite (length_app pre). rewrite length_app in Hl. lia.
Qed.

(** What [handle_packet] does with a buffer that holds a frame of [size] bytes. *)
Definition replay_len (size : Z) : nat := 4 * Z.to_nat ((Z.min size 116 + 3) / 4).

Lemma replay_len_bound size : (replay_len size ≤ 116)%nat.
Proof.
  unfold replay_len. assert ((Z.min size 116 + 3) / 4 < 30) by (apply Z.div_lt_upper_bound; lia). lia.
Qed.

Lemma handle_packet_unsigned (buffer : list Z) (size : Z) :
  Forall byte_ok buffer → length buffer = 1536%nat →
  handle_packet false buffer size =
    Ok (if heartbeat_frame id buffer
        then Some (keep_alive_prefix ++ hex_text (take (replay_len size) buffer)) else None).
Proof.
  intros Hb Hlen. pose proof (replay_len_bound size) as Hn. unfold replay_len in *.
  unfold handle_packet, is_heartbeat. rewrite filter_total, bind_Ok by lia.
  change (heartbeat_frame (ch false) buffer) with (heartbeat_frame id buffer).
  destruct (heartbeat_frame id buffer); [|done]. rewrite decide_False by done.
  unfold build_keep_alive_command.
  change (str_append 256 [] keep_alive_prefix) with (Ok keep_alive_prefix).
  rewrite bind_Ok. cbv zeta.
  replace (if decide (size < 116) then size else 116) with (Z.min size 116) by (case_decide; lia).
  rewrite build_loop; [done|done|lia|cbn; lia].
Qed.

(** ** The receive loop *)

(** The filter reads 55 bytes, so what lies behind them does not matter. *)
Lemma heartbeat_frame_app rd f l :
  55 ≤ Z.of_nat (length f) → heartbeat_frame rd (f ++ l) = heartbeat_frame rd f.
Proof.
  intros Hf. unfold heartbeat_frame, matches. cbn [user_data_len heartbeat_msg forallb fst snd].
  by rewrite !lookup_total_app_l by lia.
Qed.

(** It begins at offset 23, so a frame that ends before leaves the answer of the
    frame received earlier. *)
Lemma heartbeat_frame_runt rd f buffer :
  (length f ≤ 23)%nat → (length buffer ≥ 55)%nat →
  heartbeat_frame rd (f ++ drop (length f) buffer) = heartbeat_frame rd buffer.
Proof.
  intros Hf Hb.
  assert (Hat : ∀ i, (23 ≤ i)%nat → (f ++ drop (length f) buffer) !!! i = buffer !!! i).
  { intros i Hi. rewrite lookup_total_app_r by lia. rewrite lookup_total_drop. f_equal. lia. }
  unfold heartbeat_frame, matches. cbn [user_data_len heartbeat_msg forallb fst snd].
  by rewrite !Hat by lia.
Qed.

Definition frame_ok (f : list Z) : Prop := Forall byte_ok f ∧ 60 ≤ Z.of_nat (length f) ≤ 1518.

(** The heartbeats among the received frames for which [socket] and [ioctl] worked. *)
Definition heartbeats (rs : list round) : list (list Z) :=
  omap (λ r, match rx r with
             | Some f => if heartbeat_frame id f && bool_decide (0 ≤ rd_sock r ∧ 0 ≤ rd_ioctl r) then Some f else None
             | None => None
             end) rs.

(** A command replays a frame: the prefix, the frame's first 116 bytes in
    hexadecimal, and at most three bytes more to fill the last group of four. *)
Definition replays (f : list Z) (c : dhd_priv_cmd) : Prop :=
  used_len c = 256 ∧ total_len c = 256 ∧ (length (pc_buf c) < 256)%nat ∧
  ∃ fill, (length fill ≤ 3)%nat ∧ pc_buf c = keep_alive_prefix ++ hex_text (take 116 f ++ fill).

Lemma recvfrom_ok buffer f :
  Forall byte_ok buffer → length buffer = 1536%nat → frame_ok f →
  recvfrom buffer f = (f ++ drop (length f) buffer, Z.of_nat (length f)) ∧
  Forall byte_ok (f ++ drop (length f) buffer) ∧ length (f ++ drop (length f) buffer) = 1536%nat.
Proof.
  intros Hb Hl [Hf Hlf]. unfold recvfrom. rewrite take_ge by lia. split; [done|]. split.
  - apply Forall_app. split; [done|by apply Forall_drop].
  - rewrite length_app, length_drop. lia.
Qed.

Lemma command_replays buffer f :
  Forall byte_ok (f ++ buffer) → length (f ++ buffer) = 1536%nat → frame_ok f →
  replays f (PrivCmd (keep_alive_prefix ++
    hex_text (take (replay_len (Z.of_nat (length f))) (f ++ buffer))) 256 256).
Proof.
  intros Hb Hl [_ Hf]. pose proof (replay_len_bound (Z.of_nat (length f))) as Hn.
  unfold replays. cbn [used_len total_len pc_buf].
  split; [done|]. split; [done|]. split.
  { rewrite length_app, hex_text_length by (by apply Forall_take). rewrite length_take. cbn [length keep_alive_prefix]. lia. }
  set (n := replay_len _) in *. exists (take (n - length f) buffer).
  assert (n = 116 ∧ 116 ≤ length f ∨ length f ≤ n < length f + 4 ∧ length f ≤ 116)%nat as Hn'.
  { unfold n, replay_len. pose proof (Z.div_mod (Z.min (Z.of_nat (length f)) 116 + 3) 4 ltac:(lia)).
    pose proof (Z.mod_pos_bound (Z.min (Z.of_nat (length f)) 116 + 3) 4 ltac:(lia)).
    destruct (decide (116 ≤ length f)%nat); lia. }
  split; [rewrite length_take; lia|]. rewrite take_app. do 3 f_equal.
  destruct Hn' as [[-> _]|[? ?]]; [done|]. by rewrite !take_ge by lia.
Qed.

(** ** Properties *)

(** Replaying a heartbeat: where [char] is unsigned, for every frame in the
    1536-byte receive buffer [handle_packet] has no undefined behaviour; it
    sends nothing unless the frame is a heartbeat, and otherwise sends the
    command prefix followed by the hexadecimal text of the first bytes of the
    frame (at most 116, rounded up to a multiple of four), which fits the
    256-byte command buffer with its terminating NUL. *)
Lemma keep_alive_command_fits (buffer : list Z) (size : Z) :
  Forall byte_ok buffer → length buffer = 1536%nat → 0 ≤ size ≤ 1536 →
  let n := Z.to_nat ((Z.min size 116 + 3) / 4) in
  handle_packet false buffer size =
    Ok (if heartbeat_frame id buffer
        then Some (keep_alive_prefix ++ hex_text (take (4 * n) buffer)) else None) ∧
  (length (keep_alive_prefix ++ hex_text (take (4 * n) buffer)) < 256)%nat.
Proof.
  intros Hb Hlen Hsize. cbv zeta. split; [by apply handle_packet_unsigned|].
  pose proof (replay_len_bound size) as Hn. unfold replay_len in Hn.
  rewrite length_app, hex_text_length by (by apply Forall_take). rewrite length_take. cbn. lia.
Qed.

(** A heartbeat frame: protocol 17, UDP length 40 and the message of the source's
    comment, in a receive buffer filled up with zeros. *)
Definition demo_frame : list Z :=
  replicate 23 0 ++ [17] ++ replicate 14 0 ++ [0; 40] ++ [0; 0] ++ ping_message 161 3355.
Definition demo_buffer : list Z := demo_frame ++ replicate 1462 0.

Lemma demo_buffer_bytes : Forall byte_ok demo_buffer.
Proof.
  apply (Forall_impl (λ b, (0 <=? b) && (b <? 256))).
  - apply forallb_True. by vm_compute.
  - intros b Hb%Is_true_true. unfold byte_ok. lia.
Qed.

Lemma keep_alive_command_fits_witness :
  handle_packet false demo_buffer 74 =
    Ok (if heartbeat_frame id demo_buffer
        then Some (keep_alive_prefix ++ hex_text (take 76 demo_buffer)) else None).
Proof.
  apply (keep_alive_command_fits demo_buffer 74 demo_buffer_bytes); [by vm_compute|lia].
Defined.

(** The signedness of [char] decides whether the sniffer works: where [char]
    is unsigned [is_heartbeat] accepts exactly the frames [alive_match] accepts;
    where it is signed the comparisons with 0x88 are never true, so
    [is_heartbeat] rejects every frame and no command is ever sent. *)
Lemma heartbeat_char_signedness (buffer : list Z) (size : Z) :
  Forall byte_ok buffer → 55 ≤ Z.of_nat (length buffer) →
  is_heartbeat false buffer = alive_match buffer ∧
  is_heartbeat true buffer = Ok 0 ∧ handle_packet true buffer size = Ok None.
Proof.
  intros Hb Hlen.
  assert (H0 : is_heartbeat true buffer = Ok 0).
  { unfold is_heartbeat. rewrite filter_total by done. unfold heartbeat_frame.
    replace (matches (ch true) buffer heartbeat_msg) with false; [by rewrite andb_false_r|].
    cbn [matches heartbeat_msg forallb fst snd ch].
    rewrite (bool_decide_false (136 = s8 (buffer !!! Z.to_nat 43))); [by rewrite !andb_false_r|].
    pose proof (wrap_s_range 8 (buffer !!! Z.to_nat 43) ltac:(lia)) as Hr. unfold in_s in Hr. lia. }
  split_and!; [done|done|]. unfold handle_packet. by rewrite H0.
Qed.

Lemma heartbeat_char_signedness_witness :
  is_heartbeat false demo_buffer = alive_match demo_buffer ∧
  is_heartbeat true demo_buffer = Ok 0 ∧ handle_packet true demo_buffer 74 = Ok None.
Proof.
  apply (heartbeat_char_signedness demo_buffer 74 demo_buffer_bytes). by vm_compute.
Defined.

(** Sender and filter agree: the message [udp_test] builds, for every message
    number and port, sent as the 32 bytes after any Ethernet, IP and UDP headers
    with protocol 17 and UDP length 40, is recognised by [alive_match] and by
    [is_heartbeat] on unsigned characters. *)
Lemma ping_is_heartbeat (no ip_port : Z) (hdr cksum tail : list Z) :
  length hdr = 38%nat → hdr !! 23%nat = Some 17 → length cksum = 2%nat →
  let frame := hdr ++ [0; 40] ++ cksum ++ ping_message no ip_port ++ tail in
  length (ping_message no ip_port) = 32%nat ∧
  alive_match frame = Ok 1 ∧ is_heartbeat false frame = Ok 1.
Proof.
  intros Hh H17 Hc. cbv zeta. set (frame := hdr ++ _).
  assert (Hlen : length (ping_message no ip_port) = 32%nat) by done.
  assert (Hf : 55 ≤ Z.of_nat (length frame)).
  { unfold frame. rewrite !length_app, Hh, Hc, Hlen. cbn. lia. }
  assert (Hb : heartbeat_frame id frame = true).
  { unfold frame, heartbeat_frame. destruct cksum as [|c0 [|c1 []]]; try done.
    rewrite (list_lookup_total_alt _ 23), lookup_app_l, H17 by lia. cbn [from_option].
    assert (Hat : ∀ l i, (38 ≤ i)%nat → (hdr ++ l) !!! i = l !!! (i - 38)%nat).
    { intros l i Hi. rewrite lookup_total_app_r by lia. by rewrite Hh. }
    unfold matches. cbn [user_data_len heartbeat_msg forallb fst snd].
    rewrite !Hat by lia. reflexivity. }
  split; [done|]. split.
  - unfold alive_match. by rewrite filter_total, Hb.
  - unfold is_heartbeat. rewrite filter_total by done.
    change (heartbeat_frame (ch false) frame) with (heartbeat_frame id frame). by rewrite Hb.
Qed.

Lemma ping_is_heartbeat_witness :
  alive_match (replicate 23 0 ++ [17] ++ replicate 14 0 ++ [0; 40] ++ [0; 0] ++ ping_message 161 3355 ++ [])
    = Ok 1.
Proof.
  destruct (ping_is_heartbeat 161 3355 (replicate 23 0 ++ [17] ++ replicate 14 0) [0; 0] []
    eq_refl eq_refl eq_refl) as (_ & H & _). exact H.
Defined.

Lemma sniffer_loop_replays (buffer : list Z) (rs : list round) :
  Forall byte_ok buffer → length buffer = 1536%nat →
  (∀ r f, r ∈ rs → rx r = Some f → frame_ok f) →
  ∃ b cmds, sniffer_loop false buffer rs = Ok (b, cmds) ∧ Forall2 replays (heartbeats rs) cmds.
Proof.
  intros Hb Hl Hrs. revert buffer Hb Hl. induction rs as [|r rs IH]; intros buffer Hb Hl.
  { exists buffer, []. split; [done|constructor]. }
  destruct r as [[f|] sock io]; cbn [sniffer_loop rx]; unfold heartbeats; cbn [omap list_omap rx rd_sock rd_ioctl].
  2:{ apply IH; [|done|done]. intros r' f' Hr. apply Hrs. by right. }
  pose proof (Hrs (Round (Some f) sock io) f ltac:(by left) eq_refl) as Hf.
  destruct (recvfrom_ok buffer f Hb Hl Hf) as (-> & Hb' & Hl').
  rewrite handle_packet_unsigned, bind_Ok by done.
  destruct (IH ltac:(intros r' f' Hr; apply Hrs; by right) _ Hb' Hl') as (b & cmds & -> & IHc).
  rewrite bind_Ok, heartbeat_frame_app by (destruct Hf; lia). unfold send_priv_cmd. cbn [rd_sock rd_ioctl].
  destruct (heartbeat_frame id f); cbn [andb fst snd].
  2:{ eexists _, _. split; [done|]. exact IHc. }
  destruct (decide (sock < 0)).
  { rewrite bool_decide_false by lia. eexists _, _. split; [done|]. exact IHc. }
  cbn [snd]. destruct (decide (io < 0)).
  - rewrite bool_decide_false by lia. eexists _, _. split; [done|]. exact IHc.
  - rewrite bool_decide_true by lia. eexists _, _. split; [done|]. cbn.
    constructor; [|exact IHc]. by apply command_replays.
Qed.

(** C20: (functional) The sniffer as a whole, where [char] is unsigned (where it is
    signed no frame is recognised, [heartbeat_char_signedness]): for every sequence
    of frames of Ethernet size, 60 to 1518 bytes (a shorter one can be taken for the
    frame before it, [sniffer_runt_replayed]), and of failed receptions, the
    commands the driver receives are exactly one per heartbeat frame for which
    [socket] and [ioctl] work, in the order of the frames, each replaying its frame;
    the loop never leaves its buffers. *)
Theorem sniffer_replays_heartbeats (buffer : list Z) (raw_sock : Z) (rs : list round) :
  Forall byte_ok buffer → length buffer = 1536%nat → 0 ≤ raw_sock →
  (∀ r f, r ∈ rs → rx r = Some f → frame_ok f) →
  ∃ cmds, sniffer_main (Some buffer) raw_sock false rs = Ok cmds ∧ Forall2 replays (heartbeats rs) cmds.
Proof.
  intros Hb Hl Hs Hrs. unfold sniffer_main. rewrite decide_False by lia.
  destruct (sniffer_loop_replays buffer rs Hb Hl Hrs) as (b & cmds & -> & H). by exists cmds.
Qed.

Lemma sniffer_replays_heartbeats_witness :
  ∃ cmds, sniffer_main (Some demo_buffer) 3 false
      [Round (Some demo_frame) 4 0; Round None 0 0; Round (Some (replicate 60 0)) 4 0;
       Round (Some demo_frame) 4 0; Round (Some demo_frame) (-1) 0;
       Round (Some demo_frame) 4 (-1)] = Ok cmds ∧
    Forall2 replays [demo_frame; demo_frame] cmds.
Proof.
  apply (sniffer_replays_heartbeats demo_buffer 3); [apply demo_buffer_bytes|by vm_compute|lia|].
  intros r f Hr Hf. enough (frame_ok demo_frame ∧ frame_ok (replicate 60 0)) as [H1 H2].
  - repeat (apply elem_of_cons in Hr as [->|Hr]; [cbn in Hf; simplify_eq; done|]).
    by apply not_elem_of_nil in Hr.
  - split; (split; [|by vm_compute]); apply (Forall_impl (λ b, (0 <=? b) && (b <? 256)));
      try (apply forallb_True; by vm_compute); intros b Hb%Is_true_true; unfold byte_ok; lia.
Defined.

(** The length of a frame is never checked: a runt that ends before the protocol
    byte is taken for the heartbeat received before it, and replayed. *)
Lemma sniffer_runt_replayed buffer f :
  Forall byte_ok buffer → length buffer = 1536%nat → Forall byte_ok f → (length f ≤ 23)%nat →
  heartbeat_frame id buffer = true →
  ∃ c, handle_packet false (f ++ drop (length f) buffer) (Z.of_nat (length f)) = Ok (Some c).
Proof.
  intros Hb Hl Hf Hlf Hh. rewrite handle_packet_unsigned.
  - rewrite heartbeat_frame_runt, Hh by lia. eauto.
  - apply Forall_app. split; [done|by apply Forall_drop].
  - rewrite length_app, length_drop. lia.
Qed.
