(* ===== verification/PthreadModel.v ===== *)
(** * PthreadModel: the worker threads of pthread/pthread_model.c

    A [pthread_model_t] with its trailing [pthread_handle_t] is one object; the
    handle's [running] holds bit 0 "run" and bit 1 "allocated by
    [pthread_model_create]".  The operations are functions on the object; the
    worker and its owner are a step relation whose steps are the accesses of
    the two threads to the object, with the thread cancelled only at
    cancellation points inside the client's routine (deferred cancellation). *)

From S2P Require Import Prelude.

(** [start_routine] is null or some routine; [arg] and [thread_id] are values. *)
Record pthread_model_t := PthreadModel {
  start_routine : option Z;
  arg : Z;
  running : Z;
}.

Definition RUN : Z := 1.
Definition DYNAMIC : Z := Z.shiftl 1 1.

(** [malloc_ok] and [attr_ret] are the answers of the library. *)
Definition pthread_model_create (malloc_ok : bool) (attr_ret : Z) (func : option Z) (a : Z)
    : option pthread_model_t :=
  if malloc_ok then
    if decide (attr_ret ≠ 0) then None else Some (PthreadModel func a DYNAMIC)
  else None.

Definition pthread_model_init (func : option Z) (a : Z) : Z * pthread_model_t :=
  (0, PthreadModel func a 0).

(** The return value, the object and whether the stored attributes are used. *)
Definition pthread_model_start (create_ret : Z) (model : option pthread_model_t)
    : res (Z * pthread_model_t * bool) :=
  match model with
  | None => Ub NullDeref
  | Some m =>
      let m := PthreadModel (start_routine m) (arg m) (Z.lor (running m) RUN) in
      let attr := bool_decide (Z.land (running m) DYNAMIC ≠ 0) in
      if decide (create_ret ≠ 0) then mret (-1, m, attr) else mret (0, m, attr)
  end.

(** The object afterwards, [None] when it has been freed. *)
Definition pthread_model_destory (model : option pthread_model_t)
    : res (Z * option pthread_model_t) :=
  match model with
  | None => Ub NullDeref
  | Some m =>
      let m := PthreadModel (start_routine m) (arg m) (Z.ldiff (running m) RUN) in
      if decide (Z.land (running m) DYNAMIC ≠ 0) then mret (0, None) else mret (0, Some m)
  end.

(** The test of the loop in [pthread_model_execute]. *)
Definition keep_running (m : pthread_model_t) : bool := bool_decide (Z.land (running m) RUN ≠ 0).

(** ** The worker and its owner *)

(** Where the worker is: before [pthread_create] or at its end, entering
    [pthread_model_execute], at the loop test, or in the client's routine. *)
Inductive worker := Idle | Entering | AtTest | InRoutine | Finished.

(** The object, freed or not, the worker, a pending cancellation, and whether a
    thread has touched freed memory. *)
Record sys := Sys {
  obj : option pthread_model_t;
  wrk : worker;
  cancelled : bool;
  bad : bool;
}.

Inductive step : sys → sys → Prop :=
  (** [pthread_model_execute] reads [start_routine] *)
  | step_enter m c b : start_routine m ≠ None →
      step (Sys (Some m) Entering c b) (Sys (Some m) AtTest c b)
  | step_enter_null m c b : start_routine m = None →
      step (Sys (Some m) Entering c b) (Sys (Some m) Finished c b)
  (** [while (handle->running & 0x1)] *)
  | step_test_run m c b : keep_running m = true →
      step (Sys (Some m) AtTest c b) (Sys (Some m) InRoutine c b)
  | step_test_stop m c b : keep_running m = false →
      step (Sys (Some m) AtTest c b) (Sys (Some m) Finished c b)
  (** either read on an object that is gone *)
  | step_freed w c b : w = Entering ∨ w = AtTest →
      step (Sys None w c b) (Sys None w c true)
  (** the routine returns, or a pending cancellation takes effect inside it *)
  | step_return o c b : step (Sys o InRoutine c b) (Sys o AtTest c b)
  | step_cancel o b : step (Sys o InRoutine true b) (Sys o Finished true b)
  (** the owner *)
  | step_start m m' at_ : pthread_model_start 0 (Some m) = Ok (0, m', at_) →
      step (Sys (Some m) Idle false false) (Sys (Some m') Entering false false)
  | step_destroy m o w b : pthread_model_destory (Some m) = Ok (0, o) → w ≠ Idle →
      step (Sys (Some m) w false b) (Sys o w true b).

Definition reachable (s0 s : sys) : Prop := rtc step s0 s.

(** ** Properties *)

Lemma destory_spec m :
  pthread_model_destory (Some m) =
    Ok (0, if decide (Z.land (Z.ldiff (running m) RUN) DYNAMIC ≠ 0) then None
           else Some (PthreadModel (start_routine m) (arg m) (Z.ldiff (running m) RUN))).
Proof. unfold pthread_model_destory. cbn. by case_decide. Qed.

Lemma start_static m m' at_ :
  Z.land (running m) DYNAMIC = 0 → pthread_model_start 0 (Some m) = Ok (0, m', at_) →
  Z.land (running m') DYNAMIC = 0.
Proof.
  intros Hs Hr. unfold pthread_model_start in Hr. cbn [start_routine arg running] in Hr.
  rewrite decide_False in Hr by naive_solver. injection Hr as <- _. cbn.
  by rewrite Z.land_lor_distr_l, Hs.
Qed.

(** Clearing the run bit keeps the allocation bit clear. *)
Lemma destory_static m o :
  Z.land (running m) DYNAMIC = 0 → pthread_model_destory (Some m) = Ok (0, o) →
  ∃ m', o = Some m' ∧ Z.land (running m') DYNAMIC = 0.
Proof.
  intros Hs Hr. rewrite destory_spec in Hr.
  assert (Hd : Z.land (Z.ldiff (running m) RUN) DYNAMIC = 0).
  { apply Z.bits_inj'. intros i Hi. apply (f_equal (λ z, Z.testbit z i)) in Hs.
    rewrite Z.land_spec in Hs |- *. rewrite Z.ldiff_spec, Z.bits_0 in *.
    by destruct (Z.testbit (running m) i), (Z.testbit RUN i), (Z.testbit DYNAMIC i). }
  rewrite decide_False in Hr by naive_solver. injection Hr as <-. eauto.
Qed.

(** An object set up by [pthread_model_init] is never freed. *)
Definition static_ok (s : sys) : Prop :=
  bad s = false ∧ ∃ m, obj s = Some m ∧ Z.land (running m) DYNAMIC = 0.

Lemma static_step s s' : static_ok s → step s s' → static_ok s'.
Proof.
  intros [Hb (m & Ho & Hs)] Hst. destruct Hst; cbn in *; simplify_eq; split; cbn; eauto.
  - eexists. split; [done|]. by eapply start_static.
  - by eapply destory_static.
Qed.

(** C38: the life of a worker: for an object set up by [pthread_model_init] no
    interleaving of worker and owner touches freed memory; for an object made
    by [pthread_model_create] the owner frees it while the detached worker may
    be between two accesses, and the worker then reads freed memory. *)
Theorem worker_use_after_free (func a : Z) :
  (∀ s, reachable (Sys (Some (pthread_model_init (Some func) a).2) Idle false false) s →
        bad s = false) ∧
  (∃ m s, pthread_model_create true 0 (Some func) a = Some m ∧
     reachable (Sys (Some m) Idle false false) s ∧ bad s = true).
Proof.
  split.
  - intros s Hr.
    assert (Hok : static_ok s); [|apply Hok].
    assert (Hi : static_ok (Sys (Some (pthread_model_init (Some func) a).2) Idle false false))
      by (split; [done|by eexists]).
    revert Hi. induction Hr as [|x y z Hxy _ IH]; [done|]. intros Hx.
    apply IH. by eapply static_step.
  - eexists _, (Sys None AtTest true true). split; [done|]. split; [|done].
    eapply rtc_l; [by apply (step_start _ (PthreadModel (Some func) a 3) true)|].
    eapply rtc_l; [by apply step_enter|].
    eapply rtc_l; [by apply (step_destroy _ None)|].
    eapply rtc_l; [|apply rtc_refl]. apply step_freed. by right.
Qed.
