(* ===== verification/UdpClient.v ===== *)
(** * UdpClient: the datagram client of socket/udp_client.c

    System calls answer from the environment: [sendto] and [recvfrom] are
    functions from the number of the attempt to the [int] they return.  What the
    network sees is the number of datagrams handed to [sendto]; what the caller
    sees of the receive queue is how many datagrams were consumed. *)

From S2P Require Import Prelude Heartbeat.

Definition EAGAIN : Z := 11.
Definition AF_INET : Z := 2.

(** [socket_base_t] of socket/skt_base.h with the members of [sin] the code sets. *)
Record socket_base_t := SocketBase {
  fd : Z;
  sin_family : Z;
  sin_addr : Z;
  sin_port : Z;
}.

Section client.
(** [inet_addr] of the C library. *)
Context (inet_addr : list Z → Z).

(** [None] is the null pointer; the flag tells whether the allocated object is
    still allocated. *)
Definition udp_client_init (calloc_ok : bool) (sockfd : Z) (port : Z) (ip_addr : list Z)
    : option socket_base_t * bool :=
  if calloc_ok then
    if decide (sockfd < 0) then (None, false)
    else (Some (SocketBase sockfd AF_INET (inet_addr ip_addr) (htons (wrap_u 16 port))), true)
  else (None, false).

End client.

(** [do { ret = call(); if (EAGAIN != ret) break; } while (try_times--);] from
    attempt [k]: the last answer and the number of calls made. *)
Fixpoint attempt (try_times : nat) (call : nat → Z) (k : nat) : Z * nat :=
  let ret := call k in
  if decide (EAGAIN ≠ ret) then (ret, S k)
  else match try_times with
       | O => (ret, S k)
       | S try_times => attempt try_times call (S k)
       end.

Definition udp_client_send (skt_base : option socket_base_t) (sendto : nat → Z) : Z * nat :=
  match skt_base with
  | None => (-1, 0%nat)
  | Some _ => attempt 3 sendto 0
  end.

Definition udp_client_recv (skt_base : option socket_base_t) (recvfrom : nat → Z) : Z * nat :=
  match skt_base with
  | None => (-1, 0%nat)
  | Some _ => attempt 3 recvfrom 0
  end.

(** The return value and the descriptor closed. *)
Definition udp_client_destroy (skt_base : option socket_base_t) : Z * option Z :=
  match skt_base with
  | None => (-1, None)
  | Some s => (0, Some (fd s))
  end.

(** ** Properties *)

Lemma attempt_stop n call k : call k ≠ EAGAIN → attempt n call k = (call k, S k).
Proof. intros Hc. destruct n; cbn; by rewrite decide_True by congruence. Qed.

Lemma attempt_next n call k :
  call k = EAGAIN → attempt (S n) call k = attempt n call (S k).
Proof. intros Hc. cbn [attempt]. by rewrite decide_False by naive_solver. Qed.

Lemma attempt_again n call k :
  (∀ j, (k ≤ j)%nat → call j = EAGAIN) → attempt n call k = (EAGAIN, (S n + k)%nat).
Proof.
  revert k. induction n as [|n IH]; intros k Hc; cbn [attempt];
    rewrite decide_False by (rewrite Hc by lia; naive_solver).
  - by rewrite Hc by lia.
  - rewrite IH by (intros; apply Hc; lia). f_equal. lia.
Qed.

(** A [sendto] that accepts the whole datagram each time it is called. *)
Definition accepts (size : Z) : nat → Z := λ _, size.
(** A receive queue: the sizes of the datagrams, then blocking calls that fail. *)
Definition queue (sizes : list Z) : nat → Z := λ k, default (-1) (sizes !! k).

(** The retry test compares the result of the call, a length or -1, with
    [EAGAIN]: a datagram of 11 bytes that is accepted at once is transmitted
    four times and any other exactly once; a call that fails is not retried,
    although the next one would succeed; and a received datagram of 11 bytes is
    discarded in favour of the next one. *)
Lemma udp_retry_inverted (s : socket_base_t) (size : Z) (later : nat → Z) (rest : list Z) :
  udp_client_send (Some s) (accepts size) =
    (size, if decide (size = EAGAIN) then 4%nat else 1%nat) ∧
  udp_client_send (Some s) (λ k, if decide (k = 0)%nat then -1 else later k) = (-1, 1%nat) ∧
  (size ≠ EAGAIN → udp_client_recv (Some s) (queue (EAGAIN :: size :: rest)) = (size, 2%nat)).
Proof.
  unfold udp_client_send, udp_client_recv. split_and!.
  - case_decide as Hs.
    + subst. by rewrite attempt_again by done.
    + by rewrite attempt_stop by done.
  - by rewrite attempt_stop by done.
  - intros Hs. rewrite attempt_next by done. by rewrite attempt_stop.
Qed.

Lemma udp_retry_inverted_witness :
  udp_client_recv (Some (SocketBase 3 AF_INET 0 0)) (queue [11; 32]) = (32, 2%nat).
Proof.
  apply (udp_retry_inverted (SocketBase 3 AF_INET 0 0) 32 (λ _, 0) []). done.
Defined.
