(* ===== verification/Sniffer.v ===== *)
(** * Sniffer: the packet dispatcher of socket/sniffer_framework.c

    A sniffer keeps its filters in a kernel list (klist.h, file KList); the
    embedded list entry is the first member of a filter, so a filter and its
    entry have the same address.  Filters are pairs of functions: [match] on the
    received bytes, [action] on the bytes and the state [W] of the program.
    Frames come from [recvfrom], whose answer is an argument. *)

From S2P Require Import Prelude KList PthreadModel.

Section sniffer.
Context {W : Type}.

Record sniffer_filter_t := SnifferFilter {
  match_ : list Z → Z → res Z;
  action : list Z → Z → W → res W;
}.

(** Null pointers are 0; [filter_head] is the address of the list head. *)
Record sinffer_t := Sinffer {
  sockfd : Z;
  buffer : Z;
  buf_size : Z;
  model_dynamic : option pthread_model_t;
  filter_head : Z;
  is_debug : Z;
}.

Definition MAX_ETH_FRAME : Z := 1536.

(** [malloc_ret] and [socket_ret] are the answers of the system. *)
Definition sniffer_init (h : heap) (snf : sinffer_t) (malloc_ret socket_ret debug : Z)
    : res (Z * heap * sinffer_t) :=
  let snf := Sinffer (sockfd snf) malloc_ret MAX_ETH_FRAME (model_dynamic snf)
               (filter_head snf) (is_debug snf) in
  if decide (malloc_ret = 0) then mret (-1, h, snf)
  else
    let snf := Sinffer socket_ret (buffer snf) (buf_size snf) (model_dynamic snf)
                 (filter_head snf) (is_debug snf) in
    if decide (socket_ret < 0) then mret (-1, h, snf)
    else
      h ← Klist.INIT_LIST_HEAD h (filter_head snf);
      mret (0, h, Sinffer (sockfd snf) (buffer snf) (buf_size snf) None (filter_head snf) debug).

Definition register_sniffer (h : heap) (snf : sinffer_t) (filter : Z) : res (Z * heap) :=
  h ← Klist.list_add h filter (filter_head snf); mret (0, h).

(** The routine of the worker is [sniffer_model], written [routine]. *)
Definition sniffer_start (malloc_ok : bool) (attr_ret create_ret routine : Z) (self : Z)
    (snf : sinffer_t) : res (Z * sinffer_t) :=
  let m := pthread_model_create malloc_ok attr_ret (Some routine) self in
  r ← pthread_model_start create_ret m;
  let '(_, m, _) := r in
  mret (0, Sinffer (sockfd snf) (buffer snf) (buf_size snf) (Some m) (filter_head snf) (is_debug snf)).

(** The return value, the object, and what was released: buffer and descriptor. *)
Definition sniffer_destroy (snf : sinffer_t) : res (Z * sinffer_t * list Z * Z) :=
  r ← pthread_model_destory (model_dynamic snf);
  let freed := if decide (buffer snf ≠ 0) then [buffer snf] else [] in
  mret (0, Sinffer (sockfd snf) (buffer snf) (buf_size snf) r.2 (filter_head snf) (is_debug snf),
        freed, sockfd snf).

(** The bytes printed in debug mode. *)
Definition show_eth_data (frame : list Z) (size : Z) : res (list Z) :=
  for_up (Z.to_nat size) 0 (λ i o, b ← arr_get frame i; mret (o ++ [b])) [].

(** One call of the worker's routine: [frame] is the receive buffer after
    [recvfrom], which returned [data_size]; [filters] are the filter objects.
    Also yields the bytes printed in debug mode. *)
Definition sniffer_model (fuel : nat) (filters : gmap Z sniffer_filter_t) (h : heap)
    (snf : sinffer_t) (frame : list Z) (data_size : Z) (w : W) : res (W * list Z) :=
  if decide (data_size < 0) then mret (w, [])
  else
    shown ← (if decide (is_debug snf ≠ 0) then show_eth_data frame data_size else mret []);
    r ← Klist.list_for_each fuel
          (λ pos h w,
             f ← or_ub BadPtr (filters !! pos);
             m ← match_ f frame data_size;
             if decide (m = 0) then mret (h, w)
             else w ← action f frame data_size w; mret (h, w))
          (filter_head snf) h w;
    mret (r.2, shown).

(** ** Properties *)

(** Registering one filter after the other. *)
Fixpoint register_all (h : heap) (snf : sinffer_t) (fs : list Z) : res heap :=
  match fs with
  | [] => mret h
  | f :: fs => r ← register_sniffer h snf f; register_all r.2 snf fs
  end.

Lemma register_all_spec h snf fs xs :
  dlist h (filter_head snf) xs → (∀ f, f ∈ fs → valid h f) → NoDup fs →
  (∀ f, f ∈ fs → (f ∉ filter_head snf :: xs)) →
  ∃ h', register_all h snf fs = Ok h' ∧ dlist h' (filter_head snf) (reverse fs ++ xs).
Proof.
  revert h xs. induction fs as [|f fs IH]; intros h xs Hd Hv Hnd Hni; [by exists h|].
  apply NoDup_cons in Hnd as [Hf Hnd]. cbn [register_all]. unfold register_sniffer.
  destruct (list_add_run h (filter_head snf) xs f Hd) as (h1 & -> & Hd1 & Hf1);
    [apply Hv; by left|apply Hni; by left|].
  change (mret ?z ≫= ?k) with (k z). rewrite !bind_Ok. cbn [snd].
  destruct (IH h1 (f :: xs) Hd1) as (h2 & -> & Hd2); [| done| |].
  - intros g Hg. eapply frame_valid; [exact Hf1|]. apply Hv. by right.
  - intros g Hg. specialize (Hni g ltac:(by right)). rewrite !not_elem_of_cons in *.
    split_and!; [naive_solver| |naive_solver]. by intros ->.
  - exists h2. split; [done|]. by rewrite reverse_cons, <-app_assoc.
Qed.

Section dispatch.
(** The filter objects, the answer of each filter to the frame at hand and the
    effect of its action. *)
Context (filters : gmap Z sniffer_filter_t) (frame : list Z) (size : Z).
Context (verdict : Z → Z) (effect : Z → W → W).

Definition behaves (x : Z) : Prop :=
  ∃ f, filters !! x = Some f ∧ match_ f frame size = Ok (verdict x) ∧
       ∀ w, action f frame size w = Ok (effect x w).

(** What the program should do with the frame: run the action of each filter
    that matches. *)
Definition deliver (w : W) (x : Z) : W := if decide (verdict x = 0) then w else effect x w.

(** A frame walks the whole ring of filters. *)
Lemma sniffer_model_dispatch (fuel : nat) (h : heap) (snf : sinffer_t) (fs : list Z) (w : W) :
  dlist h (filter_head snf) fs → is_debug snf = 0 → (∀ f, f ∈ fs → behaves f) →
  (length fs < fuel)%nat → 0 ≤ size →
  sniffer_model fuel filters h snf frame size w = Ok (foldl deliver w fs, []).
Proof.
  intros Hd Hdb Hf Hfuel Hsz. unfold sniffer_model. rewrite decide_False by lia.
  rewrite (decide_False (P := is_debug snf ≠ 0)) by naive_solver.
  change (mret ?z ≫= ?k) with (k z). cbv beta. unfold Klist.list_for_each.
  rewrite (ld_next_head _ _ _ Hd), bind_Ok.
  rewrite (for_each_from_run deliver h _ [] fs); [done| |done|done].
  intros x h' w' Hx. destruct (Hf x Hx) as (f & -> & Hm & Ha). cbn [or_ub].
  rewrite bind_Ok, Hm, bind_Ok. unfold deliver. case_decide; [done|]. by rewrite Ha.
Qed.

(** C26: dispatching: after a successful [sniffer_init] and the registration of
    any filters, a frame is offered to every filter exactly once, the one
    registered last first, and exactly the actions of the filters that match
    run, in that order; a failed [recvfrom] runs none. *)
Theorem sniffer_delivers (fuel : nat) (h : heap) (snf0 : sinffer_t) (buf sock : Z) (fs : list Z)
    (w : W) :
  buf ≠ 0 → 0 ≤ sock → valid h (filter_head snf0) →
  (∀ f, f ∈ fs → valid h f ∧ f ≠ filter_head snf0 ∧ behaves f) → NoDup fs →
  (length fs < fuel)%nat →
  ∃ h1 snf h2, sniffer_init h snf0 buf sock 0 = Ok (0, h1, snf) ∧
    register_all h1 snf fs = Ok h2 ∧
    (0 ≤ size →
       sniffer_model fuel filters h2 snf frame size w = Ok (foldl deliver w (reverse fs), [])) ∧
    (size < 0 → sniffer_model fuel filters h2 snf frame size w = Ok (w, [])).
Proof.
  intros Hb Hs Hv Hf Hnd Hfuel. unfold sniffer_init. cbn [sockfd buffer buf_size filter_head].
  destruct (init_run h (filter_head snf0) Hv) as (h1 & Hi & Hd1 & Hf1).
  rewrite decide_False by done. rewrite decide_False by lia. rewrite Hi.
  set (snf := Sinffer sock buf MAX_ETH_FRAME None (filter_head snf0) 0).
  destruct (register_all_spec h1 snf fs []) as (h2 & Hr & Hd2); [done| |done| |].
  { intros f Hin. eapply frame_valid; [exact Hf1|]. by apply Hf. }
  { intros f Hin [E|?%not_elem_of_nil]%elem_of_cons; [|done]. by apply (Hf f Hin). }
  rewrite app_nil_r in Hd2. exists h1, snf, h2. split; [done|]. split; [done|]. split; intros Hsz.
  - apply sniffer_model_dispatch; [done|done| |by rewrite length_reverse|done].
    intros x Hx. rewrite elem_of_reverse in Hx. by destruct (Hf x Hx) as (_ & _ & ?).
  - unfold sniffer_model. by rewrite decide_True by lia.
Qed.

End dispatch.
End sniffer.

(** Three filters on a counter: the second one never matches. *)
Definition demo_filter (v d : Z) : sniffer_filter_t (W := list Z) :=
  SnifferFilter (λ _ _, Ok v) (λ _ _ w, Ok (w ++ [d])).
Definition demo_filters : gmap Z (sniffer_filter_t (W := list Z)) :=
  {[16 := demo_filter 1 16; 24 := demo_filter 0 24; 48 := demo_filter 1 48]}.

Lemma sniffer_delivers_witness :
  ∃ h1 snf h2, sniffer_init demo (Sinffer 0 0 0 None 8 0) 4096 3 0 = Ok (0, h1, snf) ∧
    register_all h1 snf [16; 24; 48] = Ok h2 ∧
    sniffer_model 4 demo_filters h2 snf [1; 2] 2 [] = Ok ([48; 16], []).
Proof.
  destruct (sniffer_delivers demo_filters [1; 2] 2 (λ x, if decide (x = 24) then 0 else 1)
    (λ x w, w ++ [x]) 4 demo (Sinffer 0 0 0 None 8 0) 4096 3 [16; 24; 48] [])
    as (h1 & snf & h2 & Hi & Hr & Hd & _).
  - done.
  - lia.
  - valid_compute.
  - intros f Hf. repeat (apply elem_of_cons in Hf as [->|Hf]).
    + split; [valid_compute|split; [done|by eexists]].
    + split; [valid_compute|split; [done|by eexists]].
    + split; [valid_compute|split; [done|by eexists]].
    + by apply not_elem_of_nil in Hf.
  - by apply (bool_decide_unpack (NoDup [16; 24; 48])).
  - simpl. lia.
  - exists h1, snf, h2. split; [exact Hi|]. split; [exact Hr|]. apply Hd. lia.
Defined.
