(* ===== verification/Gpio.v ===== *)
(** * Gpio: pins through sysfs, linux/gpio/gpio_base.c and gpio_ctrl.c

    The functions open a file below /sys/class/gpio, write or read a word and
    close it.  The kernel is the class [GpioFs]: file operations on a state [F]
    and the documented effect of the words on a pin (a pin whose edge detection
    is on cannot become an output).  Not every pin has all attribute files: the
    direction of some is fixed, and not all can raise interrupts.  File names are the constructors of [file],
    which carry what the format strings print; 64 bytes hold any of them. *)

From S2P Require Import Prelude.
From stdpp Require Import pretty.
#[local] Open Scope Z_scope.

Definition GPIO_BASE_RET_OK : Z := 1.
Definition GPIO_BASE_RET_FAIL : Z := -1.

Inductive gpio_direction_e := GPIO_DIR_INPUT | GPIO_DIR_OUTPUT | GPIO_DIR_BUTT.
#[global] Instance gpio_direction_eq_dec : EqDecision gpio_direction_e.
Proof. solve_decision. Defined.

Inductive gpio_edge_e :=
  | GPIO_EDGE_NONE | GPIO_EDGE_RISING | GPIO_EDGE_FALLING | GPIO_EDGE_BOTH | GPIO_EDGE_BUTT.
#[global] Instance gpio_edge_eq_dec : EqDecision gpio_edge_e.
Proof. solve_decision. Defined.

(** Files below [GPIO_BASE_DIR]. *)
Inductive attr := Direction | Edge | Value.
Inductive file := Export | Unexport | Attr (ngpio : Z) (a : attr).

(** A pin as the kernel sees it; [level] is what the value file reports. *)
Record pin := Pin { dir : gpio_direction_e; edge : gpio_edge_e; level : bool }.

Definition dir_word (d : gpio_direction_e) : string :=
  match d with GPIO_DIR_INPUT => "in" | GPIO_DIR_OUTPUT => "out" | GPIO_DIR_BUTT => "" end.
Definition edge_word (e : gpio_edge_e) : string :=
  match e with
  | GPIO_EDGE_NONE => "none" | GPIO_EDGE_RISING => "rising" | GPIO_EDGE_FALLING => "falling"
  | GPIO_EDGE_BOTH => "both" | GPIO_EDGE_BUTT => ""
  end.

Definition newline : string := String (Ascii.ascii_of_nat 10) EmptyString.
Definition level_word (b : bool) : string := if b then "1" else "0".

(** What the sysfs interface of the kernel promises. *)
Class GpioFs (F : Type) := {
  fs_open : F → file → bool;
  fs_write : F → file → string → F;
  fs_read : F → file → string;
  fs_access : F → Z → Z → Z;
  pins : F → Z → option pin;
  can_export : F → Z → Prop;
  (** Which attribute files the directory of a pin has: [direction] only when the
      direction can be changed, [edge] only when the pin can raise interrupts.  The
      process is allowed to open the files that exist. *)
  has : Z → attr → bool;
  has_value : ∀ n, has n Value = true;
  fs_attr_open : ∀ f n a p, pins f n = Some p → fs_open f (Attr n a) = has n a;
  fs_attr_closed : ∀ f n a, pins f n = None → fs_open f (Attr n a) = false;
  fs_ctl_open : ∀ f, fs_open f Export = true ∧ fs_open f Unexport = true;
  (** [access(path, mode)]: bits outside [R_OK | W_OK | X_OK] are an error,
      [F_OK] tests for existence. *)
  fs_access_bad : ∀ f n mode, Z.ldiff mode 7 ≠ 0 → fs_access f n mode = -1;
  fs_access_f_ok : ∀ f n, fs_access f n 0 = if decide (pins f n = None) then -1 else 0;
  fs_export : ∀ f n, pins f n = None → can_export f n →
    ∃ p, pins (fs_write f Export (pretty n)) n = Some p ∧
         dir p ≠ GPIO_DIR_BUTT ∧ edge p ≠ GPIO_EDGE_BUTT;
  (** Exporting a pin twice is refused. *)
  fs_export_again : ∀ f n p, pins f n = Some p → pins (fs_write f Export (pretty n)) n = Some p;
  fs_no_edge : ∀ f n p, pins f n = Some p → has n Edge = false → edge p = GPIO_EDGE_NONE;
  (** Only [unexport] takes a pin away. *)
  fs_keeps : ∀ f n p a w, pins f n = Some p → is_Some (pins (fs_write f (Attr n a) w) n);
  fs_set_out : ∀ f n p, pins f n = Some p → has n Direction = true → edge p = GPIO_EDGE_NONE →
    pins (fs_write f (Attr n Direction) "out") n = Some (Pin GPIO_DIR_OUTPUT GPIO_EDGE_NONE false);
  fs_set_in : ∀ f n p, pins f n = Some p → has n Direction = true →
    ∃ b, pins (fs_write f (Attr n Direction) "in") n = Some (Pin GPIO_DIR_INPUT (edge p) b);
  fs_set_edge : ∀ f n p e, pins f n = Some p → has n Edge = true → dir p = GPIO_DIR_INPUT → e ≠ GPIO_EDGE_BUTT →
    pins (fs_write f (Attr n Edge) (edge_word e)) n = Some (Pin GPIO_DIR_INPUT e (level p));
  fs_set_value : ∀ f n p v, pins f n = Some p → dir p = GPIO_DIR_OUTPUT →
    pins (fs_write f (Attr n Value) (pretty v)) n =
      Some (Pin GPIO_DIR_OUTPUT (edge p) (bool_decide (v ≠ 0)));
  (** The level of an input cannot be set. *)
  fs_value_input : ∀ f n p (v : Z), pins f n = Some p → dir p = GPIO_DIR_INPUT →
    pins (fs_write f (Attr n Value) (pretty v)) n = Some p;
  fs_read_dir : ∀ f n p, pins f n = Some p → has n Direction = true →
    fs_read f (Attr n Direction) = (dir_word (dir p) +:+ newline);
  fs_read_edge : ∀ f n p, pins f n = Some p → has n Edge = true →
    fs_read f (Attr n Edge) = (edge_word (edge p) +:+ newline);
  fs_read_value : ∀ f n p, pins f n = Some p →
    fs_read f (Attr n Value) = (level_word (level p) +:+ newline);
}.

(** [strncmp(s, w, n) == 0]; [n] is converted to [size_t], and comparing stops
    at the terminating NUL. *)
Definition nul_terminated (s : string) : list Ascii.ascii :=
  String.list_ascii_of_string s ++ [Ascii.zero].
Definition strncmp_eq (s w : string) (n : Z) : bool :=
  let m := Z.to_nat (Z.min (u64 n) (1 + Z.of_nat (Nat.max (String.length s) (String.length w)))) in
  bool_decide (take m (nul_terminated s) = take m (nul_terminated w)).

(** [sscanf(str, "%d", &value)] on unsigned decimal text: [value] keeps its old
    contents when there is no digit. *)
Fixpoint scan_digits (acc : option Z) (s : list Ascii.ascii) : option Z :=
  match s with
  | [] => acc
  | c :: s =>
      let d := Z.of_nat (Ascii.nat_of_ascii c) - 48 in
      if decide (0 ≤ d ≤ 9) then scan_digits (Some (10 * default 0 acc + d)) s else acc
  end.
Definition sscanf_d (s : string) (value : Z) : Z :=
  default value (scan_digits None (String.list_ascii_of_string s)).

Section gpio.
Context {F : Type} `{!GpioFs F}.

(** ** gpio_base.c *)

Definition gpio_base_export (f : F) (ngpio : Z) : Z * F :=
  if fs_open f Export then (GPIO_BASE_RET_OK, fs_write f Export (pretty ngpio))
  else (GPIO_BASE_RET_FAIL, f).

Definition gpio_base_unexport (f : F) (ngpio : Z) : Z * F :=
  if fs_open f Unexport then (GPIO_BASE_RET_OK, fs_write f Unexport (pretty ngpio))
  else (GPIO_BASE_RET_FAIL, f).

(** [access(str, 0666)] *)
Definition gpio_base_is_exist (f : F) (ngpio : Z) : Z :=
  if decide (0 = fs_access f ngpio 438) then 1 else 0.

Definition gpio_base_set_direction (f : F) (ngpio : Z) (d : gpio_direction_e) : Z * F :=
  if decide (d = GPIO_DIR_BUTT) then (GPIO_BASE_RET_FAIL, f)
  else if fs_open f (Attr ngpio Direction) then
    (GPIO_BASE_RET_OK, fs_write f (Attr ngpio Direction) (dir_word d))
  else (GPIO_BASE_RET_FAIL, f).

Definition gpio_base_get_direction (f : F) (ngpio : Z) : gpio_direction_e :=
  if fs_open f (Attr ngpio Direction) then
    let str := fs_read f (Attr ngpio Direction) in
    let len := Z.of_nat (String.length str) in
    if strncmp_eq str "in" (len - 1) then GPIO_DIR_INPUT
    else if strncmp_eq str "out" (len - 1) then GPIO_DIR_OUTPUT
    else GPIO_DIR_BUTT
  else GPIO_DIR_BUTT.

Definition gpio_base_set_edge (f : F) (ngpio : Z) (e : gpio_edge_e) : Z * F :=
  if decide (e = GPIO_EDGE_BUTT) then (GPIO_BASE_RET_FAIL, f)
  else if fs_open f (Attr ngpio Edge) then
    (GPIO_BASE_RET_OK, fs_write f (Attr ngpio Edge) (edge_word e))
  else (GPIO_BASE_RET_FAIL, f).

(** On a failed [open] the function returns [GPIO_BASE_RET_FAIL], which is no
    enumerator ([None]). *)
Definition gpio_base_get_edge (f : F) (ngpio : Z) : option gpio_edge_e :=
  if fs_open f (Attr ngpio Edge) then
    let str := fs_read f (Attr ngpio Edge) in
    let len := Z.of_nat (String.length str) in
    Some (if strncmp_eq str "none" (len - 1) then GPIO_EDGE_NONE
          else if strncmp_eq str "rising" (len - 1) then GPIO_EDGE_RISING
          else if strncmp_eq str "falling" (len - 1) then GPIO_EDGE_FALLING
          else if strncmp_eq str "both" (len - 1) then GPIO_EDGE_BOTH
          else GPIO_EDGE_BUTT)
  else None.

Definition gpio_base_set_value (f : F) (ngpio value : Z) : Z * F :=
  if fs_open f (Attr ngpio Value) then
    (GPIO_BASE_RET_OK, fs_write f (Attr ngpio Value) (pretty value))
  else (GPIO_BASE_RET_FAIL, f).

Definition gpio_base_get_value (f : F) (ngpio : Z) : Z :=
  if fs_open f (Attr ngpio Value) then sscanf_d (fs_read f (Attr ngpio Value)) 0
  else GPIO_BASE_RET_FAIL.

(** The descriptor [open] answers, and [close]. *)
Definition gpio_base_open (fd : Z) : Z := fd.
Definition gpio_base_close (fd : Z) : Z :=
  if decide (fd < 0) then GPIO_BASE_RET_FAIL else GPIO_BASE_RET_OK.

(** ** gpio_ctrl.c *)

Definition ensure_exported (f : F) (ngpio : Z) : F :=
  if decide (gpio_base_is_exist f ngpio = 0) then (gpio_base_export f ngpio).2 else f.

Definition gpio_ctrl_set_value (f : F) (ngpio value : Z) : Z * F :=
  let f := ensure_exported f ngpio in
  let f :=
    if decide (GPIO_DIR_INPUT = gpio_base_get_direction f ngpio) then
      let f := if decide (Some GPIO_EDGE_NONE ≠ gpio_base_get_edge f ngpio)
               then (gpio_base_set_edge f ngpio GPIO_EDGE_NONE).2 else f in
      (gpio_base_set_direction f ngpio GPIO_DIR_OUTPUT).2
    else f in
  let f := (gpio_base_set_value f ngpio value).2 in
  (0, f).

Definition gpio_ctrl_get_value (f : F) (ngpio : Z) : Z * F :=
  let f := ensure_exported f ngpio in
  (gpio_base_get_value f ngpio, f).

Definition gpio_ctrl_set_edge (f : F) (ngpio : Z) (e : gpio_edge_e) : Z * F :=
  let f := ensure_exported f ngpio in
  let f := if decide (GPIO_DIR_OUTPUT = gpio_base_get_direction f ngpio)
           then (gpio_base_set_direction f ngpio GPIO_DIR_INPUT).2 else f in
  let f := (gpio_base_set_edge f ngpio e).2 in
  (0, f).

(** ** Reading back what the kernel reports *)

Lemma get_direction_spec f n p :
  pins f n = Some p → dir p ≠ GPIO_DIR_BUTT →
  gpio_base_get_direction f n = if has n Direction then dir p else GPIO_DIR_BUTT.
Proof.
  intros Hp Hd. unfold gpio_base_get_direction. rewrite (fs_attr_open f n Direction p Hp).
  destruct (has n Direction) eqn:Hh; [|done]. rewrite (fs_read_dir f n p Hp Hh). by destruct (dir p).
Qed.

Lemma get_edge_spec f n p :
  pins f n = Some p → edge p ≠ GPIO_EDGE_BUTT →
  gpio_base_get_edge f n = if has n Edge then Some (edge p) else None.
Proof.
  intros Hp Hd. unfold gpio_base_get_edge. rewrite (fs_attr_open f n Edge p Hp).
  destruct (has n Edge) eqn:Hh; [|done]. rewrite (fs_read_edge f n p Hp Hh). by destruct (edge p).
Qed.

Lemma get_value_spec f n p :
  pins f n = Some p → gpio_base_get_value f n = if level p then 1 else 0.
Proof.
  intros Hp. unfold gpio_base_get_value.
  rewrite (fs_attr_open f n Value p Hp), has_value, (fs_read_value f n p Hp). by destruct (level p).
Qed.

Definition sane (p : pin) : Prop := dir p ≠ GPIO_DIR_BUTT ∧ edge p ≠ GPIO_EDGE_BUTT.

(** The pin is there, or the kernel lets it be exported. *)
Definition available (f : F) (n : Z) : Prop :=
  (∃ p, pins f n = Some p ∧ sane p) ∨ (pins f n = None ∧ can_export f n).

(** 0666 is no valid mode of [access], so no pin is ever found to exist. *)
Lemma is_exist_never f n : gpio_base_is_exist f n = 0.
Proof. unfold gpio_base_is_exist. by rewrite (fs_access_bad f n 438). Qed.

Lemma ensure_exported_spec f n :
  available f n → ∃ p, pins (ensure_exported f n) n = Some p ∧ sane p ∧
    (∀ q, pins f n = Some q → p = q).
Proof.
  intros Hav. unfold ensure_exported. rewrite is_exist_never, decide_True by done.
  unfold gpio_base_export. rewrite (proj1 (fs_ctl_open f)). cbn [snd].
  destruct Hav as [(p & Hp & Hs)|[Hn Hc]].
  - exists p. split; [by apply fs_export_again|]. split; [done|]. intros q Hq. congruence.
  - destruct (fs_export f n Hn Hc) as (p & Hp & Hd & He). exists p. split; [done|].
    split; [done|]. intros q Hq. congruence.
Qed.

(** Setting the edge detection of an input off, or as asked. *)
Lemma set_edge_spec f n p e :
  pins f n = Some p → dir p = GPIO_DIR_INPUT → e ≠ GPIO_EDGE_BUTT →
  ∃ q, pins (gpio_base_set_edge f n e).2 n = Some q ∧ dir q = GPIO_DIR_INPUT ∧
    edge q = if has n Edge then e else GPIO_EDGE_NONE.
Proof.
  intros Hp Hd He. unfold gpio_base_set_edge. rewrite decide_False, (fs_attr_open f n Edge p Hp) by done.
  destruct (has n Edge) eqn:Hh; cbn [snd].
  - rewrite (fs_set_edge f n p e Hp Hh Hd He). by eexists.
  - exists p. split; [done|]. split; [done|]. by apply (fs_no_edge f n).
Qed.

(** The middle part of [gpio_ctrl_set_value]: a pin whose direction can be changed
    becomes an output. *)
Lemma make_output f n p :
  pins f n = Some p → sane p →
  let f' :=
    if decide (GPIO_DIR_INPUT = gpio_base_get_direction f n) then
      let f := if decide (Some GPIO_EDGE_NONE ≠ gpio_base_get_edge f n)
               then (gpio_base_set_edge f n GPIO_EDGE_NONE).2 else f in
      (gpio_base_set_direction f n GPIO_DIR_OUTPUT).2
    else f in
  ∃ q, pins f' n = Some q ∧
    if has n Direction
    then dir q = GPIO_DIR_OUTPUT ∧ edge q = (if decide (dir p = GPIO_DIR_INPUT) then GPIO_EDGE_NONE else edge p)
    else q = p.
Proof.
  intros Hp [Hd He]. cbv zeta. rewrite (get_direction_spec f n p Hp Hd).
  destruct (has n Direction) eqn:Hh; [|rewrite decide_False by done; by exists p].
  destruct (dir p) eqn:Ed; [|rewrite decide_False by done; by exists p|done].
  rewrite (decide_True (P := GPIO_DIR_INPUT = GPIO_DIR_INPUT)) by done.
  set (f1 := if decide _ then _ else f).
  assert (H1 : ∃ q, pins f1 n = Some q ∧ edge q = GPIO_EDGE_NONE).
  { unfold f1. rewrite (get_edge_spec f n p Hp He). case_decide as Hc.
    - destruct (set_edge_spec f n p GPIO_EDGE_NONE Hp Ed ltac:(done)) as (q & Hq & _ & Hqe). exists q.
      split; [done|]. by destruct (has n Edge).
    - exists p. destruct (has n Edge); [|naive_solver]. naive_solver. }
  destruct H1 as (q & Hq & Hqe). unfold gpio_base_set_direction.
  rewrite decide_False, (fs_attr_open f1 n Direction q Hq), Hh by done. cbn [snd dir_word].
  eexists. rewrite (fs_set_out f1 n q Hq Hh Hqe). done.
Qed.

(** Making a pin an input. *)
Lemma set_in_spec f n p :
  pins f n = Some p →
  ∃ q, pins (gpio_base_set_direction f n GPIO_DIR_INPUT).2 n = Some q ∧ edge q = edge p ∧
    if has n Direction then dir q = GPIO_DIR_INPUT else q = p.
Proof.
  intros Hp. unfold gpio_base_set_direction. rewrite decide_False, (fs_attr_open f n Direction p Hp) by done.
  destruct (has n Direction) eqn:Hh; cbn [snd dir_word]; [|by exists p].
  destruct (fs_set_in f n p Hp Hh) as [b ->]. by eexists.
Qed.

(** The edge detection after the direction was set, or could not be. *)
Lemma set_edge_after f n p e :
  pins f n = Some p → e ≠ GPIO_EDGE_BUTT → (has n Direction = true → dir p = GPIO_DIR_INPUT) →
  (has n Edge = true → has n Direction = true) →
  ∃ q, pins (gpio_base_set_edge f n e).2 n = Some q ∧ dir q = dir p ∧
    edge q = if has n Edge then e else GPIO_EDGE_NONE.
Proof.
  intros Hp He Hd Hboth. destruct (has n Edge) eqn:Hh.
  - destruct (set_edge_spec f n p e Hp (Hd (Hboth eq_refl)) He) as (q & Hq & Hqd & Hqe). rewrite Hh in Hqe.
    exists q. rewrite Hqd, Hd by auto. done.
  - unfold gpio_base_set_edge. rewrite decide_False, (fs_attr_open f n Edge p Hp), Hh by done. cbn [snd].
    exists p. split; [done|]. split; [done|]. by apply (fs_no_edge f n).
Qed.

(** C24: driving a pin that is exported or can be, in whatever direction and with
    whatever edge detection it was left.  The control functions return 0 whatever
    happens; what they do depends on the attribute files of the pin.  With a
    direction file [gpio_ctrl_set_value] leaves the pin an output at the asked
    level (edge detection off if it was an input), and [gpio_ctrl_get_value] then
    reads that level back; without one an input stays as it is.  With direction and
    edge files [gpio_ctrl_set_edge] leaves the pin an input with exactly the asked
    edge detection, which [gpio_base_get_edge] reads back; without an edge file the
    edge detection stays off.  None of this depends on [gpio_base_is_exist], which
    denies the existence of every pin: the pin is exported again each time, to no
    effect. *)
Theorem gpio_ctrl_roundtrip (f : F) (n v : Z) (e : gpio_edge_e) :
  available f n → e ≠ GPIO_EDGE_BUTT →
  let (r1, f1) := gpio_ctrl_set_value f n v in
  let (r2, f2) := gpio_ctrl_set_edge f n e in
  r1 = 0 ∧ r2 = 0 ∧
  (has n Direction = true →
     (∃ p, pins f1 n = Some p ∧ dir p = GPIO_DIR_OUTPUT ∧ level p = bool_decide (v ≠ 0) ∧
        (∀ q, pins f n = Some q → dir q = GPIO_DIR_INPUT → edge p = GPIO_EDGE_NONE)) ∧
     (gpio_ctrl_get_value f1 n).1 = (if decide (v = 0) then 0 else 1)) ∧
  (has n Direction = false → ∀ p, pins f n = Some p → dir p = GPIO_DIR_INPUT → pins f1 n = Some p) ∧
  (has n Direction = true → has n Edge = true →
     (∃ p, pins f2 n = Some p ∧ dir p = GPIO_DIR_INPUT ∧ edge p = e) ∧
     gpio_base_get_edge f2 n = Some e) ∧
  (has n Edge = false →
     (∃ p, pins f2 n = Some p ∧ edge p = GPIO_EDGE_NONE) ∧ gpio_base_get_edge f2 n = None) ∧
  gpio_base_is_exist f1 n = 0.
Proof.
  intros Hav He. destruct (ensure_exported_spec f n Hav) as (p & Hp & Hs & Hsame).
  unfold gpio_ctrl_set_value, gpio_ctrl_set_edge. cbv zeta. set (f0 := ensure_exported f n) in *.
  destruct (make_output f0 n p Hp Hs) as (q & Hq & Hqd). cbv zeta in Hq.
  match type of Hq with pins ?x n = _ => set (fo := x) in * end.
  unfold gpio_base_set_value. rewrite (fs_attr_open fo n Value q Hq), has_value. cbn [snd].
  set (f1 := fs_write fo (Attr n Value) (pretty v)) in *.
  assert (Hin : ∃ p2, pins (if decide (GPIO_DIR_OUTPUT = gpio_base_get_direction f0 n)
      then (gpio_base_set_direction f0 n GPIO_DIR_INPUT).2 else f0) n = Some p2 ∧
      (has n Direction = true → dir p2 = GPIO_DIR_INPUT)).
  { rewrite (get_direction_spec f0 n p Hp (proj1 Hs)).
    destruct (set_in_spec f0 n p Hp) as (q2 & Hq2 & _ & Hd2).
    destruct (has n Direction); [|rewrite decide_False by done; by exists p].
    destruct (decide (GPIO_DIR_OUTPUT = dir p)) as [Hd|Hd]; [by exists q2|].
    exists p. split; [done|]. destruct Hs as [Hsd _]. by destruct (dir p). }
  destruct Hin as (p2 & Hp2 & Hd2).
  match type of Hp2 with pins ?x n = _ => set (fi := x) in * end.
  split_and!; [done|done|..].
  - intros Hh. rewrite Hh in Hqd. destruct Hqd as [Hqd Hqe].
    pose proof (fs_set_value fo n q v Hq Hqd) as Hv. fold f1 in Hv. split.
    + eexists. split; [exact Hv|]. split_and!; try done. cbn. intros q0 Hq0 Hin0.
      rewrite Hqe. rewrite decide_True; [done|]. by rewrite (Hsame q0 Hq0).
    + unfold gpio_ctrl_get_value, ensure_exported. cbn [fst].
      rewrite is_exist_never, decide_True by done. unfold gpio_base_export.
      rewrite (proj1 (fs_ctl_open f1)). cbn [snd].
      rewrite (get_value_spec _ n _ (fs_export_again f1 n _ Hv)). cbn.
      destruct (decide (v = 0)) as [E|E]; [rewrite bool_decide_false by naive_solver|
        rewrite bool_decide_true by done]; done.
  - intros Hh p0 Hp0 Hd0. rewrite Hh in Hqd. rewrite <-(Hsame p0 Hp0) in *. subst q.
    exact (fs_value_input fo n p v Hq Hd0).
  - intros Hh Hh'. destruct (set_edge_after fi n p2 e Hp2 He Hd2 ltac:(auto)) as (q2 & Hq2 & Hqd2 & Hqe2).
    rewrite Hh' in Hqe2. split; [exists q2; rewrite Hqd2; auto|].
    by rewrite (get_edge_spec _ n _ Hq2), Hh', Hqe2 by (by rewrite Hqe2).
  - intros Hh. destruct (set_edge_after fi n p2 e Hp2 He Hd2 ltac:(congruence)) as (q2 & Hq2 & _ & Hqe2).
    rewrite Hh in Hqe2. split; [by exists q2|]. by rewrite (get_edge_spec _ n _ Hq2), Hh by (by rewrite Hqe2).
  - apply is_exist_never.
Qed.

End gpio.

(** ** A kernel with three pins *)

(** Pin 17 has all files, pin 18 cannot raise interrupts, the direction of pin 19 is
    fixed. *)
Definition sim_has (n : Z) (a : attr) : bool :=
  match a with Direction => bool_decide (n ≠ 19) | Edge => bool_decide (n ≠ 18) | Value => true end.

Definition sim_view (n : Z) (p : pin) : pin :=
  if sim_has n Edge then p else Pin (dir p) GPIO_EDGE_NONE (level p).

Definition sim_pins (f : gmap Z pin) (n : Z) : option pin :=
  if decide (n ∈ [17; 18; 19]) then sim_view n <$> f !! n else None.

Definition sim_edge (s : string) : gpio_edge_e :=
  if decide (s = "none"%string) then GPIO_EDGE_NONE
  else if decide (s = "rising"%string) then GPIO_EDGE_RISING
  else if decide (s = "falling"%string) then GPIO_EDGE_FALLING
  else GPIO_EDGE_BOTH.

Definition sim_pin_write (p : pin) (a : attr) (s : string) : pin :=
  match a with
  | Direction =>
      if decide (s = "in"%string) then Pin GPIO_DIR_INPUT (edge p) false
      else if decide (edge p = GPIO_EDGE_NONE) then Pin GPIO_DIR_OUTPUT GPIO_EDGE_NONE false
      else p
  | Edge => if decide (dir p = GPIO_DIR_INPUT) then Pin (dir p) (sim_edge s) (level p) else p
  | Value =>
      if decide (dir p = GPIO_DIR_OUTPUT) then Pin (dir p) (edge p) (bool_decide (s ≠ pretty 0)) else p
  end.

(** The pin a text written to the export file names. *)
Definition sim_number (s : string) : option Z :=
  find (λ n, bool_decide (s = pretty n)) [17; 18; 19].

Definition sim_write (f : gmap Z pin) (x : file) (s : string) : gmap Z pin :=
  match x with
  | Export =>
      match sim_number s with
      | Some n => <[n := default (Pin GPIO_DIR_INPUT GPIO_EDGE_NONE false) (f !! n)]> f
      | None => f
      end
  | Unexport => match sim_number s with Some n => delete n f | None => f end
  | Attr n a => match sim_pins f n with Some p => <[n := sim_pin_write p a s]> f | None => f end
  end.

Definition sim_open (f : gmap Z pin) (x : file) : bool :=
  match x with Attr n a => bool_decide (is_Some (sim_pins f n)) && sim_has n a | _ => true end.

Definition sim_read (f : gmap Z pin) (x : file) : string :=
  match x with
  | Attr n a =>
      match sim_pins f n with
      | Some p => match a with
                  | Direction => dir_word (dir p) +:+ newline
                  | Edge => edge_word (edge p) +:+ newline
                  | Value => level_word (level p) +:+ newline
                  end
      | None => ""
      end
  | _ => ""
  end.

Lemma sim_pins_some f n p :
  sim_pins f n = Some p →
  n ∈ [17; 18; 19] ∧ (sim_has n Edge = false → edge p = GPIO_EDGE_NONE) ∧ ∃ q, f !! n = Some q ∧ p = sim_view n q.
Proof.
  unfold sim_pins. case_decide; [|done]. intros Hp. split; [done|].
  destruct (f !! n) as [q|]; [|done]. injection Hp as <-. split; [|eauto].
  intros Hh. unfold sim_view. by rewrite Hh.
Qed.

Lemma sim_pins_edge f n p :
  sim_pins f n = Some p → sim_has n Edge = false → edge p = GPIO_EDGE_NONE.
Proof. by intros (_ & ? & _)%sim_pins_some. Qed.

Lemma sim_write_attr f n p a s : sim_pins f n = Some p →
  sim_pins (sim_write f (Attr n a) s) n = Some (sim_view n (sim_pin_write p a s)).
Proof.
  intros Hp. destruct (sim_pins_some f n p Hp) as (Hn & _). cbn [sim_write]. rewrite Hp.
  unfold sim_pins. by rewrite decide_True, lookup_insert_eq by done.
Qed.

Lemma sim_view_id n p : (sim_has n Edge = false → edge p = GPIO_EDGE_NONE) → sim_view n p = p.
Proof. unfold sim_view. destruct (sim_has n Edge); [done|]. intros He. destruct p. cbn in *. by rewrite He. Qed.

Lemma sim_number_pretty n : n ∈ [17; 18; 19] → sim_number (pretty n) = Some n.
Proof. intros Hn. repeat (apply elem_of_cons in Hn as [->|Hn]; [done|]). by apply elem_of_nil in Hn. Qed.

#[export] Instance sim_kernel : GpioFs (gmap Z pin).
Proof.
  refine {| fs_open := sim_open; fs_write := sim_write; fs_read := sim_read;
            fs_access := λ f n mode, if decide (Z.ldiff mode 7 ≠ 0) then -1
                                     else if decide (sim_pins f n = None) then -1 else 0;
            pins := sim_pins; can_export := λ _ n, n ∈ [17; 18; 19]; has := sim_has |}.
  - done.
  - intros f n a p Hp. cbn. by rewrite bool_decide_true by eauto.
  - intros f n a Hn. cbn. rewrite bool_decide_false; [done|]. rewrite Hn. by intros [? ?].
  - done.
  - intros f n mode Hm. by rewrite decide_True.
  - intros f n. by rewrite decide_False by naive_solver.
  - intros f n Hn Hr. cbn [sim_write]. rewrite (sim_number_pretty n Hr). unfold sim_pins in *.
    rewrite decide_True in Hn |- * by done. destruct (f !! n); [done|].
    rewrite lookup_insert_eq. eexists. split; [done|]. unfold sim_view. by destruct (sim_has n Edge).
  - intros f n p Hp. pose proof Hp as (Hr & _ & q & Hq & ->)%sim_pins_some. cbn [sim_write].
    rewrite (sim_number_pretty n Hr), Hq. cbn. by rewrite insert_id.
  - exact sim_pins_edge.
  - intros f n p a w Hp. rewrite (sim_write_attr f n p) by done. by eexists.
  - intros f n p Hp _ He. rewrite (sim_write_attr f n p) by done. cbn [sim_pin_write].
    rewrite decide_False, decide_True by done. by rewrite sim_view_id.
  - intros f n p Hp _. rewrite (sim_write_attr f n p) by done. cbn [sim_pin_write].
    rewrite decide_True by done. eexists. rewrite sim_view_id; [done|]. by apply (sim_pins_edge f n p).
  - intros f n p e Hp Hh Hd He. rewrite (sim_write_attr f n p) by done. cbn [sim_pin_write].
    rewrite decide_True, Hd, sim_view_id by (done || congruence). by destruct e.
  - intros f n p v Hp Hd. rewrite (sim_write_attr f n p) by done. cbn [sim_pin_write].
    rewrite decide_True, Hd by done. rewrite sim_view_id by (by apply (sim_pins_edge f n p)).
    do 2 f_equal. apply bool_decide_ext. split; intros Hv E; apply Hv; [by subst|by apply (inj pretty)].
  - intros f n p v Hp Hd. rewrite (sim_write_attr f n p) by done. cbn [sim_pin_write].
    rewrite decide_False by congruence. rewrite sim_view_id; [done|]. by apply (sim_pins_edge f n p).
  - intros f n p Hp _. cbn. by rewrite Hp.
  - intros f n p Hp _. cbn. by rewrite Hp.
  - intros f n p Hp. cbn. by rewrite Hp.
Defined.

(** A pin that was an interrupt input, and one that cannot raise interrupts. *)
Lemma gpio_ctrl_roundtrip_witness :
  let f : gmap Z pin := {[ 17 := Pin GPIO_DIR_INPUT GPIO_EDGE_BOTH true; 18 := Pin GPIO_DIR_INPUT GPIO_EDGE_NONE true ]} in
  (let (r1, f1) := gpio_ctrl_set_value f 17 5 in r1 = 0 ∧ (gpio_ctrl_get_value f1 17).1 = 1) ∧
  (let (r2, f2) := gpio_ctrl_set_edge f 18 GPIO_EDGE_RISING in r2 = 0 ∧ gpio_base_get_edge f2 18 = None).
Proof.
  cbv zeta. set (f := {[ 17 := _; 18 := _ ]} : gmap Z pin). split.
  - pose proof (gpio_ctrl_roundtrip f 17 5 GPIO_EDGE_RISING) as H.
    destruct (gpio_ctrl_set_value f 17 5) as [r1 f1]. destruct (gpio_ctrl_set_edge f 17 GPIO_EDGE_RISING).
    destruct H as (H1 & _ & H4 & _); [left; by eexists|done|]. split; [exact H1|]. by apply H4.
  - pose proof (gpio_ctrl_roundtrip f 18 5 GPIO_EDGE_RISING) as H.
    destruct (gpio_ctrl_set_value f 18 5) as [r1 f1]. destruct (gpio_ctrl_set_edge f 18 GPIO_EDGE_RISING).
    destruct H as (_ & H2 & _ & _ & _ & H6 & _); [left; by eexists|done|]. split; [exact H2|]. by apply H6.
Defined.
