(* ===== verification/I2c.v ===== *)
(** * I2c: register access of linux/utils/src/i2c_ctrl.c

    A register access is a transfer of the register address, most significant
    byte first, followed by the data.  The bus and the device behind it are the
    class [I2cBus]: a [write] transfer stores data at an address, an [I2C_RDWR]
    transfer of an address and a read returns what is stored there.  A descriptor
    carries the slave address [ioctl] has set on it; plain writes go there.
    Results of [open], [ioctl] and [close] are arguments. *)

From S2P Require Import Prelude.
From stdpp Require Import pretty.
#[local] Open Scope Z_scope.

(** [priv] holds the descriptor; it is [None] until [i2c_open] stores it. *)
Record i2c_ctrl_t := I2cCtrl {
  i2c_num : Z;
  dev_addr : Z;
  reg_width : Z;
  data_width : Z;
  priv : option Z;
}.

(** A null [ctrl] is [None]. *)
Definition i2c_init_ctrl (ctrl : option i2c_ctrl_t) (num addr rw dw : Z) : Z * option i2c_ctrl_t :=
  match ctrl with
  | None => (-1, None)
  | Some c => (0, Some (I2cCtrl num (Z.shiftr addr 1) rw dw (priv c)))
  end.

(** A bus with devices on it; addresses and data are byte strings. *)
Class I2cBus (D : Type) := {
  bus_write : D → Z → list Z → option D;
  bus_rdwr : D → Z → list Z → Z → option (list Z);
  stored : D → Z → list Z → list Z;
  (** Number of address bytes the device expects. *)
  reg_len : D → Z → Z;
  (** A write transfer of an address and data stores the data. *)
  bus_store : ∀ d dev a x d', bus_write d dev (a ++ x) = Some d' →
    Z.of_nat (length a) = reg_len d dev → length x ≠ 0%nat →
    ∀ b, length b = length a → stored d' dev b = if decide (b = a) then x else stored d dev b;
  (** A combined transfer returns the first [n] bytes stored at the address. *)
  bus_load : ∀ d dev a n r, bus_rdwr d dev a n = Some r → r = take (Z.to_nat n) (stored d dev a);
}.

(** The open descriptors with the slave address set on each, and the bus. *)
Record kern (D : Type) := Kern { slaves : gmap Z Z; bus : D }.
Arguments Kern {D} _ _.
Arguments slaves {D} _.
Arguments bus {D} _.

Section bus.
Context {D : Type} `{!I2cBus D}.
Implicit Type k : kern D.

(** [ioctl(fd, I2C_SLAVE_FORCE, addr)] answers [ret], or -1 on a descriptor that
    is not open; [close(fd)]. *)
Definition set_slave k (fd ret addr : Z) : Z * kern D :=
  if decide (slaves k !! fd = None) then (-1, k)
  else if decide (ret < 0) then (ret, k)
  else (ret, Kern (<[fd := addr]> (slaves k)) (bus k)).
Definition close_fd k (fd ret : Z) : Z * kern D :=
  if decide (slaves k !! fd = None) then (-1, k) else (ret, Kern (delete fd (slaves k)) (bus k)).

Definition i2c_change_dev_addr (ioctl_ret : Z) (ctrl : option i2c_ctrl_t) (addr : Z) k
    : res (Z * option i2c_ctrl_t * kern D) :=
  match ctrl with
  | None => mret (-1, None, k)
  | Some c =>
      fd ← or_ub Uninit (priv c);
      let (ret, k) := set_slave k fd ioctl_ret (Z.shiftr addr 1) in
      if decide (ret < 0) then mret (-1, Some c, k)
      else mret (ret, Some (I2cCtrl (i2c_num c) (Z.shiftr addr 1) (reg_width c) (data_width c) (priv c)), k)
  end.

(** [sprintf(file_name, "/dev/i2c-%u", num)] into [char file_name[16]]. *)
Definition dev_file_name (num : Z) : res string :=
  let name := ("/dev/i2c-" +:+ pretty num)%string in
  if decide (Z.of_nat (String.length name) + 1 ≤ 16) then mret name else Ub OutOfBounds.

(** [open_ret] and [ioctl_ret] are the answers of the two calls; the slave
    address of a new descriptor is 0. *)
Definition i2c_open (open_ret ioctl_ret : Z) (ctrl : option i2c_ctrl_t) k
    : res (Z * option i2c_ctrl_t * kern D) :=
  match ctrl with
  | None => mret (-1, None, k)
  | Some c =>
      _ ← dev_file_name (i2c_num c);
      if decide (open_ret < 0) then mret (-1, Some c, k)
      else
        let k := Kern (<[open_ret := 0]> (slaves k)) (bus k) in
        let (ret, k) := set_slave k open_ret ioctl_ret (dev_addr c) in
        if decide (ret < 0) then mret (-1, Some c, (close_fd k open_ret 0).2)
        else mret (ret, Some (I2cCtrl (i2c_num c) (dev_addr c) (reg_width c) (data_width c)
                                (Some open_ret)), k)
  end.

Definition i2c_close (close_ret : Z) (ctrl : option i2c_ctrl_t) k : res (Z * kern D) :=
  match ctrl with
  | None => mret (-1, k)
  | Some c => fd ← or_ub Uninit (priv c); mret (close_fd k fd close_ret)
  end.

(** The address bytes [i2c_read] and [i2c_write] put into [buf]. *)
Definition reg_bytes (c : i2c_ctrl_t) (reg_addr : Z) : list Z :=
  if decide (2 = reg_width c) then [Z.land (Z.shiftr reg_addr 8) 255; Z.land reg_addr 255]
  else [Z.land reg_addr 255].

(** [msg[0].len] bytes of [buf] after the address has been written to it; [buf]
    has four bytes, initially zero, and [len] has 16 bits. *)
Definition msg_bytes (c : i2c_ctrl_t) (reg_addr : Z) : res (list Z) :=
  let buf := take 4 (reg_bytes c reg_addr ++ replicate 4 0) in
  let len := wrap_u 16 (reg_width c) in
  if decide (len ≤ 4) then mret (take (Z.to_nat len) buf) else Ub OutOfBounds.

(** The bytes read overwrite the front of [buf]; more than four do not fit.  The
    messages carry the device address, in 16 bits. *)
Definition i2c_read (ctrl : option i2c_ctrl_t) k (reg_addr data : Z) : res (Z * Z) :=
  match ctrl with
  | None => mret (-1, data)
  | Some c =>
      fd ← or_ub Uninit (priv c);
      a ← msg_bytes c reg_addr;
      let len := wrap_u 16 (data_width c) in
      if decide (len ≤ 4) then
        if decide (slaves k !! fd = None) then mret (-1, data)
        else
          match bus_rdwr (bus k) (wrap_u 16 (dev_addr c)) a len with
          | None => mret (-1, data)
          | Some r =>
              let buf := take 4 (r ++ drop (length r) (take 4 (reg_bytes c reg_addr ++ replicate 4 0))) in
              b0 ← arr_get buf 0;
              b1 ← arr_get buf 1;
              if decide (data_width c = 2) then mret (0, Z.lor b1 (Z.shiftl b0 8)) else mret (0, b0)
          end
      else Ub OutOfBounds
  end.

Definition data_bytes (c : i2c_ctrl_t) (data : Z) : list Z :=
  if decide (2 = data_width c) then [Z.land (Z.shiftr data 8) 255; Z.land data 255]
  else [Z.land data 255].

(** [write] goes to the slave address of the descriptor, not to [dev_addr]. *)
Definition i2c_write (ctrl : option i2c_ctrl_t) k (reg_addr data : Z) : res (Z * kern D) :=
  match ctrl with
  | None => mret (-1, k)
  | Some c =>
      fd ← or_ub Uninit (priv c);
      match slaves k !! fd with
      | None => mret (-1, k)
      | Some slave =>
          match bus_write (bus k) slave (reg_bytes c reg_addr ++ data_bytes c data) with
          | None => mret (-1, k)
          | Some b => mret (0, Kern (slaves k) b)
          end
      end
  end.

(** ** Properties *)

(** The widths the code supports. *)
Definition widths_ok (c : i2c_ctrl_t) : Prop :=
  (reg_width c = 1 ∨ reg_width c = 2) ∧ (data_width c = 1 ∨ data_width c = 2).

Lemma reg_bytes_width c r : widths_ok c → Z.of_nat (length (reg_bytes c r)) = reg_width c.
Proof. intros [[Hr|Hr] _]; unfold reg_bytes; by rewrite Hr. Qed.

Lemma reg_bytes_length c r r' : length (reg_bytes c r) = length (reg_bytes c r').
Proof. unfold reg_bytes. by case_decide. Qed.

Lemma msg_bytes_ok c r : widths_ok c → msg_bytes c r = Ok (reg_bytes c r).
Proof. intros [[Hr|Hr] _]; unfold msg_bytes, reg_bytes; by rewrite Hr. Qed.

(** The descriptor of [c] is open and set to the device of [c]. *)
Definition attached (c : i2c_ctrl_t) k : Prop :=
  ∃ fd, priv c = Some fd ∧ slaves k !! fd = Some (dev_addr c).

Lemma i2c_open_attached c k fd name :
  dev_file_name (i2c_num c) = Ok name → 0 ≤ fd →
  i2c_open fd 0 (Some c) k =
    Ok (0, Some (I2cCtrl (i2c_num c) (dev_addr c) (reg_width c) (data_width c) (Some fd)),
        Kern (<[fd := dev_addr c]> (slaves k)) (bus k)).
Proof.
  intros Hn Hfd. unfold i2c_open, set_slave. rewrite Hn, bind_Ok, decide_False by lia.
  cbn [slaves bus]. rewrite lookup_insert_eq, insert_insert_eq. done.
Qed.

Lemma i2c_close_closes c k fd :
  priv c = Some fd → is_Some (slaves k !! fd) →
  i2c_close 0 (Some c) k = Ok (0, Kern (delete fd (slaves k)) (bus k)).
Proof.
  intros Hp [a Ha]. unfold i2c_close, close_fd. rewrite Hp. cbn [or_ub]. rewrite bind_Ok.
  by rewrite decide_False by (by rewrite Ha).
Qed.

Lemma i2c_write_attached c k r data :
  attached c k →
  i2c_write (Some c) k r data =
    Ok (match bus_write (bus k) (dev_addr c) (reg_bytes c r ++ data_bytes c data) with
        | None => (-1, k) | Some b => (0, Kern (slaves k) b) end).
Proof.
  intros (fd & Hp & Hs). unfold i2c_write. rewrite Hp. cbn [or_ub]. rewrite bind_Ok, Hs.
  by destruct (bus_write _ _ _).
Qed.

Lemma land_255 z : Z.land z 255 = z mod 256.
Proof. change 255 with (Z.ones 8). rewrite Z.land_ones by lia. done. Qed.

(** Two bytes, most significant first, are a 16-bit number. *)
Lemma join_bytes z : Z.lor (Z.land z 255) (Z.shiftl (Z.land (Z.shiftr z 8) 255) 8) = z mod 65536.
Proof.
  change 65536 with (2 ^ 16). rewrite <-Z.land_ones by lia. change 255 with (Z.ones 8).
  apply Z.bits_inj'. intros i Hi. rewrite Z.lor_spec, !Z.land_spec.
  rewrite (Z.testbit_ones_nonneg 16), (Z.testbit_ones_nonneg 8) by lia.
  destruct (decide (i < 8)) as [H8|H8].
  - rewrite Z.shiftl_spec_low by lia. rewrite (proj2 (Z.ltb_lt i 8)), (proj2 (Z.ltb_lt i 16)) by lia.
    by rewrite orb_false_r.
  - rewrite Z.shiftl_spec, Z.land_spec, Z.shiftr_spec, (Z.testbit_ones_nonneg 8) by lia.
    replace (i - 8 + 8) with i by lia. rewrite (proj2 (Z.ltb_ge i 8)), andb_false_r by lia.
    cbn. f_equal. destruct (Z.ltb_spec (i - 8) 8), (Z.ltb_spec i 16); lia.
Qed.

(** The value a register keeps of [data], and whether two register numbers name
    the same register. *)
Definition reg_value (c : i2c_ctrl_t) (data : Z) : Z :=
  if decide (data_width c = 2) then data mod 65536 else data mod 256.
Definition same_reg (c : i2c_ctrl_t) (r r' : Z) : Prop :=
  if decide (reg_width c = 2) then r mod 65536 = r' mod 65536 else r mod 256 = r' mod 256.

Lemma reg_bytes_inj c r r' : widths_ok c → (reg_bytes c r = reg_bytes c r' ↔ same_reg c r r').
Proof.
  intros [[Hr|Hr] _]; unfold reg_bytes, same_reg; rewrite Hr.
  - rewrite !decide_False, !land_255 by done. split; [by intros [= ->]|by intros ->].
  - rewrite !decide_True, <-!join_bytes by done. split; [intros E; injection E as E1 E2; by rewrite E1, E2|].
    rewrite !join_bytes. intros E. rewrite !land_255, !Z.shiftr_div_pow2 by lia.
    change (2 ^ 8) with 256.
    assert (Hb : ∀ z, z mod 65536 = 256 * (z / 256 mod 256) + z mod 256).
    { intros z. change 65536 with (256 * 256). rewrite Z.rem_mul_r by lia. lia. }
    rewrite !Hb in E.
    assert (Hm : ∀ z, 0 ≤ z mod 256 < 256) by (intros; apply Z.mod_pos_bound; lia).
    pose proof (Hm r). pose proof (Hm r'). pose proof (Hm (r / 256)). pose proof (Hm (r' / 256)).
    assert (r / 256 mod 256 = r' / 256 mod 256 ∧ r mod 256 = r' mod 256) as [-> ->]; [|done].
    clear Hb Hm. lia.
Qed.

(** Decoding the bytes read gives the value encoded. *)
Lemma read_stored c k r data0 data :
  widths_ok c → attached c k → in_u 16 (dev_addr c) →
  stored (bus k) (dev_addr c) (reg_bytes c r) = data_bytes c data →
  bus_rdwr (bus k) (dev_addr c) (reg_bytes c r) (data_width c) ≠ None →
  i2c_read (Some c) k r data0 = Ok (0, reg_value c data).
Proof.
  intros Hw (fd & Hp & Hs) Hdev Hst Hok. unfold i2c_read. rewrite Hp. cbn [or_ub].
  rewrite bind_Ok, msg_bytes_ok, bind_Ok by done. cbv zeta.
  rewrite (wrap_u_small 16 (dev_addr c)) by done.
  assert (wrap_u 16 (data_width c) = data_width c) as ->.
  { apply wrap_u_small. unfold in_u. destruct Hw; lia. }
  rewrite decide_True by (destruct Hw; lia). rewrite decide_False by (by rewrite Hs).
  destruct (bus_rdwr _ _ _ _) as [x|] eqn:E; [|done]. apply bus_load in E as ->. rewrite Hst.
  destruct Hw as [_ [Hd|Hd]]; unfold data_bytes, reg_value; rewrite Hd.
  - rewrite !decide_False by done. rewrite <-land_255. unfold reg_bytes. by destruct (decide (2 = reg_width c)).
  - rewrite !decide_True by done. by rewrite <-join_bytes.
Qed.

(** What a successful write leaves. *)
Lemma write_stores c k k' r data :
  widths_ok c → attached c k → reg_len (bus k) (dev_addr c) = reg_width c →
  i2c_write (Some c) k r data = Ok (0, k') →
  slaves k' = slaves k ∧
  ∀ r', stored (bus k') (dev_addr c) (reg_bytes c r') =
    if decide (reg_bytes c r' = reg_bytes c r) then data_bytes c data
    else stored (bus k) (dev_addr c) (reg_bytes c r').
Proof.
  intros Hw Hat Hrl Hwr. rewrite i2c_write_attached in Hwr by done.
  destruct (bus_write _ _ _) as [b|] eqn:E; [|done]. injection Hwr as <-. split; [done|].
  assert (Hlen : length (data_bytes c data) ≠ 0%nat) by (unfold data_bytes; by case_decide).
  assert (Hrb : Z.of_nat (length (reg_bytes c r)) = reg_len (bus k) (dev_addr c))
    by (rewrite Hrl; by apply reg_bytes_width).
  intros r'. apply (bus_store _ _ _ _ _ E Hrb Hlen). apply reg_bytes_length.
Qed.

(** C30: (roundtrip) a session with a device of one- or two-byte registers and
    data, which expects that many address bytes: [i2c_init_ctrl] and [i2c_open]
    succeed and attach a new descriptor to the device; a value written to a
    register is read back as that value modulo the data width, and every register
    that is a different one modulo the address width keeps its contents; closing
    leaves the descriptors of the process as they were.  Both transfers put the
    most significant byte first. *)
Theorem i2c_write_read (c0 : i2c_ctrl_t) (k k2 : kern D) (num addr rw dw fd r data data0 : Z)
    (name : string) :
  dev_file_name num = Ok name → 0 ≤ fd → slaves k !! fd = None → 0 ≤ addr < 2 ^ 17 →
  let c := I2cCtrl num (Z.shiftr addr 1) rw dw (Some fd) in
  let k1 := Kern (<[fd := dev_addr c]> (slaves k)) (bus k) in
  widths_ok c → reg_len (bus k) (dev_addr c) = rw →
  i2c_open fd 0 (i2c_init_ctrl (Some c0) num addr rw dw).2 k = Ok (0, Some c, k1) ∧
  (i2c_write (Some c) k1 r data = Ok (0, k2) →
   (∀ a n, bus_rdwr (bus k2) (dev_addr c) a n ≠ None) →
   i2c_read (Some c) k2 r data0 = Ok (0, reg_value c data) ∧
   (∀ r', ¬ same_reg c r r' →
      stored (bus k2) (dev_addr c) (reg_bytes c r') = stored (bus k) (dev_addr c) (reg_bytes c r')) ∧
   i2c_close 0 (Some c) k2 = Ok (0, Kern (slaves k) (bus k2))).
Proof.
  intros Hn Hfd Hfree Ha c k1 Hw Hrl. split; [by apply (i2c_open_attached (I2cCtrl num (Z.shiftr addr 1) rw dw (priv c0)) k fd name)|].
  intros Hwr Hok. assert (attached c k1) as Hat by (exists fd; split; [done|apply lookup_insert_eq]).
  destruct (write_stores c k1 k2 r data Hw Hat Hrl Hwr) as [Hsl Hst]. split_and!.
  - apply read_stored; [done| | | |done].
    + exists fd. split; [done|]. rewrite Hsl. apply lookup_insert_eq.
    + unfold in_u. cbn [dev_addr c]. rewrite Z.shiftr_div_pow2 by lia. change (2 ^ 1) with 2.
      split; [apply Z.div_pos; lia|apply Z.div_lt_upper_bound; lia].
    + rewrite Hst. by rewrite decide_True.
  - intros r' Hr'. rewrite Hst, decide_False; [done|]. rewrite reg_bytes_inj by done.
    intros Hs. apply Hr'. unfold same_reg in *. by case_decide.
  - rewrite (i2c_close_closes c k2 fd) by (done || (rewrite Hsl; unfold k1; cbn [slaves]; rewrite lookup_insert_eq; by eexists)).
    rewrite Hsl. unfold k1. cbn [slaves]. by rewrite delete_insert_id.
Qed.

End bus.

(** A bus with one device of two-byte registers holding byte strings. *)
Abbreviation sim_bus := (gmap (list Z) (list Z)).
#[export] Instance sim_i2c : I2cBus sim_bus.
Proof.
  refine {| bus_write := λ d _ m, Some (<[take 2 m := drop 2 m]> d);
            bus_rdwr := λ d _ a n, Some (take (Z.to_nat n) (default [] (d !! a)));
            stored := λ d _ a, default [] (d !! a); reg_len := λ _ _, 2 |}.
  - intros d dev a x d' Hd Ha Hx b Hb. injection Hd as <-.
    rewrite take_app_length', drop_app_length' by lia.
    destruct (decide (b = a)) as [->|Hne]; [by rewrite lookup_insert_eq|].
    by rewrite lookup_insert_ne.
  - intros d dev a n r Hr. by injection Hr as <-.
Defined.

Lemma i2c_write_read_witness :
  let k : kern sim_bus := Kern {[0 := 0]} ∅ in
  let c := I2cCtrl 1 27 2 2 (Some 3) in
  let k1 := Kern {[0 := 0; 3 := 27]} (bus k) in
  i2c_open 3 0 (i2c_init_ctrl (Some (I2cCtrl 0 0 0 0 None)) 1 54 2 2).2 k = Ok (0, Some c, k1) ∧
  i2c_read (Some c) (Kern (slaves k1) {[[18; 52] := [0; 1]]}) 4660 0 = Ok (0, 1).
Proof.
  destruct (i2c_write_read (I2cCtrl 0 0 0 0 None) (Kern {[0 := 0]} (∅ : sim_bus))
    (Kern {[0 := 0; 3 := 27]} {[[18; 52] := [0; 1]]}) 1 54 2 2 3 4660 65537 0 "/dev/i2c-1")
    as (Ho & Hs).
  - by vm_compute.
  - lia.
  - done.
  - lia.
  - split; by right.
  - done.
  - cbv zeta. split; [exact Ho|]. destruct Hs as (Hr & _ & _); [by vm_compute|done|]. exact Hr.
Defined.
