(* ===== verification/XchipReg.v ===== *)
(** * XchipReg: reading a sensor behind a bridge, linux/utils/test/sc132_xchip_reg.c

    The sensor answers while the bridge chip passes the bus through, so a reading
    switches the bypass on, reads and switches it off.  The program does this in
    two ways over i2c_ctrl.c: with one descriptor for each chip, or with one that
    is pointed at the other chip in between.

    Theorem: the two ways agree on every bus, whether or not its transfers
    succeed, as long as the descriptors can be set up; where they cannot, the
    first reads a descriptor that was never stored and the second reads the
    register of the wrong chip. *)

From S2P Require Import Prelude I2c.

Definition XCHIP_I2C_ADDR : Z := 0x36.
Definition SC132_I2C_ADDR : Z := 0x60.

Section xchip.
Context {D : Type} `{!I2cBus D}.
Implicit Type k : kern D.

Definition xc9080_i2c_bypass_on_chn (c : option i2c_ctrl_t) (chn : Z) k : res (kern D) :=
  r ← i2c_write c k 0xfffd 0x80;
  r ← i2c_write c r.2 0xfffe 0x50;
  r ← i2c_write c r.2 0x004d chn;
  mret r.2.

Definition xc9080_i2c_bypass_off (c : option i2c_ctrl_t) k : res (kern D) :=
  r ← i2c_write c k 0xfffd 0x80;
  r ← i2c_write c r.2 0xfffe 0x50;
  r ← i2c_write c r.2 0x004d 0x00;
  mret r.2.

(** A local [i2c_ctrl_t]: [i2c_init_ctrl] sets all members but [priv]. *)
Definition local_ctrl : option i2c_ctrl_t := Some (I2cCtrl 0 0 0 0 None).

(** The answers of [open] and [ioctl] for a descriptor. *)
Record setup := Setup { open_ret : Z; ioctl_ret : Z }.

(** The data printed; the results of the calls are not looked at.  [cl1] and
    [cl2] answer the two [close]s. *)
Definition sc132_xchip_read_method1 (a1 a2 : setup) (cl1 cl2 : Z) (reg_addr : Z) k
    : res (Z * kern D) :=
  let xchip_ctrl := (i2c_init_ctrl local_ctrl 2 XCHIP_I2C_ADDR 2 1).2 in
  let scl132_ctrl := (i2c_init_ctrl local_ctrl 2 SC132_I2C_ADDR 2 1).2 in
  '(_, xchip_ctrl, k) ← i2c_open (open_ret a1) (ioctl_ret a1) xchip_ctrl k;
  '(_, scl132_ctrl, k) ← i2c_open (open_ret a2) (ioctl_ret a2) scl132_ctrl k;
  k ← xc9080_i2c_bypass_on_chn xchip_ctrl 3 k;
  '(_, data) ← i2c_read scl132_ctrl k reg_addr 0;
  k ← xc9080_i2c_bypass_off xchip_ctrl k;
  '(_, k) ← i2c_close cl1 xchip_ctrl k;
  '(_, k) ← i2c_close cl2 scl132_ctrl k;
  mret (data, k).

(** [chg1] and [chg2] answer the [ioctl] of the two changes of address.  Nothing
    is printed when the device cannot be opened. *)
Definition sc132_xchip_read_method2 (a : setup) (chg1 chg2 close_ret : Z) (reg_addr : Z) k
    : res (option Z * kern D) :=
  let ctrl := (i2c_init_ctrl local_ctrl 2 XCHIP_I2C_ADDR 2 1).2 in
  '(ret, ctrl, k) ← i2c_open (open_ret a) (ioctl_ret a) ctrl k;
  if decide (0 ≠ ret) then mret (None, k)
  else
    k ← xc9080_i2c_bypass_on_chn ctrl 3 k;
    '(_, ctrl, k) ← i2c_change_dev_addr chg1 ctrl SC132_I2C_ADDR k;
    '(_, data) ← i2c_read ctrl k reg_addr 0;
    '(_, ctrl, k) ← i2c_change_dev_addr chg2 ctrl XCHIP_I2C_ADDR k;
    k ← xc9080_i2c_bypass_off ctrl k;
    '(_, k) ← i2c_close close_ret ctrl k;
    mret (Some data, k).

(** ** What the bus sees *)

(** A chip of two-byte registers and one-byte data on descriptor [fd]. *)
Definition chip (addr fd : Z) : i2c_ctrl_t := I2cCtrl 2 (Z.shiftr addr 1) 2 1 (Some fd).

(** A transfer whose failure is ignored. *)
Definition push (dev : Z) (b : D) (m : list Z) : D := default b (bus_write b dev m).

(** The three writes of a bypass command. *)
Definition bypass (chn : Z) (b : D) : D :=
  push 0x1b (push 0x1b (push 0x1b b [0xff; 0xfd; 0x80]) [0xff; 0xfe; 0x50]) [0; 0x4d; chn].

(** What a reading of the sensor yields on a bus. *)
Definition sensor_value (dev : Z) (b : D) (reg_addr : Z) : Z :=
  let a := [Z.land (Z.shiftr reg_addr 8) 255; Z.land reg_addr 255] in
  match bus_rdwr b dev a 1 with None => 0 | Some [] => a !!! 0%nat | Some (x :: _) => x end.

Lemma push_write fd k r data :
  slaves k !! fd = Some 0x1b →
  ∃ ret, i2c_write (Some (chip XCHIP_I2C_ADDR fd)) k r data =
    Ok (ret, Kern (slaves k) (push 0x1b (bus k)
      [Z.land (Z.shiftr r 8) 255; Z.land r 255; Z.land data 255])).
Proof.
  intros Hs. rewrite i2c_write_attached by (by exists fd).
  change (dev_addr (chip XCHIP_I2C_ADDR fd)) with 0x1b.
  change (reg_bytes (chip XCHIP_I2C_ADDR fd) r ++ data_bytes (chip XCHIP_I2C_ADDR fd) data) with
    [Z.land (Z.shiftr r 8) 255; Z.land r 255; Z.land data 255].
  unfold push. destruct (bus_write _ _ _); eexists; [done|]. by destruct k.
Qed.

Lemma bypass_run fd k :
  slaves k !! fd = Some 0x1b →
  xc9080_i2c_bypass_on_chn (Some (chip XCHIP_I2C_ADDR fd)) 3 k = Ok (Kern (slaves k) (bypass 3 (bus k))) ∧
  xc9080_i2c_bypass_off (Some (chip XCHIP_I2C_ADDR fd)) k = Ok (Kern (slaves k) (bypass 0 (bus k))).
Proof.
  intros Hs. unfold xc9080_i2c_bypass_on_chn, xc9080_i2c_bypass_off, bypass.
  destruct (push_write fd k 0xfffd 0x80 Hs) as [? ->]. rewrite !bind_Ok. cbn [snd].
  match goal with |- context [i2c_write _ ?x 0xfffe _] => destruct (push_write fd x 0xfffe 0x50 Hs) as [? ->] end.
  rewrite !bind_Ok. cbn [snd slaves bus].
  split; match goal with |- context [i2c_write _ ?x 0x4d ?v] =>
    destruct (push_write fd x 0x4d v Hs) as [? ->] end; done.
Qed.

(** A reading never fails to be defined, and depends on the bus alone. *)
Lemma sensor_read addr fd k reg_addr :
  is_Some (slaves k !! fd) → 0 ≤ addr < 2 ^ 17 →
  ∃ ret, i2c_read (Some (chip addr fd)) k reg_addr 0 =
    Ok (ret, sensor_value (Z.shiftr addr 1) (bus k) reg_addr).
Proof.
  intros [s Hs] Ha. unfold i2c_read. cbn [priv chip or_ub]. rewrite bind_Ok.
  change (msg_bytes (chip addr fd) reg_addr) with
    (Ok [Z.land (Z.shiftr reg_addr 8) 255; Z.land reg_addr 255]).
  rewrite bind_Ok. change (wrap_u 16 (data_width (chip addr fd))) with 1. cbv zeta.
  rewrite decide_True by lia. rewrite decide_False by (by rewrite Hs).
  rewrite wrap_u_small.
  2:{ unfold in_u. cbn [dev_addr chip]. rewrite Z.shiftr_div_pow2 by lia. change (2 ^ 1) with 2.
      split; [apply Z.div_pos; lia|apply Z.div_lt_upper_bound; lia]. }
  unfold sensor_value. cbn [dev_addr chip].
  destruct (bus_rdwr _ _ _ 1) as [[|x [|y r]]|]; [by eexists..|by eexists].
Qed.

Lemma change_chip a a' fd k :
  is_Some (slaves k !! fd) →
  i2c_change_dev_addr 0 (Some (chip a fd)) a' k =
    Ok (0, Some (chip a' fd), Kern (<[fd := Z.shiftr a' 1]> (slaves k)) (bus k)).
Proof.
  intros [s Hs]. unfold i2c_change_dev_addr, set_slave. cbn [priv chip or_ub]. rewrite bind_Ok.
  by rewrite decide_False by (by rewrite Hs).
Qed.

Lemma open_chip addr fd k :
  0 ≤ fd →
  i2c_open fd 0 (i2c_init_ctrl local_ctrl 2 addr 2 1).2 k =
    Ok (0, Some (chip addr fd), Kern (<[fd := Z.shiftr addr 1]> (slaves k)) (bus k)).
Proof. intros Hfd. by apply (i2c_open_attached (I2cCtrl 2 (Z.shiftr addr 1) 2 1 None) k fd "/dev/i2c-2"). Qed.

Lemma method1_run k f1 f2 reg_addr :
  0 ≤ f1 → 0 ≤ f2 → f1 ≠ f2 → slaves k !! f1 = None → slaves k !! f2 = None →
  sc132_xchip_read_method1 (Setup f1 0) (Setup f2 0) 0 0 reg_addr k =
    Ok (sensor_value 0x30 (bypass 3 (bus k)) reg_addr, Kern (slaves k) (bypass 0 (bypass 3 (bus k)))).
Proof.
  intros H1 H2 Hne Hf1 Hf2. unfold sc132_xchip_read_method1. cbn [open_ret ioctl_ret].
  rewrite open_chip, bind_Ok, open_chip, bind_Ok by done. cbn [slaves bus].
  set (sl := <[f2 := _]> (<[f1 := _]> (slaves k))).
  assert (Hs1 : sl !! f1 = Some 0x1b) by (unfold sl; by rewrite lookup_insert_ne, lookup_insert_eq).
  assert (Hs2 : is_Some (sl !! f2)) by (unfold sl; rewrite lookup_insert_eq; by eexists).
  rewrite (proj1 (bypass_run f1 (Kern sl (bus k)) Hs1)), bind_Ok. cbn [slaves bus].
  destruct (sensor_read SC132_I2C_ADDR f2 (Kern sl (bypass 3 (bus k))) reg_addr Hs2 ltac:(done)) as [? ->].
  rewrite bind_Ok, (proj2 (bypass_run f1 (Kern sl (bypass 3 (bus k))) Hs1)), bind_Ok. cbn [slaves bus].
  rewrite (i2c_close_closes _ _ f1), bind_Ok by (done || (cbn [slaves]; rewrite Hs1; by eexists)). cbn [slaves bus].
  rewrite (i2c_close_closes _ _ f2), bind_Ok by (done || (cbn [slaves]; by rewrite lookup_delete_ne)).
  cbn [slaves bus]. assert (delete f2 (delete f1 sl) = slaves k) as ->; [|done].
  unfold sl. apply map_eq. intros i.
  destruct (decide (i = f2)) as [->|]; [by rewrite lookup_delete_eq|].
  destruct (decide (i = f1)) as [->|]; [by rewrite lookup_delete_ne, lookup_delete_eq|].
  by rewrite !lookup_delete_ne, !lookup_insert_ne.
Qed.

Lemma method2_run k fd reg_addr :
  0 ≤ fd → slaves k !! fd = None →
  sc132_xchip_read_method2 (Setup fd 0) 0 0 0 reg_addr k =
    Ok (Some (sensor_value 0x30 (bypass 3 (bus k)) reg_addr),
        Kern (slaves k) (bypass 0 (bypass 3 (bus k)))).
Proof.
  intros Hfd Hfree. unfold sc132_xchip_read_method2. cbn [open_ret ioctl_ret].
  rewrite open_chip, bind_Ok, decide_False by (done || naive_solver).
  set (sl := <[fd := _]> (slaves k)).
  assert (Hs : sl !! fd = Some 0x1b) by apply lookup_insert_eq.
  rewrite (proj1 (bypass_run fd (Kern sl (bus k)) Hs)), bind_Ok.
  rewrite change_chip, bind_Ok by (cbn [slaves]; rewrite Hs; by eexists). cbn [slaves bus].
  set (k2 := Kern (<[fd := _]> sl) _).
  assert (Hs2 : is_Some (slaves k2 !! fd)) by (cbn [slaves k2]; rewrite lookup_insert_eq; by eexists).
  destruct (sensor_read SC132_I2C_ADDR fd k2 reg_addr Hs2 ltac:(done)) as [? ->].
  rewrite bind_Ok, change_chip, bind_Ok by done. cbn [slaves bus k2]. rewrite insert_insert_eq.
  set (k3 := Kern (<[fd := _]> sl) _).
  assert (Hs3 : slaves k3 !! fd = Some 0x1b) by apply lookup_insert_eq.
  rewrite (proj2 (bypass_run fd k3 Hs3)), bind_Ok.
  rewrite (i2c_close_closes _ _ fd), bind_Ok by (done || (cbn [slaves]; rewrite Hs3; by eexists)).
  cbn [slaves bus k3]. unfold sl. by rewrite insert_insert_eq, delete_insert_id.
Qed.

(** Without the first descriptor the first way uses one that was never stored,
    and the second gives up before the bus is touched. *)
Lemma xchip_open_fails k a2 o i cl1 cl2 chg1 chg2 cl reg_addr :
  o < 0 → 0 ≤ open_ret a2 →
  sc132_xchip_read_method1 (Setup o i) a2 cl1 cl2 reg_addr k = Ub Uninit ∧
  sc132_xchip_read_method2 (Setup o i) chg1 chg2 cl reg_addr k = Ok (None, k).
Proof.
  intros Ho H2.
  assert (Hop : ∀ addr, i2c_open o i (i2c_init_ctrl local_ctrl 2 addr 2 1).2 k =
    Ok (-1, (i2c_init_ctrl local_ctrl 2 addr 2 1).2, k)).
  { intros addr. unfold i2c_open. cbn [i2c_init_ctrl local_ctrl snd]. change (dev_file_name _) with (Ok "/dev/i2c-2"%string).
    by rewrite bind_Ok, decide_True. }
  unfold sc132_xchip_read_method1, sc132_xchip_read_method2. cbn [open_ret ioctl_ret]. rewrite Hop, !bind_Ok.
  split; [|by rewrite decide_True].
  unfold i2c_open. cbn [i2c_init_ctrl local_ctrl snd]. change (dev_file_name _) with (Ok "/dev/i2c-2"%string).
  rewrite bind_Ok, decide_False by lia. cbv zeta. destruct (set_slave _ _ _ _) as [ret k1].
  by destruct (decide (ret < 0)).
Qed.

(** A change of address that fails is not noticed: the second way reads the
    register of the bridge. *)
Lemma xchip_wrong_chip k fd chg1 chg2 cl reg_addr :
  0 ≤ fd → chg1 < 0 →
  ∃ k', sc132_xchip_read_method2 (Setup fd 0) chg1 chg2 cl reg_addr k =
    Ok (Some (sensor_value 0x1b (bypass 3 (bus k)) reg_addr), k').
Proof.
  intros Hfd Hc. unfold sc132_xchip_read_method2. cbn [open_ret ioctl_ret].
  rewrite open_chip, bind_Ok, decide_False by (done || naive_solver). set (sl := <[fd := _]> (slaves k)).
  assert (Hs : sl !! fd = Some 0x1b) by apply lookup_insert_eq.
  rewrite (proj1 (bypass_run fd (Kern sl (bus k)) Hs)), bind_Ok. cbn [slaves bus].
  set (k2 := Kern sl _). assert (Hs2 : slaves k2 !! fd = Some 0x1b) by done.
  assert (i2c_change_dev_addr chg1 (Some (chip XCHIP_I2C_ADDR fd)) SC132_I2C_ADDR k2 =
    Ok (-1, Some (chip XCHIP_I2C_ADDR fd), k2)) as ->.
  { unfold i2c_change_dev_addr, set_slave. cbn [priv chip or_ub]. rewrite bind_Ok.
    rewrite decide_False by (by rewrite Hs2). by rewrite !decide_True. }
  rewrite bind_Ok. destruct (sensor_read XCHIP_I2C_ADDR fd k2 reg_addr) as [? ->]; [by rewrite Hs2|done|].
  rewrite bind_Ok. unfold i2c_change_dev_addr, set_slave. cbn [priv chip or_ub]. rewrite bind_Ok.
  rewrite decide_False by (by rewrite Hs2).
  destruct (decide (chg2 < 0)); cbv zeta beta iota.
  - rewrite decide_True, bind_Ok by done. rewrite (proj2 (bypass_run fd k2 Hs2)), bind_Ok.
    unfold i2c_close. cbn [priv chip or_ub]. rewrite bind_Ok. destruct (close_fd _ _ _). by eexists.
  - rewrite decide_False, bind_Ok by done. cbn [i2c_num reg_width data_width chip].
    match goal with |- context [xc9080_i2c_bypass_off _ ?x] => set (k3 := x) end.
    assert (Hs3 : slaves k3 !! fd = Some 0x1b) by apply lookup_insert_eq.
    fold (chip XCHIP_I2C_ADDR fd). rewrite (proj2 (bypass_run fd k3 Hs3)), bind_Ok.
    unfold i2c_close. cbn [priv chip or_ub]. rewrite bind_Ok. destruct (close_fd _ _ _). by eexists.
Qed.

(** C31: (equivalence) the two ways of reading the sensor agree.  On every bus,
    whatever transfers fail on it, and for every register: when the descriptors
    can be opened and pointed at the chips, both ways print the same value (what
    the sensor answers once the bypass commands have been sent), make the same
    transfers, and close every descriptor they opened.  If moreover the bridge
    takes all writes, its bypass register is left at 0. *)
Theorem xchip_methods_agree (k : kern D) (f1 f2 f3 reg_addr : Z) :
  0 ≤ f1 → 0 ≤ f2 → 0 ≤ f3 → f1 ≠ f2 →
  slaves k !! f1 = None → slaves k !! f2 = None → slaves k !! f3 = None →
  let on := bypass 3 (bus k) in
  let data := sensor_value 0x30 on reg_addr in
  let k' := Kern (slaves k) (bypass 0 on) in
  sc132_xchip_read_method1 (Setup f1 0) (Setup f2 0) 0 0 reg_addr k = Ok (data, k') ∧
  sc132_xchip_read_method2 (Setup f3 0) 0 0 0 reg_addr k = Ok (Some data, k') ∧
  ((∀ b m, is_Some (bus_write b 0x1b m)) → (∀ b, reg_len b 0x1b = 2) →
   stored (bus k') 0x1b [0; 0x4d] = [0]).
Proof.
  intros H1 H2 H3 Hne Hf1 Hf2 Hf3 on data k'.
  split; [by apply method1_run|]. split; [by apply method2_run|].
  intros Hall Hlen. cbn [bus k']. unfold bypass at 1. set (b2 := push _ (push _ on _) _).
  unfold push. destruct (Hall b2 [0; 0x4d; 0]) as [b3 Hb3]. rewrite Hb3. cbn [default from_option id].
  rewrite (bus_store b2 0x1b [0; 0x4d] [0] b3 Hb3) by (done || by rewrite Hlen). by rewrite decide_True.
Qed.

End xchip.

(** The sensor's register 0x3e01 holds 5; the bus keeps one file of registers. *)
Lemma xchip_methods_agree_witness :
  let k : kern sim_bus := Kern {[0 := 0]} {[[0x3e; 1] := [5]]} in
  ∃ k', sc132_xchip_read_method1 (Setup 3 0) (Setup 4 0) 0 0 0x3e01 k = Ok (5, k') ∧
    sc132_xchip_read_method2 (Setup 3 0) 0 0 0 0x3e01 k = Ok (Some 5, k') ∧
    stored (bus k') 0x1b [0; 0x4d] = [0].
Proof.
  cbv zeta.
  destruct (xchip_methods_agree (Kern {[0 := 0]} ({[[0x3e; 1] := [5]]} : sim_bus)) 3 4 3 0x3e01)
    as (H1 & H2 & H3); [lia|lia|lia|lia|done|done|done|].
  eexists. split; [exact H1|]. split; [exact H2|]. apply H3; [by eexists|done].
Defined.
