(* ===== verification/FileMkdir.v ===== *)
(** * Recursive mkdir: ipc_competition/file_mkdir.c

    [fs_mkdirs] creates the directories a file path goes through, one
    [fstatat]/[mkdirat]/[openat] round per component, working in place on a copy
    of the path.  The file system is a finite map from absolute paths (lists of
    components) to the kind of the object there, with a table of open
    descriptors.  Before every system call other processes may change the tree
    ([interfere]) and the call itself may fail for a reason of its own
    ([fault]: permissions, descriptor limits, I/O errors); the theorems quantify
    over both.

    The walk over the character buffer is shown to visit the components the path
    is split into ([fs_mkdirs_descends]); on top of it, directories are created
    even when others create them at the same time, every error leaves no
    descriptor behind and creates nothing but directories of the path. *)

From S2P Require Import Prelude.

(** ** The file system *)

Inductive kind : Set :=
  | KDir (mode : Z)
  | KFile (mode : Z)
  | KLink.

#[global] Instance kind_eq_dec : EqDecision kind.
Proof. solve_decision. Defined.

(** A component of a path (characters without NUL and slash) and an absolute
    path, outermost component first. *)
Abbreviation seg := (list Z).
Abbreviation fpath := (list (list Z)).
Abbreviation tree := (gmap (list (list Z)) kind).

(** A descriptor belongs to a process and names the object it was opened on. *)
Record fdesc := FDesc { fd_pid : Z; fd_path : fpath }.

Record sys := Sys {
  nodes : tree;
  fds : gmap nat fdesc;
  tick : nat                (** number of system calls so far *)
}.

#[global] Instance fdesc_eq_dec : EqDecision fdesc.
Proof. solve_decision. Defined.

#[global] Instance sys_eq_dec : EqDecision sys.
Proof. solve_decision. Defined.

(** What the surroundings of the process do. *)
Record environ := Environ {
  interfere : nat → tree → tree;   (** other processes, before call number [n] *)
  fault : nat → option Z;          (** call number [n] fails with this errno *)
  umask : Z                        (** the file mode creation mask of the process *)
}.

(** No interference and no faults. *)
Definition calm (u : Z) : environ := Environ (λ _ n, n) (λ _, None) u.
Definition quiet : environ := calm 0.

(** The mode a new object gets. *)
Definition new_mode (E : environ) (mode : Z) : Z := Z.ldiff mode (umask E).

(** The root directory always exists. *)
Definition kind_at (n : tree) (p : fpath) : option kind :=
  match p with [] => Some (KDir 0) | _ => n !! p end.

Definition is_dir (n : tree) (p : fpath) : Prop := ∃ m, kind_at n p = Some (KDir m).

(** Beginning of a system call: the others run, the call may fail. *)
Definition enter (E : environ) (s : sys) : option Z * sys :=
  (fault E (tick s), Sys (interfere E (tick s) (nodes s)) (fds s) (S (tick s))).

(** A new descriptor of process [pid] for [p]. *)
Definition new_fd (pid : Z) (p : fpath) (s : sys) : Z * sys :=
  let n := fresh (dom (fds s)) in
  (Z.of_nat n, Sys (nodes s) (<[n := FDesc pid p]> (fds s)) (tick s)).

Definition fd_lookup (s : sys) (fd : Z) : option fdesc :=
  if decide (0 ≤ fd) then fds s !! Z.to_nat fd else None.

Definition close (s : sys) (fd : Z) : sys :=
  Sys (nodes s) (delete (Z.to_nat fd) (fds s)) (tick s).

(** Path of [name] in the directory open as [fd], or the errno of the lookup. *)
Definition at_path (s : sys) (fd : Z) (name : seg) : Z + fpath :=
  match fd_lookup s fd with
  | None => inl EBADF
  | Some d =>
      match kind_at (nodes s) (fd_path d) with
      | Some (KDir _) => inr (fd_path d ++ [name])
      | Some _ => inl ENOTDIR
      | None => inl ENOENT
      end
  end.

Section calls.
Context (E : environ) (pid : Z).

(** [open("/", 0)] *)
Definition open_root (s : sys) : (Z + Z) * sys :=
  match enter E s with
  | (Some e, s) => (inl e, s)
  | (None, s) => let r := new_fd pid [] s in (inr r.1, r.2)
  end.

(** [fstatat(fd, name, &sb, AT_SYMLINK_NOFOLLOW)] *)
Definition fstatat (s : sys) (fd : Z) (name : seg) : (Z + kind) * sys :=
  match enter E s with
  | (Some e, s) => (inl e, s)
  | (None, s) =>
      match at_path s fd name with
      | inl e => (inl e, s)
      | inr p => match nodes s !! p with Some k => (inr k, s) | None => (inl ENOENT, s) end
      end
  end.

(** [mkdirat(fd, name, mode)] *)
Definition mkdirat (s : sys) (fd : Z) (name : seg) (mode : Z) : (Z + unit) * sys :=
  match enter E s with
  | (Some e, s) => (inl e, s)
  | (None, s) =>
      match at_path s fd name with
      | inl e => (inl e, s)
      | inr p =>
          match nodes s !! p with
          | Some _ => (inl EEXIST, s)
          | None => (inr (), Sys (<[p := KDir (new_mode E mode)]> (nodes s)) (fds s) (tick s))
          end
      end
  end.

(** [openat(fd, name, O_NOFOLLOW | O_CLOEXEC)] *)
Definition openat (s : sys) (fd : Z) (name : seg) : (Z + Z) * sys :=
  match enter E s with
  | (Some e, s) => (inl e, s)
  | (None, s) =>
      match at_path s fd name with
      | inl e => (inl e, s)
      | inr p =>
          match nodes s !! p with
          | None => (inl ENOENT, s)
          | Some KLink => (inl ELOOP, s)
          | Some _ => let r := new_fd pid p s in (inr r.1, r.2)
          end
      end
  end.

(** ** fs_mkdirs *)

Definition SLASH := 47.
Definition DOT := 46.

(** The characters from index [i] up to the next NUL, as [strcmp] sees them. *)
Fixpoint to_nul (l : list Z) : option (list Z) :=
  match l with
  | [] => None
  | c :: l => if decide (c = 0) then Some [] else cons c <$> to_nul l
  end.
Definition c_str (buf : list Z) (i : Z) : res (list Z) :=
  or_ub OutOfBounds (to_nul (drop (Z.to_nat i) buf)).

(** [!strcmp(segment, "..") || !strcmp(segment, ".") || !strcmp(segment, "")] *)
Definition bad_segment (name : seg) : bool :=
  bool_decide (name = [DOT; DOT] ∨ name = [DOT] ∨ name = []).

(** Make sure that [name] is a directory below [fd]: [None], or the errno the
    function returns negated. *)
Definition prepare (s : sys) (fd : Z) (name : seg) (mode : Z) : option Z * sys :=
  match fstatat s fd name with
  | (inl e, s) =>
      if decide (e = ENOENT) then
        match mkdirat s fd name mode with
        | (inr _, s) => (None, s)
        | (inl e, s) => if decide (e = EEXIST) then (None, s) else (Some e, s)
        end
      else (Some e, s)
  | (inr KLink, s) => (Some ELOOP, s)
  | (inr (KFile _), s) => (Some ENOTDIR, s)
  | (inr (KDir _), s) => (None, s)
  end.

(** [do { p++; } while ( *p == '/');] *)
Fixpoint skip_slashes (fuel : nat) (buf : list Z) (p : Z) : res Z :=
  match fuel with
  | O => NoFuel
  | S fuel =>
      c ← arr_get buf (p + 1);
      if decide (c = SLASH) then skip_slashes fuel buf (p + 1) else mret (p + 1)
  end.

(** The [while] loop: the value of [res] at [done_close], with the descriptor
    that is closed there. *)
Fixpoint walk (fuel : nat) (mode : Z) (s : sys) (fd : Z) (buf : list Z) (segment p : Z) :
    res (Z * Z * sys) :=
  match fuel with
  | O => NoFuel
  | S fuel =>
      c ← arr_get buf p;
      if decide (c = 0) then mret (0, fd, s)
      else if decide (c ≠ SLASH) then walk fuel mode s fd buf segment (p + 1)
      else
        buf ← arr_set buf p 0;
        name ← c_str buf segment;
        if bad_segment name then mret (- EINVAL, fd, s)
        else
          match prepare s fd name mode with
          | (Some e, s) => mret (- e, fd, s)
          | (None, s) =>
              match openat s fd name with
              | (inl e, s) => mret (- e, fd, s)
              | (inr next_fd, s) =>
                  let s := close s fd in
                  buf ← arr_set buf p SLASH;
                  p ← skip_slashes (length buf) buf p;
                  walk fuel mode s next_fd buf p p
              end
          end
  end.

(** [dup] is whether [strdup] found memory: its result is used unchecked. *)
Definition fs_mkdirs (dup : bool) (path : list Z) (mode : Z) (s : sys) : res (Z * sys) :=
  if negb dup then Ub NullDeref else
  let buf := path ++ [0] in
  c ← arr_get buf 0;
  if decide (c ≠ SLASH) then mret (- EINVAL, s)
  else
    match open_root s with
    | (inl e, s) => mret (- e, s)
    | (inr fd, s) =>
        r ← walk (length buf) mode s fd buf 1 1;
        mret (r.1.1, close r.2 r.1.2)
    end.

(** ** What the walk does, on components *)

(** The components of a path that are followed by a slash; the rest after the
    last slash is the file name.  [skip] is set after a slash. *)
Fixpoint dirs_of (skip : bool) (name : seg) (l : list Z) : list seg :=
  match l with
  | [] => []
  | c :: l =>
      if decide (c = SLASH) then
        if skip then dirs_of true [] l else name :: dirs_of true [] l
      else dirs_of false (name ++ [c]) l
  end.

(** One component after the other, stepping into each. *)
Fixpoint descend (mode : Z) (s : sys) (fd : Z) (ns : list seg) : Z * Z * sys :=
  match ns with
  | [] => (0, fd, s)
  | name :: ns =>
      if bad_segment name then (- EINVAL, fd, s)
      else
        match prepare s fd name mode with
        | (Some e, s) => (- e, fd, s)
        | (None, s) =>
            match openat s fd name with
            | (inl e, s) => (- e, fd, s)
            | (inr next_fd, s) => descend mode (close s fd) next_fd ns
            end
        end
  end.

End calls.

(** ** Calls that take a whole path *)

(** What comes after the last slash. *)
Fixpoint base_of (name : seg) (l : list Z) : seg :=
  match l with
  | [] => name
  | c :: l => if decide (c = SLASH) then base_of [] l else base_of (name ++ [c]) l
  end.

(** How the kernel finds the object a path names, symbolic links included, is a
    parameter.  A path whose directories are directories, and whose last
    component is not a link, names that component of its last directory. *)
Class PathWalk (resolve : tree → list Z → option fpath) : Prop :=
  resolve_plain n rest :
    (∀ i, (i ≤ length (dirs_of false [] rest))%nat → is_dir n (take i (dirs_of false [] rest))) →
    bad_segment (base_of [] rest) = false →
    n !! (dirs_of false [] rest ++ [base_of [] rest]) ≠ Some KLink →
    resolve n (SLASH :: rest) = Some (dirs_of false [] rest ++ [base_of [] rest]).

(** A kernel that refuses links and missing directories: a concrete instance. *)
Definition is_dirb (n : tree) (p : fpath) : bool :=
  match kind_at n p with Some (KDir _) => true | _ => false end.
Definition resolve_nofollow (n : tree) (path : list Z) : option fpath :=
  match path with
  | c :: rest =>
      let ds := dirs_of false [] rest in
      if decide (c = SLASH) then
        if forallb (λ i, is_dirb n (take i ds)) (seq 0 (S (length ds)))
           && negb (bad_segment (base_of [] rest))
           && bool_decide (n !! (ds ++ [base_of [] rest]) ≠ Some KLink)
        then Some (ds ++ [base_of [] rest]) else None
      else None
  | [] => None
  end.

#[global] Instance resolve_nofollow_walk : PathWalk resolve_nofollow.
Proof.
  intros n rest Hd Hb Hl. unfold resolve_nofollow. rewrite decide_True by done. cbv zeta.
  rewrite Hb, bool_decide_true by done.
  assert (Hall : forallb (λ i, is_dirb n (take i (dirs_of false [] rest)))
            (seq 0 (S (length (dirs_of false [] rest)))) = true).
  { apply forallb_forall. intros i Hi. apply in_seq in Hi. destruct (Hd i) as [m Hm]; [lia|].
    unfold is_dirb. by rewrite Hm. }
  by rewrite Hall.
Qed.

Section path_calls.
Context (E : environ) (resolve : tree → list Z → option fpath) (pid : Z).

(** [access(path, F_OK)]: whether it returned 0. *)
Definition access (path : list Z) (s : sys) : bool * sys :=
  match enter E s with
  | (Some _, s) => (false, s)
  | (None, s) =>
      (match resolve (nodes s) path with
       | Some p => bool_decide (is_Some (kind_at (nodes s) p))
       | None => false
       end, s)
  end.

(** [creat(path, mode)]: a new file, or an existing one emptied. *)
Definition creat (path : list Z) (mode : Z) (s : sys) : (Z + Z) * sys :=
  match enter E s with
  | (Some e, s) => (inl e, s)
  | (None, s) =>
      match resolve (nodes s) path with
      | None => (inl ENOENT, s)
      | Some p =>
          match kind_at (nodes s) p with
          | Some (KDir _) => (inl EISDIR, s)
          | Some KLink => (inl ELOOP, s)
          | Some (KFile _) => let r := new_fd pid p s in (inr r.1, r.2)
          | None =>
              let r := new_fd pid p (Sys (<[p := KFile (new_mode E mode)]> (nodes s)) (fds s) (tick s)) in
              (inr r.1, r.2)
          end
      end
  end.

(** [open(path, O_RDWR, 0666)] *)
Definition open_rdwr (path : list Z) (s : sys) : (Z + Z) * sys :=
  match enter E s with
  | (Some e, s) => (inl e, s)
  | (None, s) =>
      match resolve (nodes s) path with
      | None => (inl ENOENT, s)
      | Some p =>
          match kind_at (nodes s) p with
          | Some (KFile _) => let r := new_fd pid p s in (inr r.1, r.2)
          | Some (KDir _) => (inl EISDIR, s)
          | Some KLink => (inl ELOOP, s)
          | None => (inl ENOENT, s)
          end
      end
  end.

(** On success the function ends without a [return]: its value is
    indeterminate, [None]. *)
Definition fs_create_file (name : list Z) (mode : Z) (s : sys) : option Z * sys :=
  match creat name mode s with
  | (inl _, s) => (Some (-1), s)
  | (inr fd, s) => (None, close s fd)
  end.

End path_calls.

(** [sprintf(buf, "<prefix>%s", name)] into an array of [cap] characters. *)
Definition sprintf_path (cap : Z) (prefix name : list Z) : res (list Z) :=
  if decide (Z.of_nat (length (prefix ++ name)) + 1 ≤ cap) then Ok (prefix ++ name)
  else Ub OutOfBounds.

(** ** The walk visits the components *)

Lemma to_nul_app (a l : list Z) : Forall (λ c, c ≠ 0) a → to_nul (a ++ 0 :: l) = Some a.
Proof.
  induction 1 as [|c a Hc Ha IH]; simpl; [done|].
  rewrite decide_False by done. by rewrite IH.
Qed.

Lemma arr_get_mid {A} (a : list A) x l : arr_get (a ++ x :: l) (Z.of_nat (length a)) = Ok x.
Proof. apply arr_get_nat. by rewrite lookup_app_r, Nat.sub_diag by lia. Qed.

Lemma arr_set_mid {A} (a : list A) x y l :
  arr_set (a ++ x :: l) (Z.of_nat (length a)) y = Ok (a ++ y :: l).
Proof.
  rewrite arr_set_ok by (rewrite length_app; simpl; lia). rewrite Nat2Z.id.
  f_equal. rewrite <-(Nat.add_0_r (length a)), insert_app_r. done.
Qed.

Lemma skip_slashes_ok fuel (pre l : list Z) c :
  Forall (λ c, c ≠ 0) l → (length l < fuel)%nat →
  ∃ sl l', l = sl ++ l' ∧ dirs_of true [] l = dirs_of false [] l' ∧
    skip_slashes fuel (pre ++ c :: l ++ [0]) (Z.of_nat (length pre)) =
      Ok (Z.of_nat (length (pre ++ c :: sl))).
Proof.
  revert pre l c. induction fuel as [|fuel IH]; intros pre l c Hl Hf; [lia|].
  assert (Hn : Z.of_nat (length pre) + 1 = Z.of_nat (length (pre ++ [c])))
    by (rewrite length_app; simpl; lia).
  cbn [skip_slashes]. rewrite Hn.
  replace (pre ++ c :: l ++ [0]) with ((pre ++ [c]) ++ l ++ [0]) by by rewrite <-app_assoc.
  destruct l as [|d l]; simpl in *.
  - rewrite arr_get_mid, bind_Ok. exists [], []. done.
  - rewrite arr_get_mid, bind_Ok. inversion Hl as [|?? Hd Hl']; subst. case_decide.
    + destruct (IH (pre ++ [c]) l d) as (sl & l' & -> & Hs & Hr); [done|lia|].
      exists (d :: sl), l'. rewrite Hr, <-app_assoc. done.
    + exists [], (d :: l). simpl. rewrite decide_False by done. done.
Qed.

Section walk.
Context (E : environ) (pid mode : Z).

Lemma walk_descend fuel s fd (pre name l : list Z) :
  Forall (λ c, c ≠ 0) name → Forall (λ c, c ≠ 0) l → (length l < fuel)%nat →
  walk E pid fuel mode s fd ((pre ++ name) ++ l ++ [0])
      (Z.of_nat (length pre)) (Z.of_nat (length (pre ++ name))) =
    Ok (descend E pid mode s fd (dirs_of false name l)).
Proof.
  revert s fd pre name l. induction fuel as [|fuel IH]; intros s fd pre name l Hn Hl Hf; [lia|].
  cbn [walk]. destruct l as [|c l]; simpl in *; rewrite arr_get_mid, bind_Ok; [done|].
  inversion Hl as [|?? Hc Hl']; subst. rewrite decide_False by done.
  destruct (decide (c = SLASH)) as [->|Hs].
  - rewrite decide_False by auto. rewrite arr_set_mid, bind_Ok.
    unfold c_str. rewrite Nat2Z.id, <-app_assoc, drop_app_length, to_nul_app by done.
    cbn [or_ub]. rewrite bind_Ok. cbn [descend].
    destruct (bad_segment name); [done|].
    destruct (prepare E s fd name mode) as [[e|] s1]; [done|].
    destruct (openat E pid s1 fd name) as [[e|next] s2]; [done|]. cbv zeta.
    rewrite app_assoc, arr_set_mid, bind_Ok.
    destruct (skip_slashes_ok (length ((pre ++ name) ++ SLASH :: l ++ [0])) (pre ++ name) l SLASH)
      as (sl & l' & -> & Hd & Hr); [done|rewrite !length_app; simpl; rewrite length_app; lia|].
    rewrite Hr, bind_Ok, Hd.
    specialize (IH (close s2 fd) next ((pre ++ name) ++ SLASH :: sl) [] l').
    rewrite app_nil_r in IH. rewrite <-IH.
    + f_equal. rewrite <-!app_assoc. simpl. by rewrite <-?app_assoc.
    + done.
    + by apply Forall_app in Hl' as [_ ?].
    + rewrite length_app in Hf. lia.
  - rewrite decide_True by done.
    specialize (IH s fd pre (name ++ [c]) l).
    replace ((pre ++ name) ++ c :: l ++ [0]) with ((pre ++ name ++ [c]) ++ l ++ [0])
      by by rewrite <-!app_assoc.
    replace (Z.of_nat (length (pre ++ name)) + 1) with (Z.of_nat (length (pre ++ name ++ [c])))
      by (rewrite !length_app; simpl; lia).
    apply IH; [apply Forall_app; auto|done|lia].
Qed.

End walk.

(** ** The descriptor table *)

(** [fd] is the only descriptor the function holds besides those in [F]. *)
Definition holds (pid : Z) (F : gmap nat fdesc) (s : sys) (fd : Z) (p : fpath) : Prop :=
  ∃ i, fd = Z.of_nat i ∧ F !! i = None ∧ fds s = <[i := FDesc pid p]> F.

Lemma holds_lookup pid F s fd p : holds pid F s fd p → fd_lookup s fd = Some (FDesc pid p).
Proof.
  intros (i & -> & HF & Hs). unfold fd_lookup.
  rewrite decide_True by lia. rewrite Nat2Z.id, Hs. by simplify_map_eq.
Qed.

Lemma holds_close pid F s fd p : holds pid F s fd p → fds (close s fd) = F.
Proof.
  intros (i & -> & HF & Hs). simpl. rewrite Hs, Nat2Z.id. by rewrite delete_insert_id.
Qed.

Lemma holds_fds pid F s s' fd p : fds s' = fds s → holds pid F s fd p → holds pid F s' fd p.
Proof. intros Hf (i & -> & HF & Hs). exists i. by rewrite Hf. Qed.

Lemma new_fd_holds pid F s p :
  fds s = F → holds pid F (new_fd pid p s).2 (new_fd pid p s).1 p.
Proof.
  intros <-. exists (fresh (dom (fds s))). split; [done|]. split; [|done].
  apply not_elem_of_dom, is_fresh.
Qed.

(** Opening the next directory and closing the current one. *)
Lemma new_fd_swap pid F s fd p q :
  holds pid F s fd p →
  holds pid F (close (new_fd pid q s).2 fd) (new_fd pid q s).1 q.
Proof.
  intros (i & -> & HF & Hs). exists (fresh (dom (fds s))).
  assert (Hn : fresh (dom (fds s)) ∉ dom (fds s)) by apply is_fresh.
  unfold new_fd. revert Hn. generalize (fresh (dom (fds s))). intros n Hn.
  rewrite Hs, dom_insert, not_elem_of_union, not_elem_of_singleton in Hn. destruct Hn as [Hi Hn].
  split; [done|]. split; [by apply not_elem_of_dom|].
  cbn [close fds fst snd]. rewrite Nat2Z.id, Hs.
  rewrite delete_insert_ne by congruence. by rewrite delete_insert_id.
Qed.

Lemma fstatat_fds E s fd name : fds (fstatat E s fd name).2 = fds s.
Proof.
  unfold fstatat, enter. destruct (fault E (tick s)); [done|].
  destruct (at_path _ fd name) as [e|p]; [done|]. simpl. by destruct (_ !! p).
Qed.

Lemma mkdirat_fds E s fd name mode : fds (mkdirat E s fd name mode).2 = fds s.
Proof.
  unfold mkdirat, enter. destruct (fault E (tick s)); [done|].
  destruct (at_path _ fd name) as [e|p]; [done|]. simpl. by destruct (_ !! p).
Qed.

Lemma prepare_fds E s fd name mode : fds (prepare E s fd name mode).2 = fds s.
Proof.
  unfold prepare. pose proof (fstatat_fds E s fd name) as H1.
  destruct (fstatat E s fd name) as [[e|[]] s1]; [|done..]. simpl in H1.
  case_decide; [|done]. pose proof (mkdirat_fds E s1 fd name mode) as H2.
  destruct (mkdirat E s1 fd name mode) as [[e'|] s2]; simpl in *; [case_decide|]; simpl; congruence.
Qed.

(** What [openat] leaves: an error and the table as it was, or one descriptor
    more. *)
Lemma openat_cases E pid s fd name :
  (∃ e s', openat E pid s fd name = (inl e, s') ∧ fds s' = fds s) ∨
  (∃ q s', openat E pid s fd name = (inr (new_fd pid q s').1, (new_fd pid q s').2) ∧
           fds s' = fds s).
Proof.
  unfold openat, enter. destruct (fault E (tick s)); [left; eauto|].
  destruct (at_path _ fd name) as [e|p]; [left; eauto|].
  cbn [nodes]. destruct (_ !! p) as [[]|]; [right|right|left|left]; eauto.
Qed.

Lemma descend_fds E pid mode F s fd p ns :
  holds pid F s fd p →
  ∃ q, holds pid F (descend E pid mode s fd ns).2 (descend E pid mode s fd ns).1.2 q.
Proof.
  revert s fd p. induction ns as [|name ns IH]; intros s fd p Hh; cbn [descend]; [eauto|].
  destruct (bad_segment name); [eauto|].
  pose proof (prepare_fds E s fd name mode) as Hp.
  destruct (prepare E s fd name mode) as [[e|] s1]; simpl in Hp.
  { exists p. by apply (holds_fds pid F s). }
  destruct (openat_cases E pid s1 fd name) as [(e & s2 & -> & H2)|(q & s2 & -> & H2)].
  - exists p. simpl. apply (holds_fds pid F s); [congruence|done].
  - eapply IH, new_fd_swap, (holds_fds pid F s); [congruence|done].
Qed.

(** The function on an absolute path, in terms of components. *)
Lemma fs_mkdirs_descends E pid rest mode s :
  Forall (λ c, c ≠ 0) rest →
  fs_mkdirs E pid true (SLASH :: rest) mode s =
    Ok match open_root E pid s with
       | (inl e, s) => (- e, s)
       | (inr fd, s) =>
           let r := descend E pid mode s fd (dirs_of false [] rest) in
           (r.1.1, close r.2 r.1.2)
       end.
Proof.
  intros Hr. unfold fs_mkdirs. simpl negb. cbv iota. cbn [app arr_get].
  change (arr_get (SLASH :: rest ++ [0]) 0) with (Ok SLASH). rewrite bind_Ok.
  rewrite decide_False by auto.
  destruct (open_root E pid s) as [[e|fd] s1]; [done|].
  pose proof (walk_descend E pid mode (length (SLASH :: rest ++ [0])) s1 fd [SLASH] [] rest) as Hw.
  cbn [app length] in Hw |- *. change (Z.of_nat 1) with 1 in Hw.
  rewrite Hw by (done || (rewrite length_app; simpl; lia)). done.
Qed.

(** ** What the function achieves *)

(** The result and the new tree, when nothing else happens in the file system. *)
Fixpoint mk_spec (mode : Z) (n : tree) (base : fpath) (ns : list seg) : Z * tree :=
  match ns with
  | [] => (0, n)
  | name :: ns =>
      if bad_segment name then (- EINVAL, n)
      else
        match n !! (base ++ [name]) with
        | Some KLink => (- ELOOP, n)
        | Some (KFile _) => (- ENOTDIR, n)
        | Some (KDir _) => mk_spec mode n (base ++ [name]) ns
        | None => mk_spec mode (<[base ++ [name] := KDir mode]> n) (base ++ [name]) ns
        end
  end.

Lemma at_path_dir pid F s fd p name :
  holds pid F s fd p → is_dir (nodes s) p → at_path s fd name = inr (p ++ [name]).
Proof. intros Hh [m Hd]. unfold at_path. rewrite (holds_lookup _ _ _ _ _ Hh). cbn [fd_path]. by rewrite Hd. Qed.

Lemma kind_at_snoc n (p : fpath) name : kind_at n (p ++ [name]) = n !! (p ++ [name]).
Proof. by destruct p. Qed.

Lemma descend_calm u pid mode F s fd p ns :
  holds pid F s fd p → is_dir (nodes s) p →
  (descend (calm u) pid mode s fd ns).1.1 = (mk_spec (Z.ldiff mode u) (nodes s) p ns).1 ∧
  nodes (descend (calm u) pid mode s fd ns).2 = (mk_spec (Z.ldiff mode u) (nodes s) p ns).2.
Proof.
  revert s fd p. induction ns as [|name ns IH]; intros s fd p Hh Hd; cbn [descend mk_spec]; [done|].
  destruct (bad_segment name); [done|].
  set (s1 := Sys (nodes s) (fds s) (S (tick s))).
  assert (Ha : at_path s1 fd name = inr (p ++ [name])) by by eapply (at_path_dir pid F).
  assert (Hst : fstatat (calm u) s fd name =
    (match nodes s !! (p ++ [name]) with Some k => inr k | None => inl ENOENT end, s1)).
  { unfold fstatat, enter. simpl. fold s1. rewrite Ha. simpl. by destruct (nodes s !! _). }
  assert (Hop : ∀ s2 m, fds s2 = fds s → nodes s2 !! (p ++ [name]) = Some (KDir m) →
      is_dir (nodes s2) p →
      ∃ s3, openat (calm u) pid s2 fd name =
              (inr (new_fd pid (p ++ [name]) s3).1, (new_fd pid (p ++ [name]) s3).2) ∧
            fds s3 = fds s ∧ nodes s3 = nodes s2).
  { intros s2 m Hf Hk Hd2. exists (Sys (nodes s2) (fds s2) (S (tick s2))).
    unfold openat, enter. simpl.
    rewrite (at_path_dir pid F _ _ p); [|by apply (holds_fds pid F s)|done].
    simpl. by rewrite Hk. }
  unfold prepare. rewrite Hst.
  destruct (nodes s !! (p ++ [name])) as [[m|m|]|] eqn:Hk; cbn [fst snd]; [|done..|].
  - destruct (Hop s1 m) as (s3 & -> & Hf3 & Hn3); [done..|].
    change (nodes s1) with (nodes s) in Hn3.
    rewrite <-Hn3. apply (IH (close (new_fd pid (p ++ [name]) s3).2 fd)).
    + apply (new_fd_swap pid F _ fd p). by apply (holds_fds pid F s).
    + exists m. rewrite kind_at_snoc. simpl. by rewrite Hn3.
  - rewrite decide_True by done. unfold mkdirat, enter.
    assert (Ha2 : at_path (Sys (nodes s) (fds s) (S (S (tick s)))) fd name = inr (p ++ [name]))
      by by eapply (at_path_dir pid F).
    simpl. rewrite Ha2. simpl. rewrite Hk. change (new_mode (calm u) mode) with (Z.ldiff mode u).
    destruct (Hop (Sys (<[p ++ [name] := KDir (Z.ldiff mode u)]> (nodes s)) (fds s) (S (S (tick s))))
      (Z.ldiff mode u))
      as (s3 & -> & Hf3 & Hn3); [done|by simplify_map_eq| |].
    { destruct Hd as [m Hd]. exists m. destruct p as [|x p]; [done|]. simpl in *.
      rewrite lookup_insert_ne; [done|]. intros [= Hx]. apply (f_equal length) in Hx.
      rewrite length_app in Hx. simpl in Hx. lia. }
    simpl in Hn3. rewrite <-Hn3. apply (IH (close (new_fd pid (p ++ [name]) s3).2 fd)).
    + apply (new_fd_swap pid F _ fd p). by apply (holds_fds pid F s).
    + exists (Z.ldiff mode u). rewrite kind_at_snoc. simpl. rewrite Hn3. by simplify_map_eq.
Qed.

(** [adds A n n']: nothing of [n] is lost and what is new in [n'] satisfies [A]. *)
Definition adds (A : fpath → kind → Prop) (n n' : tree) : Prop :=
  n ⊆ n' ∧ ∀ p k, n' !! p = Some k → n !! p = Some k ∨ A p k.

#[global] Instance adds_preorder A : PreOrder (adds A).
Proof.
  split.
  - intros n. split; [done|auto].
  - intros n1 n2 n3 [H1 H1'] [H2 H2']. split; [by etrans|].
    intros p k Hp. destruct (H2' p k Hp); auto.
Qed.

Lemma adds_insert (A : fpath → kind → Prop) n p k :
  n !! p = None → A p k → adds A n (<[p := k]> n).
Proof.
  intros Hn Ha. split; [by apply insert_subseteq|].
  intros q k'. destruct (decide (p = q)) as [->|]; simplify_map_eq; auto.
  intros [= <-]. auto.
Qed.

Lemma adds_is_dir A n n' p : adds A n n' → is_dir n p → is_dir n' p.
Proof.
  intros [Hs _] [m Hm]. exists m. destruct p; [done|]. simpl in *. by eapply lookup_weaken.
Qed.

Section adding.
Context (E : environ) (pid mode : Z) (A : fpath → kind → Prop).
Hypothesis interfere_adds : ∀ t n, adds A n (interfere E t n).

Lemma at_path_inv F s fd p name q :
  holds pid F s fd p → at_path s fd name = inr q → q = p ++ [name].
Proof.
  intros Hh. unfold at_path. rewrite (holds_lookup _ _ _ _ _ Hh). cbn [fd_path].
  destruct (kind_at _ p) as [[]|]; naive_solver.
Qed.

Lemma prepare_adds F s fd p name :
  holds pid F s fd p → A (p ++ [name]) (KDir (new_mode E mode)) →
  adds A (nodes s) (nodes (prepare E s fd name mode).2).
Proof.
  intros Hh HA. unfold prepare.
  assert (H1 : adds A (nodes s) (nodes (fstatat E s fd name).2) ∧
               fds (fstatat E s fd name).2 = fds s).
  { split; [|apply fstatat_fds]. unfold fstatat, enter. destruct (fault E _); [apply interfere_adds|].
    destruct (at_path _ fd name) as [e|q]; simpl; [apply interfere_adds|].
    destruct (_ !! q); apply interfere_adds. }
  destruct (fstatat E s fd name) as [[e|[]] s1]; cbn [snd] in *; destruct H1 as [H1 Hf]; [|done..].
  case_decide; [|done].
  assert (H2 : adds A (nodes s1) (nodes (mkdirat E s1 fd name mode).2)).
  { unfold mkdirat, enter. destruct (fault E _); [apply interfere_adds|].
    destruct (at_path _ fd name) as [e'|q] eqn:Hq; [apply interfere_adds|].
    apply (at_path_inv F _ _ p) in Hq as ->; [|by apply (holds_fds pid F s)].
    simpl. destruct (_ !! (p ++ [name])) eqn:Hk; [apply interfere_adds|]. simpl.
    etrans; [apply (interfere_adds (tick s1))|]. by apply adds_insert. }
  destruct (mkdirat E s1 fd name mode) as [[e'|] s2]; [case_decide|]; simpl in *; by etrans.
Qed.

(** [openat] changes the tree only by interference; a new descriptor is for the
    component asked for. *)
Lemma openat_adds F s fd p name :
  holds pid F s fd p →
  ∃ s', fds s' = fds s ∧ adds A (nodes s) (nodes s') ∧
    ((∃ e, openat E pid s fd name = (inl e, s')) ∨
     openat E pid s fd name = (inr (new_fd pid (p ++ [name]) s').1, (new_fd pid (p ++ [name]) s').2)).
Proof.
  intros Hh. exists (enter E s).2. split; [done|]. split; [apply interfere_adds|].
  unfold openat, enter. simpl. destruct (fault E _); [eauto|].
  destruct (at_path _ fd name) as [e|q] eqn:Hq; [eauto|].
  apply (at_path_inv F _ _ p) in Hq as ->; [|by apply (holds_fds pid F s)].
  simpl. destruct (_ !! (p ++ [name])) as [[]|]; eauto.
Qed.

Lemma descend_adds F s fd p ns :
  holds pid F s fd p →
  (∀ i, (1 ≤ i ≤ length ns)%nat → A (p ++ take i ns) (KDir (new_mode E mode))) →
  adds A (nodes s) (nodes (descend E pid mode s fd ns).2).
Proof.
  revert s fd p. induction ns as [|name ns IH]; intros s fd p Hh HA; cbn [descend]; [done|].
  destruct (bad_segment name); [done|].
  pose proof (prepare_adds F s fd p name Hh (HA 1%nat ltac:(simpl; lia))) as Hp.
  pose proof (prepare_fds E s fd name mode) as Hf.
  destruct (prepare E s fd name mode) as [[e|] s1]; simpl in Hp, Hf; [done|].
  assert (Hh1 : holds pid F s1 fd p) by by apply (holds_fds pid F s).
  destruct (openat_adds F s1 fd p name Hh1) as (s2 & Hf2 & Ha2 & [(e & ->)| ->]); simpl.
  { by etrans. }
  etrans; [exact Hp|]. etrans; [exact Ha2|].
  apply (IH (close (new_fd pid (p ++ [name]) s2).2 fd) _ (p ++ [name])).
  - apply (new_fd_swap pid F _ fd p). by apply (holds_fds pid F s1).
  - intros i Hi. rewrite <-app_assoc. apply (HA (S i)). simpl. lia.
Qed.

End adding.

(** Others may add directories, and only that; no call fails on its own. *)
Definition only_dirs (_ : fpath) (k : kind) : Prop := ∃ m, k = KDir m.
Record friendly (E : environ) : Prop := {
  friendly_interfere t n : adds only_dirs n (interfere E t n);
  friendly_fault t : fault E t = None
}.

(** No object other than a directory stands where a directory is needed. *)
Definition unobstructed (n : tree) (p : fpath) (ns : list seg) : Prop :=
  ∀ i k, (1 ≤ i ≤ length ns)%nat → n !! (p ++ take i ns) = Some k → ∃ m, k = KDir m.

Lemma unobstructed_adds n n' p ns :
  adds only_dirs n n' → unobstructed n p ns → unobstructed n' p ns.
Proof. intros [_ Ha] Hu i k Hi Hk. destruct (Ha _ _ Hk); [by eapply Hu|done]. Qed.

Lemma unobstructed_tail n p name ns :
  unobstructed n p (name :: ns) → unobstructed n (p ++ [name]) ns.
Proof.
  intros Hu i k Hi Hk. apply (Hu (S i)); [simpl; lia|]. by rewrite <-app_assoc in Hk.
Qed.

Section friendly.
Context (E : environ) (pid mode : Z) (HE : friendly E).

Lemma prepare_friendly F s fd p name :
  holds pid F s fd p → is_dir (nodes s) p → unobstructed (nodes s) p [name] →
  (prepare E s fd name mode).1 = None ∧
  is_dir (nodes (prepare E s fd name mode).2) (p ++ [name]).
Proof.
  intros Hh Hd Hu. unfold prepare, fstatat, mkdirat, enter. rewrite !friendly_fault by done.
  pose proof (friendly_interfere E HE (tick s) (nodes s)) as H1.
  set (s1 := Sys (interfere E (tick s) (nodes s)) (fds s) (S (tick s))).
  rewrite (at_path_dir pid F s1 fd p) by (done || by eapply adds_is_dir).
  destruct (nodes s1 !! (p ++ [name])) as [k|] eqn:Hk.
  { destruct (unobstructed_adds _ _ _ _ H1 Hu 1%nat k) as [m ->]; [simpl; lia|done|].
    split; [done|]. exists m. by rewrite kind_at_snoc. }
  rewrite decide_True by done. rewrite friendly_fault by done.
  pose proof (friendly_interfere E HE (tick s1) (nodes s1)) as H2.
  set (s2 := Sys (interfere E (tick s1) (nodes s1)) (fds s1) (S (tick s1))).
  assert (H12 : adds only_dirs (nodes s) (nodes s2)) by by transitivity (nodes s1).
  rewrite (at_path_dir pid F s2 fd p) by (done || by eapply adds_is_dir).
  destruct (nodes s2 !! (p ++ [name])) as [k|] eqn:Hk2.
  - rewrite decide_True by done. split; [done|].
    destruct (unobstructed_adds _ _ _ _ H12 Hu 1%nat k) as [m ->]; [simpl; lia|done|].
    exists m. by rewrite kind_at_snoc.
  - split; [done|]. exists (new_mode E mode). rewrite kind_at_snoc. simpl. by simplify_map_eq.
Qed.

Lemma openat_friendly F s fd p name :
  holds pid F s fd p → is_dir (nodes s) p → is_dir (nodes s) (p ++ [name]) →
  ∃ s', fds s' = fds s ∧ adds only_dirs (nodes s) (nodes s') ∧
    openat E pid s fd name = (inr (new_fd pid (p ++ [name]) s').1, (new_fd pid (p ++ [name]) s').2).
Proof.
  intros Hh Hd Hd2. exists (enter E s).2. split; [done|].
  pose proof (friendly_interfere E HE (tick s) (nodes s)) as H1. split; [done|].
  unfold openat, enter. rewrite friendly_fault by done. cbn [snd].
  set (s1 := Sys (interfere E (tick s) (nodes s)) (fds s) (S (tick s))).
  rewrite (at_path_dir pid F s1 fd p) by (done || by eapply adds_is_dir).
  destruct (adds_is_dir _ _ _ _ H1 Hd2) as [m Hm]. rewrite kind_at_snoc in Hm.
  change (nodes s1 !! (p ++ [name]) = Some (KDir m)) in Hm. by rewrite Hm.
Qed.

Lemma descend_friendly F s fd p ns :
  holds pid F s fd p → is_dir (nodes s) p → unobstructed (nodes s) p ns →
  Forall (λ name, bad_segment name = false) ns →
  (descend E pid mode s fd ns).1.1 = 0 ∧
  ∀ i, (i ≤ length ns)%nat → is_dir (nodes (descend E pid mode s fd ns).2) (p ++ take i ns).
Proof.
  revert s fd p. induction ns as [|name ns IH]; intros s fd p Hh Hd Hu Hb.
  { split; [done|]. intros i Hi. simpl in *. by rewrite take_nil, app_nil_r. }
  pose proof (descend_adds E pid mode only_dirs (friendly_interfere E HE) F s fd p (name :: ns) Hh
    (λ _ _, ex_intro _ (new_mode E mode) eq_refl)) as Hall.
  inversion Hb as [|?? Hb1 Hb2]; subst.
  assert (Hkeep : is_dir (nodes (descend E pid mode s fd (name :: ns)).2) p)
    by by eapply adds_is_dir.
  revert Hkeep. clear Hall. cbn [descend]. rewrite Hb1.
  destruct (prepare_friendly F s fd p name) as [Hp Hdn]; [done..| |].
  { intros i k Hi Hk. apply (Hu 1%nat k); [simpl; lia|]. by replace i with 1%nat in Hk by (simpl in Hi; lia). }
  pose proof (prepare_adds E pid mode only_dirs (friendly_interfere E HE) F s fd p name Hh
    ltac:(by eexists)) as Ha.
  pose proof (prepare_fds E s fd name mode) as Hf.
  destruct (prepare E s fd name mode) as [o s1]; simpl in Hp, Hdn, Ha, Hf; subst o.
  destruct (openat_friendly F s1 fd p name) as (s2 & Hf2 & Ha2 & ->);
    [by apply (holds_fds pid F s)|by eapply adds_is_dir|done|].
  destruct (IH (close (new_fd pid (p ++ [name]) s2).2 fd) (new_fd pid (p ++ [name]) s2).1 (p ++ [name]))
    as [Hz Hi].
  - apply (new_fd_swap pid F _ fd p). apply (holds_fds pid F s); [congruence|done].
  - by apply (adds_is_dir only_dirs (nodes s1)).
  - apply unobstructed_tail, (unobstructed_adds (nodes s)); [by etrans|done].
  - done.
  - intros Hkeep. split; [done|]. intros [|i] Hl; [by rewrite app_nil_r|].
    simpl in *. specialize (Hi i ltac:(lia)). by rewrite <-app_assoc in Hi.
Qed.

End friendly.

Lemma open_root_holds E pid s fd s' :
  open_root E pid s = (inr fd, s') →
  holds pid (fds s) s' fd [] ∧ nodes s' = interfere E (tick s) (nodes s).
Proof.
  unfold open_root, enter. destruct (fault E (tick s)); [done|]. intros [= <- <-].
  split; [|done]. apply (new_fd_holds pid (fds s) (Sys _ (fds s) _)). done.
Qed.

(** The three parts of a run on an absolute path. *)
Lemma fs_mkdirs_run E pid rest mode s :
  Forall (λ c, c ≠ 0) rest →
  ∃ r s', fs_mkdirs E pid true (SLASH :: rest) mode s = Ok (r, s') ∧ fds s' = fds s ∧
    (∀ A, (∀ t n, adds A n (interfere E t n)) →
       (∀ i, (1 ≤ i ≤ length (dirs_of false [] rest))%nat →
          A (take i (dirs_of false [] rest)) (KDir (new_mode E mode))) →
       adds A (nodes s) (nodes s')).
Proof.
  intros Hr. rewrite fs_mkdirs_descends by done.
  destruct (open_root E pid s) as [[e|fd] s1] eqn:Ho.
  - exists (- e), s1. split; [done|]. revert Ho. unfold open_root, enter.
    destruct (fault E (tick s)); [|done]. intros [= -> <-]. split; [done|]. intros A HA _. apply HA.
  - apply open_root_holds in Ho as [Hh Hn].
    eexists _, _. split; [done|].
    destruct (descend_fds E pid mode (fds s) s1 fd [] (dirs_of false [] rest) Hh) as [q Hq].
    split; [by eapply holds_close|]. intros A HA HI. cbn [close nodes].
    transitivity (nodes s1); [rewrite Hn; apply HA|]. eapply descend_adds; eauto.
Qed.

(** With others that only add directories. *)
Lemma fs_mkdirs_friendly E pid rest mode s :
  Forall (λ c, c ≠ 0) rest →
  friendly E →
  unobstructed (nodes s) [] (dirs_of false [] rest) →
  Forall (λ name, bad_segment name = false) (dirs_of false [] rest) →
  ∃ s', fs_mkdirs E pid true (SLASH :: rest) mode s = Ok (0, s') ∧
    ∀ i, (i ≤ length (dirs_of false [] rest))%nat →
      is_dir (nodes s') (take i (dirs_of false [] rest)).
Proof.
  intros Hr HE Hu Hb. rewrite fs_mkdirs_descends by done.
  destruct (open_root E pid s) as [[e|fd] s1] eqn:Ho.
  { revert Ho. unfold open_root, enter. by rewrite friendly_fault. }
  apply open_root_holds in Ho as [Hh Hn].
  destruct (descend_friendly E pid mode HE (fds s) s1 fd [] (dirs_of false [] rest)) as [Hz Hi];
    [done|by exists 0| |done|].
  - rewrite Hn. eapply unobstructed_adds; [|done]. by apply friendly_interfere.
  - eexists. split; [by cbv zeta; rewrite Hz|]. done.
Qed.

(** C5: (error) The complete outcome of [fs_mkdirs] in a file system nobody else
    changes: a relative path is refused with [-EINVAL] before anything is done;
    an absolute one gives exactly what walking its components in order gives,
    success when all directories exist or could be created, [-EINVAL] at a
    component that is empty, [.] or [..], [-ELOOP] at a symbolic link,
    [-ENOTDIR] at a file, keeping the directories made before the obstacle, each
    with the given mode less the mask of the process; the descriptor table is as
    before in every case. *)
Theorem fs_mkdirs_outcome E u pid path mode s :
  Forall (λ c, c ≠ 0) path →
  (hd_error path ≠ Some SLASH → fs_mkdirs E pid true path mode s = Ok (- EINVAL, s)) ∧
  (∀ rest, path = SLASH :: rest →
     ∃ t, fs_mkdirs (calm u) pid true path mode s =
       Ok ((mk_spec (Z.ldiff mode u) (nodes s) [] (dirs_of false [] rest)).1,
           Sys (mk_spec (Z.ldiff mode u) (nodes s) [] (dirs_of false [] rest)).2 (fds s) t)).
Proof.
  intros Hp. split.
  - intros Hh. unfold fs_mkdirs. simpl negb. cbv iota.
    destruct path as [|c path]; [done|]. cbv zeta. cbn [app].
    change (arr_get (c :: path ++ [0]) 0) with (Ok c). rewrite bind_Ok.
    rewrite decide_True by (intros ->; done). done.
  - intros rest ->. inversion Hp as [|?? _ Hr]; subst.
    destruct (fs_mkdirs_run (calm u) pid rest mode s Hr) as (r & s' & Hrun & Hf & _).
    rewrite Hrun. rewrite fs_mkdirs_descends in Hrun by done.
    destruct (open_root (calm u) pid s) as [[e|fd] s1] eqn:Ho; [done|].
    apply open_root_holds in Ho as [Hh Hn]. simpl in Hn.
    destruct (descend_calm u pid mode (fds s) s1 fd [] (dirs_of false [] rest) Hh) as [H1 H2];
      [by exists 0|]. rewrite Hn in H1, H2.
    injection Hrun as Hr1 Hr2. rewrite <-Hr1, H1. exists (tick s').
    destruct s' as [n' f' t']. simpl in Hf. rewrite Hf in *. cbn [tick].
    rewrite <-H2. injection Hr2 as -> _ _. done.
Qed.

(** Whatever other processes do and whatever call fails, [fs_mkdirs]
    returns with the descriptor table it was called with; when nobody else
    touches the tree, it removes and changes nothing, and all it adds are
    directories with the given mode, less the mask, at the components of its path. *)
Lemma fs_mkdirs_contained E pid rest mode s :
  Forall (λ c, c ≠ 0) rest →
  ∃ r s', fs_mkdirs E pid true (SLASH :: rest) mode s = Ok (r, s') ∧ fds s' = fds s ∧
    ((∀ t n, interfere E t n = n) →
     nodes s ⊆ nodes s' ∧
     ∀ p k, nodes s' !! p = Some k → nodes s !! p = Some k ∨
       (k = KDir (new_mode E mode) ∧
        ∃ i, (1 ≤ i ≤ length (dirs_of false [] rest))%nat ∧ p = take i (dirs_of false [] rest))).
Proof.
  intros Hr. destruct (fs_mkdirs_run E pid rest mode s Hr) as (r & s' & Hrun & Hf & Ha).
  exists r, s'. split; [done|]. split; [done|]. intros Hq.
  apply (Ha (λ p k, k = KDir (new_mode E mode) ∧ ∃ i, (1 ≤ i ≤ length (dirs_of false [] rest))%nat ∧
                     p = take i (dirs_of false [] rest))).
  - intros t n. by rewrite Hq.
  - eauto.
Qed.

(** C18: (liveness) Several processes may create the same path at once: when the
    others only add directories at any moment between the calls, and nothing
    stands in the way, [fs_mkdirs] succeeds and all directories of the path
    exist afterwards. *)
Theorem fs_mkdirs_concurrent E pid rest mode s :
  Forall (λ c, c ≠ 0) rest →
  friendly E →
  unobstructed (nodes s) [] (dirs_of false [] rest) →
  Forall (λ name, bad_segment name = false) (dirs_of false [] rest) →
  ∃ s', fs_mkdirs E pid true (SLASH :: rest) mode s = Ok (0, s') ∧
    ∀ i, (i ≤ length (dirs_of false [] rest))%nat →
      is_dir (nodes s') (take i (dirs_of false [] rest)).
Proof. apply fs_mkdirs_friendly. Qed.

(** ** Witnesses *)

(** [/tmp] is there; [/tmp/a/b/f] is asked for. *)
Definition ex_tmp : seg := [116; 109; 112].
Definition ex_rest : list Z := ex_tmp ++ [47; 97; 47; 47; 98; 47; 102].
Definition ex_sys : sys := Sys {[ [ex_tmp] := KDir 511 ]} ∅ 0.

Lemma fs_mkdirs_outcome_witness :
  ∃ t, fs_mkdirs (calm 18) 1 true (SLASH :: ex_rest) 504 ex_sys =
    Ok (0, Sys {[ [ex_tmp] := KDir 511; [ex_tmp; [97]] := KDir 488;
                  [ex_tmp; [97]; [98]] := KDir 488 ]} ∅ t).
Proof.
  destruct (fs_mkdirs_outcome quiet 18 1 (SLASH :: ex_rest) 504 ex_sys) as [_ H].
  - repeat constructor; done.
  - destruct (H ex_rest eq_refl) as [t Ht]. exists t. rewrite Ht. vm_compute. reflexivity.
Defined.

Lemma fs_mkdirs_contained_witness :
  ∃ r s', fs_mkdirs quiet 1 true (SLASH :: ex_rest) 504 ex_sys = Ok (r, s') ∧ fds s' = ∅.
Proof.
  destruct (fs_mkdirs_contained quiet 1 ex_rest 504 ex_sys) as (r & s' & H1 & H2 & _).
  - repeat constructor; done.
  - exists r, s'. split; [exact H1|exact H2].
Defined.

(** Another process makes [/tmp/a] between the check and the [mkdirat]. *)
Definition ex_racer : environ :=
  Environ (λ t n, if decide (t = 4%nat ∧ n !! [ex_tmp; [97]] = None)
                  then <[ [ex_tmp; [97]] := KDir 448 ]> n else n) (λ _, None) 18.

Lemma ex_racer_friendly : friendly ex_racer.
Proof.
  split; [|done]. intros t n. simpl. case_decide as H; [|done].
  apply adds_insert; [apply H|by eexists].
Qed.

Lemma fs_mkdirs_concurrent_witness :
  ∃ s', fs_mkdirs ex_racer 1 true (SLASH :: ex_rest) 504 ex_sys = Ok (0, s') ∧
    is_dir (nodes s') [ex_tmp; [97]; [98]].
Proof.
  destruct (fs_mkdirs_concurrent ex_racer 1 ex_rest 504 ex_sys) as (s' & H1 & H2).
  - repeat constructor; done.
  - apply ex_racer_friendly.
  - intros i k Hi Hk. simpl in Hi.
    destruct i as [|[|[|[|i]]]]; [lia| | |vm_compute in Hk; discriminate|lia].
    + vm_compute in Hk. injection Hk as <-. by eexists.
    + vm_compute in Hk. discriminate.
  - repeat constructor.
  - exists s'. split; [exact H1|]. exact (H2 3%nat ltac:(simpl; lia)).
Defined.
