(* ===== verification/IpcLock.v ===== *)
(** * The inter-process lock interface: ipc_competition/ipc_test_common.h

    Three implementations stand behind one record of functions, [ipc_lock_t]:
    record locks on a file, a robust mutex in shared memory, and a System V
    semaphore.  This file holds the record, the processes that use it as a step
    relation, and the interface between the two: class [LockLaws] is what an
    implementation promises, and the theorems of the section follow from the
    promises alone.  Each implementation file proves an instance.

    A process that is not attached creates a handle, takes and releases the lock
    any number of times, destroys its handle, and can die at any moment, in which
    case the kernel cleans up after it ([exit_proc]). *)

From S2P Require Import Prelude.

(** A call that takes the lock returns, or waits and is resumed later; what a
    waiting call changes is at most who is known to wait. *)
Inductive outcome : Set := Ret (z : Z) | Blocked.

#[global] Instance outcome_eq_dec : EqDecision outcome.
Proof. solve_decision. Defined.

(** [A] are the answers of the allocator and the kernel that a creation depends
    on, [K] is the state the processes share, [H] the object behind a handle;
    [None] is the null pointer.  [exit_proc] is the kernel's. *)
Record ipc_lock_t (A K H : Type) := IpcLock {
  create : A → Z → K → res (option H * K);
  lock : Z → option H → K → res (outcome * option H * K);
  unlock : Z → option H → K → res (Z * option H * K);
  destroy : Z → option H → K → res (Z * option H * K);
  exit_proc : Z → K → K
}.
Arguments create {A K H} _ _ _ _.
Arguments lock {A K H} _ _ _ _.
Arguments unlock {A K H} _ _ _ _.
Arguments destroy {A K H} _ _ _ _.
Arguments exit_proc {A K H} _ _ _.

Section clients.
Context {A K H : Type} (L : ipc_lock_t A K H).

(** When a process may create and destroy; a discipline the callers keep. *)
Context (ok_create : A → K → Prop) (ok_destroy : K → gmap Z H → Z → H → Prop).

(** The attached processes: their handle, and whether they are in the critical
    section. *)
Abbreviation procs := (gmap Z (H * bool)).

Definition handles (ps : procs) : gmap Z H := fst <$> ps.

Inductive step : K * procs → K * procs → Prop :=
  | step_create a pid k ps h k' :
      ps !! pid = None → ok_create a k →
      create L a pid k = Ok (Some h, k') →
      step (k, ps) (k', <[pid := (h, false)]> ps)
  | step_create_fails a pid k ps k' :
      ps !! pid = None → ok_create a k →
      create L a pid k = Ok (None, k') →
      step (k, ps) (k', ps)
  | step_lock pid k ps h h' k' :
      ps !! pid = Some (h, false) →
      lock L pid (Some h) k = Ok (Ret 0, Some h', k') →
      step (k, ps) (k', <[pid := (h', true)]> ps)
  | step_lock_waits pid k ps h h' k' :
      ps !! pid = Some (h, false) →
      lock L pid (Some h) k = Ok (Blocked, Some h', k') →
      step (k, ps) (k', <[pid := (h', false)]> ps)
  | step_lock_fails pid k ps h z h' k' :
      ps !! pid = Some (h, false) →
      lock L pid (Some h) k = Ok (Ret z, Some h', k') → z ≠ 0 →
      step (k, ps) (k', <[pid := (h', false)]> ps)
  | step_unlock pid k ps h z h' k' :
      ps !! pid = Some (h, true) →
      unlock L pid (Some h) k = Ok (z, Some h', k') →
      step (k, ps) (k', <[pid := (h', false)]> ps)
  | step_destroy pid k ps h z o k' :
      ps !! pid = Some (h, false) → ok_destroy k (handles ps) pid h →
      destroy L pid (Some h) k = Ok (z, o, k') →
      step (k, ps) (k', delete pid ps)
  | step_die pid k ps :
      step (k, ps) (exit_proc L pid k, delete pid ps).

Definition reachable (k0 : K) : K * procs → Prop := rtc step (k0, ∅).

(** What an implementation promises.  [lk_wf] relates the shared state to the
    handles of the live processes; [lk_owns] says who holds the lock. *)
Class LockLaws (lk_wf : K → gmap Z H → Prop) (lk_owns : K → Z → Prop) : Prop := {
  lk_unique k hs p q : lk_wf k hs → lk_owns k p → lk_owns k q → p = q;
  lk_create a pid k hs :
    lk_wf k hs → ok_create a k → hs !! pid = None →
    ∃ o k', create L a pid k = Ok (o, k') ∧
      lk_wf k' (match o with Some h => <[pid := h]> hs | None => hs end) ∧
      ∀ q, lk_owns k' q ↔ lk_owns k q;
  lk_lock pid h k hs :
    lk_wf k hs → hs !! pid = Some h → ¬ lk_owns k pid →
    ∃ o h' k', lock L pid (Some h) k = Ok (o, Some h', k') ∧
      match o with
      | Ret z => z = 0 ∧ lk_wf k' (<[pid := h']> hs) ∧
                 (∀ q, ¬ lk_owns k q) ∧ (∀ q, lk_owns k' q ↔ q = pid)
      | Blocked => lk_wf k' (<[pid := h']> hs) ∧ (∀ q, lk_owns k' q ↔ lk_owns k q) ∧
                   ∃ q, lk_owns k q
      end;
  lk_unlock pid h k hs :
    lk_wf k hs → hs !! pid = Some h → lk_owns k pid →
    ∃ h' k', unlock L pid (Some h) k = Ok (0, Some h', k') ∧
      lk_wf k' (<[pid := h']> hs) ∧ ∀ q, ¬ lk_owns k' q;
  lk_destroy pid h k hs :
    lk_wf k hs → hs !! pid = Some h → ¬ lk_owns k pid → ok_destroy k hs pid h →
    ∃ z o k', destroy L pid (Some h) k = Ok (z, o, k') ∧
      lk_wf k' (delete pid hs) ∧ ∀ q, lk_owns k' q ↔ lk_owns k q;
  lk_exit pid k hs :
    lk_wf k hs →
    lk_wf (exit_proc L pid k) (delete pid hs) ∧
    ∀ q, lk_owns (exit_proc L pid k) q ↔ lk_owns k q ∧ q ≠ pid
}.

Context `{HL : LockLaws wf owns}.

(** The processes in the critical section are exactly those the implementation
    takes for the owner. *)
Definition lock_inv (st : K * procs) : Prop :=
  wf st.1 (handles st.2) ∧ ∀ pid, owns st.1 pid ↔ ∃ h, st.2 !! pid = Some (h, true).

Lemma handles_lookup ps pid h b : ps !! pid = Some (h, b) → handles ps !! pid = Some h.
Proof. intros Hp. unfold handles. by rewrite lookup_fmap, Hp. Qed.

Lemma handles_insert ps pid h b : handles (<[pid := (h, b)]> ps) = <[pid := h]> (handles ps).
Proof. unfold handles. by rewrite fmap_insert. Qed.

Lemma handles_delete ps pid : handles (delete pid ps) = delete pid (handles ps).
Proof. unfold handles. by rewrite fmap_delete. Qed.

Lemma lock_inv_outside k ps pid h :
  lock_inv (k, ps) → ps !! pid = Some (h, false) → ¬ owns k pid.
Proof. intros [_ Ho] Hp Hown. apply Ho in Hown as [h' Hh]. simpl in *. congruence. Qed.

(** Who is inside after the entry of one process is rewritten. *)
Lemma inside_insert (ps : procs) pid h b q :
  (∃ h', <[pid := (h, b)]> ps !! q = Some (h', true)) ↔
  (q = pid ∧ b = true) ∨ (q ≠ pid ∧ ∃ h', ps !! q = Some (h', true)).
Proof.
  destruct (decide (q = pid)) as [->|Hq].
  - rewrite lookup_insert_eq. naive_solver.
  - rewrite lookup_insert_ne by done. naive_solver.
Qed.

Lemma inside_delete (ps : procs) pid q :
  (∃ h', delete pid ps !! q = Some (h', true)) ↔ q ≠ pid ∧ ∃ h', ps !! q = Some (h', true).
Proof.
  destruct (decide (q = pid)) as [->|Hq].
  - rewrite lookup_delete_eq. naive_solver.
  - rewrite lookup_delete_ne by done. naive_solver.
Qed.

Lemma lock_inv_step st st' : step st st' → lock_inv st → lock_inv st'.
Proof.
  intros Hst Hinv. pose proof Hinv as [Hwf Hown]. destruct Hst; simpl in *.
  - destruct (lk_create a pid k (handles ps)) as (o & k2 & Hc & Hwf' & Ho); [done..| |].
    { unfold handles. by rewrite lookup_fmap, H0. }
    rewrite H2 in Hc. injection Hc as <- <-. split; simpl; [by rewrite handles_insert|].
    intros q. rewrite Ho, Hown, inside_insert. split; [|naive_solver].
    intros [h' Hh]. right. split; [congruence|eauto].
  - destruct (lk_create a pid k (handles ps)) as (o & k2 & Hc & Hwf' & Ho); [done..| |].
    { unfold handles. by rewrite lookup_fmap, H0. }
    rewrite H2 in Hc. injection Hc as <- <-. split; simpl; [done|].
    intros q. by rewrite Ho.
  - destruct (lk_lock pid h k (handles ps)) as (o & h2 & k2 & Hc & Ho);
      [done|by eapply handles_lookup|by eapply lock_inv_outside|].
    rewrite H1 in Hc. injection Hc as <- <- <-. destruct Ho as (_ & Hwf' & Hfree & Ho).
    split; simpl; [by rewrite handles_insert|]. intros q. rewrite Ho, inside_insert.
    split; [naive_solver|]. intros [?|[_ Hq]]; [naive_solver|]. apply Hown in Hq. by apply Hfree in Hq.
  - destruct (lk_lock pid h k (handles ps)) as (o & h2 & k2 & Hc & Ho);
      [done|by eapply handles_lookup|by eapply lock_inv_outside|].
    rewrite H1 in Hc. injection Hc as <- <- <-. destruct Ho as (Hwf' & Ho & _).
    split; simpl; [by rewrite handles_insert|]. intros q. rewrite Ho, Hown, inside_insert.
    split; [|naive_solver]. intros [h2 Hq]. right. split; [congruence|eauto].
  - destruct (lk_lock pid h k (handles ps)) as (o & h2 & k2 & Hc & Ho);
      [done|by eapply handles_lookup|by eapply lock_inv_outside|].
    rewrite H1 in Hc. injection Hc as <- <- <-. destruct Ho as (? & _). done.
  - assert (Hp : owns k pid) by (apply Hown; eauto).
    destruct (lk_unlock pid h k (handles ps)) as (h2 & k2 & Hc & Hwf' & Ho);
      [done|by eapply handles_lookup|done|].
    rewrite H1 in Hc. injection Hc as -> <- <-. split; simpl; [by rewrite handles_insert|].
    intros q. rewrite inside_insert. split; [intros Hq; by apply Ho in Hq|].
    intros [?|[Hne Hq]]; [naive_solver|]. apply Hown in Hq.
    destruct Hne. by apply (lk_unique k (handles ps)).
  - assert (Hp : ¬ owns k pid) by by eapply lock_inv_outside.
    destruct (lk_destroy pid h k (handles ps)) as (z2 & o2 & k2 & Hc & Hwf' & Ho);
      [done|by eapply handles_lookup|done..|].
    rewrite H2 in Hc. injection Hc as <- <- <-. split; simpl; [by rewrite handles_delete|].
    intros q. rewrite inside_delete, Ho, <-Hown. split; [|naive_solver].
    intros Hq. split; [congruence|done].
  - destruct (lk_exit pid k (handles ps)) as [Hwf' Ho]; [done|].
    split; simpl; [by rewrite handles_delete|].
    intros q. rewrite inside_delete, Ho, <-Hown. naive_solver.
Qed.

Lemma lock_inv_reachable k0 st :
  wf k0 ∅ → (∀ q, ¬ owns k0 q) → reachable k0 st → lock_inv st.
Proof.
  intros Hwf Hfree. unfold reachable. remember (k0, ∅ : procs) as st0 eqn:H0. intros Hr.
  assert (Hinv : lock_inv st0).
  { subst. split; simpl; [unfold handles; by rewrite fmap_empty|]. intros pid.
    split; [intros Hp; by apply Hfree in Hp|]. intros [h Hh]. by rewrite lookup_empty in Hh. }
  clear H0. induction Hr as [|st0 st1 st2 Hs _ IH]; [done|]. by eapply IH, lock_inv_step.
Qed.

(** Mutual exclusion. *)
Lemma exclusion k0 k ps p q hp hq :
  wf k0 ∅ → (∀ q, ¬ owns k0 q) → reachable k0 (k, ps) →
  ps !! p = Some (hp, true) → ps !! q = Some (hq, true) → p = q.
Proof.
  intros Hwf Hfree Hr Hp Hq.
  destruct (lock_inv_reachable k0 (k, ps) Hwf Hfree Hr) as [Hw Ho]. simpl in *.
  apply (lk_unique k (handles ps)); [done|apply Ho; eauto..].
Qed.

(** No process waits for a dead one: a call of [lock] returns 0 at once when no
    live process is in the critical section, and waits otherwise. *)
Lemma progress k0 k ps p h :
  wf k0 ∅ → (∀ q, ¬ owns k0 q) → reachable k0 (k, ps) → ps !! p = Some (h, false) →
  ∃ h' k', lock L p (Some h) k =
    Ok (if decide (map_Forall (λ _ x, x.2 = false) ps) then Ret 0 else Blocked, Some h', k').
Proof.
  intros Hwf Hfree Hr Hp.
  pose proof (lock_inv_reachable k0 (k, ps) Hwf Hfree Hr) as Hinv.
  pose proof Hinv as [Hw Ho]. simpl in *.
  destruct (lk_lock p h k (handles ps)) as (o & h' & k' & Hl & Hc);
    [done|by eapply handles_lookup|by eapply lock_inv_outside|].
  exists h', k'. rewrite Hl. repeat f_equal. destruct o as [z|].
  - destruct Hc as (-> & _ & Hn & _). rewrite decide_True; [done|].
    intros q [hq []] Hq; [|done]. exfalso. apply (Hn q), Ho. eauto.
  - destruct Hc as (_ & _ & q & Hq). apply Ho in Hq as [hq Hq].
    rewrite decide_False; [done|]. intros Hall. by apply Hall in Hq.
Qed.

(** No call a process may make in a state is undefined: the creation of one that
    is not attached, and the lock, the unlock and the destruction of one that is,
    outside or inside the critical section.  An unlock succeeds. *)
Definition calls_defined (k : K) (ps : procs) : Prop :=
  (∀ a p, ps !! p = None → ok_create a k → ∃ r, create L a p k = Ok r) ∧
  (∀ p h, ps !! p = Some (h, false) → ∃ r, lock L p (Some h) k = Ok r) ∧
  (∀ p h, ps !! p = Some (h, true) → ∃ h' k', unlock L p (Some h) k = Ok (0, Some h', k')) ∧
  (∀ p h, ps !! p = Some (h, false) → ok_destroy k (handles ps) p h →
     ∃ r, destroy L p (Some h) k = Ok r).

Lemma reachable_defined k0 k ps :
  wf k0 ∅ → (∀ q, ¬ owns k0 q) → reachable k0 (k, ps) → calls_defined k ps.
Proof.
  intros Hwf Hfree Hr. pose proof (lock_inv_reachable k0 (k, ps) Hwf Hfree Hr) as Hinv.
  pose proof Hinv as [Hw Ho]. simpl in *. split; [|split; [|split]].
  - intros a p Hp Hok. destruct (lk_create a p k (handles ps)) as (o & k' & -> & _); [done..| |eauto].
    unfold handles. by rewrite lookup_fmap, Hp.
  - intros p h Hp. destruct (lk_lock p h k (handles ps)) as (o & h' & k' & -> & _);
      [done|by eapply handles_lookup|by eapply lock_inv_outside|eauto].
  - intros p h Hp. destruct (lk_unlock p h k (handles ps)) as (h' & k' & -> & _);
      [done|by eapply handles_lookup|apply Ho; eauto|eauto].
  - intros p h Hp Hok. destruct (lk_destroy p h k (handles ps)) as (z & o & k' & -> & _);
      [done|by eapply handles_lookup|by eapply lock_inv_outside|done|eauto].
Qed.

End clients.
