(* ===== verification/IpcFlock.v ===== *)
(** * Locks on a file: ipc_competition/ipc_flock.c

    A handle is a descriptor of the file [/tmp/<name>], created on demand with
    the directories it needs, and the lock is a write lock on the whole file.
    Record locks belong to the pair of process and file: a second request of the
    owner succeeds, and closing any descriptor of the file drops the lock.

    [flock_exclusion] gives mutual exclusion and freedom from dead owners through
    the interface of IpcLock; [flock_create_builds] is the composition with
    FileMkdir; [flock_recursion] is what recursive use really does. *)

From S2P Require Import Prelude FileMkdir IpcLock.

Record ipc_flock_t := IpcFlock { fd : Z }.

#[global] Instance ipc_flock_t_eq_dec : EqDecision ipc_flock_t.
Proof. solve_decision. Defined.

Definition MAX_FILE_LOCK_NAME_LEN := 128.

(** The characters of [/tmp/]. *)
Definition TMP : list Z := [47; 116; 109; 112; 47].

(** [S_IRWXU | S_IRWXG] *)
Definition S_IRWXUG := 504.

(** The files, and the owner of the write lock on each. *)
Record kernel := Kernel { fsys : sys; wlocks : gmap fpath Z }.

#[global] Instance kernel_eq_dec : EqDecision kernel.
Proof. solve_decision. Defined.

Inductive lock_type : Set := F_WRLCK | F_UNLCK.

(** The locks of process [pid] on file [p] are dropped. *)
Definition drop_lock (pid : Z) (p : fpath) (w : gmap fpath Z) : gmap fpath Z :=
  if decide (w !! p = Some pid) then delete p w else w.

(** [fcntl(fd, F_SETLKW, &lock)] for the whole file. *)
Definition fcntl_setlkw (pid : Z) (d : Z) (type : lock_type) (k : kernel) : outcome * kernel :=
  match fd_lookup (fsys k) d with
  | Some (FDesc o p) =>
      if decide (o = pid) then
        match type with
        | F_UNLCK => (Ret 0, Kernel (fsys k) (drop_lock pid p (wlocks k)))
        | F_WRLCK =>
            match wlocks k !! p with
            | Some q => if decide (q = pid) then (Ret 0, k) else (Blocked, k)
            | None => (Ret 0, Kernel (fsys k) (<[p := pid]> (wlocks k)))
            end
        end
      else (Ret (-1), k)
  | None => (Ret (-1), k)
  end.

(** [close(fd)] drops the process's locks on the file behind it. *)
Definition k_close (pid : Z) (d : Z) (k : kernel) : kernel :=
  match fd_lookup (fsys k) d with
  | Some (FDesc o p) =>
      if decide (o = pid) then Kernel (close (fsys k) d) (drop_lock pid p (wlocks k)) else k
  | None => k
  end.

(** [flock_simple] with [offset] and [len] 0, as the two macros in use call it. *)
Definition flock_simple (pid d : Z) (type : lock_type) (k : kernel) : outcome * kernel :=
  fcntl_setlkw pid d type k.

Definition ipc_flock_lock (pid : Z) (handle : option ipc_flock_t) (k : kernel) :
    res (outcome * option ipc_flock_t * kernel) :=
  match handle with
  | None => mret (Ret (-1), handle, k)
  | Some flock =>
      match flock_simple pid (fd flock) F_WRLCK k with
      | (Blocked, k) => mret (Blocked, handle, k)
      | (Ret ret, k) => mret (if decide (-1 = ret) then Ret (-1) else Ret 0, handle, k)
      end
  end.

Definition ipc_flock_unlock (pid : Z) (handle : option ipc_flock_t) (k : kernel) :
    res (Z * option ipc_flock_t * kernel) :=
  match handle with
  | None => mret (-1, handle, k)
  | Some flock =>
      match flock_simple pid (fd flock) F_UNLCK k with
      | (Blocked, k) => mret (-1, handle, k)
      | (Ret ret, k) => mret (if decide (-1 = ret) then -1 else 0, handle, k)
      end
  end.

(** The handle is freed. *)
Definition ipc_flock_destroy (pid : Z) (handle : option ipc_flock_t) (k : kernel) :
    res (Z * option ipc_flock_t * kernel) :=
  match handle with
  | None => mret (-1, handle, k)
  | Some flock => mret (0, None, k_close pid (fd flock) k)
  end.

(** What a creation depends on: the other processes, [strdup] and [calloc]. *)
Record answers := Answers { ans_env : environ; ans_dup : bool; ans_calloc : bool }.

Section create.
Context (resolve : tree → list Z → option fpath).

(** The file is made and closed again: its closing also drops locks. *)
Definition make_file (a : answers) (pid : Z) (path : list Z) (k : kernel) : res kernel :=
  r ← fs_mkdirs (ans_env a) pid (ans_dup a) path S_IRWXUG (fsys k);
  let c := fs_create_file (ans_env a) resolve pid path S_IRWXUG r.2 in
  mret (Kernel c.2 (match c.1, resolve (nodes c.2) path with
                    | None, Some p => drop_lock pid p (wlocks k)
                    | _, _ => wlocks k
                    end)).

Definition ipc_flock_create (name : option (list Z)) (a : answers) (pid : Z) (k : kernel) :
    res (option ipc_flock_t * kernel) :=
  match name with
  | None => mret (None, k)
  | Some name =>
      flock_name ← sprintf_path MAX_FILE_LOCK_NAME_LEN TMP name;
      let x := access (ans_env a) resolve flock_name (fsys k) in
      let k := Kernel x.2 (wlocks k) in
      k ← (if (x.1 : bool) then mret k else make_file a pid flock_name k);
      if negb (ans_calloc a) then mret (None, k)
      else
        let o := open_rdwr (ans_env a) resolve pid flock_name (fsys k) in
        let k := Kernel o.2 (wlocks k) in
        match o.1 with
        | inl _ => mret (None, k)
        | inr d => mret (Some (IpcFlock d), k)
        end
  end.

End create.

(** The kernel closes the descriptors of a process that ends and drops its
    locks. *)
Definition exit_flock (pid : Z) (k : kernel) : kernel :=
  Kernel (Sys (nodes (fsys k)) (filter (λ x, fd_pid x.2 ≠ pid) (fds (fsys k))) (tick (fsys k)))
         (filter (λ x, x.2 ≠ pid) (wlocks k)).

Definition flock_ops (resolve : tree → list Z → option fpath) (name : list Z) :
    ipc_lock_t answers kernel ipc_flock_t :=
  IpcLock _ _ _ (ipc_flock_create resolve (Some name)) ipc_flock_lock ipc_flock_unlock
    ipc_flock_destroy exit_flock.

(** The functions on a handle whose descriptor is open on [P]. *)
Lemma flock_lock_eq P k pid h :
  fd_lookup (fsys k) (fd h) = Some (FDesc pid P) →
  ipc_flock_lock pid (Some h) k =
    Ok match wlocks k !! P with
       | None => (Ret 0, Some h, Kernel (fsys k) (<[P := pid]> (wlocks k)))
       | Some q => (if decide (q = pid) then Ret 0 else Blocked, Some h, k)
       end.
Proof.
  intros Hh. unfold ipc_flock_lock, flock_simple, fcntl_setlkw. rewrite Hh, decide_True by done.
  destruct (wlocks k !! P) as [q|]; [|done]. by destruct (decide (q = pid)).
Qed.

Lemma flock_unlock_eq P k pid h :
  fd_lookup (fsys k) (fd h) = Some (FDesc pid P) →
  ipc_flock_unlock pid (Some h) k = Ok (0, Some h, Kernel (fsys k) (drop_lock pid P (wlocks k))).
Proof.
  intros Hh. unfold ipc_flock_unlock, flock_simple, fcntl_setlkw. by rewrite Hh, decide_True by done.
Qed.

(** ** The interface *)

Section laws.
Context (resolve : tree → list Z → option fpath) (name : list Z) (P : fpath).

(** The name always leads to the same file, once it leads anywhere. *)
Hypothesis resolve_stable : ∀ n p, resolve n (TMP ++ name) = Some p → p = P.
Hypothesis name_chars : Forall (λ c, c ≠ 0) name.
Hypothesis name_fits : (length name ≤ 122)%nat.

(** [strdup] finds memory, and nobody removes or replaces the lock file: locks
    belong to the file and not to its name. *)
Definition flock_ok_create (a : answers) (_ : kernel) : Prop :=
  ans_dup a = true ∧
  ∀ t n m, n !! P = Some (KFile m) → interfere (ans_env a) t n !! P = Some (KFile m).
Definition flock_ok_destroy (_ : kernel) (_ : gmap Z ipc_flock_t) (_ : Z) (_ : ipc_flock_t) : Prop :=
  True.

Definition flock_owns (k : kernel) (pid : Z) : Prop := wlocks k !! P = Some pid.
Definition flock_wf (k : kernel) (hs : gmap Z ipc_flock_t) : Prop :=
  (∀ pid h, hs !! pid = Some h → fd_lookup (fsys k) (fd h) = Some (FDesc pid P)) ∧
  (∀ pid, flock_owns k pid → is_Some (hs !! pid)).

Lemma drop_lock_other pid p w q : w !! P = Some q → q ≠ pid → drop_lock pid p w !! P = Some q.
Proof.
  intros Hw Hq. unfold drop_lock. case_decide as Hd; [|done].
  destruct (decide (p = P)) as [->|]; [congruence|]. by rewrite lookup_delete_ne.
Qed.

Lemma drop_lock_back pid p w q : drop_lock pid p w !! P = Some q → w !! P = Some q.
Proof.
  unfold drop_lock. case_decide; [|done]. intros Hd. by apply lookup_delete_Some in Hd as [_ ?].
Qed.

Lemma make_file_ok a pid k :
  flock_ok_create a k → ¬ flock_owns k pid →
  ∃ k', make_file resolve a pid (TMP ++ name) k = Ok k' ∧ fds (fsys k') = fds (fsys k) ∧
    ∀ q, flock_owns k' q ↔ flock_owns k q.
Proof.
  intros [Hdup _] Hno. unfold make_file. rewrite Hdup.
  destruct (fs_mkdirs_run (ans_env a) pid (116 :: 109 :: 112 :: 47 :: name) S_IRWXUG (fsys k))
    as (r & s1 & Hr & Hf & _); [repeat constructor; done|].
  change (SLASH :: 116 :: 109 :: 112 :: 47 :: name) with (TMP ++ name) in Hr.
  rewrite Hr, bind_Ok. cbn [fst snd]. eexists. split; [done|]. cbn [fsys]. split.
  - rewrite <-Hf. unfold fs_create_file, creat, enter.
    destruct (fault _ (tick s1)); [done|]. cbn [nodes].
    destruct (resolve _ (TMP ++ name)) as [p|]; [|done].
    assert (Hn : ∀ n t, fds (close (new_fd pid p (Sys n (fds s1) t)).2 (new_fd pid p (Sys n (fds s1) t)).1)
                  = fds s1).
    { intros n t. by eapply holds_close, new_fd_holds. }
    destruct (kind_at _ p) as [[]|]; (done || apply Hn).
  - intros q. unfold flock_owns in *. cbn [wlocks].
    destruct (fs_create_file _ _ _ _ _ _) as [[z|] s2]; cbn [fst snd]; [done|].
    destruct (resolve (nodes s2) (TMP ++ name)) as [p|]; [|done]. split.
    + by intros ?%drop_lock_back.
    + intros Hq. apply drop_lock_other; congruence.
Qed.

Lemma fd_lookup_fds s s' d : fds s' = fds s → fd_lookup s' d = fd_lookup s d.
Proof. intros Hf. unfold fd_lookup. by rewrite Hf. Qed.

(** A new descriptor does not disturb the others. *)
Lemma fd_lookup_new pid p s d x :
  fd_lookup s d = Some x → fd_lookup (new_fd pid p s).2 d = Some x.
Proof.
  unfold fd_lookup. case_decide; [|done]. intros Hd. cbn [new_fd fds snd].
  rewrite lookup_insert_ne; [done|]. intros Heq.
  pose proof (is_fresh (dom (fds s))) as Hfr. rewrite Heq in Hfr.
  apply Hfr. by apply elem_of_dom_2 in Hd.
Qed.

Lemma flock_wf_fds k k' hs :
  fds (fsys k') = fds (fsys k) → (∀ q, flock_owns k' q ↔ flock_owns k q) →
  flock_wf k hs → flock_wf k' hs.
Proof.
  intros Hf Ho [H1 H2]. split.
  - intros q h Hq. rewrite (fd_lookup_fds _ _ _ Hf). by apply H1.
  - intros q Hq. by apply H2, Ho.
Qed.

(** The last part of the creation, on any file system. *)
Lemma open_rdwr_cases a pid k hs :
  flock_wf k hs → hs !! pid = None →
  match open_rdwr (ans_env a) resolve pid (TMP ++ name) (fsys k) with
  | (inl _, s) => flock_wf (Kernel s (wlocks k)) hs
  | (inr d, s) => flock_wf (Kernel s (wlocks k)) (<[pid := IpcFlock d]> hs)
  end.
Proof.
  intros Hwf Hno. unfold open_rdwr, enter.
  destruct (fault _ (tick (fsys k))); [by eapply flock_wf_fds|].
  cbn [nodes]. destruct (resolve _ (TMP ++ name)) as [p|] eqn:Hp; [|by eapply flock_wf_fds].
  apply resolve_stable in Hp as ->.
  destruct (kind_at _ P) as [[]|]; [by eapply flock_wf_fds| |by eapply flock_wf_fds..].
  set (s1 := Sys _ (fds (fsys k)) _). destruct Hwf as [H1 H2]. split.
  - intros q h Hq. destruct (decide (q = pid)) as [->|Hne].
    + rewrite lookup_insert_eq in Hq. injection Hq as <-. cbn [fd fsys].
      apply (holds_lookup pid (fds (fsys k))). by apply new_fd_holds.
    + rewrite lookup_insert_ne in Hq by done. cbn [fsys].
      apply fd_lookup_new. rewrite (fd_lookup_fds (fsys k) s1) by done. by apply H1.
  - intros q Hq. rewrite lookup_insert_is_Some'. right. by apply H2.
Qed.

Lemma flock_create_law a pid k hs :
  flock_wf k hs → flock_ok_create a k → hs !! pid = None →
  ∃ o k', ipc_flock_create resolve (Some name) a pid k = Ok (o, k') ∧
    flock_wf k' (match o with Some h => <[pid := h]> hs | None => hs end) ∧
    ∀ q, flock_owns k' q ↔ flock_owns k q.
Proof using resolve_stable name_chars name_fits.
  intros Hwf Hok Hno. unfold ipc_flock_create, sprintf_path.
  rewrite decide_True by (rewrite length_app; simpl; unfold MAX_FILE_LOCK_NAME_LEN; lia).
  rewrite bind_Ok. cbv zeta.
  assert (Hpid : ¬ flock_owns k pid).
  { intros Hp. apply Hwf in Hp as [? ?]. congruence. }
  set (x := access _ _ _ _).
  assert (Hx : fds x.2 = fds (fsys k)).
  { unfold x, access, enter. by destruct (fault _ _). }
  assert (Hwf0 : flock_wf (Kernel x.2 (wlocks k)) hs) by by eapply (flock_wf_fds k).
  assert (∃ k1, (if (x.1 : bool) then mret (Kernel x.2 (wlocks k))
      else make_file resolve a pid (TMP ++ name) (Kernel x.2 (wlocks k))) = Ok k1 ∧
      flock_wf k1 hs ∧ ∀ q, flock_owns k1 q ↔ flock_owns k q) as (k1 & -> & Hwf1 & Ho1).
  { destruct x.1; [by eexists|].
    destruct (make_file_ok a pid (Kernel x.2 (wlocks k)) Hok Hpid) as (k1 & -> & Hf & Ho).
    exists k1. split; [done|]. split; [by eapply flock_wf_fds|exact Ho]. }
  rewrite bind_Ok. destruct (ans_calloc a); simpl negb; cbv iota; [|by eexists _, _].
  pose proof (open_rdwr_cases a pid k1 hs Hwf1 Hno) as Hop.
  destruct (open_rdwr _ _ _ _ _) as [[e|d] s2]; by eexists _, _.
Qed.

Lemma flock_lock_law pid h k hs :
  flock_wf k hs → hs !! pid = Some h → ¬ flock_owns k pid →
  ∃ o h' k', ipc_flock_lock pid (Some h) k = Ok (o, Some h', k') ∧
    match o with
    | Ret z => z = 0 ∧ flock_wf k' (<[pid := h']> hs) ∧
               (∀ q, ¬ flock_owns k q) ∧ (∀ q, flock_owns k' q ↔ q = pid)
    | Blocked => flock_wf k' (<[pid := h']> hs) ∧ (∀ q, flock_owns k' q ↔ flock_owns k q) ∧
                 ∃ q, flock_owns k q
    end.
Proof.
  intros Hwf Hh Hno. pose proof Hwf as [H1 H2]. rewrite (flock_lock_eq P) by eauto.
  unfold flock_owns in *.
  destruct (wlocks k !! P) as [q|] eqn:Hw.
  - rewrite decide_False by congruence. eexists Blocked, _, _. split; [done|].
    rewrite (insert_id hs pid h) by done. split; [done|]. rewrite Hw. split; [done|]. eauto.
  - eexists (Ret 0), _, _. split; [done|]. split; [done|]. cbn [wlocks].
    rewrite (insert_id hs pid h) by done. split; [|split; [done|]].
    + split; [done|]. intros q Hq. unfold flock_owns in Hq. simpl in Hq.
      rewrite lookup_insert_eq in Hq. injection Hq as <-. eauto.
    + intros q. rewrite lookup_insert_eq. naive_solver.
Qed.

Lemma flock_unlock_law pid h k hs :
  flock_wf k hs → hs !! pid = Some h → flock_owns k pid →
  ∃ h' k', ipc_flock_unlock pid (Some h) k = Ok (0, Some h', k') ∧
    flock_wf k' (<[pid := h']> hs) ∧ ∀ q, ¬ flock_owns k' q.
Proof.
  intros [H1 H2] Hh Hown. rewrite (flock_unlock_eq P) by eauto. eexists _, _. split; [done|].
  unfold flock_wf, flock_owns in *. cbn [wlocks fsys]. unfold drop_lock.
  rewrite decide_True by done. rewrite lookup_delete_eq, (insert_id hs) by done. naive_solver.
Qed.

Lemma flock_destroy_law pid h k hs :
  flock_wf k hs → hs !! pid = Some h → ¬ flock_owns k pid →
  ∃ z o k', ipc_flock_destroy pid (Some h) k = Ok (z, o, k') ∧
    flock_wf k' (delete pid hs) ∧ ∀ q, flock_owns k' q ↔ flock_owns k q.
Proof.
  intros [H1 H2] Hh Hno. unfold ipc_flock_destroy, k_close.
  eexists _, _, _. split; [done|]. rewrite (H1 _ _ Hh). rewrite decide_True by done.
  unfold drop_lock. rewrite decide_False by done. split; [|done]. split.
  - intros q hq Hq. apply lookup_delete_Some in Hq as [Hne Hq].
    pose proof (H1 _ _ Hq) as Hlq. pose proof (H1 _ _ Hh) as Hlp. revert Hlq Hlp.
    unfold fd_lookup. cbn [fsys close fds]. repeat case_decide; try done. intros Hlq Hlp.
    rewrite lookup_delete_ne; [done|]. congruence.
  - intros q Hq. change (flock_owns k q) in Hq.
    destruct (H2 _ Hq) as [hq Hhq]. exists hq. rewrite lookup_delete_ne; [done|]. congruence.
Qed.

Lemma flock_exit_law pid k hs :
  flock_wf k hs →
  flock_wf (exit_flock pid k) (delete pid hs) ∧
  ∀ q, flock_owns (exit_flock pid k) q ↔ flock_owns k q ∧ q ≠ pid.
Proof.
  intros [H1 H2].
  assert (Ho : ∀ q, flock_owns (exit_flock pid k) q ↔ flock_owns k q ∧ q ≠ pid).
  { intros q. unfold flock_owns. cbn [exit_flock wlocks]. by rewrite map_lookup_filter_Some. }
  split; [|done]. split.
  - intros q hq Hq. apply lookup_delete_Some in Hq as [Hne Hq].
    pose proof (H1 _ _ Hq) as Hlq. revert Hlq. unfold fd_lookup. cbn [exit_flock fsys fds].
    case_decide; [|done]. intros Hlq. apply map_lookup_filter_Some. split; [done|]. simpl. congruence.
  - intros q [Hq Hne]%Ho. destruct (H2 _ Hq) as [hq Hhq]. exists hq. by rewrite lookup_delete_ne by done.
Qed.

#[global] Instance flock_laws :
  LockLaws (flock_ops resolve name) flock_ok_create flock_ok_destroy flock_wf flock_owns.
Proof using resolve_stable name_chars name_fits.
  split.
  - unfold flock_owns. intros. congruence.
  - exact flock_create_law.
  - exact flock_lock_law.
  - exact flock_unlock_law.
  - intros. by apply flock_destroy_law.
  - exact flock_exit_law.
Qed.

End laws.

(** ** Creation, locking and recursion *)

(** The steps of [make_file] when nothing stands in the way. *)
Lemma make_file_builds resolve `{!PathWalk resolve} pid rest k :
  let dirs := dirs_of false [] rest in
  let P := dirs ++ [base_of [] rest] in
  Forall (λ c, c ≠ 0) rest →
  unobstructed (nodes (fsys k)) [] dirs →
  Forall (λ name, bad_segment name = false) (dirs ++ [base_of [] rest]) →
  nodes (fsys k) !! P = None →
  ∃ k', make_file resolve (Answers quiet true true) pid (SLASH :: rest) k = Ok k' ∧
    nodes (fsys k') !! P = Some (KFile S_IRWXUG) ∧
    (∀ i, (i ≤ length dirs)%nat → is_dir (nodes (fsys k')) (take i dirs)) ∧
    fds (fsys k') = fds (fsys k).
Proof.
  intros dirs P Hr Hu Hb HP. apply Forall_app in Hb as [Hbd Hbb].
  inversion Hbb as [|?? Hbase _]; subst.
  destruct (fs_mkdirs_friendly quiet pid rest S_IRWXUG (fsys k)) as (s1 & Hrun & Hdirs);
    [done|by split|done..|].
  destruct (fs_mkdirs_run quiet pid rest S_IRWXUG (fsys k) Hr) as (r & s1' & Hrun' & Hf & Hadd).
  assert (r = 0 ∧ s1' = s1) as [-> ->] by (rewrite Hrun in Hrun'; by simplify_eq).
  assert (HP1 : nodes s1 !! P = None).
  { destruct (Hadd (λ q _, ∃ i, q = take i dirs)) as [_ Ha]; [done|eauto|].
    apply eq_None_not_Some. intros [kd Hkd]. destruct (Ha _ _ Hkd) as [?|[i Hi]]; [congruence|].
    apply (f_equal length) in Hi. unfold P in Hi. rewrite length_app, length_take in Hi. simpl in Hi. lia. }
  unfold make_file. cbn [ans_env ans_dup]. rewrite Hrun, bind_Ok. cbn [snd].
  assert (Hres : ∀ n, (∀ i, (i ≤ length dirs)%nat → is_dir n (take i dirs)) →
    n !! P ≠ Some KLink → resolve n (SLASH :: rest) = Some P).
  { intros n Hn1 Hn2. by apply resolve_plain. }
  assert (Hk : kind_at (nodes s1) P = None).
  { unfold P in *. by rewrite kind_at_snoc. }
  eexists. split; [done|]. unfold fs_create_file, creat, enter. cbn [fault quiet calm interfere nodes fds tick].
  rewrite Hres by (done || congruence). rewrite Hk. cbn [fst snd fsys close new_fd nodes fds].
  split; [by rewrite lookup_insert_eq|]. split.
  - intros i Hi. destruct (Hdirs i Hi) as [m Hm]. exists m.
    fold dirs in Hm. destruct (take i dirs) as [|x l] eqn:Ht; [done|]. simpl in *.
    rewrite lookup_insert_ne; [done|]. intros Heq. rewrite <-Ht in Heq.
    apply (f_equal length) in Heq. unfold P in Heq. rewrite length_app, length_take in Heq. simpl in Heq. lia.
  - rewrite Nat2Z.id, delete_insert_id; [done|]. apply not_elem_of_dom, is_fresh.
Qed.

(** C9: (invariant) With the file locks, whatever processes create, lock, unlock,
    destroy and die in whatever order, each holding at most one handle: at most
    one process is in the critical section at any time; a process that asks for
    the lock gets it at once exactly when no live process is inside, also after
    owners have died; and no call a process may make is undefined.  Conditions:
    the name is a string of at most 122 characters that leads to one and the same
    file whenever it leads anywhere, nobody removes or replaces that file, and
    [strdup], whose result the creation does not check, finds memory.  Inside a
    creation other processes may change the rest of the tree between the system
    calls, and any of these may fail. *)
Theorem flock_exclusion resolve name P k0 k ps :
  (∀ n p, resolve n (TMP ++ name) = Some p → p = P) →
  Forall (λ c, c ≠ 0) name → (length name ≤ 122)%nat →
  wlocks k0 !! P = None →
  reachable (flock_ops resolve name) (flock_ok_create P) flock_ok_destroy k0 (k, ps) →
  (∀ p q hp hq, ps !! p = Some (hp, true) → ps !! q = Some (hq, true) → p = q) ∧
  (∀ p h, ps !! p = Some (h, false) →
     ∃ h' k', ipc_flock_lock p (Some h) k =
       Ok (if decide (map_Forall (λ _ x, x.2 = false) ps) then Ret 0 else Blocked, Some h', k')) ∧
  calls_defined (flock_ops resolve name) (flock_ok_create P) flock_ok_destroy k ps.
Proof.
  intros Hres Hch Hfit Hfree Hr.
  pose proof (flock_laws resolve name P Hres Hch Hfit) as HL.
  assert (Hwf : flock_wf P k0 ∅).
  { split; [done|]. unfold flock_owns. congruence. }
  assert (Hno : ∀ q, ¬ flock_owns P k0 q) by (unfold flock_owns; congruence).
  split; [|split].
  - intros p q hp hq. by apply (exclusion _ _ _ k0 k ps).
  - intros p h. by apply (progress (flock_ops resolve name) (flock_ok_create P) flock_ok_destroy k0 k ps).
  - by apply (reachable_defined _ _ _ k0).
Qed.

(** The first creation on a name whose directories can be made:
    the function returns a handle, the directories and the file exist
    afterwards, and the handle's descriptor is open on that file. *)
Lemma flock_create_builds resolve `{!PathWalk resolve} pid name k :
  let rest := [116; 109; 112; 47] ++ name in
  let P := dirs_of false [] rest ++ [base_of [] rest] in
  (∀ n p, resolve n (TMP ++ name) = Some p → p = P) →
  Forall (λ c, c ≠ 0) name → (length name ≤ 122)%nat →
  unobstructed (nodes (fsys k)) [] (dirs_of false [] rest) →
  Forall (λ s, bad_segment s = false) P →
  nodes (fsys k) !! P = None →
  ∃ f k', ipc_flock_create resolve (Some name) (Answers quiet true true) pid k = Ok (Some f, k') ∧
    (∀ i, (i ≤ length (dirs_of false [] rest))%nat →
       is_dir (nodes (fsys k')) (take i (dirs_of false [] rest))) ∧
    nodes (fsys k') !! P = Some (KFile S_IRWXUG) ∧
    fd_lookup (fsys k') (fd f) = Some (FDesc pid P).
Proof.
  intros rest P Hres Hch Hfit Hu Hb HP. unfold ipc_flock_create, sprintf_path.
  rewrite decide_True by (rewrite length_app; simpl; unfold MAX_FILE_LOCK_NAME_LEN; lia).
  rewrite bind_Ok. cbv zeta. cbn [ans_env ans_calloc negb].
  assert (Hx : access quiet resolve (TMP ++ name) (fsys k) =
               (false, Sys (nodes (fsys k)) (fds (fsys k)) (S (tick (fsys k))))).
  { unfold access, enter. simpl. destruct (resolve _ _) as [p|] eqn:Hp; [|done].
    apply Hres in Hp as ->. rewrite bool_decide_false; [done|]. unfold P.
    rewrite kind_at_snoc. fold P. rewrite HP. by intros [? ?]. }
  rewrite Hx. cbn [fst snd].
  destruct (make_file_builds resolve pid rest
    (Kernel (Sys (nodes (fsys k)) (fds (fsys k)) (S (tick (fsys k)))) (wlocks k)))
    as (k1 & Hmk & Hfile & Hdirs & _); [by apply Forall_app; repeat constructor|done..|].
  change (SLASH :: rest) with (TMP ++ name) in Hmk. rewrite Hmk, bind_Ok.
  fold P in Hfile.
  assert (Hr1 : resolve (nodes (fsys k1)) (TMP ++ name) = Some P).
  { change (TMP ++ name) with (SLASH :: rest). apply resolve_plain; [done| |].
    - by apply Forall_app in Hb as [_ Hb]; inversion Hb.
    - fold P. congruence. }
  unfold open_rdwr, enter. cbn [quiet calm fault interfere nodes fds tick]. rewrite Hr1.
  assert (Hkind : kind_at (nodes (fsys k1)) P = Some (KFile S_IRWXUG)).
  { unfold P. by rewrite kind_at_snoc. }
  rewrite Hkind. eexists _, _. split; [done|]. split; [done|]. split; [done|].
  cbn [fsys snd fd]. eapply holds_lookup, new_fd_holds. done.
Qed.

(** Recursive use: the owner may take the lock again, as the
    comment at the top of the file says, but the locks are not counted.  One
    unlock releases it, and another process enters while the first still counts
    on its outer lock. *)
Lemma flock_recursion P k hs pid h q hq :
  flock_wf P k hs → hs !! pid = Some h → hs !! q = Some hq → pid ≠ q →
  (∀ x, ¬ flock_owns P k x) →
  ∃ k1 k2 k3,
    ipc_flock_lock pid (Some h) k = Ok (Ret 0, Some h, k1) ∧
    ipc_flock_lock pid (Some h) k1 = Ok (Ret 0, Some h, k1) ∧
    ipc_flock_lock q (Some hq) k1 = Ok (Blocked, Some hq, k1) ∧
    ipc_flock_unlock pid (Some h) k1 = Ok (0, Some h, k2) ∧
    ipc_flock_lock q (Some hq) k2 = Ok (Ret 0, Some hq, k3) ∧ flock_owns P k3 q.
Proof.
  intros [H1 _] Hh Hq Hne Hfree. unfold flock_owns in *.
  assert (Hw : wlocks k !! P = None) by (apply eq_None_not_Some; intros [x Hx]; by eapply Hfree).
  eexists _, _, _.
  rewrite (flock_lock_eq P k) by eauto. rewrite Hw. split; [done|].
  rewrite !(flock_lock_eq P (Kernel _ _)), !(flock_unlock_eq P) by (simpl; eauto).
  cbn [wlocks fsys]. rewrite !lookup_insert_eq.
  rewrite (decide_True (P := pid = pid)), (decide_False (P := pid = q)) by done.
  split; [done|]. split; [done|]. split; [done|].
  rewrite (flock_lock_eq P (Kernel _ _)) by (simpl; eauto). cbn [wlocks fsys]. unfold drop_lock.
  rewrite lookup_insert_eq, (decide_True (P := Some pid = Some pid)) by done.
  rewrite lookup_delete_eq. split; [done|]. cbn [wlocks]. by rewrite lookup_insert_eq.
Qed.

(** ** Witnesses *)

Definition ex_name : list Z := [97; 47; 108].
Definition ex_path : fpath := [[116; 109; 112]; [97]; [108]].
Definition ex_kernel : kernel := Kernel (Sys {[ [[116; 109; 112]] := KDir 511 ]} ∅ 0) ∅.
Definition ex_answers : answers := Answers quiet true true.

Lemma ex_stable n p : resolve_nofollow n (TMP ++ ex_name) = Some p → p = ex_path.
Proof. unfold resolve_nofollow. simpl. case_match; [|done]. by intros [= <-]. Qed.

(** Two processes attach and the first takes the lock. *)
Lemma ex_flock_run :
  ∃ k h1 h2,
    reachable (flock_ops resolve_nofollow ex_name) (flock_ok_create ex_path) flock_ok_destroy
      ex_kernel (k, {[ 1 := (h1, true); 2 := (h2, false) ]}).
Proof.
  eexists _, _, _. unfold reachable.
  eapply rtc_l.
  { apply (step_create _ _ _ ex_answers 1); [done|by split|vm_compute; reflexivity]. }
  eapply rtc_l.
  { apply (step_create _ _ _ ex_answers 2); [done|by split|vm_compute; reflexivity]. }
  eapply rtc_l.
  { eapply (step_lock _ _ _ 1); [by vm_compute|vm_compute; reflexivity]. }
  match goal with |- rtc _ (?a, ?x) (_, ?y) => replace y with x by reflexivity end.
  apply rtc_refl.
Qed.

Lemma flock_exclusion_witness :
  ∃ k h1 h2 h' k',
    reachable (flock_ops resolve_nofollow ex_name) (flock_ok_create ex_path) flock_ok_destroy
      ex_kernel (k, {[ 1 := (h1, true); 2 := (h2, false) ]}) ∧
    ipc_flock_lock 2 (Some h2) k = Ok (Blocked, Some h', k').
Proof.
  destruct ex_flock_run as (k & h1 & h2 & Hr). exists k, h1, h2.
  destruct (flock_exclusion resolve_nofollow ex_name ex_path ex_kernel k _ ex_stable
    ltac:(repeat constructor; done) ltac:(simpl; lia) eq_refl Hr) as [_ [H _]].
  destruct (H 2 h2 eq_refl) as (h' & k' & Hl). exists h', k'. split; [exact Hr|].
  rewrite Hl, decide_False; [reflexivity|]. intros Hall. by specialize (Hall 1 (h1, true) eq_refl).
Defined.

Lemma flock_create_builds_witness :
  ∃ f k', ipc_flock_create resolve_nofollow (Some ex_name) ex_answers 1 ex_kernel = Ok (Some f, k') ∧
    nodes (fsys k') !! ex_path = Some (KFile S_IRWXUG).
Proof.
  destruct (flock_create_builds resolve_nofollow 1 ex_name ex_kernel ex_stable) as (f & k' & H1 & _ & H2 & _).
  - repeat constructor; done.
  - simpl; lia.
  - intros i k Hi Hk. simpl in Hi. destruct i as [|[|[|i]]]; [lia| | |lia].
    + vm_compute in Hk. injection Hk as <-. by eexists.
    + vm_compute in Hk. discriminate.
  - repeat constructor.
  - reflexivity.
  - exists f, k'. split; [exact H1|exact H2].
Defined.

Definition ex_open : kernel :=
  Kernel (Sys ∅ {[ 0%nat := FDesc 1 ex_path; 1%nat := FDesc 2 ex_path ]} 0) ∅.

Lemma flock_recursion_witness :
  ∃ k1 k2 k3, ipc_flock_lock 1 (Some (IpcFlock 0)) k1 = Ok (Ret 0, Some (IpcFlock 0), k1) ∧
    ipc_flock_unlock 1 (Some (IpcFlock 0)) k1 = Ok (0, Some (IpcFlock 0), k2) ∧
    ipc_flock_lock 2 (Some (IpcFlock 1)) k2 = Ok (Ret 0, Some (IpcFlock 1), k3).
Proof.
  destruct (flock_recursion ex_path ex_open {[ 1 := IpcFlock 0; 2 := IpcFlock 1 ]}
    1 (IpcFlock 0) 2 (IpcFlock 1)) as (k1 & k2 & k3 & _ & H2 & _ & H4 & H5 & _).
  - split; [|done]. intros pid h Hp.
    apply lookup_insert_Some in Hp as [[<- <-]|[_ Hp]]; [reflexivity|].
    apply lookup_singleton_Some in Hp as [<- <-]. reflexivity.
  - reflexivity.
  - reflexivity.
  - done.
  - done.
  - exists k1, k2, k3. split; [exact H2|]. split; [exact H4|exact H5].
Defined.
