(* ===== verification/RobustMutex.v ===== *)
(** * Process-shared mutexes of the pthread library

    What the lock components use of [pthread_mutex_t]: a default (not recursive)
    mutex, robust or not, as POSIX describes it.  Locking a default mutex again
    by its owner is undefined (an implementation may deadlock, report an error or
    count).  A robust mutex whose owner ends is handed to the next caller with
    [EOWNERDEAD]; the caller repairs it with [pthread_mutex_consistent], and a
    mutex unlocked without repair is lost ([ENOTRECOVERABLE]).  A mutex that is not robust stays locked for ever. *)

From S2P Require Import Prelude IpcLock.

Record mutexattr := MutexAttr { pshared : bool; robust : bool }.

(** [pthread_mutexattr_init]: private and stalled. *)
Definition attr_init : mutexattr := MutexAttr false false.
Definition attr_setpshared (a : mutexattr) : mutexattr := MutexAttr true (robust a).
Definition attr_setrobust (a : mutexattr) : mutexattr := MutexAttr (pshared a) true.

Record mutex := Mutex {
  m_attr : mutexattr;
  m_owner : option Z;
  m_dead : bool;          (** the last owner ended while holding it *)
  m_inconsistent : bool;  (** taken over from a dead owner and not repaired *)
  m_lost : bool           (** unlocked without repair *)
}.

#[global] Instance mutexattr_eq_dec : EqDecision mutexattr.
Proof. solve_decision. Defined.

#[global] Instance mutex_eq_dec : EqDecision mutex.
Proof. solve_decision. Defined.

Definition mutex_init (a : mutexattr) : mutex := Mutex a None false false false.

Definition mutex_lock (pid : Z) (m : mutex) : res (outcome * mutex) :=
  if m_lost m then mret (Ret ENOTRECOVERABLE, m)
  else
    match m_owner m with
    | Some q => if decide (q = pid) then Ub BadCall else mret (Blocked, m)
    | None =>
        if m_dead m then mret (Ret EOWNERDEAD, Mutex (m_attr m) (Some pid) false true false)
        else mret (Ret 0, Mutex (m_attr m) (Some pid) false false false)
    end.

Definition mutex_consistent (pid : Z) (m : mutex) : Z * mutex :=
  if decide (m_owner m = Some pid ∧ m_inconsistent m = true)
  then (0, Mutex (m_attr m) (Some pid) false false false)
  else (EINVAL, m).

Definition mutex_unlock (pid : Z) (m : mutex) : Z * mutex :=
  if decide (m_owner m = Some pid)
  then (0, Mutex (m_attr m) None false false (m_inconsistent m))
  else (EPERM, m).

(** The kernel's part when process [pid] ends. *)
Definition mutex_exit (pid : Z) (m : mutex) : mutex :=
  if decide (m_owner m = Some pid ∧ robust (m_attr m) = true)
  then Mutex (m_attr m) None true false false
  else m.

(** A mutex that has always been used as intended. *)
Definition mutex_sound (m : mutex) : Prop :=
  robust (m_attr m) = true ∧ m_inconsistent m = false ∧ m_lost m = false ∧
  (m_dead m = true → m_owner m = None).

Lemma mutex_exit_sound pid m : mutex_sound m → mutex_sound (mutex_exit pid m).
Proof. intros (Hr & Hi & Hl & Hd). unfold mutex_exit. by case_decide. Qed.

Lemma mutex_exit_owner pid m q :
  mutex_sound m → m_owner (mutex_exit pid m) = Some q ↔ m_owner m = Some q ∧ q ≠ pid.
Proof.
  intros (Hr & _). unfold mutex_exit. case_decide as Hd; simpl.
  - destruct Hd as [-> _]. split; [done|]. intros [[= <-] ?]. done.
  - split; [|naive_solver]. intros Ho. split; [done|]. intros ->. apply Hd. done.
Qed.
