(* ===== verification/IpcMutex.v ===== *)
(** * Locks in shared memory: ipc_competition/ipc_mutex.c

    The handle is the address of a shared-memory object that holds a robust
    mutex, a reference count and the name.  The kernel keeps the objects, which
    of them the name is bound to, and which process maps which object.  Every
    call is one step; the creation is also split at the window between its two
    halves ([probe] and [attach]).

    [mutex_exclusion] gives mutual exclusion and recovery from dead owners
    through the interface of IpcLock, with the reference count as part of the
    invariant; [mutex_create_race] shows what two creations do to each other. *)

From S2P Require Import Prelude FileMkdir IpcLock RobustMutex.

Definition MAX_SHM_NAME_LEN := 128.

(** The characters of [/dev/shm/]. *)
Definition DEV_SHM : list Z := [47; 100; 101; 118; 47; 115; 104; 109; 47].

Record ipc_mutex_t := IpcMutex {
  im_mutex : mutex;
  im_attr : mutexattr;
  refcnt : Z;         (** short int *)
  priv_size : Z;      (** short int *)
  priv : list Z       (** the characters stored from [priv] on *)
}.

(** All bytes zero. *)
Definition zero_object : ipc_mutex_t :=
  IpcMutex (mutex_init attr_init) attr_init 0 0 [0].

Record kernel := Kernel {
  objs : gmap nat ipc_mutex_t;
  bound : option nat;          (** the object the name stands for *)
  maps : gset (Z * nat)        (** which process maps which object *)
}.

#[global] Instance ipc_mutex_t_eq_dec : EqDecision ipc_mutex_t.
Proof. solve_decision. Defined.

#[global] Instance kernel_eq_dec : EqDecision kernel.
Proof. solve_decision. Defined.

(** The answers of the kernel a creation depends on: whether the call worked. *)
Record answers := Answers { ans_shm_open : bool; ans_ftruncate : bool; ans_mmap : bool }.

(** An access through the handle. *)
Definition load (k : kernel) (pid : Z) (i : nat) : res ipc_mutex_t :=
  if decide ((pid, i) ∈ maps k) then or_ub BadPtr (objs k !! i) else Ub BadPtr.
Definition store (k : kernel) (i : nat) (o : ipc_mutex_t) : kernel :=
  Kernel (<[i := o]> (objs k)) (bound k) (maps k).

(** [access(shm_name, F_OK)]: whether the name exists. *)
Definition probe (k : kernel) : bool := bool_decide (is_Some (bound k)).

(** [shm_open(name, O_CREAT | O_RDWR, 0666)] *)
Definition shm_open (k : kernel) : nat * kernel :=
  match bound k with
  | Some i => (i, k)
  | None =>
      let i := fresh (dom (objs k)) in
      (i, Kernel (<[i := zero_object]> (objs k)) (Some i) (maps k))
  end.

Definition shm_unlink (k : kernel) : kernel := Kernel (objs k) None (maps k).

(** What the creation does after the probe.  [mmap] reports failure with
    [MAP_FAILED], which the test against [NULL] does not see. *)
Definition attach (name : list Z) (is_create : bool) (a : answers) (pid : Z) (k : kernel) :
    res (option nat * kernel) :=
  let size := Z.of_nat (length name) + 1 in
  if negb (ans_shm_open a) then mret (None, k)
  else
    let (i, k) := shm_open k in
    if negb is_create && negb (ans_ftruncate a) then mret (None, shm_unlink k)
    else if negb (ans_mmap a) then Ub BadPtr
    else
      let k := Kernel (objs k) (bound k) ({[ (pid, i) ]} ∪ maps k) in
      o ← load k pid i;
      let o := if is_create then o else zero_object in
      let attr := attr_setrobust (attr_setpshared (im_attr o)) in
      let o :=
        if is_create then IpcMutex (im_mutex o) attr (refcnt o) (priv_size o) (priv o)
        else IpcMutex (mutex_init attr) attr (refcnt o) (s16 size) (name ++ [0]) in
      let o := IpcMutex (im_mutex o) (im_attr o) (s16 (refcnt o + 1)) (priv_size o) (priv o) in
      mret (Some i, store k i o).

(** [strlen(name)] comes before the test for a null name. *)
Definition ipc_mutex_create (name : option (list Z)) (a : answers) (pid : Z) (k : kernel) :
    res (option nat * kernel) :=
  match name with
  | None => Ub NullDeref
  | Some name =>
      _ ← sprintf_path MAX_SHM_NAME_LEN DEV_SHM name;
      attach name (probe k) a pid k
  end.

(** The loop of the lock function on the object. *)
Fixpoint lock_loop (fuel : nat) (pid : Z) (o : ipc_mutex_t) : res (outcome * ipc_mutex_t) :=
  match fuel with
  | O => NoFuel
  | S fuel =>
      r ← mutex_lock pid (im_mutex o);
      match r with
      | (Blocked, m) => mret (Blocked, IpcMutex m (im_attr o) (refcnt o) (priv_size o) (priv o))
      | (Ret ret, m) =>
          if decide (EOWNERDEAD = ret) then
            let m := (mutex_consistent pid m).2 in
            let m := (mutex_unlock pid m).2 in
            lock_loop fuel pid (IpcMutex m (im_attr o) (s16 (refcnt o - 1)) (priv_size o) (priv o))
          else
            mret (Ret (if decide (0 ≠ ret) then -1 else 0),
                  IpcMutex m (im_attr o) (refcnt o) (priv_size o) (priv o))
      end
  end.

(** Two rounds are enough: after the repair the mutex is free. *)
Definition ipc_mutex_lock (pid : Z) (handle : option nat) (k : kernel) :
    res (outcome * option nat * kernel) :=
  match handle with
  | None => mret (Ret (-1), handle, k)
  | Some i =>
      o ← load k pid i;
      r ← lock_loop 2 pid o;
      mret (r.1, handle, store k i r.2)
  end.

Definition ipc_mutex_unlock (pid : Z) (handle : option nat) (k : kernel) :
    res (Z * option nat * kernel) :=
  match handle with
  | None => mret (-1, handle, k)
  | Some i =>
      o ← load k pid i;
      let (ret, m) := mutex_unlock pid (im_mutex o) in
      mret (if decide (0 ≠ ret) then -1 else 0, handle,
            store k i (IpcMutex m (im_attr o) (refcnt o) (priv_size o) (priv o)))
  end.

Definition munmap (pid : Z) (i : nat) (k : kernel) : kernel :=
  Kernel (objs k) (bound k) (maps k ∖ {[ (pid, i) ]}).

(** The 128 bytes copied from [priv] run past the mapped length; they stay in the
    page, whose rest is zero, so the copy is the stored name.  [name] is the name
    the kernel's binding is for. *)
Definition ipc_mutex_destroy (name : list Z) (pid : Z) (handle : option nat) (k : kernel) :
    res (Z * option nat * kernel) :=
  match handle with
  | None => mret (-1, handle, k)
  | Some i =>
      o ← load k pid i;
      let r := s16 (refcnt o - 1) in
      let k := store k i (IpcMutex (im_mutex o) (im_attr o) r (priv_size o) (priv o)) in
      if decide (r ≠ 0) then mret (0, None, munmap pid i k)
      else
        shm_name ← or_ub OutOfBounds (to_nul (priv o ++ replicate 128 0));
        let k := munmap pid i k in
        if decide (shm_name = name ∧ is_Some (bound k)) then mret (0, None, shm_unlink k)
        else mret (-1, None, k)
  end.

(** When a process ends, its mappings go and the robust mutexes it holds are
    marked. *)
Definition exit_mutex (pid : Z) (k : kernel) : kernel :=
  Kernel ((λ o, IpcMutex (mutex_exit pid (im_mutex o)) (im_attr o) (refcnt o) (priv_size o) (priv o))
            <$> objs k)
         (bound k) (filter (λ x, x.1 ≠ pid) (maps k)).

Definition mutex_ops (name : list Z) : ipc_lock_t answers kernel nat :=
  IpcLock _ _ _ (ipc_mutex_create (Some name)) ipc_mutex_lock ipc_mutex_unlock
    (ipc_mutex_destroy name) exit_mutex.

(** ** The interface *)

Section laws.
Context (name : list Z).
Hypothesis name_chars : Forall (λ c, c ≠ 0) name.
Hypothesis name_fits : (length name ≤ 118)%nat.

(** The mapping works, and the counter has room. *)
Definition mutex_ok_create (a : answers) (k : kernel) : Prop :=
  ans_mmap a = true ∧
  ∀ b o, bound k = Some b → objs k !! b = Some o → refcnt o < 32767.
Definition mutex_ok_destroy (_ : kernel) (_ : gmap Z nat) (_ : Z) (_ : nat) : Prop := True.

Definition owner (k : kernel) : option Z :=
  b ← bound k; o ← objs k !! b; m_owner (im_mutex o).
Definition mutex_owns (k : kernel) (pid : Z) : Prop := owner k = Some pid.

(** The object behind the name: the count covers the live processes and, until
    somebody repairs the mutex, the owner that died. *)
Record object_wf (hs : gmap Z nat) (b : nat) (o : ipc_mutex_t) : Prop := {
  ow_here pid i : hs !! pid = Some i → i = b;
  ow_sound : mutex_sound (im_mutex o);
  ow_count : Z.of_nat (size hs) + (if m_dead (im_mutex o) then 1 else 0) ≤ refcnt o < 32768;
  ow_priv : priv o = name ++ [0];
  ow_owner q : m_owner (im_mutex o) = Some q → is_Some (hs !! q)
}.

Definition mutex_wf (k : kernel) (hs : gmap Z nat) : Prop :=
  (∀ pid i, (pid, i) ∈ maps k ↔ hs !! pid = Some i) ∧
  match bound k with
  | None => hs = ∅
  | Some b => ∃ o, objs k !! b = Some o ∧ object_wf hs b o
  end.

Lemma s16_small z : -32768 ≤ z < 32768 → s16 z = z.
Proof. intros Hz. apply wrap_s_small; [lia|]. exact Hz. Qed.

(** A live handle: the object, the name and the state are in order. *)
Lemma mutex_wf_load k hs pid i :
  mutex_wf k hs → hs !! pid = Some i →
  ∃ o, bound k = Some i ∧ objs k !! i = Some o ∧ load k pid i = Ok o ∧ object_wf hs i o.
Proof.
  intros [Hm Hb] Hh. destruct (bound k) as [b|].
  - destruct Hb as (o & Ho & Hw). pose proof (ow_here _ _ _ Hw _ _ Hh) as ->.
    exists o. split; [done|]. split; [done|]. split; [|done].
    unfold load. rewrite decide_True by (by apply Hm). by rewrite Ho.
  - subst. by rewrite lookup_empty in Hh.
Qed.

Lemma owner_eq k b o : bound k = Some b → objs k !! b = Some o → owner k = m_owner (im_mutex o).
Proof. intros Hb Ho. unfold owner. rewrite Hb. simpl. by rewrite Ho. Qed.

(** Rewriting the object behind the name. *)
Lemma mutex_wf_store k hs hs' b o' :
  mutex_wf k hs → bound k = Some b → (∀ pid, hs' !! pid = hs !! pid) →
  object_wf hs' b o' → mutex_wf (store k b o') hs'.
Proof.
  intros [Hm _] Hb Hext Hw. split.
  - intros pid i. rewrite Hext. apply Hm.
  - simpl. rewrite Hb. exists o'. split; [by rewrite lookup_insert_eq|done].
Qed.

Lemma store_owner k b o : bound k = Some b → owner (store k b o) = m_owner (im_mutex o).
Proof. intros Hb. apply (owner_eq _ b); [done|]. simpl. by rewrite lookup_insert_eq. Qed.

Lemma shm_open_fresh k hs :
  mutex_wf k hs → bound k = None → hs = ∅ ∧ owner k = None.
Proof. intros [_ Hb] Hn. unfold owner. rewrite Hn in *. done. Qed.

Lemma attach_existing a pid k hs b :
  mutex_wf k hs → mutex_ok_create a k → hs !! pid = None →
  bound k = Some b → ans_shm_open a = true →
  ∃ k', attach name true a pid k = Ok (Some b, k') ∧
    mutex_wf k' (<[pid := b]> hs) ∧ owner k' = owner k.
Proof.
  intros [Hm Hb] [Hmm Hroom] Hno Hbd Hop. rewrite Hbd in Hb. destruct Hb as (o & Ho & Hw).
  unfold attach, shm_open, load. rewrite Hmm, Hbd, Hop. cbn [negb andb maps objs bound].
  rewrite decide_True by (apply elem_of_union; left; by apply elem_of_singleton).
  rewrite Ho. cbn [or_ub]. rewrite bind_Ok. eexists. split; [done|].
  split; [split; simpl|].
  - intros q i. rewrite elem_of_union, elem_of_singleton, Hm, lookup_insert_Some. naive_solver.
  - rewrite Hbd. eexists. split; [by rewrite lookup_insert_eq|]. destruct Hw as [H1 H2 H3 H4 H5].
    pose proof (Hroom b o Hbd Ho). split; simpl; try done.
    + intros q i [[_ ?]|[_ ?]]%lookup_insert_Some; [done|eauto].
    + rewrite map_size_insert_None by done. destruct (m_dead (im_mutex o)); rewrite s16_small; lia.
    + intros q Hq. apply lookup_insert_is_Some'. eauto.
  - rewrite (owner_eq k b o) by done. by rewrite store_owner by done.
Qed.

Lemma attach_new a pid k :
  mutex_wf k ∅ → mutex_ok_create a k → bound k = None → ans_shm_open a = true →
  ∃ o k', attach name false a pid k = Ok (o, k') ∧
    mutex_wf k' (match o with Some h => {[pid := h]} | None => ∅ end) ∧ owner k' = None.
Proof.
  intros [Hm _] [Hmm _] Hbd Hop. unfold attach, shm_open, load. rewrite Hmm, Hbd, Hop.
  cbn [negb andb maps objs bound]. destruct (ans_ftruncate a); cbn [negb].
  - rewrite decide_True by (apply elem_of_union; left; by apply elem_of_singleton).
    rewrite lookup_insert_eq. cbn [or_ub]. rewrite bind_Ok. eexists _, _. split; [done|].
    split; [split; simpl|].
    + intros q i. rewrite elem_of_union, elem_of_singleton, Hm, lookup_singleton_Some, lookup_empty.
      naive_solver.
    + eexists. split; [by rewrite lookup_insert_eq|]. split; simpl; try done.
      * intros q i [_ ?]%lookup_singleton_Some. done.
      * rewrite map_size_singleton. done.
    + by rewrite store_owner by done.
  - eexists _, _. split; [done|]. by split.
Qed.

Lemma mutex_create_law a pid k hs :
  mutex_wf k hs → mutex_ok_create a k → hs !! pid = None →
  ∃ o k', ipc_mutex_create (Some name) a pid k = Ok (o, k') ∧
    mutex_wf k' (match o with Some h => <[pid := h]> hs | None => hs end) ∧
    ∀ q, mutex_owns k' q ↔ mutex_owns k q.
Proof using name_fits.
  intros Hwf Hok Hno. unfold ipc_mutex_create, sprintf_path.
  rewrite decide_True by (rewrite length_app; simpl; unfold MAX_SHM_NAME_LEN; lia).
  rewrite bind_Ok. destruct (ans_shm_open a) eqn:Hop.
  2:{ unfold attach. rewrite Hop. by eexists _, _. }
  unfold probe, mutex_owns. destruct (bound k) as [b|] eqn:Hbd.
  - rewrite bool_decide_true by eauto.
    destruct (attach_existing a pid k hs b) as (k' & -> & Hwf' & Ho); [done..|].
    eexists _, _. split; [done|]. split; [done|]. by rewrite Ho.
  - rewrite bool_decide_false by (by intros [??]).
    destruct (shm_open_fresh k hs) as [-> Hk]; [done..|]. rewrite Hk.
    destruct (attach_new a pid k) as (o & k' & -> & Hwf' & Ho); [done..|].
    eexists _, _. split; [done|]. by rewrite Ho.
Qed.

(** The loop ends in the second round at the latest. *)
Lemma lock_loop_ok pid hs b o :
  object_wf hs b o → is_Some (hs !! pid) →
  match m_owner (im_mutex o) with
  | Some q => q ≠ pid → lock_loop 2 pid o = Ok (Blocked, o)
  | None => ∃ o', lock_loop 2 pid o = Ok (Ret 0, o') ∧ object_wf hs b o' ∧
              m_owner (im_mutex o') = Some pid
  end.
Proof.
  intros [H1 (Hr & Hi & Hl & Hd) H3 H4 H5] Hp. destruct o as [[at_ ow de inc lo] att rc ps pr].
  simpl in *. subst inc lo. destruct ow as [q|].
  { intros Hq. unfold mutex_lock. simpl. by rewrite decide_False. }
  destruct de.
  - cbn [lock_loop mutex_lock im_mutex m_lost m_owner m_dead m_attr].
    change (mret ?x) with (Ok x). rewrite bind_Ok, decide_True by done.
    unfold mutex_consistent. rewrite decide_True by done. unfold mutex_unlock. cbn [snd m_owner m_attr m_inconsistent].
    rewrite decide_True by done. cbn.
    eexists. split; [done|]. split; [|done]. split; simpl; try done.
    + rewrite s16_small; lia.
    + by intros q [= <-].
  - eexists. split; [done|]. split; [|done]. split; simpl; try done. by intros q [= <-].
Qed.

Lemma mutex_lock_law pid h k hs :
  mutex_wf k hs → hs !! pid = Some h → ¬ mutex_owns k pid →
  ∃ o h' k', ipc_mutex_lock pid (Some h) k = Ok (o, Some h', k') ∧
    match o with
    | Ret z => z = 0 ∧ mutex_wf k' (<[pid := h']> hs) ∧
               (∀ q, ¬ mutex_owns k q) ∧ (∀ q, mutex_owns k' q ↔ q = pid)
    | Blocked => mutex_wf k' (<[pid := h']> hs) ∧ (∀ q, mutex_owns k' q ↔ mutex_owns k q) ∧
                 ∃ q, mutex_owns k q
    end.
Proof.
  intros Hwf Hh Hno. destruct (mutex_wf_load _ _ _ _ Hwf Hh) as (o & Hb & Ho & Hld & Hw).
  unfold ipc_mutex_lock, mutex_owns in *. rewrite Hld, bind_Ok, (owner_eq k h o) by done.
  pose proof (lock_loop_ok pid hs h o Hw ltac:(eauto)) as Hlp.
  destruct (m_owner (im_mutex o)) as [q|] eqn:Hq.
  - rewrite (owner_eq k h o), Hq in Hno by done. rewrite Hlp, bind_Ok by congruence.
    eexists Blocked, h, k. split.
    { unfold store. cbn [fst snd]. rewrite insert_id by done. by destruct k. }
    rewrite (insert_id hs) by done. split; [done|]. split; [|eauto].
    intros x. by rewrite (owner_eq k h o), Hq.
  - destruct Hlp as (o' & -> & Hw' & Hq'). rewrite bind_Ok. eexists (Ret 0), _, _.
    split; [done|]. split; [done|]. rewrite (insert_id hs) by done. split; [|split; [done|]].
    + by apply (mutex_wf_store k hs).
    + intros q. rewrite store_owner by done. cbn [snd]. rewrite Hq'. naive_solver.
Qed.

Lemma mutex_unlock_law pid h k hs :
  mutex_wf k hs → hs !! pid = Some h → mutex_owns k pid →
  ∃ h' k', ipc_mutex_unlock pid (Some h) k = Ok (0, Some h', k') ∧
    mutex_wf k' (<[pid := h']> hs) ∧ ∀ q, ¬ mutex_owns k' q.
Proof.
  intros Hwf Hh Hown. destruct (mutex_wf_load _ _ _ _ Hwf Hh) as (o & Hb & Ho & Hld & Hw).
  unfold ipc_mutex_unlock, mutex_owns, mutex_unlock in *. rewrite Hld, bind_Ok.
  rewrite (owner_eq k h o) in Hown by done. rewrite decide_True by done.
  eexists _, _. split; [done|]. rewrite (insert_id hs) by done. split.
  - apply (mutex_wf_store k hs); [done..|]. destruct Hw as [H1 (Hr & Hi & Hl & Hd) H3 H4 H5].
    split; simpl; try done. destruct (m_dead (im_mutex o)); lia.
  - intros q. by rewrite store_owner.
Qed.

(** The last reference is the caller's. *)
Lemma last_reference (hs : gmap Z nat) b o pid i :
  object_wf hs b o → hs !! pid = Some i → refcnt o = 1 → delete pid hs = ∅.
Proof.
  intros Hw Hh Hr. pose proof (ow_count _ _ _ Hw) as Hc.
  apply map_size_empty_inv. rewrite map_size_delete_Some by eauto.
  destruct (m_dead _); lia.
Qed.

Lemma mutex_destroy_law pid h k hs :
  mutex_wf k hs → hs !! pid = Some h → ¬ mutex_owns k pid →
  ∃ z o k', ipc_mutex_destroy name pid (Some h) k = Ok (z, o, k') ∧
    mutex_wf k' (delete pid hs) ∧ ∀ q, mutex_owns k' q ↔ mutex_owns k q.
Proof using name_chars name_fits.
  intros Hwf Hh Hno. destruct (mutex_wf_load _ _ _ _ Hwf Hh) as (o & Hb & Ho & Hld & Hw).
  pose proof Hwf as [Hm _]. pose proof (ow_count _ _ _ Hw) as Hc.
  assert (Hsz : size (delete pid hs) = pred (size hs)) by (apply map_size_delete_Some; eauto).
  assert (Hpos : (0 < size hs)%nat).
  { apply Nat.neq_0_lt_0. intros Hz. apply map_size_empty_inv in Hz as ->. by rewrite lookup_empty in Hh. }
  assert (Hmaps : ∀ q i, (q, i) ∈ maps k ∖ {[(pid, h)]} ↔ delete pid hs !! q = Some i).
  { intros q i. rewrite elem_of_difference, elem_of_singleton, Hm, lookup_delete_Some.
    split; [|naive_solver]. intros [Hq Hne]. split; [|done]. intros <-. naive_solver. }
  unfold ipc_mutex_destroy, mutex_owns in *. rewrite Hld, bind_Ok. cbv zeta.
  rewrite (owner_eq k h o) in * by done.
  rewrite s16_small by (destruct (m_dead (im_mutex o)); lia).
  destruct (decide (refcnt o = 1)) as [Hr1|Hr1].
  - rewrite decide_False by lia. rewrite (ow_priv _ _ _ Hw), <-app_assoc. cbn [app].
    rewrite to_nul_app by done. cbn [or_ub]. rewrite bind_Ok.
    rewrite decide_True by (simpl; rewrite Hb; eauto). eexists _, _, _. split; [done|].
    pose proof (last_reference hs h o pid h Hw Hh Hr1) as He. split; [split|].
    + exact Hmaps.
    + exact He.
    + intros q. change (owner (shm_unlink _)) with (@None Z). split; [done|]. intros Hq.
      exfalso. destruct (ow_owner _ _ _ Hw q Hq) as [i Hi].
      destruct (decide (q = pid)) as [->|Hne]; [done|].
      assert (Hd : delete pid hs !! q = Some i) by (by rewrite lookup_delete_ne).
      by rewrite He, lookup_empty in Hd.
  - rewrite decide_True by lia. eexists _, _, _. split; [done|]. split; [split|].
    + exact Hmaps.
    + simpl. rewrite Hb. eexists. split; [by rewrite lookup_insert_eq|].
      destruct Hw as [H1 H2 H3 H4 H5]. split; simpl; try done.
      * intros q i [_ ?]%lookup_delete_Some. eauto.
      * rewrite Hsz. destruct (m_dead (im_mutex o)); lia.
      * intros q Hq. destruct (H5 q Hq) as [i Hi]. exists i. rewrite lookup_delete_ne; [done|]. congruence.
    + intros q. by rewrite (owner_eq _ h (IpcMutex (im_mutex o) (im_attr o) (refcnt o - 1) (priv_size o) (priv o)))
        by (simpl; rewrite ?lookup_insert_eq; done).
Qed.

Lemma mutex_exit_law pid k hs :
  mutex_wf k hs →
  mutex_wf (exit_mutex pid k) (delete pid hs) ∧
  ∀ q, mutex_owns (exit_mutex pid k) q ↔ mutex_owns k q ∧ q ≠ pid.
Proof.
  intros [Hm Hb].
  assert (Hmaps : ∀ q i, (q, i) ∈ filter (λ x, x.1 ≠ pid) (maps k) ↔ delete pid hs !! q = Some i).
  { intros q i. rewrite elem_of_filter, Hm, lookup_delete_Some. naive_solver. }
  unfold mutex_owns. destruct (bound k) as [b|] eqn:Hbd.
  - destruct Hb as (o & Ho & Hw). pose proof Hw as [H1 H2 H3 H4 H5].
    set (o' := IpcMutex (mutex_exit pid (im_mutex o)) (im_attr o) (refcnt o) (priv_size o) (priv o)).
    assert (Ho' : objs (exit_mutex pid k) !! b = Some o') by (simpl; by rewrite lookup_fmap, Ho).
    split; [split|].
    + exact Hmaps.
    + simpl. rewrite Hbd. exists o'. split; [done|]. split; simpl; try done.
      * intros q i [_ ?]%lookup_delete_Some. eauto.
      * by apply mutex_exit_sound.
      * unfold mutex_exit. case_decide as Hd; simpl.
        -- destruct Hd as [Hd _]. rewrite map_size_delete_Some by (by apply H5).
           assert (0 < size hs)%nat.
           { apply Nat.neq_0_lt_0. intros Hz. apply map_size_empty_inv in Hz as ->.
             destruct (H5 _ Hd) as [? He]. by rewrite lookup_empty in He. }
           destruct (m_dead (im_mutex o)); lia.
        -- pose proof (map_size_delete pid hs) as Hsz. destruct (hs !! pid); simpl in Hsz; rewrite Hsz;
           destruct (m_dead (im_mutex o)); lia.
      * intros q Hq. apply mutex_exit_owner in Hq as [Hq Hne]; [|done].
        destruct (H5 q Hq) as [i Hi]. exists i. by rewrite lookup_delete_ne.
    + intros q. rewrite (owner_eq (exit_mutex pid k) b o') by done.
      rewrite (owner_eq k b o) by done. by apply mutex_exit_owner.
  - subst hs. split; [split|].
    + exact Hmaps.
    + simpl. rewrite Hbd. apply delete_empty.
    + intros q. unfold owner. simpl. rewrite Hbd. naive_solver.
Qed.

#[global] Instance mutex_laws :
  LockLaws (mutex_ops name) mutex_ok_create mutex_ok_destroy mutex_wf mutex_owns.
Proof using name_chars name_fits.
  split.
  - unfold mutex_owns. intros. congruence.
  - exact mutex_create_law.
  - exact mutex_lock_law.
  - exact mutex_unlock_law.
  - intros. by apply mutex_destroy_law.
  - exact mutex_exit_law.
Qed.

End laws.

(** C1: (invariant) With the mutex in shared memory, whatever processes create,
    lock, unlock, destroy and die in whatever order, one call at a time: at most
    one process is in the critical section; a process that asks for the lock gets
    it at once exactly when no live process is inside, also when the last owner
    died and the mutex has to be repaired; and no call a process may make is
    undefined.  Conditions: the name is a string of at most 118 characters, [mmap]
    works when a handle is created, and the [short] counter has room.  (A failed
    [mmap] answers [MAP_FAILED], which the test for null misses; what two
    creations that overlap do is [mutex_create_race].) *)
Theorem mutex_exclusion name k0 k ps :
  Forall (λ c, c ≠ 0) name → (length name ≤ 118)%nat →
  bound k0 = None → maps k0 = ∅ →
  reachable (mutex_ops name) mutex_ok_create mutex_ok_destroy k0 (k, ps) →
  (∀ p q hp hq, ps !! p = Some (hp, true) → ps !! q = Some (hq, true) → p = q) ∧
  (∀ p h, ps !! p = Some (h, false) →
     ∃ h' k', ipc_mutex_lock p (Some h) k =
       Ok (if decide (map_Forall (λ _ x, x.2 = false) ps) then Ret 0 else Blocked, Some h', k')) ∧
  calls_defined (mutex_ops name) mutex_ok_create mutex_ok_destroy k ps.
Proof.
  intros Hch Hfit Hb Hm Hr.
  pose proof (mutex_laws name Hch Hfit) as HL.
  assert (Hwf : mutex_wf name k0 ∅).
  { split; [|by rewrite Hb]. intros. rewrite Hm, lookup_empty. set_solver. }
  assert (Hno : ∀ q, ¬ mutex_owns k0 q) by (intros q; unfold mutex_owns, owner; by rewrite Hb).
  split; [|split].
  - intros p q hp hq. by apply (exclusion (mutex_ops name) mutex_ok_create mutex_ok_destroy k0 k ps).
  - intros p h. by apply (progress (mutex_ops name) mutex_ok_create mutex_ok_destroy k0 k ps).
  - by apply (reachable_defined _ _ _ k0).
Qed.

(** C39: (safety) The creation asks whether the name exists and acts on the answer
    later.  When two processes ask before either acts, the second initialises
    the object again while the first is in the critical section, and both hold
    the lock. *)
Theorem mutex_create_race name a k p q :
  a = Answers true true true → bound k = None → p ≠ q →
  probe k = false ∧
  ∃ i k1 k2 k3 k4,
    attach name (probe k) a p k = Ok (Some i, k1) ∧
    ipc_mutex_lock p (Some i) k1 = Ok (Ret 0, Some i, k2) ∧ owner k2 = Some p ∧
    attach name (probe k) a q k2 = Ok (Some i, k3) ∧
    ipc_mutex_lock q (Some i) k3 = Ok (Ret 0, Some i, k4) ∧ owner k4 = Some q.
Proof.
  intros -> Hb Hne. unfold probe. rewrite Hb, bool_decide_false by (by intros [??]).
  split; [done|]. set (i := fresh (dom (objs k))). exists i.
  assert (Hmem : ∀ (x : Z) (m : gset (Z * nat)), (x, i) ∈ {[ (x, i) ]} ∪ m) by set_solver.
  unfold attach, shm_open, ipc_mutex_lock, load. rewrite Hb. fold i.
  cbn [ans_shm_open ans_ftruncate ans_mmap negb andb maps objs bound store].
  rewrite decide_True, lookup_insert_eq by done. cbn [or_ub]. rewrite bind_Ok.
  eexists _, _, _, _. split; [done|]. cbn [store maps objs bound].
  rewrite decide_True, lookup_insert_eq by done. cbn [or_ub]. rewrite bind_Ok.
  split; [done|]. cbn [snd store maps objs bound]. split; [by apply store_owner|].
  rewrite decide_True, lookup_insert_eq by done. cbn [or_ub]. rewrite bind_Ok.
  split; [done|]. cbn [snd store maps objs bound].
  rewrite decide_True, lookup_insert_eq by done. cbn [or_ub]. rewrite bind_Ok.
  split; [done|]. by apply store_owner.
Qed.

(** ** Witnesses *)

Definition ex_name : list Z := [47; 108].
Definition ex_kernel : kernel := Kernel ∅ None ∅.
Definition ex_answers : answers := Answers true true true.

(** The first process takes the lock and dies; a second one is attached. *)
Lemma ex_mutex_run :
  ∃ k h, reachable (mutex_ops ex_name) mutex_ok_create mutex_ok_destroy ex_kernel
           (k, {[ 2 := (h, false) ]}) ∧
         ∃ o, objs k !! h = Some o ∧ m_dead (im_mutex o) = true.
Proof.
  eexists _, _. split.
  - unfold reachable. eapply rtc_l.
    { apply (step_create _ _ _ ex_answers 1); [done|by split|vm_compute; reflexivity]. }
    eapply rtc_l.
    { apply (step_create _ _ _ ex_answers 2); [done| |vm_compute; reflexivity].
      split; [done|]. intros b o Hb Ho. vm_compute in Hb. injection Hb as <-.
      vm_compute in Ho. injection Ho as <-. done. }
    eapply rtc_l.
    { eapply (step_lock _ _ _ 1); [by vm_compute|vm_compute; reflexivity]. }
    eapply rtc_l; [apply (step_die _ _ _ 1)|].
    match goal with |- rtc _ (?a, ?x) (_, ?y) => replace y with x by reflexivity end.
    apply rtc_refl.
  - eexists. by split.
Qed.

Lemma mutex_exclusion_witness :
  ∃ k h h' k', reachable (mutex_ops ex_name) mutex_ok_create mutex_ok_destroy ex_kernel
           (k, {[ 2 := (h, false) ]}) ∧
    ipc_mutex_lock 2 (Some h) k = Ok (Ret 0, Some h', k').
Proof.
  destruct ex_mutex_run as (k & h & Hr & _). exists k, h.
  destruct (mutex_exclusion ex_name ex_kernel k _
    ltac:(repeat constructor; done) ltac:(simpl; lia) eq_refl eq_refl Hr) as [_ [H _]].
  destruct (H 2 h eq_refl) as (h' & k' & Hl). exists h', k'. split; [exact Hr|].
  rewrite Hl, decide_True; [reflexivity|]. intros q x Hq.
  apply lookup_singleton_Some in Hq as [_ <-]. reflexivity.
Defined.

Lemma mutex_create_race_witness :
  ∃ i k1 k2 k3 k4,
    attach ex_name false ex_answers 1 ex_kernel = Ok (Some i, k1) ∧
    ipc_mutex_lock 1 (Some i) k1 = Ok (Ret 0, Some i, k2) ∧
    attach ex_name false ex_answers 2 k2 = Ok (Some i, k3) ∧
    ipc_mutex_lock 2 (Some i) k3 = Ok (Ret 0, Some i, k4).
Proof.
  destruct (mutex_create_race ex_name ex_answers ex_kernel 1 2 eq_refl eq_refl ltac:(done))
    as [_ (i & k1 & k2 & k3 & k4 & H1 & H2 & _ & H3 & H4 & _)].
  exists i, k1, k2, k3, k4. split; [exact H1|]. split; [exact H2|]. split; [exact H3|exact H4].
Defined.

(** A process that dies without holding the lock stays counted: the name is left
    behind when the last live process destroys its handle. *)
Example ex_mutex_leak :
  (r1 ← ipc_mutex_create (Some ex_name) ex_answers 1 ex_kernel;
   let k := exit_mutex 1 r1.2 in
   r2 ← ipc_mutex_create (Some ex_name) ex_answers 2 k;
   r3 ← ipc_mutex_destroy ex_name 2 r2.1 r2.2;
   mret (r3.1.1, bound r3.2, maps r3.2)) = Ok (0, Some 0%nat, ∅).
Proof. vm_compute. reflexivity. Qed.
