(* ===== verification/IpcSemsv.v ===== *)
(** * Locks on System V semaphores: ipc_competition/ipc_semsv.c

    The handle is a private record with the identifier of a semaphore set of one
    semaphore, found through a key that belongs to the file [/tmp/<name>].  Every
    operation is done with [SEM_UNDO], so the kernel takes back what a process
    that ends has done.  The process that made the set removes it when it
    destroys its handle.

    The kernel remembers who sleeps in [semop]: when the set of a sleeper is
    removed its call ends with [EIDRM], while a call that names a set that is not
    there fails with [EINVAL], and only then does the lock function rebuild its
    handle.

    [semsv_exclusion] is mutual exclusion under the discipline that the creator
    destroys last; [semsv_destroy_breaks_exclusion] is what happens without it;
    [semsv_lock_removed] is what the lock function does when the set was removed
    before or during the call. *)

From S2P Require Import Prelude FileMkdir IpcLock.

Definition MAX_SEM_NAME_LEN := 128.
Definition SEMVMX := 32767.

(** The characters of [/tmp/], and [S_IRWXU | S_IRWXG]. *)
Definition TMP : list Z := [47; 116; 109; 112; 47].
Definition S_IRWXUG := 504.

Record ipc_semsv_t := IpcSemsv {
  sem_id : Z;
  is_creator : Z;
  lockref : Z;
  sem_name : option (list Z)   (** the copy made by [strdup], or null *)
}.

(** A semaphore: its value and what has to be added when a process ends. *)
Record sem := Sem { semval : Z; semadj : gmap Z Z }.
Definition adj (s : sem) (pid : Z) : Z := default 0 (semadj s !! pid).

(** Identifiers of removed sets are not used again. *)
Record kernel := Kernel {
  fsys : sys;
  sems : gmap nat sem;
  key : option nat;        (** the set that belongs to the key of the file *)
  next_id : nat;
  sleepers : gmap Z Z      (** who waits in [semop], and for which set *)
}.

#[global] Instance ipc_semsv_t_eq_dec : EqDecision ipc_semsv_t.
Proof. solve_decision. Defined.

#[global] Instance sem_eq_dec : EqDecision sem.
Proof. solve_decision. Defined.

#[global] Instance kernel_eq_dec : EqDecision kernel.
Proof.
  refine (λ k l, cast_if_and5 (decide (next_id k = next_id l)) (decide (key k = key l))
    (decide (sems k = sems l)) (decide (sleepers k = sleepers l)) (decide (fsys k = fsys l)));
    destruct k, l; simpl in *; congruence.
Defined.

Definition with_sems (k : kernel) (m : gmap nat sem) : kernel :=
  Kernel (fsys k) m (key k) (next_id k) (sleepers k).
Definition awake (pid : Z) (k : kernel) : kernel :=
  Kernel (fsys k) (sems k) (key k) (next_id k) (delete pid (sleepers k)).
Definition asleep (pid id : Z) (k : kernel) : kernel :=
  Kernel (fsys k) (sems k) (key k) (next_id k) (<[pid := id]> (sleepers k)).

(** What a creation depends on: other processes and memory, an error of the
    first [semget], whether [semctl] and the second [semget] work, and memory for
    the copy of the name. *)
Record answers := Answers {
  ans_env : environ;
  ans_dup : bool;
  ans_calloc : bool;
  ans_semget : bool;
  ans_setval : bool;
  ans_attach : bool;
  ans_name : bool
}.

Definition sem_lookup (k : kernel) (id : Z) : option sem :=
  if decide (0 ≤ id) then sems k !! Z.to_nat id else None.

Definition EIDRM := 43.
Definition ERANGE := 34.

(** [semop(id, {0, op, SEM_UNDO}, 1)]: the result, with [errno] when it is -1.
    A call that waits is made again when the process is scheduled. *)
Definition semop (pid id op : Z) (k : kernel) : (Z + outcome) * kernel :=
  match sem_lookup k id with
  | None => (inl (if decide (sleepers k !! pid = Some id) then EIDRM else EINVAL), awake pid k)
  | Some s =>
      if decide (semval s + op < 0) then (inr Blocked, asleep pid id k)
      else if decide (SEMVMX < semval s + op) then (inl ERANGE, awake pid k)
      else
        (inr (Ret 0),
         awake pid (with_sems k
           (<[Z.to_nat id := Sem (semval s + op) (<[pid := adj s pid - op]> (semadj s))]> (sems k))))
  end.

Section create.
Context (resolve : tree → list Z → option fpath).

(** [ftok(path, 0)]: whether the file can be found. *)
Definition ftok (path : list Z) (s : sys) : bool :=
  match resolve (nodes s) path with
  | Some p => bool_decide (is_Some (kind_at (nodes s) p))
  | None => false
  end.

Definition ipc_semsv_create (name : option (list Z)) (a : answers) (pid : Z) (k : kernel) :
    res (option ipc_semsv_t * kernel) :=
  match name with
  | None => mret (None, k)
  | Some name =>
      sem_path ← sprintf_path MAX_SEM_NAME_LEN TMP name;
      let x := access (ans_env a) resolve sem_path (fsys k) in
      fs ← (if (x.1 : bool) then mret x.2
            else
              r ← fs_mkdirs (ans_env a) pid (ans_dup a) sem_path S_IRWXUG x.2;
              mret (fs_create_file (ans_env a) resolve pid sem_path S_IRWXUG r.2).2);
      let k := Kernel fs (sems k) (key k) (next_id k) (sleepers k) in
      if negb (ans_calloc a) then mret (None, k)
      else if negb (ftok sem_path fs) then mret (None, k)
      else
        let str := if (ans_name a : bool) then Some name else None in
        match key k with
        | None =>
            if negb (ans_semget a) then mret (None, k)
            else
              let i := next_id k in
              let made v := Kernel fs (<[i := Sem v ∅]> (sems k)) (Some i) (S i) (sleepers k) in
              if negb (ans_setval a) then mret (None, made 0)
              else mret (Some (IpcSemsv (Z.of_nat i) 1 0 str), made 1)
        | Some i =>
            mret (Some (IpcSemsv (if (ans_attach a : bool) then Z.of_nat i else -1) 0 0 str), k)
        end
  end.

(** The answers the creation inside gets are [a].  A failure prints the name,
    which must not be null for that. *)
Definition ipc_semsv_lock (a : answers) (pid : Z) (handle : option ipc_semsv_t) (k : kernel) :
    res (outcome * option ipc_semsv_t * kernel) :=
  match handle with
  | None => mret (Ret (-1), handle, k)
  | Some semsv =>
      match semop pid (sem_id semsv) (-1) k with
      | (inr Blocked, k) => mret (Blocked, handle, k)
      | (inr (Ret z), k) =>
          l ← signed_op 32 (lockref semsv + 1);
          mret (Ret z, Some (IpcSemsv (sem_id semsv) (is_creator semsv) l (sem_name semsv)), k)
      | (inl e, k) =>
          match sem_name semsv with
          | Some _ =>
              if decide (e = EINVAL) then
                r ← ipc_semsv_create (sem_name semsv) a pid k;
                ptr ← or_ub NullDeref r.1;
                mret (Ret (-1), Some ptr, r.2)
              else mret (Ret (-1), handle, k)
          | None => Ub BadCall
          end
      end
  end.

End create.

Definition ipc_semsv_unlock (pid : Z) (handle : option ipc_semsv_t) (k : kernel) :
    res (Z * option ipc_semsv_t * kernel) :=
  match handle with
  | None => mret (-1, handle, k)
  | Some semsv =>
      match semop pid (sem_id semsv) 1 k with
      | (inr (Ret z), k) =>
          l ← signed_op 32 (lockref semsv - 1);
          mret (z, Some (IpcSemsv (sem_id semsv) (is_creator semsv) l (sem_name semsv)), k)
      | (_, k) => mret (-1, handle, k)
      end
  end.

(** [semctl(id, 0, IPC_RMID)] *)
Definition sem_rmid (id : Z) (k : kernel) : Z * kernel :=
  match sem_lookup k id with
  | None => (-1, k)
  | Some _ =>
      (0, Kernel (fsys k) (delete (Z.to_nat id) (sems k))
            (if decide (key k = Some (Z.to_nat id)) then None else key k) (next_id k) (sleepers k))
  end.

(** When the removal fails the handle is not freed. *)
Definition ipc_semsv_destroy (pid : Z) (handle : option ipc_semsv_t) (k : kernel) :
    res (Z * option ipc_semsv_t * kernel) :=
  match handle with
  | None => mret (-1, handle, k)
  | Some semsv =>
      if decide (is_creator semsv ≠ 0) then
        let (ret, k) := sem_rmid (sem_id semsv) k in
        if decide (-1 = ret) then mret (ret, handle, k) else mret (ret, None, k)
      else mret (0, None, k)
  end.

(** The kernel undoes the operations of a process that ends. *)
Definition sem_undo (pid : Z) (s : sem) : sem :=
  Sem (Z.max 0 (semval s + adj s pid)) (delete pid (semadj s)).
Definition exit_semsv (pid : Z) (k : kernel) : kernel :=
  Kernel (fsys k) (sem_undo pid <$> sems k) (key k) (next_id k) (delete pid (sleepers k)).

Definition semsv_ops (resolve : tree → list Z → option fpath) (name : list Z) (a0 : answers) :
    ipc_lock_t answers kernel ipc_semsv_t :=
  IpcLock _ _ _ (ipc_semsv_create resolve (Some name)) (ipc_semsv_lock resolve a0) ipc_semsv_unlock
    ipc_semsv_destroy exit_semsv.

(** ** The interface *)

Section laws.
Context (resolve : tree → list Z → option fpath) (name : list Z) (a0 : answers).
Hypothesis name_chars : Forall (λ c, c ≠ 0) name.
Hypothesis name_fits : (length name ≤ 122)%nat.

(** Memory for the path, and working [semctl] and [semget] calls on a set that is
    there. *)
Definition semsv_ok_create (a : answers) (_ : kernel) : Prop :=
  ans_dup a = true ∧ ans_setval a = true ∧ ans_attach a = true.

(** The process that made the set destroys its handle when it is the last. *)
Definition semsv_ok_destroy (_ : kernel) (hs : gmap Z ipc_semsv_t) (pid : Z) (h : ipc_semsv_t) : Prop :=
  is_creator h = 0 ∨ delete pid hs = ∅.

Definition current (k : kernel) : option sem := key k ≫= λ i, sems k !! i.
Definition semsv_owns (k : kernel) (pid : Z) : Prop := ∃ s, current k = Some s ∧ 0 < adj s pid.

(** Free, or taken by exactly one attached process. *)
Definition sem_wf (hs : gmap Z ipc_semsv_t) (s : sem) : Prop :=
  (semval s = 1 ∧ ∀ p, adj s p = 0) ∨
  (semval s = 0 ∧ ∃ p, is_Some (hs !! p) ∧ ∀ q, adj s q = if decide (q = p) then 1 else 0).

Definition semsv_wf (k : kernel) (hs : gmap Z ipc_semsv_t) : Prop :=
  match key k with
  | None => hs = ∅
  | Some i => ∃ s, sems k !! i = Some s ∧ sem_wf hs s ∧ (i < next_id k)%nat ∧
                ∀ p h, hs !! p = Some h → sem_id h = Z.of_nat i ∧ lockref h = adj s p
  end.

Lemma semsv_wf_handle k hs pid h :
  semsv_wf k hs → hs !! pid = Some h →
  ∃ i s, key k = Some i ∧ sems k !! i = Some s ∧ sem_id h = Z.of_nat i ∧
    sem_lookup k (sem_id h) = Some s ∧ current k = Some s ∧ sem_wf hs s ∧ lockref h = adj s pid ∧
    (i < next_id k)%nat ∧ ∀ p h, hs !! p = Some h → sem_id h = Z.of_nat i ∧ lockref h = adj s p.
Proof.
  unfold semsv_wf, current. intros Hwf Hh. destruct (key k) as [i|].
  - destruct Hwf as (s & Hs & Hw & Hn & Hall). destruct (Hall _ _ Hh) as [Hi Hl].
    exists i, s. unfold sem_lookup. rewrite Hi, decide_True by lia. rewrite Nat2Z.id. done.
  - subst. by rewrite lookup_empty in Hh.
Qed.

Lemma current_store k i s pid :
  key k = Some i → current (awake pid (with_sems k (<[i := s]> (sems k)))) = Some s.
Proof. intros Hk. unfold current. simpl. rewrite Hk. simpl. by rewrite lookup_insert_eq. Qed.

Lemma adj_insert s v pid x q :
  adj (Sem v (<[pid := x]> (semadj s))) q = if decide (q = pid) then x else adj s q.
Proof.
  unfold adj. simpl. destruct (decide (q = pid)) as [->|].
  - by rewrite lookup_insert_eq.
  - by rewrite lookup_insert_ne.
Qed.

Lemma semsv_unique k hs p q : semsv_wf k hs → semsv_owns k p → semsv_owns k q → p = q.
Proof.
  unfold semsv_wf, semsv_owns, current. intros Hwf (s & Hs & Hp) (s' & Hs' & Hq).
  rewrite Hs in Hs'. injection Hs' as <-. destruct (key k) as [i|]; [|done]. simpl in Hs.
  destruct Hwf as (s' & Hs2 & Hw & _). rewrite Hs in Hs2. injection Hs2 as <-.
  destruct Hw as [[_ Hz]|(_ & o & _ & Ho)].
  - rewrite Hz in Hp. lia.
  - rewrite Ho in Hp, Hq. repeat case_decide; by subst.
Qed.

(** The file part of the creation has no undefined behaviour. *)
Lemma create_file_part a pid fs :
  ans_dup a = true →
  ∃ fs', (let x := access (ans_env a) resolve (TMP ++ name) fs in
     if (x.1 : bool) then mret x.2
     else
       r ← fs_mkdirs (ans_env a) pid (ans_dup a) (TMP ++ name) S_IRWXUG x.2;
       mret (fs_create_file (ans_env a) resolve pid (TMP ++ name) S_IRWXUG r.2).2) = Ok fs'.
Proof using name_chars.
  intros Hd. cbv zeta. destruct (access _ _ _ _) as [[] s1]; [by eexists|]. cbn [fst snd].
  rewrite Hd. destruct (fs_mkdirs_run (ans_env a) pid (116 :: 109 :: 112 :: 47 :: name) S_IRWXUG s1)
    as (r & s2 & Hr & _); [repeat constructor; done|].
  change (SLASH :: 116 :: 109 :: 112 :: 47 :: name) with (TMP ++ name) in Hr.
  rewrite Hr, bind_Ok. by eexists.
Qed.

Lemma semsv_create_law a pid k hs :
  semsv_wf k hs → semsv_ok_create a k → hs !! pid = None →
  ∃ o k', ipc_semsv_create resolve (Some name) a pid k = Ok (o, k') ∧
    semsv_wf k' (match o with Some h => <[pid := h]> hs | None => hs end) ∧
    ∀ q, semsv_owns k' q ↔ semsv_owns k q.
Proof using name_chars name_fits.
  intros Hwf (Hd & Hset & Hatt) Hno. unfold ipc_semsv_create, sprintf_path.
  rewrite decide_True by (rewrite length_app; simpl; unfold MAX_SEM_NAME_LEN; lia).
  rewrite bind_Ok. destruct (create_file_part a pid (fsys k) Hd) as [fs' Hfs].
  cbv zeta in Hfs |- *. rewrite Hfs, bind_Ok. cbn [key sems].
  destruct (ans_calloc a); cbn [negb]; [|by eexists _, _].
  destruct (ftok _ _ _); cbn [negb]; [|by eexists _, _].
  unfold semsv_wf in Hwf. destruct (key k) as [i|] eqn:Hk.
  - rewrite Hatt. eexists _, _. split; [done|]. split.
    + unfold semsv_wf. cbn [key sems next_id]. destruct Hwf as (s & Hs & Hw & Hn & Hall).
      assert (Hz : adj s pid = 0).
      { destruct Hw as [[_ Hz]|(_ & o & [ho Ho] & Hq)]; [done|]. rewrite Hq.
        rewrite decide_False; [done|]. intros ->. congruence. }
      exists s. split; [done|]. split; [|split; [done|]].
      * destruct Hw as [?|(Hv & o & Ho & Hq)]; [by left|]. right. split; [done|].
        exists o. split; [|done]. apply lookup_insert_is_Some'. auto.
      * intros p h [[<- <-]|[Hne Hp]]%lookup_insert_Some; [by rewrite Hz|eauto].
    + intros q. unfold semsv_owns, current. cbn [key sems]. by rewrite Hk.
  - subst hs. rewrite Hset. cbn [negb].
    assert (Hnone : ∀ q, ¬ semsv_owns k q).
    { intros q (s & Hs & _). unfold current in Hs. by rewrite Hk in Hs. }
    destruct (ans_semget a); cbn [negb].
    + eexists _, _. split; [done|]. split.
      * unfold semsv_wf. cbn [key sems next_id]. eexists. split; [by rewrite lookup_insert_eq|].
        split; [by left|]. split; [lia|]. intros p h [[<- <-]|[Hne Hp]]%lookup_insert_Some; [done|by rewrite lookup_empty in Hp].
      * intros q. split; [|by intros ?%Hnone]. intros (s & Hs & Hq). exfalso.
        unfold current in Hs. simpl in Hs. rewrite lookup_insert_eq in Hs. injection Hs as <-.
        unfold adj in Hq. simpl in Hq. rewrite lookup_empty in Hq. simpl in Hq. lia.
    + eexists _, _. split; [done|]. split; [done|]. intros q. unfold semsv_owns, current.
      cbn [key]. by rewrite Hk.
Qed.

(** A successful operation on the current set. *)
Lemma semop_ok k hs pid h op s :
  semsv_wf k hs → hs !! pid = Some h → current k = Some s →
  0 ≤ semval s + op ≤ SEMVMX →
  ∃ i, key k = Some i ∧ sem_id h = Z.of_nat i ∧
    semop pid (sem_id h) op k =
      (inr (Ret 0), awake pid (with_sems k
         (<[i := Sem (semval s + op) (<[pid := adj s pid - op]> (semadj s))]> (sems k)))).

Proof.
  intros Hwf Hh Hc Hr.
  destruct (semsv_wf_handle k hs pid h Hwf Hh) as (i & s' & Hk & Hs & Hi & Hlk & Hc' & _).
  rewrite Hc in Hc'. injection Hc' as <-. exists i. split; [done|]. split; [done|].
  unfold semop. rewrite Hlk, !decide_False by lia. by rewrite Hi, Nat2Z.id.
Qed.

Lemma semsv_wf_op k hs pid h i s s' l :
  semsv_wf k hs → hs !! pid = Some h → key k = Some i → current k = Some s →
  (∀ q, q ≠ pid → adj s' q = adj s q) → l = adj s' pid →
  sem_wf (<[pid := IpcSemsv (sem_id h) (is_creator h) l (sem_name h)]> hs) s' →
  semsv_wf (awake pid (with_sems k (<[i := s']> (sems k))))
    (<[pid := IpcSemsv (sem_id h) (is_creator h) l (sem_name h)]> hs).
Proof.
  intros Hwf Hh Hk Hc Hadj Hl Hw.
  destruct (semsv_wf_handle k hs pid h Hwf Hh) as (i' & s0 & Hk' & Hs & Hi & _ & Hc' & _ & _ & Hn & Hall).
  rewrite Hk in Hk'. injection Hk' as <-. rewrite Hc in Hc'. injection Hc' as <-.
  unfold semsv_wf. cbn [key sems next_id awake with_sems]. rewrite Hk. exists s'.
  split; [by rewrite lookup_insert_eq|]. split; [done|]. split; [done|]. intros p hp [[<- <-]|[Hne Hp]]%lookup_insert_Some; [done|].
  rewrite Hadj by done. eauto.
Qed.

Lemma semsv_lock_law pid h k hs :
  semsv_wf k hs → hs !! pid = Some h → ¬ semsv_owns k pid →
  ∃ o h' k', ipc_semsv_lock resolve a0 pid (Some h) k = Ok (o, Some h', k') ∧
    match o with
    | Ret z => z = 0 ∧ semsv_wf k' (<[pid := h']> hs) ∧
               (∀ q, ¬ semsv_owns k q) ∧ (∀ q, semsv_owns k' q ↔ q = pid)
    | Blocked => semsv_wf k' (<[pid := h']> hs) ∧ (∀ q, semsv_owns k' q ↔ semsv_owns k q) ∧
                 ∃ q, semsv_owns k q
    end.
Proof.
  intros Hwf Hh Hno. unfold ipc_semsv_lock.
  destruct (semsv_wf_handle k hs pid h Hwf Hh) as (i & s & Hk & Hs & Hi & Hlk & Hc & Hw & Hl & _).
  destruct Hw as [[Hv Hz]|(Hv & o & Ho & Hq)].
  - destruct (semop_ok k hs pid h (-1) s) as (i' & Hk' & _ & ->); [done..|unfold SEMVMX; lia|].
    rewrite Hk in Hk'. injection Hk' as <-.
    rewrite signed_op_ok by (rewrite Hl, Hz; done). rewrite bind_Ok.
    eexists (Ret 0), _, _. split; [done|]. split; [done|].
    assert (Hadj : ∀ q, adj (Sem (semval s + -1) (<[pid:=adj s pid - -1]> (semadj s))) q =
                   if decide (q = pid) then 1 else 0).
    { intros q. rewrite adj_insert, !Hz. by case_decide. }
    split; [|split].
    + eapply semsv_wf_op; [done..| | |].
      * intros q Hne. rewrite Hadj, decide_False by done. by rewrite Hz.
      * rewrite Hadj, decide_True by done. rewrite Hl, Hz. done.
      * right. split; [simpl; lia|]. exists pid. split; [by rewrite lookup_insert_eq|done].
    + intros q (s' & Hs' & Hp). rewrite Hc in Hs'. injection Hs' as <-. rewrite Hz in Hp. lia.
    + intros q. unfold semsv_owns. setoid_rewrite (current_store k i _ pid Hk). split.
      * intros (s' & [= <-] & Hp). rewrite Hadj in Hp. by case_decide.
      * intros ->. eexists. split; [done|]. rewrite Hadj, decide_True by done. lia.
  - unfold semop. rewrite Hlk. rewrite decide_True by lia. eexists Blocked, _, _. split; [done|].
    rewrite (insert_id hs) by done. split; [done|]. split; [done|]. exists o, s. split; [done|]. rewrite Hq, decide_True by done. lia.
Qed.

Lemma semsv_unlock_law pid h k hs :
  semsv_wf k hs → hs !! pid = Some h → semsv_owns k pid →
  ∃ h' k', ipc_semsv_unlock pid (Some h) k = Ok (0, Some h', k') ∧
    semsv_wf k' (<[pid := h']> hs) ∧ ∀ q, ¬ semsv_owns k' q.
Proof.
  intros Hwf Hh (s0 & Hc0 & Hown). unfold ipc_semsv_unlock.
  destruct (semsv_wf_handle k hs pid h Hwf Hh) as (i & s & Hk & Hs & Hi & Hlk & Hc & Hw & Hl & _).
  rewrite Hc in Hc0. injection Hc0 as <-.
  destruct Hw as [[Hv Hz]|(Hv & o & Ho & Hq)]; [rewrite Hz in Hown; lia|].
  assert (o = pid) as -> by (rewrite Hq in Hown; by case_decide).
  destruct (semop_ok k hs pid h 1 s) as (i' & Hk' & _ & ->); [done..|unfold SEMVMX; lia|].
  rewrite Hk in Hk'. injection Hk' as <-.
  assert (Hp : adj s pid = 1) by (by rewrite Hq, decide_True).
  rewrite signed_op_ok by (rewrite Hl, Hp; done). rewrite bind_Ok.
  eexists _, _. split; [done|].
  assert (Hadj : ∀ q, adj (Sem (semval s + 1) (<[pid:=adj s pid - 1]> (semadj s))) q = 0).
  { intros q. rewrite adj_insert, Hp. case_decide; [done|]. by rewrite Hq, decide_False. }
  split.
  - eapply semsv_wf_op; [done..| | |].
    + intros q Hne. rewrite Hadj, Hq. by rewrite decide_False.
    + rewrite Hadj, Hl, Hp. done.
    + left. split; [simpl; lia|done].
  - intros q (s' & Hs' & Hq'). rewrite (current_store k i _ pid Hk) in Hs'. injection Hs' as <-.
    rewrite Hadj in Hq'. lia.
Qed.

(** A process that does not hold the lock can go. *)
Lemma sem_wf_leave hs s pid : sem_wf hs s → ¬ 0 < adj s pid → sem_wf (delete pid hs) s.
Proof.
  intros [?|(Hv & o & Ho & Hq)] Hno; [by left|]. right. split; [done|]. exists o. split; [|done].
  rewrite lookup_delete_ne; [done|]. intros ->. apply Hno. rewrite Hq, decide_True by done. lia.
Qed.

Lemma semsv_destroy_law pid h k hs :
  semsv_wf k hs → hs !! pid = Some h → ¬ semsv_owns k pid → semsv_ok_destroy k hs pid h →
  ∃ z o k', ipc_semsv_destroy pid (Some h) k = Ok (z, o, k') ∧
    semsv_wf k' (delete pid hs) ∧ ∀ q, semsv_owns k' q ↔ semsv_owns k q.
Proof.
  intros Hwf Hh Hno Hok. unfold ipc_semsv_destroy.
  destruct (semsv_wf_handle k hs pid h Hwf Hh) as (i & s & Hk & Hs & Hi & Hlk & Hc & Hw & Hl & Hn & Hall).
  assert (Hp : ¬ 0 < adj s pid) by (intros Hp; apply Hno; by exists s).
  destruct (decide (is_creator h ≠ 0)) as [Hcr|Hcr].
  - destruct Hok as [?|He]; [done|]. unfold sem_rmid. rewrite Hlk, Hi, Nat2Z.id.
    rewrite (decide_True (P := key k = Some i)) by done. rewrite decide_False by done.
    eexists _, _, _. split; [done|]. split; [done|]. intros q. split.
    + intros (s' & Hs' & _). done.
    + intros (s' & Hs' & Hq). exfalso. rewrite Hc in Hs'. injection Hs' as <-.
      apply (sem_wf_leave _ _ _ Hw) in Hp as [[_ Hz]|(_ & o & [ho Ho] & _)].
      * rewrite Hz in Hq. lia.
      * by rewrite He, lookup_empty in Ho.
  - eexists _, _, _. split; [done|]. split; [|done]. unfold semsv_wf. rewrite Hk.
    exists s. split; [done|]. split; [by apply sem_wf_leave|]. split; [done|].
    intros p hp [_ ?]%lookup_delete_Some. eauto.
Qed.

Lemma adj_undo s pid q : adj (sem_undo pid s) q = if decide (q = pid) then 0 else adj s q.
Proof.
  unfold adj. simpl. destruct (decide (q = pid)) as [->|].
  - by rewrite lookup_delete_eq.
  - by rewrite lookup_delete_ne.
Qed.

Lemma sem_undo_wf hs s pid : sem_wf hs s → sem_wf (delete pid hs) (sem_undo pid s).
Proof.
  intros [[Hv Hz]|(Hv & o & [ho Ho] & Hq)].
  - left. split; [simpl; rewrite Hv, Hz; done|]. intros p. rewrite adj_undo, Hz. by case_decide.
  - destruct (decide (o = pid)) as [->|Hne].
    + left. split; [simpl; rewrite Hv, Hq, decide_True by done; done|].
      intros p. rewrite adj_undo, Hq. by repeat case_decide.
    + right. split; [simpl; rewrite Hv, Hq, decide_False by done; done|]. exists o.
      rewrite lookup_delete_ne by done. split; [eauto|]. intros p. rewrite adj_undo, Hq.
      repeat case_decide; congruence.
Qed.

Lemma semsv_exit_law pid k hs :
  semsv_wf k hs →
  semsv_wf (exit_semsv pid k) (delete pid hs) ∧
  ∀ q, semsv_owns (exit_semsv pid k) q ↔ semsv_owns k q ∧ q ≠ pid.
Proof.
  intros Hwf. unfold semsv_wf, semsv_owns, current in *. cbn [exit_semsv key sems next_id].
  destruct (key k) as [i|]; simpl.
  - destruct Hwf as (s & Hs & Hw & Hn & Hall). rewrite lookup_fmap, Hs. simpl. split.
    + exists (sem_undo pid s). split; [done|]. split; [by apply sem_undo_wf|]. split; [done|].
      intros p h [Hne Hp]%lookup_delete_Some. rewrite adj_undo, decide_False by done. eauto.
    + intros q. split.
      * intros (s' & [= <-] & Hq). rewrite adj_undo in Hq. case_decide; [lia|eauto].
      * intros [(s' & [= <-] & Hq) Hne]. eexists. split; [done|]. by rewrite adj_undo, decide_False.
  - subst. split; [apply delete_empty|]. naive_solver.
Qed.

#[global] Instance semsv_laws :
  LockLaws (semsv_ops resolve name a0) semsv_ok_create semsv_ok_destroy semsv_wf semsv_owns.
Proof using name_chars name_fits.
  split.
  - exact semsv_unique.
  - exact semsv_create_law.
  - exact semsv_lock_law.
  - exact semsv_unlock_law.
  - exact semsv_destroy_law.
  - exact semsv_exit_law.
Qed.

End laws.


(** ** Without the discipline *)

Definition ex_name : list Z := [108].
Definition ex_kernel : kernel := Kernel (Sys {[ [[116; 109; 112]] := KDir 511 ]} ∅ 0) ∅ None 0 ∅.
Definition ex_answers : answers := Answers quiet true true true true true true.

(** The creation when the file is there and the calls work. *)
Lemma create_on_file resolve name pid k P kd :
  (length name ≤ 122)%nat → key k = None →
  resolve (nodes (fsys k)) (TMP ++ name) = Some P → kind_at (nodes (fsys k)) P = Some kd →
  ∃ fs, ipc_semsv_create resolve (Some name) ex_answers pid k =
    Ok (Some (IpcSemsv (Z.of_nat (next_id k)) 1 0 (Some name)),
        Kernel fs (<[next_id k := Sem 1 ∅]> (sems k)) (Some (next_id k)) (S (next_id k)) (sleepers k)).
Proof.
  intros Hfit Hk HP Hkd. unfold ipc_semsv_create, sprintf_path.
  rewrite decide_True by (rewrite length_app; simpl; unfold MAX_SEM_NAME_LEN; lia).
  rewrite bind_Ok. cbv zeta. unfold access, enter. cbn [ans_env ex_answers fault interfere quiet calm nodes].
  rewrite HP, Hkd, bool_decide_true by eauto. cbn [fst snd]. change (mret ?x) with (Ok x).
  rewrite bind_Ok. cbn [ans_calloc negb key sems next_id].
  unfold ftok. cbn [nodes]. rewrite HP, Hkd, bool_decide_true by eauto. cbn [negb]. rewrite Hk.
  eexists. reflexivity.
Qed.

(** C40: (safety) Without the discipline exclusion is lost.  In any state of the
    processes in which the lock is free: when a process [q] takes the lock, the
    creator [p] of the set destroys its handle and a newcomer [r] creates one, all
    calls reporting success, then [r] gets the lock of a new set at once, although
    [q] has not released its own; and the unlock of [q] is refused. *)
Theorem semsv_destroy_breaks_exclusion resolve name a0 k hs p q r hp hq P kd :
  (length name ≤ 122)%nat →
  semsv_wf k hs → (∀ x, ¬ semsv_owns k x) →
  hs !! p = Some hp → is_creator hp ≠ 0 → hs !! q = Some hq → q ≠ r →
  resolve (nodes (fsys k)) (TMP ++ name) = Some P → kind_at (nodes (fsys k)) P = Some kd →
  ∃ hq1 hr hr1 k1 k2 k3 k4 k5,
    ipc_semsv_lock resolve a0 q (Some hq) k = Ok (Ret 0, Some hq1, k1) ∧ semsv_owns k1 q ∧
    ipc_semsv_destroy p (Some hp) k1 = Ok (0, None, k2) ∧
    ipc_semsv_create resolve (Some name) ex_answers r k2 = Ok (Some hr, k3) ∧
    ipc_semsv_lock resolve a0 r (Some hr) k3 = Ok (Ret 0, Some hr1, k4) ∧ semsv_owns k4 r ∧
    ipc_semsv_unlock q (Some hq1) k4 = Ok (-1, Some hq1, k5).
Proof.
  intros Hfit Hwf Hfree Hp Hcr Hq Hqr HP Hkd.
  destruct (semsv_wf_handle name Hfit k hs q hq Hwf Hq) as (i & s & Hk & Hs & Hi & Hlk & Hc & Hw & Hl & Hn & Hall).
  assert (Hz : semval s = 1 ∧ ∀ x, adj s x = 0).
  { destruct Hw as [?|(_ & o & _ & Ho)]; [done|]. exfalso. apply (Hfree o). exists s. split; [done|].
    rewrite Ho, decide_True by done. lia. }
  destruct Hz as [Hv Hz]. destruct (Hall _ _ Hp) as [Hpi _].
  set (s1 := Sem 0 (<[q := 1]> (semadj s))). set (k1 := awake q (with_sems k (<[i := s1]> (sems k)))).
  set (hq1 := IpcSemsv (sem_id hq) (is_creator hq) 1 (sem_name hq)).
  assert (H1 : ipc_semsv_lock resolve a0 q (Some hq) k = Ok (Ret 0, Some hq1, k1)).
  { unfold ipc_semsv_lock, semop. rewrite Hlk, !decide_False by (unfold SEMVMX; lia).
    rewrite Hl, Hz. cbn -[awake with_sems signed_op]. rewrite signed_bind by (unfold in_s; lia).
    unfold hq1, k1, s1. rewrite Hv, Hi, Nat2Z.id. reflexivity. }
  set (k2 := Kernel (fsys k) (delete i (<[i := s1]> (sems k))) None (next_id k) (sleepers k1)).
  assert (H2 : ipc_semsv_destroy p (Some hp) k1 = Ok (0, None, k2)).
  { unfold ipc_semsv_destroy. rewrite decide_True by done. unfold sem_rmid, sem_lookup.
    rewrite Hpi, decide_True, Nat2Z.id by lia. cbn [k1 awake with_sems sems].
    rewrite lookup_insert_eq. cbv iota beta. rewrite decide_False by done.
    rewrite decide_True by exact Hk. reflexivity. }
  destruct (create_on_file resolve name r k2 P kd Hfit eq_refl HP Hkd) as [fs H3].
  cbn [k2 next_id sems sleepers] in H3.
  set (k3 := Kernel fs _ _ _ _) in H3. set (hr := IpcSemsv _ 1 0 (Some name)) in H3.
  set (s4 := Sem 0 (<[r := 1]> ∅)).
  set (k4 := awake r (with_sems k3 (<[next_id k := s4]> (sems k3)))).
  assert (H4 : ipc_semsv_lock resolve a0 r (Some hr) k3 =
    Ok (Ret 0, Some (IpcSemsv (Z.of_nat (next_id k)) 1 1 (Some name)), k4)).
  { unfold ipc_semsv_lock, semop, sem_lookup. cbn [hr sem_id]. rewrite decide_True, Nat2Z.id by lia.
    cbn [k3 sems]. by rewrite lookup_insert_eq. }
  assert (H5 : sem_lookup k4 (sem_id hq1) = None).
  { unfold sem_lookup. cbn [hq1 sem_id]. rewrite Hi, decide_True, Nat2Z.id by lia.
    cbn [k4 awake with_sems sems k3]. rewrite !lookup_insert_ne by lia. apply lookup_delete_eq. }
  exists hq1, hr, (IpcSemsv (Z.of_nat (next_id k)) 1 1 (Some name)), k1, k2, k3, k4, (awake q k4).
  split; [done|]. split.
  { exists s1. split; [by apply current_store|]. unfold adj. simpl. rewrite lookup_insert_eq. simpl. lia. }
  split; [done|]. split; [done|]. split; [done|]. split.
  { exists s4. split; [by apply (current_store k3)|]. unfold adj. simpl. rewrite lookup_insert_eq. simpl. lia. }
  unfold ipc_semsv_unlock, semop. by rewrite H5.
Qed.

(** The lock function on a set that has been removed: the call returns -1 in every
    case and the lock is not held.  A process that was waiting keeps its handle,
    which stays useless until the next call; one that calls afterwards gets its
    handle rebuilt when a new set can be found or made; when it cannot, the null
    result is copied from. *)
Lemma semsv_lock_removed resolve a pid h name k :
  sem_lookup k (sem_id h) = None → sem_name h = Some name →
  ipc_semsv_lock resolve a pid (Some h) k =
    (if decide (sleepers k !! pid = Some (sem_id h)) then Ok (Ret (-1), Some h, awake pid k)
     else match ipc_semsv_create resolve (Some name) a pid (awake pid k) with
          | Ok (Some h', k') => Ok (Ret (-1), Some h', k')
          | Ok (None, _) => Ub NullDeref
          | Ub u => Ub u
          | NoFuel => NoFuel
          end) ∧
  ∀ h' k', ipc_semsv_create resolve (Some name) a pid (awake pid k) = Ok (Some h', k') →
    lockref h' = 0 ∧ ∀ s, current k' = Some s → semval s = 1 ∨ current k = Some s.
Proof.
  intros Hrem Hn. split.
  - unfold ipc_semsv_lock, semop. rewrite Hrem, Hn. destruct (decide (sleepers k !! pid = _)); [done|].
    rewrite decide_True by done. by destruct (ipc_semsv_create _ _ _ _ _) as [[[h'|] k']|u|].
  - unfold ipc_semsv_create. intros h' k' Hc. inv_bind. cbn [key sems awake] in *.
    destruct (negb (ans_calloc a)); [done|]. destruct (negb (ftok _ _ _)); [done|].
    destruct (key k) as [i|] eqn:Hk.
    + injection H1 as <- <-. split; [done|]. intros s Hs. right.
      unfold current in *. by rewrite Hk in *.
    + destruct (negb (ans_semget a)); [done|]. destruct (negb (ans_setval a)); [done|].
      injection H1 as <- <-. split; [done|]. intros s Hs. left.
      unfold current in Hs. simpl in Hs. rewrite lookup_insert_eq in Hs. by injection Hs as <-.
Qed.

(** ** Witnesses *)


(** Process 1 made the set, process 2 is attached, process 3 comes later. *)
Lemma semsv_destroy_breaks_exclusion_witness :
  let k := Kernel (Sys {[ [[116; 109; 112]] := KDir 511; [[116; 109; 112]; [108]] := KFile 504 ]} ∅ 0)
             {[ 0%nat := Sem 1 ∅ ]} (Some 0%nat) 1 ∅ in
  ∃ hq1 hr hr1 k1 k2 k3 k4,
    ipc_semsv_lock resolve_nofollow ex_answers 2 (Some (IpcSemsv 0 0 0 (Some ex_name))) k =
      Ok (Ret 0, Some hq1, k1) ∧
    ipc_semsv_destroy 1 (Some (IpcSemsv 0 1 0 (Some ex_name))) k1 = Ok (0, None, k2) ∧
    ipc_semsv_create resolve_nofollow (Some ex_name) ex_answers 3 k2 = Ok (Some hr, k3) ∧
    ipc_semsv_lock resolve_nofollow ex_answers 3 (Some hr) k3 = Ok (Ret 0, Some hr1, k4).
Proof.
  cbv zeta.
  destruct (semsv_destroy_breaks_exclusion resolve_nofollow ex_name ex_answers
    (Kernel (Sys {[ [[116; 109; 112]] := KDir 511; [[116; 109; 112]; [108]] := KFile 504 ]} ∅ 0)
       {[ 0%nat := Sem 1 ∅ ]} (Some 0%nat) 1 ∅)
    {[ 1 := IpcSemsv 0 1 0 (Some ex_name); 2 := IpcSemsv 0 0 0 (Some ex_name) ]} 1 2 3
    (IpcSemsv 0 1 0 (Some ex_name)) (IpcSemsv 0 0 0 (Some ex_name)) [[116; 109; 112]; [108]] (KFile 504))
    as (hq1 & hr & hr1 & k1 & k2 & k3 & k4 & k5 & H1 & _ & H2 & H3 & H4 & _).
  - simpl. lia.
  - exists (Sem 1 ∅). split; [reflexivity|]. split; [left; split; [reflexivity|intros; reflexivity]|].
    split; [simpl; lia|]. intros p h Hp.
    apply lookup_insert_Some in Hp as [[<- <-]|[_ Hp]]; [split; reflexivity|].
    apply lookup_singleton_Some in Hp as [<- <-]. split; reflexivity.
  - intros x (s & Hs & Hx). injection Hs as <-. vm_compute in Hx. discriminate.
  - reflexivity.
  - simpl. lia.
  - reflexivity.
  - lia.
  - vm_compute. reflexivity.
  - vm_compute. reflexivity.
  - exists hq1, hr, hr1, k1, k2, k3, k4. split; [exact H1|]. split; [exact H2|]. split; [exact H3|exact H4].
Defined.

Lemma semsv_lock_removed_witness :
  ∃ h' k', ipc_semsv_lock resolve_nofollow ex_answers 1
      (Some (IpcSemsv 7 0 0 (Some ex_name))) ex_kernel = Ok (Ret (-1), Some h', k').
Proof.
  destruct (semsv_lock_removed resolve_nofollow ex_answers 1 (IpcSemsv 7 0 0 (Some ex_name)) ex_name
    ex_kernel eq_refl eq_refl) as [H _].
  rewrite H. eexists _, _. vm_compute. reflexivity.
Defined.
