(* ===== verification/MmapFile.v ===== *)
(** * Mapped files: linux/utils/src/mmap_file.c

    [mmapfile] opens or creates a file, makes it long enough and maps it.  The
    model keeps the length of the file and the number of descriptors of the
    process; the pages themselves are a matter of the clients.  Theorems: what
    happens to the length, with the narrow variable it is held in, and that every
    successful call leaves a descriptor behind. *)

From S2P Require Import Prelude.

(** The value returned: null, [MAP_FAILED] (which is not null), or an address. *)
Inductive ptr : Set := PNull | PFailed | PMapped.

#[global] Instance ptr_eq_dec : EqDecision ptr.
Proof. solve_decision. Defined.

Record mfile := MFile {
  flen : option Z;    (** length of the file, [None] when there is none *)
  nfds : Z            (** open descriptors *)
}.

(** Whether the calls work. *)
Record answers := Answers {
  ans_open : bool;
  ans_lseek : bool;
  ans_ftruncate : bool;
  ans_mmap : bool;
  ans_realpath : bool
}.

Definition PATH_MAX := 4096.

(** [open(path, O_RDWR | O_CREAT, ...)] *)
Definition open_creat (s : mfile) : mfile :=
  MFile (Some (default 0 (flen s))) (nfds s + 1).

(** [len] is an int: the length is converted to 32 bits, and the comparison with
    the unsigned [size] converts it to 64 bits. *)
Definition grow_file (a : answers) (size : Z) (s : mfile) : mfile :=
  let len := if ans_lseek a then s32 (default 0 (flen s)) else -1 in
  if decide (u64 len < size)
  then (if ans_ftruncate a then MFile (Some size) (nfds s) else s)
  else s.

(** When [realpath] fails the name is copied, which fits after the test of its
    length; so the two cases differ only in the path that is opened. *)
Definition mmapfile (fn : option (list Z)) (size : Z) (a : answers) (s : mfile) : ptr * mfile :=
  match fn with
  | None => (PNull, s)
  | Some fn =>
      if decide (PATH_MAX < Z.of_nat (length fn)) then (PNull, s)
      else if decide (size = 0) then (PNull, s)
      else if negb (ans_open a) then (PNull, s)
      else
        let s := grow_file a size (open_creat s) in
        (if ans_mmap a then PMapped else PFailed, s)
  end.

(** The first page of a mapping can be touched when the file is not empty; past
    the end of the file the access is a bus error. *)
Definition backed (s : mfile) : bool := bool_decide (default 0 (flen s) ≠ 0).

(** The read-only variant needs an existing file and closes the descriptor. *)
Definition mmapfile_r (fn : option (list Z)) (size : Z) (a : answers) (s : mfile) : ptr * mfile :=
  match fn with
  | None => (PNull, s)
  | Some fn =>
      if decide (size = 0) then (PNull, s)
      else if decide (PATH_MAX < Z.of_nat (length fn)) then (PNull, s)
      else if negb (ans_realpath a) then (PNull, s)
      else if negb (ans_open a) then (PNull, s)
      else (if ans_mmap a then PMapped else PFailed, s)
  end.

(** The number of bytes [unmapfile] hands to [munmap]: [size] is an int, and is
    converted to [size_t].  The function ends without a return statement. *)
Definition unmapfile (size : Z) : Z := u64 (s32 size).

Lemma s32_small z : in_s 32 z → s32 z = z.
Proof. intros. by apply wrap_s_small. Qed.

Lemma u64_small z : in_u 64 z → u64 z = z.
Proof. apply wrap_u_small. Qed.

(** The length of a mapped file.  For files below two gigabytes the
    mapping is covered and nothing is cut off: the new length is the larger of
    the old one and [size].  The length is kept in an int, though: a file of a
    multiple of four gigabytes looks empty and is truncated to [size].  Every
    call that gets past [open] keeps one more descriptor. *)
Lemma mmapfile_length fn size a s :
  Z.of_nat (length fn) ≤ PATH_MAX → 0 < size → in_s 32 size →
  ans_open a = true → ans_lseek a = true → ans_ftruncate a = true → ans_mmap a = true →
  ∃ s', mmapfile (Some fn) size a s = (PMapped, s') ∧ nfds s' = nfds s + 1 ∧
    (in_s 32 (default 0 (flen s)) → 0 ≤ default 0 (flen s) →
       flen s' = Some (Z.max (default 0 (flen s)) size)) ∧
    (∀ m, flen s = Some (m * 2 ^ 32) → flen s' = Some size).
Proof.
  intros Hfn Hsz Hsz32 Ho Hl Ht Hm. unfold mmapfile.
  rewrite !decide_False by lia. rewrite Ho, Hm. cbn [negb]. eexists. split; [done|].
  unfold grow_file, open_creat. rewrite Hl, Ht. cbn [flen nfds default]. unfold id.
  unfold in_s in Hsz32. simpl in Hsz32. split; [by case_decide|]. split.
  - intros H32 Hpos. rewrite s32_small by done. unfold in_s in H32. simpl in H32.
    rewrite u64_small by (unfold in_u; lia). case_decide; cbn [flen]; f_equal; lia.
  - intros m ->. cbn [from_option].
    assert (Hz : s32 (m * 2 ^ 32) = 0).
    { unfold wrap_s. rewrite Z.add_comm, Z.mod_add by lia. done. }
    rewrite Hz. by rewrite decide_True.
Qed.

(** After a mapping whose size could be arranged the memory is there. *)
Lemma mmapfile_backed fn size a s :
  0 < size → ans_lseek a = true → ans_ftruncate a = true →
  (mmapfile fn size a s).1 ≠ PNull → backed (mmapfile fn size a s).2 = true.
Proof.
  intros Hsz Hl Ht. unfold mmapfile. destruct fn as [fn|]; [|done]. case_decide; [done|].
  case_decide; [done|]. destruct (ans_open a); [|done]. intros _. cbn [negb snd].
  unfold backed, grow_file, open_creat. rewrite Hl, Ht. cbn [flen default]. unfold id.
  apply bool_decide_eq_true_2. case_decide as Hlt; cbn [flen default]; unfold id; [lia|].
  intros Hz. rewrite Hz in Hlt. by apply Hlt.
Qed.

(** A mapping below two gigabytes is unmapped whole; of one of a multiple of four
    gigabytes, nothing is. *)
Lemma unmapfile_size size :
  (0 ≤ size → in_s 32 size → unmapfile size = size) ∧ (∀ m, unmapfile (m * 2 ^ 32) = 0).
Proof.
  unfold unmapfile. split.
  - intros H0 H32. rewrite s32_small by done. unfold in_s in H32. simpl in H32.
    apply u64_small. unfold in_u. lia.
  - intros m. assert (s32 (m * 2 ^ 32) = 0) as ->; [|done].
    unfold wrap_s. rewrite Z.add_comm, Z.mod_add by lia. done.
Qed.

Definition ex_answers : answers := Answers true true true true true.

Lemma mmapfile_length_witness :
  ∃ s', mmapfile (Some [47; 102]) 128 ex_answers (MFile (Some (2 * 2 ^ 32)) 3) = (PMapped, s') ∧
    flen s' = Some 128.
Proof.
  destruct (mmapfile_length [47; 102] 128 ex_answers (MFile (Some (2 * 2 ^ 32)) 3))
    as (s' & H1 & _ & _ & H2); try reflexivity.
  - done.
  - split; done.
  - exists s'. split; [exact H1|exact (H2 2 eq_refl)].
Defined.
