(* ===== verification/ShmLock.v ===== *)
(** * Shared-memory locks: linux/utils/src/shm_mutex.c and shm_rw_lock.c

    Both modules put a lock and two counters into a file mapped by all processes
    (MmapFile); a magic number says whether the content has been initialised.

    - Module [ShmMutex]: a robust mutex.  It has the shape of the inter-process
      locks, so its correctness is another instance of [LockLaws]; the invariant
      also pins down [lock_count].
    - Module [ShmRw]: a read-write lock.  Its counter is not protected, so the step relation of the processes splits each call into the load and the
      store of the counter and the pthread call. *)

From S2P Require Import Prelude IpcLock RobustMutex MmapFile.

Definition SHM_MUTEX_MAGIC := 0x5aa53cc3.

(** [snprintf(buf, 64, "%s", l)]: at most 63 characters. *)
Definition snprintf64 (l : list Z) : list Z := take 63 l.

Definition TMP : list Z := [47; 116; 109; 112; 47].

Module ShmMutex.

Record shm_mutex_t := ShmMutexT {
  magic : Z;
  name : list Z;
  ref_count : Z;
  lock_count : Z;
  sm_mutex : mutex;
  attr : mutexattr
}.

Definition sizeof_shm_mutex_t := 128.

(** The content of the mapped file, and who maps it. *)
Record kernel := Kernel { mf : mfile; obj : shm_mutex_t; maps : gset Z }.

Definition set_obj (k : kernel) (o : shm_mutex_t) : kernel := Kernel (mf k) o (maps k).

(** An access through the handle of a process; the handle is not checked. *)
Definition load (k : kernel) (pid : Z) (h : option unit) : res shm_mutex_t :=
  match h with
  | None => Ub NullDeref
  | Some _ => if decide (pid ∈ maps k) then Ok (obj k) else Ub BadPtr
  end.

(** The variant with [USE_SHMAT] 0.  A failed mapping is [MAP_FAILED] and passes
    the test for null. *)
Definition shm_mutex_alloc (key : option (list Z)) (a : answers) (pid : Z) (k : kernel) :
    res (option unit * kernel) :=
  match key with
  | None => mret (None, k)
  | Some key =>
      let r := mmapfile (Some (snprintf64 (TMP ++ key))) sizeof_shm_mutex_t a (mf k) in
      match r.1 with
      | PNull => mret (None, Kernel r.2 (obj k) (maps k))
      | PFailed => Ub BadPtr
      | PMapped =>
          if negb (backed r.2) then Ub BadPtr else
          let o := obj k in
          let o :=
            if decide (SHM_MUTEX_MAGIC ≠ magic o) then
              let at_ := attr_setrobust (attr_setpshared attr_init) in
              ShmMutexT SHM_MUTEX_MAGIC (snprintf64 key) 0 0 (mutex_init at_) at_
            else o in
          rc ← signed_op 32 (ref_count o + 1);
          mret (Some (), Kernel r.2 (ShmMutexT (magic o) (name o) rc (lock_count o) (sm_mutex o) (attr o))
                           ({[ pid ]} ∪ maps k))
      end
  end.

Definition shm_mutex_destroy (pid : Z) (h : option unit) (k : kernel) :
    res (Z * option unit * kernel) :=
  match h with
  | None => mret (-1, None, k)
  | Some _ =>
      o ← load k pid h;
      rc ← signed_op 32 (ref_count o - 1);
      mret (0, None, Kernel (mf k) (ShmMutexT (magic o) (name o) rc (lock_count o) (sm_mutex o) (attr o))
                       (maps k ∖ {[ pid ]}))
  end.

Definition shm_mutex_lock (pid : Z) (h : option unit) (k : kernel) :
    res (outcome * option unit * kernel) :=
  o ← load k pid h;
  r ← mutex_lock pid (sm_mutex o);
  match r with
  | (Blocked, m) =>
      mret (Blocked, h, set_obj k (ShmMutexT (magic o) (name o) (ref_count o) (lock_count o) m (attr o)))
  | (Ret ret, m) =>
      if decide (0 = ret) then
        lc ← signed_op 32 (lock_count o + 1);
        mret (Ret 0, h, set_obj k (ShmMutexT (magic o) (name o) (ref_count o) lc m (attr o)))
      else
        let (ret, m) := if decide (EOWNERDEAD = ret) then mutex_consistent pid m else (ret, m) in
        if decide (0 = ret) then
          rc ← signed_op 32 (ref_count o - 1);
          mret (Ret 0, h, set_obj k (ShmMutexT (magic o) (name o) rc (lock_count o) m (attr o)))
        else mret (Ret (-1), h, set_obj k (ShmMutexT (magic o) (name o) (ref_count o) (lock_count o) m (attr o)))
  end.

(** The result of the inner call is ignored. *)
Definition shm_mutex_unlock (pid : Z) (h : option unit) (k : kernel) :
    res (Z * option unit * kernel) :=
  o ← load k pid h;
  lc ← signed_op 32 (lock_count o - 1);
  let m := (mutex_unlock pid (sm_mutex o)).2 in
  mret (0, h, set_obj k (ShmMutexT (magic o) (name o) (ref_count o) lc m (attr o))).

Definition exit_shm (pid : Z) (k : kernel) : kernel :=
  let o := obj k in
  Kernel (mf k)
    (ShmMutexT (magic o) (name o) (ref_count o) (lock_count o) (mutex_exit pid (sm_mutex o)) (attr o))
    (maps k ∖ {[ pid ]}).

Definition shm_ops (key : list Z) : ipc_lock_t answers kernel unit :=
  IpcLock _ _ _ (shm_mutex_alloc (Some key)) shm_mutex_lock shm_mutex_unlock shm_mutex_destroy exit_shm.

(** ** The interface *)

Section laws.
Context (key : list Z).

(** The file can be made long enough and mapped, and the counter has room. *)
Definition shm_ok_create (a : answers) (k : kernel) : Prop :=
  (ans_lseek a = true ∧ ans_ftruncate a = true ∧ ans_mmap a = true) ∧ ref_count (obj k) < 2 ^ 31 - 1.
Definition shm_ok_destroy (_ : kernel) (_ : gmap Z unit) (_ : Z) (_ : unit) : Prop := True.

Definition shm_owns (k : kernel) (pid : Z) : Prop :=
  magic (obj k) = SHM_MUTEX_MAGIC ∧ m_owner (sm_mutex (obj k)) = Some pid.

(** Held, or left by an owner that died. *)
Definition taken (m : mutex) : bool := bool_decide (is_Some (m_owner m)) || m_dead m.

Record object_wf (hs : gmap Z unit) (o : shm_mutex_t) : Prop := {
  ow_magic : magic o = SHM_MUTEX_MAGIC;
  ow_sound : mutex_sound (sm_mutex o);
  ow_refs : Z.of_nat (size hs) + (if m_dead (sm_mutex o) then 1 else 0) ≤ ref_count o < 2 ^ 31;
  ow_locks : lock_count o = if taken (sm_mutex o) then 1 else 0;
  ow_owner q : m_owner (sm_mutex o) = Some q → is_Some (hs !! q)
}.

Definition shm_wf (k : kernel) (hs : gmap Z unit) : Prop :=
  (∀ pid, pid ∈ maps k ↔ is_Some (hs !! pid)) ∧
  if decide (magic (obj k) = SHM_MUTEX_MAGIC) then object_wf hs (obj k) else hs = ∅.

Lemma shm_wf_load k hs pid h :
  shm_wf k hs → hs !! pid = Some h → load k pid (Some h) = Ok (obj k) ∧ object_wf hs (obj k).
Proof.
  intros [Hm Hw] Hh. split.
  - unfold load. rewrite decide_True; [done|]. apply Hm. eauto.
  - case_decide; [done|]. subst. by rewrite lookup_empty in Hh.
Qed.

Lemma shm_wf_obj k hs o :
  (∀ pid, pid ∈ maps k ↔ is_Some (hs !! pid)) → object_wf hs o → shm_wf (set_obj k o) hs.
Proof. intros Hm Hw. split; [done|]. simpl. rewrite decide_True; [done|]. apply Hw. Qed.

Lemma insert_unit (hs : gmap Z unit) pid h : hs !! pid = Some h → <[pid := ()]> hs = hs.
Proof. destruct h. apply insert_id. Qed.

Lemma size_pos (hs : gmap Z unit) pid : is_Some (hs !! pid) → (0 < size hs)%nat.
Proof.
  intros [h Hh]. apply Nat.neq_0_lt_0. intros Hz. apply map_size_empty_inv in Hz as ->.
  by rewrite lookup_empty in Hh.
Qed.

Lemma shm_create_law a pid k hs :
  shm_wf k hs → shm_ok_create a k → hs !! pid = None →
  ∃ o k', shm_mutex_alloc (Some key) a pid k = Ok (o, k') ∧
    shm_wf k' (match o with Some h => <[pid := h]> hs | None => hs end) ∧
    ∀ q, shm_owns k' q ↔ shm_owns k q.
Proof.
  intros [Hm Hw] [(Hl & Ht & Hmm) Hroom] Hno. unfold shm_mutex_alloc.
  set (r := mmapfile _ _ _ _). assert (Hr : r.1 = PNull ∨ r.1 = PMapped).
  { unfold r, mmapfile. rewrite Hmm. repeat case_decide; auto; by destruct (negb _); auto. }
  destruct Hr as [-> | Hr]; [by eexists _, _|].
  assert (Hb : backed r.2 = true) by (apply mmapfile_backed; [done..|fold r; by rewrite Hr]).
  rewrite Hr, Hb. cbn [negb].
  assert (Hmaps : ∀ q, q ∈ {[pid]} ∪ maps k ↔ is_Some (<[pid := ()]> hs !! q)).
  { intros q. rewrite elem_of_union, elem_of_singleton, Hm, lookup_insert_is_Some'. naive_solver. }
  unfold shm_wf, shm_owns in *. destruct (decide (magic (obj k) = SHM_MUTEX_MAGIC)) as [He|He].
  - rewrite decide_False by congruence. destruct Hw as [H1 H2 H3 H4 H5].
    rewrite signed_op_ok by (unfold in_s; destruct (m_dead (sm_mutex (obj k))); lia). rewrite bind_Ok.
    eexists _, _. split; [done|]. split; [split; [done|]|done].
    simpl. rewrite decide_True by done. split; simpl; try done.
    + rewrite map_size_insert_None by done. destruct (m_dead (sm_mutex (obj k))); lia.
    + intros q Hq. apply lookup_insert_is_Some'. eauto.
  - rewrite decide_True by congruence. subst hs. rewrite signed_op_ok by done. rewrite bind_Ok.
    eexists _, _. split; [done|]. split; [split; [done|]|].
    + cbn [obj magic]. rewrite (decide_True (P := _ = _)) by done. split; simpl; try done. rewrite map_size_insert_None by done. by rewrite map_size_empty.
    + intros q. simpl. naive_solver.
Qed.

Lemma shm_lock_law pid h k hs :
  shm_wf k hs → hs !! pid = Some h → ¬ shm_owns k pid →
  ∃ o h' k', shm_mutex_lock pid (Some h) k = Ok (o, Some h', k') ∧
    match o with
    | Ret z => z = 0 ∧ shm_wf k' (<[pid := h']> hs) ∧
               (∀ q, ¬ shm_owns k q) ∧ (∀ q, shm_owns k' q ↔ q = pid)
    | Blocked => shm_wf k' (<[pid := h']> hs) ∧ (∀ q, shm_owns k' q ↔ shm_owns k q) ∧
                 ∃ q, shm_owns k q
    end.
Proof.
  intros Hwf Hh Hno. pose proof Hwf as [Hm _].
  destruct (shm_wf_load k hs pid h Hwf Hh) as [Hld [H1 (Hr & Hi & Hl & Hd) H3 H4 H5]].
  pose proof (size_pos hs pid ltac:(eauto)) as Hpos.
  unfold shm_mutex_lock, shm_owns in *. rewrite Hld, bind_Ok. clear Hld Hwf. destruct h.
  destruct k as [f [mg nm rc lc [at_ ow de inc lo] att] mp]. simpl in *. subst mg inc lo.
  destruct ow as [q|].
  { cbn [mutex_lock m_lost m_owner]. rewrite (decide_False (P := q = pid)) by naive_solver.
    change (mret ?x) with (Ok x). rewrite bind_Ok.
    eexists Blocked, _, _. split; [done|]. rewrite (insert_unit hs pid ()) by done.
    split; [apply (shm_wf_obj (Kernel f _ mp)); [done|]; by split|]. split; [done|]. eauto. }
  assert (Hp : ∀ q, Some pid = Some q → is_Some (hs !! q)) by (intros q [= <-]; eauto).
  destruct de.
  - unfold mutex_consistent. simpl. rewrite decide_True by done. cbn [fst snd]. rewrite decide_True by done.
    rewrite signed_op_ok by (unfold in_s; lia). rewrite bind_Ok.
    eexists (Ret 0), _, _. split; [done|]. split; [done|]. rewrite (insert_unit hs pid ()) by done.
    split; [|naive_solver]. apply (shm_wf_obj (Kernel f _ mp)); [done|]. split; simpl; try done. lia.
  - cbn [mutex_lock m_lost m_owner m_dead m_attr]. change (mret ?x) with (Ok x). rewrite bind_Ok. rewrite (decide_True (P := 0 = 0)) by done.
    rewrite signed_op_ok by (by rewrite H4). rewrite bind_Ok.
    eexists (Ret 0), _, _. split; [done|]. split; [done|]. rewrite (insert_unit hs pid ()) by done.
    split; [|naive_solver]. apply (shm_wf_obj (Kernel f _ mp)); [done|]. split; simpl; try done.
    by rewrite H4.
Qed.

Lemma shm_unlock_law pid h k hs :
  shm_wf k hs → hs !! pid = Some h → shm_owns k pid →
  ∃ h' k', shm_mutex_unlock pid (Some h) k = Ok (0, Some h', k') ∧
    shm_wf k' (<[pid := h']> hs) ∧ ∀ q, ¬ shm_owns k' q.
Proof.
  intros Hwf Hh [_ Hown]. pose proof Hwf as [Hm _].
  destruct (shm_wf_load k hs pid h Hwf Hh) as [Hld [H1 (Hr & Hi & Hl & Hd) H3 H4 H5]].
  unfold shm_mutex_unlock. rewrite Hld, bind_Ok. clear Hld Hwf. destruct h.
  destruct k as [f [mg nm rc lc [at_ ow de inc lo] att] mp]. simpl in *. subst mg inc lo ow.
  rewrite signed_op_ok by (by rewrite H4). rewrite bind_Ok. unfold mutex_unlock. simpl.
  rewrite decide_True by done.
  eexists _, _. split; [done|]. rewrite (insert_unit hs pid ()) by done. split.
  - apply (shm_wf_obj (Kernel f _ mp)); [done|]. split; simpl; try done.
    + destruct de; lia.
    + by rewrite H4.
  - intros q [_ Hq]. done.
Qed.

Lemma shm_destroy_law pid h k hs :
  shm_wf k hs → hs !! pid = Some h → ¬ shm_owns k pid →
  ∃ z o k', shm_mutex_destroy pid (Some h) k = Ok (z, o, k') ∧
    shm_wf k' (delete pid hs) ∧ ∀ q, shm_owns k' q ↔ shm_owns k q.
Proof.
  intros Hwf Hh Hno. pose proof Hwf as [Hm _].
  destruct (shm_wf_load k hs pid h Hwf Hh) as [Hld [H1 H2 H3 H4 H5]].
  pose proof (size_pos hs pid ltac:(eauto)) as Hpos.
  unfold shm_mutex_destroy. rewrite Hld, bind_Ok.
  rewrite signed_op_ok by (unfold in_s; destruct (m_dead (sm_mutex (obj k))); lia). rewrite bind_Ok.
  eexists _, _, _. split; [done|]. split; [|done]. split.
  - intros q. cbn [maps]. rewrite elem_of_difference, elem_of_singleton, Hm.
    rewrite lookup_delete_is_Some. naive_solver.
  - simpl. rewrite decide_True by done. split; simpl; try done.
    + rewrite map_size_delete_Some by eauto. destruct (m_dead (sm_mutex (obj k))); lia.
    + intros q Hq. apply lookup_delete_is_Some. split; [|eauto]. intros <-. by apply Hno.
Qed.

Lemma shm_exit_law pid k hs :
  shm_wf k hs →
  shm_wf (exit_shm pid k) (delete pid hs) ∧
  ∀ q, shm_owns (exit_shm pid k) q ↔ shm_owns k q ∧ q ≠ pid.
Proof.
  intros [Hm Hw].
  assert (Hmaps : ∀ q, q ∈ maps k ∖ {[pid]} ↔ is_Some (delete pid hs !! q)).
  { intros q. rewrite elem_of_difference, elem_of_singleton, Hm, lookup_delete_is_Some. naive_solver. }
  unfold shm_wf, shm_owns. simpl. destruct (decide (magic (obj k) = SHM_MUTEX_MAGIC)) as [He|He].
  - destruct Hw as [H1 H2 H3 H4 H5]. split; [split; [done|]|].
    + split; simpl; try done.
      * by apply mutex_exit_sound.
      * unfold mutex_exit. case_decide as Hd; simpl.
        -- destruct Hd as [Hd _]. pose proof (size_pos hs pid (H5 _ Hd)).
           rewrite map_size_delete_Some by eauto. destruct (m_dead (sm_mutex (obj k))); lia.
        -- pose proof (map_size_delete pid hs) as Hsz.
           destruct (hs !! pid); simpl in Hsz; rewrite Hsz; destruct (m_dead (sm_mutex (obj k))); lia.
      * rewrite H4. unfold mutex_exit, taken. case_decide as Hd; [|done]. destruct Hd as [-> _]. done.
      * intros q Hq. apply mutex_exit_owner in Hq as [Hq Hne]; [|done].
        apply lookup_delete_is_Some. eauto.
    + intros q. rewrite mutex_exit_owner by done. naive_solver.
  - subst hs. split; [split; [done|apply delete_empty]|]. naive_solver.
Qed.

#[global] Instance shm_laws : LockLaws (shm_ops key) shm_ok_create shm_ok_destroy shm_wf shm_owns.
Proof.
  split.
  - unfold shm_owns. intros k hs p q _ [_ H1] [_ H2]. congruence.
  - exact shm_create_law.
  - exact shm_lock_law.
  - exact shm_unlock_law.
  - intros. by apply shm_destroy_law.
  - exact shm_exit_law.
Qed.

End laws.

(** The result of [ftruncate] is not looked at: when the new file could not be
    given its length, the first access to the mapping is a bus error. *)
Lemma shm_mutex_no_room key k pid c :
  default 0 (flen (mf k)) = 0 →
  shm_mutex_alloc (Some key) (Answers true true false true c) pid k = Ub BadPtr.
Proof.
  intros Hz. unfold shm_mutex_alloc.
  assert (Hfn : (length (snprintf64 (TMP ++ key)) ≤ 63)%nat) by (unfold snprintf64; rewrite length_take; lia).
  unfold mmapfile. rewrite decide_False by (unfold PATH_MAX; lia). rewrite decide_False by done.
  cbn [negb ans_open ans_mmap fst snd]. unfold grow_file, open_creat. cbn [ans_lseek ans_ftruncate flen].
  rewrite !Hz. by rewrite decide_True by done.
Qed.

(** C10: (invariant) The shared-memory mutex, with processes that come, go and die
    in any order, call by call, below two billion references and with room for
    the file: at most one process is in the critical section; [lock] returns 0 at once exactly when no
    live process is inside; and [lock_count] is 1 while the mutex is held or was
    left by a dead owner, and 0 otherwise, while [ref_count] covers the attached
    processes. *)
Theorem shm_mutex_exclusion key k0 k ps :
  magic (obj k0) ≠ SHM_MUTEX_MAGIC → maps k0 = ∅ →
  reachable (shm_ops key) shm_ok_create shm_ok_destroy k0 (k, ps) →
  (∀ p q hp hq, ps !! p = Some (hp, true) → ps !! q = Some (hq, true) → p = q) ∧
  (∀ p h, ps !! p = Some (h, false) →
     ∃ h' k', shm_mutex_lock p (Some h) k =
       Ok (if decide (map_Forall (λ _ x, x.2 = false) ps) then Ret 0 else Blocked, Some h', k')) ∧
  (ps ≠ ∅ → lock_count (obj k) = (if taken (sm_mutex (obj k)) then 1 else 0) ∧
            Z.of_nat (size ps) ≤ ref_count (obj k)).
Proof.
  intros Hmg Hmp Hr. pose proof (shm_laws key) as HL.
  assert (Hwf : shm_wf k0 ∅).
  { split; [|by rewrite decide_False]. intros. rewrite Hmp, lookup_empty, is_Some_alt. set_solver. }
  assert (Hno : ∀ q, ¬ shm_owns k0 q) by (by intros q [? _]).
  split; [|split].
  - intros p q hp hq. by apply (exclusion (shm_ops key) shm_ok_create shm_ok_destroy k0 k ps).
  - intros p h. by apply (progress (shm_ops key) shm_ok_create shm_ok_destroy k0 k ps).
  - intros Hne. destruct (lock_inv_reachable (shm_ops key) shm_ok_create shm_ok_destroy k0 (k, ps) Hwf Hno Hr)
      as [[_ Hw] _]. simpl in Hw. case_decide.
    + destruct Hw as [_ _ H3 H4 _]. split; [done|]. unfold handles in H3. rewrite map_size_fmap in H3.
      destruct (m_dead (sm_mutex (obj k))); lia.
    + exfalso. unfold handles in Hw. by apply fmap_empty_inv in Hw.
Qed.

Definition ex_kernel : kernel :=
  Kernel (MFile None 0) (ShmMutexT 0 [] 0 0 (mutex_init attr_init) attr_init) ∅.

(** The first process dies in the critical section, the second recovers. *)
Lemma shm_mutex_exclusion_witness :
  ∃ k, reachable (shm_ops [107]) shm_ok_create shm_ok_destroy ex_kernel (k, {[ 2 := ((), true) ]}) ∧
    lock_count (obj k) = 1 ∧ 1 ≤ ref_count (obj k).
Proof.
  assert (∃ k, reachable (shm_ops [107]) shm_ok_create shm_ok_destroy ex_kernel (k, {[ 2 := ((), true) ]}) ∧
    taken (sm_mutex (obj k)) = true) as (k & Hr & Ht).
  { eexists. unfold reachable. split.
    - eapply rtc_l.
      { apply (step_create _ _ _ MmapFile.ex_answers 1); [done|by split|vm_compute; reflexivity]. }
      eapply rtc_l.
      { apply (step_create _ _ _ MmapFile.ex_answers 2); [done|by split|vm_compute; reflexivity]. }
      eapply rtc_l.
      { eapply (step_lock _ _ _ 1); [by vm_compute|vm_compute; reflexivity]. }
      eapply rtc_l; [apply (step_die _ _ _ 1)|].
      eapply rtc_l.
      { eapply (step_lock _ _ _ 2); [by vm_compute|vm_compute; reflexivity]. }
      match goal with |- rtc _ (?a, ?x) (_, ?y) => replace y with x by reflexivity end.
      apply rtc_refl.
    - reflexivity. }
  exists k. split; [exact Hr|].
  destruct (shm_mutex_exclusion [107] ex_kernel k {[ 2 := ((), true) ]} ltac:(done) eq_refl Hr)
    as (_ & _ & H3).
  destruct H3 as [H3 H4]; [apply insert_non_empty|].
  rewrite Ht in H3. split; [exact H3|exact H4].
Defined.

End ShmMutex.

Module ShmRw.

(** ** Read-write locks of the pthread library *)

Definition EDEADLK := 35.

Record rwlock := RwLock {
  alive : bool;              (** initialised and not destroyed *)
  writer : option Z;
  readers : list Z
}.

Definition rwlock_init : rwlock := RwLock true None [].

(** Using a lock after it was destroyed is undefined. *)
Definition rwlock_rdlock (pid : Z) (r : rwlock) : res (outcome * rwlock) :=
  if negb (alive r) then Ub BadPtr
  else
    match writer r with
    | Some w => mret (if decide (w = pid) then Ret EDEADLK else Blocked, r)
    | None => mret (Ret 0, RwLock true None (pid :: readers r))
    end.

Definition rwlock_wrlock (pid : Z) (r : rwlock) : res (outcome * rwlock) :=
  if negb (alive r) then Ub BadPtr
  else
    match writer r with
    | Some w => mret (if decide (w = pid) then Ret EDEADLK else Blocked, r)
    | None =>
        if decide (readers r = []) then mret (Ret 0, RwLock true (Some pid) [])
        else mret (Blocked, r)
    end.

(** One read lock of [pid] less. *)
Fixpoint remove_one (pid : Z) (l : list Z) : option (list Z) :=
  match l with
  | [] => None
  | q :: l => if decide (q = pid) then Some l else cons q <$> remove_one pid l
  end.

(** Unlocking a lock one does not hold is undefined. *)
Definition rwlock_unlock (pid : Z) (r : rwlock) : res (outcome * rwlock) :=
  if negb (alive r) then Ub BadPtr
  else if decide (writer r = Some pid) then mret (Ret 0, RwLock true None (readers r))
  else
    match remove_one pid (readers r) with
    | Some l => mret (Ret 0, RwLock true (writer r) l)
    | None => Ub BadPtr
    end.

Definition rwlock_destroy (r : rwlock) : rwlock := RwLock false (writer r) (readers r).

(** ** The module *)

Record shm_rwlock_t := ShmRwT {
  magic : Z;
  name : list Z;
  ref_count : Z;
  lock_count : Z;
  rw_lock : rwlock
}.

Definition sizeof_shm_rwlock_t := 144.

Record kernel := Kernel { mf : mfile; obj : shm_rwlock_t; maps : gset Z }.

Definition load (k : kernel) (pid : Z) (h : option unit) : res shm_rwlock_t :=
  match h with
  | None => Ub NullDeref
  | Some _ => if decide (pid ∈ maps k) then Ok (obj k) else Ub BadPtr
  end.

Definition with_lock (k : kernel) (rc : Z) (r : rwlock) : kernel :=
  let o := obj k in Kernel (mf k) (ShmRwT (magic o) (name o) rc (lock_count o) r) (maps k).

(** [ref_count] is an ordinary [int] of the shared mapping and no lock protects
    it: [ref_count++] is a load and a store, and other processes may run between
    the two and before the pthread call that follows. *)
Definition count_load (pid : Z) (h : option unit) (k : kernel) : res Z :=
  o ← load k pid h; mret (ref_count o).

Definition count_store (pid : Z) (h : option unit) (rc : Z) (k : kernel) : res kernel :=
  o ← load k pid h; mret (with_lock k rc (rw_lock o)).

Definition on_lock (f : rwlock → res (outcome * rwlock)) (pid : Z) (h : option unit) (k : kernel) :
    res (outcome * kernel) :=
  o ← load k pid h;
  r ← f (rw_lock o);
  mret (r.1, with_lock k (ref_count o) r.2).

(** The reference is counted only by the process that initialises. *)
Definition shm_rwlock_alloc (key : option (list Z)) (a : answers) (pid : Z) (k : kernel) :
    res (option unit * kernel) :=
  match key with
  | None => mret (None, k)
  | Some key =>
      let r := mmapfile (Some key) sizeof_shm_rwlock_t a (mf k) in
      match r.1 with
      | PNull => mret (None, Kernel r.2 (obj k) (maps k))
      | PFailed => Ub BadPtr
      | PMapped =>
          if negb (backed r.2) then Ub BadPtr else
          let o := obj k in
          let o :=
            if decide (SHM_MUTEX_MAGIC ≠ magic o)
            then ShmRwT SHM_MUTEX_MAGIC (snprintf64 key) 1 0 rwlock_init
            else o in
          mret (Some (), Kernel r.2 o ({[ pid ]} ∪ maps k))
      end
  end.

Definition shm_rwlock_destroy (pid : Z) (h : option unit) (k : kernel) : res (Z * kernel) :=
  c ← count_load pid h k;
  rc ← signed_op 32 (c - 1);
  k ← count_store pid h rc k;
  r ← on_lock (λ r, mret (Ret 0, rwlock_destroy r)) pid h k;
  mret (0, Kernel (mf r.2) (obj r.2) (maps r.2 ∖ {[ pid ]})).

(** The counter is incremented before the call that may wait. *)
Definition shm_rwlock_wrlock (pid : Z) (h : option unit) (k : kernel) : res (outcome * kernel) :=
  c ← count_load pid h k;
  rc ← signed_op 32 (c + 1);
  k ← count_store pid h rc k;
  on_lock (rwlock_wrlock pid) pid h k.

Definition shm_rwlock_rdlock (pid : Z) (h : option unit) (k : kernel) : res (outcome * kernel) :=
  c ← count_load pid h k;
  rc ← signed_op 32 (c + 1);
  k ← count_store pid h rc k;
  on_lock (rwlock_rdlock pid) pid h k.

Definition shm_rwlock_unlock (pid : Z) (h : option unit) (k : kernel) : res (outcome * kernel) :=
  c ← count_load pid h k;
  rc ← signed_op 32 (c - 1);
  k ← count_store pid h rc k;
  on_lock (rwlock_unlock pid) pid h k.

(** ** Processes *)

Inductive op : Set := Rd | Wr | Un.

#[global] Instance op_eq_dec : EqDecision op.
Proof. solve_decision. Defined.

Definition delta (o : op) : Z := match o with Un => -1 | _ => 1 end.

Definition call (o : op) (pid : Z) : rwlock → res (outcome * rwlock) :=
  match o with Rd => rwlock_rdlock pid | Wr => rwlock_wrlock pid | Un => rwlock_unlock pid end.

(** Whether the process is inside, as a writer or as a reader, and where it is in
    a call: it has loaded the counter, or (without a value) has stored it and is
    in the pthread call. *)
Record pstate := PState { held : option bool; at_ : option (op * option Z) }.

#[global] Instance pstate_eq_dec : EqDecision pstate.
Proof. solve_decision. Defined.

(** A process locks when it is outside and unlocks when it is inside. *)
Definition may_call (o : op) (h : option bool) : Prop :=
  match o with Un => is_Some h | _ => h = None end.

Definition after (o : op) (h : option bool) (out : outcome) : pstate :=
  match out with
  | Blocked => PState h (Some (o, None))
  | Ret z =>
      PState (if decide (z = 0) then match o with Rd => Some false | Wr => Some true | Un => None end else h)
        None
  end.

(** The loads, the stores and the pthread calls of the processes interleave in any
    way.  A process that waits makes the pthread call again when it is woken.
    Creations do not overlap, and nobody destroys. *)
Inductive step (key : list Z) : kernel * gmap Z pstate → kernel * gmap Z pstate → Prop :=
  | step_alloc a pid k ps k' :
      ps !! pid = None → shm_rwlock_alloc (Some key) a pid k = Ok (Some (), k') →
      step key (k, ps) (k', <[pid := PState None None]> ps)
  | step_load pid o k ps h c :
      ps !! pid = Some (PState h None) → may_call o h → count_load pid (Some ()) k = Ok c →
      step key (k, ps) (k, <[pid := PState h (Some (o, Some c))]> ps)
  | step_store pid o k ps h c rc k' :
      ps !! pid = Some (PState h (Some (o, Some c))) → signed_op 32 (c + delta o) = Ok rc →
      count_store pid (Some ()) rc k = Ok k' →
      step key (k, ps) (k', <[pid := PState h (Some (o, None))]> ps)
  | step_call pid o k ps h out k' :
      ps !! pid = Some (PState h (Some (o, None))) →
      on_lock (call o pid) pid (Some ()) k = Ok (out, k') →
      step key (k, ps) (k', <[pid := after o h out]> ps).

Definition held_by (ps : gmap Z pstate) (p : Z) : option bool := ps !! p ≫= held.

Lemma held_insert ps pid st p :
  held_by (<[pid := st]> ps) p = if decide (p = pid) then held st else held_by ps p.
Proof.
  unfold held_by. case_decide as Hd; [subst; by rewrite lookup_insert_eq|by rewrite lookup_insert_ne].
Qed.

(** The lock knows exactly who is inside. *)
Record lock_wf (ps : gmap Z pstate) (r : rwlock) : Prop := {
  lw_alive : alive r = true;
  lw_writer p : writer r = Some p ↔ held_by ps p = Some true;
  lw_readers p : p ∈ readers r ↔ held_by ps p = Some false;
  lw_nodup : NoDup (readers r);
  lw_excl : is_Some (writer r) → readers r = []
}.

Definition rw_wf (k : kernel) (ps : gmap Z pstate) : Prop :=
  if decide (magic (obj k) = SHM_MUTEX_MAGIC)
  then lock_wf ps (rw_lock (obj k)) ∧
       map_Forall (λ p st, p ∈ maps k ∧ (∀ o x, at_ st = Some (o, x) → may_call o (held st))) ps
  else ps = ∅.

Lemma remove_one_spec pid l :
  NoDup l → pid ∈ l →
  ∃ l', remove_one pid l = Some l' ∧ NoDup l' ∧ ∀ q, q ∈ l' ↔ q ∈ l ∧ q ≠ pid.
Proof.
  induction 1 as [|x l Hx Hl IH]; intros Hp; simpl; [by apply elem_of_nil in Hp|].
  destruct (decide (x = pid)) as [->|Hne].
  - exists l. split; [done|]. split; [done|]. intros q. rewrite elem_of_cons. naive_solver.
  - apply elem_of_cons in Hp as [->|Hp]; [done|].
    destruct (IH Hp) as (l' & -> & Hl' & Hq). exists (x :: l'). split; [done|]. split.
    + constructor; [|done]. intros Hin. apply Hq in Hin. naive_solver.
    + intros q. rewrite !elem_of_cons, Hq. naive_solver.
Qed.

(** Only who is inside matters. *)
Lemma lock_wf_held ps ps' r :
  (∀ p, held_by ps' p = held_by ps p) → lock_wf ps r → lock_wf ps' r.
Proof.
  intros Hh [H1 H2 H3 H4 H5]. split; try done; intros p; rewrite Hh; [apply H2|apply H3].
Qed.

Lemma lock_wf_same ps r pid st :
  lock_wf ps r → held st = held_by ps pid → lock_wf (<[pid := st]> ps) r.
Proof.
  intros Hw Hh. eapply lock_wf_held; [|done]. intros p. rewrite held_insert. case_decide; congruence.
Qed.

(** Somebody is in the way of the call. *)
Definition conflict (o : op) (ps : gmap Z pstate) : Prop :=
  match o with
  | Rd => ∃ q, held_by ps q = Some true
  | Wr => ∃ q, is_Some (held_by ps q)
  | Un => False
  end.

Lemma rdlock_wf ps r pid :
  lock_wf ps r → held_by ps pid = None →
  (rwlock_rdlock pid r = Ok (Blocked, r) ∧ conflict Rd ps) ∨
  (∃ r', rwlock_rdlock pid r = Ok (Ret 0, r') ∧ ¬ conflict Rd ps ∧
     lock_wf (<[pid := after Rd None (Ret 0)]> ps) r').
Proof.
  intros [H1 H2 H3 H4 H5] Ho. unfold rwlock_rdlock, conflict. rewrite H1. cbn [negb].
  destruct (writer r) as [w|] eqn:Hwr.
  - left. pose proof (proj1 (H2 w) eq_refl) as Hw. rewrite decide_False by (intros ->; congruence).
    split; [done|]. by exists w.
  - right. eexists. split; [done|]. split; [intros [q Hq]; by apply H2 in Hq|].
    split; simpl; try done.
    + intros p. rewrite held_insert. case_decide; [naive_solver|apply H2].
    + intros p. rewrite elem_of_cons, held_insert, H3. case_decide; naive_solver.
    + constructor; [|done]. rewrite H3. congruence.
Qed.

Lemma wrlock_wf ps r pid :
  lock_wf ps r → held_by ps pid = None →
  (rwlock_wrlock pid r = Ok (Blocked, r) ∧ conflict Wr ps) ∨
  (∃ r', rwlock_wrlock pid r = Ok (Ret 0, r') ∧ ¬ conflict Wr ps ∧
     lock_wf (<[pid := after Wr None (Ret 0)]> ps) r').
Proof.
  intros [H1 H2 H3 H4 H5] Ho. unfold rwlock_wrlock, conflict. rewrite H1. cbn [negb].
  destruct (writer r) as [w|] eqn:Hwr.
  { left. pose proof (proj1 (H2 w) eq_refl) as Hw. rewrite decide_False by (intros ->; congruence).
    split; [done|]. exists w. by rewrite Hw. }
  destruct (readers r) as [|x l] eqn:Hrd.
  2:{ left. rewrite decide_False by done. split; [done|]. exists x.
      rewrite (proj1 (H3 x)); [done|]. apply elem_of_cons. by left. }
  right. rewrite decide_True by done. eexists. split; [done|].
  assert (Hnone : ∀ p, held_by ps p = None).
  { intros p. destruct (held_by ps p) as [[]|] eqn:Hp; [by apply H2 in Hp| |done].
    apply H3 in Hp. by apply elem_of_nil in Hp. }
  split; [intros [q [? Hq]]; congruence|].
  split; simpl; try done.
  - intros p. rewrite held_insert, Hnone. case_decide; naive_solver.
  - intros p. rewrite held_insert, Hnone, elem_of_nil. by case_decide.
Qed.

Lemma unlock_wf ps r pid h :
  lock_wf ps r → held_by ps pid = h → is_Some h →
  ∃ r', rwlock_unlock pid r = Ok (Ret 0, r') ∧ lock_wf (<[pid := after Un h (Ret 0)]> ps) r'.
Proof.
  intros [H1 H2 H3 H4 H5] <- [w Ho]. unfold rwlock_unlock. rewrite H1. cbn [negb].
  destruct (decide (writer r = Some pid)) as [Hw|Hw].
  - eexists. split; [done|]. rewrite (H5 ltac:(by eexists)) in *. split; simpl; try done.
    + intros p. rewrite held_insert. case_decide; [done|]. rewrite <-H2, Hw. naive_solver.
    + intros p. rewrite held_insert. case_decide; [|apply H3].
      split; [by intros ?%elem_of_nil|done].
  - assert (Hin : pid ∈ readers r).
    { apply H3. destruct w; [|done]. by apply H2 in Ho. }
    destruct (remove_one_spec pid (readers r) H4 Hin) as (l' & -> & Hl' & Hq).
    eexists. split; [done|]. split; simpl; try done.
    + intros p. rewrite held_insert, H2. case_decide; [|done]. subst. rewrite <-H2. naive_solver.
    + intros p. rewrite Hq, held_insert, H3. case_decide; naive_solver.
    + intros Hs. apply H5 in Hs. rewrite Hs in Hin. by apply elem_of_nil in Hin.
Qed.

(** The pthread call of a process that may make it. *)
Lemma call_wf ps r pid o h :
  lock_wf ps r → held_by ps pid = h → may_call o h →
  ∃ out r', call o pid r = Ok (out, r') ∧ lock_wf (<[pid := after o h out]> ps) r' ∧
    (out = Blocked ∧ conflict o ps ∨ out = Ret 0 ∧ ¬ conflict o ps).
Proof.
  intros Hw Hh Hm. destruct o; simpl in Hm.
  - subst h. rewrite Hm. destruct (rdlock_wf ps r pid Hw Hm) as [(? & ?)|(r' & ? & ? & ?)].
    + exists Blocked, r. split; [done|]. split; [by apply lock_wf_same|auto].
    + exists (Ret 0), r'. auto.
  - subst h. rewrite Hm. destruct (wrlock_wf ps r pid Hw Hm) as [(? & ?)|(r' & ? & ? & ?)].
    + exists Blocked, r. split; [done|]. split; [by apply lock_wf_same|auto].
    + exists (Ret 0), r'. auto.
  - destruct (unlock_wf ps r pid h Hw Hh Hm) as (r' & ? & ?). exists (Ret 0), r'.
    split; [done|]. split; [done|]. right. split; [done|]. by intros [].
Qed.

Lemma rw_wf_inv k ps pid st :
  rw_wf k ps → ps !! pid = Some st →
  lock_wf ps (rw_lock (obj k)) ∧ load k pid (Some ()) = Ok (obj k) ∧
  held_by ps pid = held st ∧ ∀ o x, at_ st = Some (o, x) → may_call o (held st).
Proof.
  unfold rw_wf. case_decide; [|intros ->; by rewrite lookup_empty].
  intros [Hw Hall] Hp. destruct (Hall _ _ Hp) as [Hm Ho]. unfold load, held_by.
  rewrite decide_True, Hp by done. auto.
Qed.

(** What the steps of an attached process have in common. *)
Lemma rw_wf_update k ps pid old rc r new :
  rw_wf k ps → ps !! pid = Some old → lock_wf (<[pid := new]> ps) r →
  (∀ o x, at_ new = Some (o, x) → may_call o (held new)) →
  rw_wf (with_lock k rc r) (<[pid := new]> ps).
Proof.
  unfold rw_wf. cbn [obj magic with_lock rw_lock maps]. intros Hwf Hp Hl Hn.
  case_decide; [|subst; by rewrite lookup_empty in Hp].
  destruct Hwf as [Hw Hall]. split; [done|]. apply map_Forall_insert_2; [|done].
  split; [by apply (Hall _ _ Hp)|done].
Qed.

Lemma alloc_wf key a pid k ps k' :
  rw_wf k ps → ps !! pid = None → shm_rwlock_alloc (Some key) a pid k = Ok (Some (), k') →
  rw_wf k' (<[pid := PState None None]> ps).
Proof.
  unfold rw_wf. intros Hwf Hp Ha. unfold shm_rwlock_alloc in Ha.
  destruct (mmapfile _ _ _ _) as [[] m]; cbn [fst snd] in Ha; [done..|].
  destruct (backed m); [|done]. cbn [negb] in Ha.
  injection Ha as <-. cbn [obj maps]. destruct (decide (magic (obj k) = SHM_MUTEX_MAGIC)) as [He|He].
  - rewrite (decide_False (P := SHM_MUTEX_MAGIC ≠ _)) by auto. rewrite decide_True by done.
    destruct Hwf as [Hw Hall]. split; [apply lock_wf_same; [done|]; unfold held_by; by rewrite Hp|].
    apply map_Forall_insert_2; [split; [apply elem_of_union_l; by apply elem_of_singleton|done]|].
    eapply map_Forall_impl; [done|]. intros p st [Hm ?]. split; [by apply elem_of_union_r|done].
  - subst ps. rewrite (decide_True (P := SHM_MUTEX_MAGIC ≠ _)) by auto. cbn [magic rw_lock].
    rewrite decide_True by done. split.
    + apply lock_wf_same; [|done]. split; simpl; try done; [|constructor].
      intros p. split; [by intros ?%elem_of_nil|done].
    + apply map_Forall_insert_2; [split; [apply elem_of_union_l; by apply elem_of_singleton|done]|].
      apply map_Forall_empty.
Qed.

Lemma with_lock_id k : with_lock k (ref_count (obj k)) (rw_lock (obj k)) = k.
Proof. by destruct k as [? [] ?]. Qed.

Lemma rw_wf_step key st st' : step key st st' → rw_wf st.1 st.2 → rw_wf st'.1 st'.2.
Proof.
  intros Hst Hwf.
  destruct Hst as [a pid k ps k' Hp Ha|pid o k ps h c Hp Hm Hl|pid o k ps h c rc k' Hp Hs Hc
                  |pid o k ps h out k' Hp Ha]; cbn [fst snd] in *.
  - by eapply alloc_wf.
  - destruct (rw_wf_inv _ _ _ _ Hwf Hp) as (Hw & _ & Hh & _).
    rewrite <-(with_lock_id k). eapply rw_wf_update; [done..|by apply lock_wf_same|].
    simpl. intros ? ? [= <- <-]. done.
  - destruct (rw_wf_inv _ _ _ _ Hwf Hp) as (Hw & Hld & Hh & Hm). unfold count_store in Hc.
    rewrite Hld in Hc. injection Hc as <-. eapply rw_wf_update; [done..|by apply lock_wf_same|].
    simpl in *. intros ? ? [= <- <-]. by eapply Hm.
  - destruct (rw_wf_inv _ _ _ _ Hwf Hp) as (Hw & Hld & Hh & Hm). unfold on_lock in Ha.
    rewrite Hld, bind_Ok in Ha. cbn [held at_] in *. specialize (Hm _ _ eq_refl).
    destruct (call_wf _ _ _ _ _ Hw Hh Hm) as (out' & r' & Hcall & Hw' & _). rewrite Hcall in Ha.
    injection Ha as <- <-. eapply rw_wf_update; [done..|].
    destruct out'; simpl; [done|]. intros ? ? [= <- <-]. done.
Qed.

Lemma rw_wf_reachable key k0 st :
  magic (obj k0) ≠ SHM_MUTEX_MAGIC → rtc (step key) (k0, ∅) st → rw_wf st.1 st.2.
Proof.
  intros Hm Hr. assert (H0 : rw_wf k0 ∅) by (unfold rw_wf; by rewrite decide_False).
  change (rw_wf (k0, ∅ : gmap Z pstate).1 (k0, ∅ : gmap Z pstate).2) in H0. revert H0.
  induction Hr as [|x y z Hs _ IH]; [done|]. intros Hx. by eapply IH, rw_wf_step.
Qed.

Lemma signed_op_val w z x : signed_op w z = Ok x → x = z.
Proof. unfold signed_op. case_decide; congruence. Qed.

(** A call that is not disturbed is these steps one after the other, and moves the
    counter by one. *)
Definition rwcall (o : op) (pid : Z) (h : option unit) (k : kernel) : res (outcome * kernel) :=
  match o with
  | Rd => shm_rwlock_rdlock pid h k
  | Wr => shm_rwlock_wrlock pid h k
  | Un => shm_rwlock_unlock pid h k
  end.

Lemma rwcall_steps key pid o k ps h out k' :
  ps !! pid = Some (PState h None) → may_call o h → rwcall o pid (Some ()) k = Ok (out, k') →
  rtc (step key) (k, ps) (k', <[pid := after o h out]> ps) ∧
  ref_count (obj k') = ref_count (obj k) + delta o.
Proof.
  intros Hp Hm Hc.
  assert (∃ c rc k1, count_load pid (Some ()) k = Ok c ∧ signed_op 32 (c + delta o) = Ok rc ∧
    count_store pid (Some ()) rc k = Ok k1 ∧ on_lock (call o pid) pid (Some ()) k1 = Ok (out, k'))
    as (c & rc & k1 & H1 & H2 & H3 & H4).
  { destruct o; simpl in Hc; unfold shm_rwlock_rdlock, shm_rwlock_wrlock, shm_rwlock_unlock in Hc;
      apply bind_Ok_inv in Hc as (c & ? & Hc); apply bind_Ok_inv in Hc as (rc & ? & Hc);
      apply bind_Ok_inv in Hc as (k1 & ? & Hc); by exists c, rc, k1. }
  split.
  - eapply rtc_l; [by apply (step_load _ pid o _ _ h c)|].
    eapply rtc_l; [eapply (step_store _ pid o); [apply lookup_insert_eq|done..]|].
    rewrite insert_insert_eq.
    eapply rtc_l; [eapply (step_call _ pid o); [apply lookup_insert_eq|done..]|].
    rewrite insert_insert_eq. apply rtc_refl.
  - unfold count_load, count_store, on_lock, load in *.
    destruct (decide (pid ∈ maps k)) as [Hin|]; [|done]. rewrite bind_Ok in H1. rewrite bind_Ok in H3.
    injection H1 as <-. injection H3 as <-. apply signed_op_val in H2 as ->.
    rewrite decide_True in H4 by done. rewrite bind_Ok in H4. cbn [with_lock rw_lock obj ref_count] in H4.
    destruct (call o pid _) as [[]| |]; [|done..]. by injection H4 as <- <-.
Qed.

Lemma insert_swap {A} (m : gmap Z A) p q a b c :
  p ≠ q → <[p := a]> (<[q := b]> (<[p := c]> m)) = <[q := b]> (<[p := a]> m).
Proof. intros. by rewrite insert_insert_ne, insert_insert_eq. Qed.

(** Both processes load the counter before either stores it. *)
Lemma lost_count key k ps p q :
  rw_wf k ps → p ≠ q → ps !! p = Some (PState None None) → ps !! q = Some (PState None None) →
  ¬ conflict Rd ps → in_s 32 (ref_count (obj k) + 1) →
  ∃ k', rtc (step key) (k, ps)
      (k', <[q := PState (Some false) None]> (<[p := PState (Some false) None]> ps)) ∧
    ref_count (obj k') = ref_count (obj k) + 1.
Proof.
  intros Hwf Hpq Hp Hq Hnc Hin.
  destruct (rw_wf_inv _ _ _ _ Hwf Hp) as ([Ha Hwr _ _ _] & Hlp & _).
  destruct (rw_wf_inv _ _ _ _ Hwf Hq) as (_ & Hlq & _).
  assert (Hnw : writer (rw_lock (obj k)) = None).
  { destruct (writer _) as [w|] eqn:Hw; [|done]. exfalso. apply Hnc. exists w. by apply Hwr. }
  assert (Hmp : p ∈ maps k ∧ q ∈ maps k).
  { unfold load in *. by do 2 case_decide. }
  destruct Hmp as [Hmp Hmq]. set (c := ref_count (obj k)) in *. set (l := readers (rw_lock (obj k))).
  exists (with_lock (with_lock (with_lock (with_lock k (c + 1) (rw_lock (obj k))) (c + 1) (rw_lock (obj k)))
    (c + 1) (RwLock true None (p :: l))) (c + 1) (RwLock true None (q :: p :: l))).
  split; [|done].
  eapply rtc_l; [apply (step_load _ p Rd _ _ None c); [done..|]; unfold count_load; by rewrite Hlp|].
  eapply rtc_l; [apply (step_load _ q Rd _ _ None c);
    [by rewrite lookup_insert_ne|done|unfold count_load; by rewrite Hlq]|].
  eapply rtc_l; [eapply (step_store _ p Rd); [by rewrite lookup_insert_ne, lookup_insert_eq|
    by apply signed_op_ok|unfold count_store; by rewrite Hlp]|].
  rewrite insert_swap by done.
  eapply rtc_l; [eapply (step_store _ q Rd); [by rewrite lookup_insert_eq|by apply signed_op_ok|]|].
  { unfold count_store, load. simpl. by rewrite decide_True. }
  rewrite insert_insert_eq.
  eapply rtc_l; [eapply (step_call _ p Rd _ _ None (Ret 0)); [by rewrite lookup_insert_ne, lookup_insert_eq|]|].
  { unfold on_lock, load. simpl. rewrite decide_True by done. simpl. unfold rwlock_rdlock.
    by rewrite Ha, Hnw. }
  rewrite insert_swap by done.
  eapply rtc_l; [eapply (step_call _ q Rd _ _ None (Ret 0)); [by rewrite lookup_insert_eq|]|].
  { unfold on_lock, load. simpl. by rewrite decide_True. }
  rewrite insert_insert_eq. apply rtc_refl.
Qed.

(** C17: (invariant) The shared read-write lock.  Attached processes lock when they
    are outside and unlock when they are inside; the accesses to the counter, which
    no lock protects, and the pthread calls interleave in any way.  Creations do
    not overlap, no process destroys its handle or ends.  Then a writer is always
    alone; every access is defined, but for an overflow of the counter; and a
    pthread call waits exactly when somebody is in the way (a writer for a reader,
    anybody for a writer) and otherwise returns 0.  The counter is not reliable:
    a call that runs alone moves it by one ([rwcall_steps]), but whenever no writer
    is inside, two processes that come in as readers can leave it just one higher. *)
Theorem shm_rwlock_exclusion key k0 k ps :
  magic (obj k0) ≠ SHM_MUTEX_MAGIC → rtc (step key) (k0, ∅) (k, ps) →
  (∀ p q, held_by ps p = Some true → is_Some (held_by ps q) → p = q) ∧
  (∀ p st, ps !! p = Some st →
     count_load p (Some ()) k = Ok (ref_count (obj k)) ∧
     (∀ rc, ∃ k', count_store p (Some ()) rc k = Ok k') ∧
     (∀ o, at_ st = Some (o, None) →
        ∃ out k', on_lock (call o p) p (Some ()) k = Ok (out, k') ∧
          (out = Blocked ∧ conflict o ps ∨ out = Ret 0 ∧ ¬ conflict o ps))) ∧
  (∀ p q, p ≠ q → ps !! p = Some (PState None None) → ps !! q = Some (PState None None) →
     ¬ conflict Rd ps → in_s 32 (ref_count (obj k) + 1) →
     ∃ k', rtc (step key) (k, ps)
         (k', <[q := PState (Some false) None]> (<[p := PState (Some false) None]> ps)) ∧
       ref_count (obj k') = ref_count (obj k) + 1).
Proof.
  intros Hm Hr. pose proof (rw_wf_reachable key k0 _ Hm Hr) as Hwf. cbn [fst snd] in Hwf.
  split; [|split].
  - intros p q Hp [w Hq]. assert (is_Some (ps !! p)) as [st Hst]
      by (unfold held_by in Hp; destruct (ps !! p); [eauto|done]).
    destruct (rw_wf_inv _ _ _ _ Hwf Hst) as ([H1 H2 H3 H4 H5] & _).
    apply H2 in Hp. destruct w; [apply H2 in Hq; congruence|].
    apply H3 in Hq. rewrite H5 in Hq by eauto. by apply elem_of_nil in Hq.
  - intros p st Hst. destruct (rw_wf_inv _ _ _ _ Hwf Hst) as (Hw & Hld & Hh & Ho).
    unfold count_load, count_store, on_lock. rewrite Hld. split; [done|]. split; [eauto|].
    intros o Hat. destruct (call_wf _ _ _ _ _ Hw Hh (Ho _ _ Hat)) as (out & r' & Hc & _ & Hout).
    rewrite bind_Ok, Hc. eauto.
  - intros p q Hpq Hp Hq Hnc Hin. by apply lost_count.
Qed.

(** A lock that has been destroyed. *)
Lemma dead_lock k pid :
  pid ∈ maps k → alive (rw_lock (obj k)) = false → in_s 32 (ref_count (obj k) + 1) →
  shm_rwlock_rdlock pid (Some ()) k = Ub BadPtr ∧ shm_rwlock_wrlock pid (Some ()) k = Ub BadPtr.
Proof.
  intros Hp Ha Hin. unfold shm_rwlock_rdlock, shm_rwlock_wrlock, rwlock_rdlock, rwlock_wrlock.
  unfold count_load, count_store, on_lock, load. rewrite decide_True by done.
  rewrite !bind_Ok. rewrite signed_op_ok by done. rewrite !bind_Ok. cbn [maps with_lock]. rewrite decide_True by done.
  rewrite !bind_Ok. cbn [obj rw_lock with_lock]. by rewrite Ha.
Qed.

(** Any process that destroys its handle destroys the lock for all:
    another process that still maps it cannot lock without undefined behaviour,
    and attaching again does not repair it, since the magic number stays. *)
Lemma shm_rwlock_destroy_kills key a k p q r :
  p ∈ maps k → q ∈ maps k → p ≠ q → magic (obj k) = SHM_MUTEX_MAGIC →
  0 < ref_count (obj k) < 2 ^ 31 → ans_open a = true → ans_mmap a = true →
  ans_lseek a = true → ans_ftruncate a = true →
  Z.of_nat (length key) ≤ PATH_MAX →
  ∃ k1 k2, shm_rwlock_destroy p (Some ()) k = Ok (0, k1) ∧
    shm_rwlock_rdlock q (Some ()) k1 = Ub BadPtr ∧ shm_rwlock_wrlock q (Some ()) k1 = Ub BadPtr ∧
    shm_rwlock_alloc (Some key) a r k1 = Ok (Some (), k2) ∧
    shm_rwlock_rdlock r (Some ()) k2 = Ub BadPtr.
Proof.
  intros Hp Hq Hpq Hm Hrc Ho Hmm Hl Ht Hlen. unfold shm_rwlock_destroy, count_load, count_store, on_lock, load.
  rewrite decide_True by done. rewrite !bind_Ok, signed_op_ok by (unfold in_s; lia). rewrite !bind_Ok.
  cbn [maps with_lock]. rewrite decide_True by done. rewrite !bind_Ok. cbn [fst snd mf obj maps with_lock].
  set (k1 := Kernel _ _ _). exists k1. eexists. split; [done|].
  assert (Hin : in_s 32 (ref_count (obj k1) + 1)) by (unfold in_s; simpl; lia).
  destruct (dead_lock k1 q) as [-> ->]; [set_solver|done..|]. split; [done|]. split; [done|].
  assert (Hr : (mmapfile (Some key) sizeof_shm_rwlock_t a (mf k1)).1 = PMapped).
  { unfold mmapfile. rewrite decide_False, decide_False by (done || lia). by rewrite Ho, Hmm. }
  unfold shm_rwlock_alloc. rewrite Hr, mmapfile_backed by (done || by rewrite Hr).
  cbn [negb]. rewrite decide_False by (simpl; auto).
  split; [done|]. apply dead_lock; [set_solver|done..].
Qed.

(** ** Witnesses *)

Definition ex_kernel : kernel := Kernel (MFile None 0) (ShmRwT 0 [] 0 0 (RwLock false None [])) ∅.

(** Process 1 writes while process 2 waits to read; and two readers of which one is
    not counted. *)
Lemma shm_rwlock_exclusion_witness :
  (∃ k, rtc (step [107]) (ex_kernel, ∅)
     (k, {[ 1 := PState (Some true) None; 2 := PState None (Some (Rd, None)) ]}) ∧
     count_load 1 (Some ()) k = Ok 3) ∧
  ∃ k, rtc (step [107]) (ex_kernel, ∅)
     (k, {[ 1 := PState (Some false) None; 2 := PState (Some false) None ]}) ∧ ref_count (obj k) = 2.
Proof.
  split.
  - assert (∃ k, rtc (step [107]) (ex_kernel, ∅)
      (k, {[ 1 := PState (Some true) None; 2 := PState None (Some (Rd, None)) ]}) ∧ ref_count (obj k) = 3)
      as (k & Hr & Hc).
    { eexists. split.
      - eapply rtc_l; [apply (step_alloc _ MmapFile.ex_answers 1); [done|vm_compute; reflexivity]|].
        eapply rtc_l; [apply (step_alloc _ MmapFile.ex_answers 2); [done|vm_compute; reflexivity]|].
        eapply rtc_l; [eapply (step_load _ 1 Wr); [by vm_compute|done|vm_compute; reflexivity]|].
        eapply rtc_l; [eapply (step_store _ 1 Wr); [by vm_compute|vm_compute; reflexivity..]|].
        eapply rtc_l; [eapply (step_call _ 1 Wr); [by vm_compute|vm_compute; reflexivity]|].
        eapply rtc_l; [eapply (step_load _ 2 Rd); [by vm_compute|done|vm_compute; reflexivity]|].
        eapply rtc_l; [eapply (step_store _ 2 Rd); [by vm_compute|vm_compute; reflexivity..]|].
        eapply rtc_l; [eapply (step_call _ 2 Rd); [by vm_compute|vm_compute; reflexivity]|].
        match goal with |- rtc _ (?a, ?x) (_, ?y) => replace y with x by (vm_compute; reflexivity) end.
        apply rtc_refl.
      - vm_compute. reflexivity. }
    exists k. split; [exact Hr|].
    destruct (shm_rwlock_exclusion [107] ex_kernel k _ ltac:(done) Hr) as (_ & H & _).
    destruct (H 1 (PState (Some true) None) eq_refl) as [H1 _]. rewrite H1, Hc. reflexivity.
  - assert (∃ k, rtc (step [107]) (ex_kernel, ∅) (k, {[ 1 := PState None None; 2 := PState None None ]}) ∧
      ref_count (obj k) = 1) as (k & Hr & Hc).
    { eexists. split.
      - eapply rtc_l; [apply (step_alloc _ MmapFile.ex_answers 1); [done|vm_compute; reflexivity]|].
        eapply rtc_l; [apply (step_alloc _ MmapFile.ex_answers 2); [done|vm_compute; reflexivity]|].
        match goal with |- rtc _ (?a, ?x) (_, ?y) => replace y with x by (vm_compute; reflexivity) end.
        apply rtc_refl.
      - vm_compute. reflexivity. }
    destruct (shm_rwlock_exclusion [107] ex_kernel k _ ltac:(done) Hr) as (_ & _ & H).
    destruct (H 1 2 ltac:(done) eq_refl eq_refl) as (k' & Hs & Hc').
    + intros [q Hq]. unfold held_by in Hq.
      destruct (decide (q = 1)) as [->|]; [done|]. destruct (decide (q = 2)) as [->|]; [done|].
      rewrite lookup_insert_ne, lookup_singleton_ne in Hq by done. done.
    + rewrite Hc. split; lia.
    + exists k'. split; [|by rewrite Hc', Hc]. etransitivity; [exact Hr|].
      match type of Hs with rtc _ _ (_, ?x) => match goal with |- rtc _ _ (_, ?y) =>
        replace y with x by (vm_compute; reflexivity) end end. exact Hs.
Defined.

Lemma shm_rwlock_destroy_kills_witness :
  ∃ k1, shm_rwlock_destroy 1 (Some ())
          (Kernel (MFile (Some 144) 2) (ShmRwT SHM_MUTEX_MAGIC [107] 1 0 rwlock_init) {[ 1; 2 ]}) = Ok (0, k1) ∧
    shm_rwlock_rdlock 2 (Some ()) k1 = Ub BadPtr.
Proof.
  destruct (shm_rwlock_destroy_kills [107] MmapFile.ex_answers
    (Kernel (MFile (Some 144) 2) (ShmRwT SHM_MUTEX_MAGIC [107] 1 0 rwlock_init) {[ 1; 2 ]}) 1 2 3)
    as (k1 & _ & H1 & H2 & _); try reflexivity.
  - set_solver.
  - set_solver.
  - done.
  - exists k1. split; [exact H1|exact H2].
Defined.

End ShmRw.
