(* ===== verification/FileUtils.v ===== *)
(** * File helpers: linux/utils/src/file_utils.c, image_file.c and file_library.c

    The file system is one shared map from names to contents, so two streams on
    one name see each other; [space] bytes can still be written before the device
    is full.  A directory can be opened for reading, and every read from it
    fails without setting the end-of-file flag.

    Theorems: copying terminates and copies, never ends on a directory, and
    empties a file copied onto itself; what is written is read back, but a
    request for more than the file holds gets one byte; a frame written row by
    row is read back; the output of a command is cut at a chunk so that it fits
    its buffer. *)

From S2P Require Import Prelude.

(** ** Files and streams *)

Inductive fobj : Set := FReg (content : list Z) | FDir.

Record fsys := Fs { files : gmap (list Z) fobj; space : Z }.

Record stream := Stream { st_path : list Z; st_pos : Z; st_eof : bool }.

Definition content (s : fsys) (p : list Z) : list Z :=
  match files s !! p with Some (FReg c) => c | _ => [] end.

(** [fopen(path, "rb")] *)
Definition fopen_rb (s : fsys) (p : list Z) : option stream :=
  match files s !! p with Some _ => Some (Stream p 0 false) | None => None end.

(** [fopen(path, "wb")]: an existing file is emptied. *)
Definition fopen_wb (s : fsys) (p : list Z) : option (stream * fsys) :=
  match files s !! p with
  | Some FDir => None
  | _ => Some (Stream p 0 false, Fs (<[p := FReg []]> (files s)) (space s))
  end.

(** [fread] of [n] bytes in all: what was read.  The end-of-file flag is set when
    the file ends before; a read error leaves it. *)
Definition fread (s : fsys) (f : stream) (n : Z) : list Z * stream :=
  match files s !! st_path f with
  | Some (FReg c) =>
      let got := take (Z.to_nat n) (drop (Z.to_nat (st_pos f)) c) in
      (got, Stream (st_path f) (st_pos f + Z.of_nat (length got))
              (st_eof f || bool_decide (Z.of_nat (length got) < n)))
  | _ => ([], f)
  end.

(** [fwrite] of [bs] to a stream opened for writing, as far as there is space. *)
Definition fwrite (s : fsys) (f : stream) (bs : list Z) : Z * fsys * stream :=
  let out := take (Z.to_nat (space s)) bs in
  let n := Z.of_nat (length out) in
  let c := content s (st_path f) in
  (n, Fs (<[st_path f := FReg (take (Z.to_nat (st_pos f)) c ++ out
                               ++ drop (Z.to_nat (st_pos f) + length out) c)]> (files s))
        (space s - n),
   Stream (st_path f) (st_pos f + n) (st_eof f)).

(** ** file_utils.c *)

Definition READ_BUF_MAX_LEN := 1024.

(** [ftell] after a seek to the end gives a long, kept in an int; afterwards the
    stream is at its start. *)
Definition file_get_size (s : fsys) (f : stream) : Z :=
  s32 (Z.of_nat (length (content s (st_path f)))).

Definition file_get_size_by_path (s : fsys) (p : list Z) : Z :=
  match fopen_rb s p with None => -1 | Some f => file_get_size s f end.

(** Bytes stored at the start of a buffer. *)
Definition store_at (buf : list Z) (i : Z) (bs : list Z) : res (list Z) :=
  if decide (0 ≤ i ∧ i + Z.of_nat (length bs) ≤ Z.of_nat (length buf))
  then Ok (take (Z.to_nat i) buf ++ bs ++ drop (Z.to_nat i + length bs) buf)
  else Ub OutOfBounds.

(** [size = size < len ? : len]: the omitted operand is the value of the test. *)
Definition file_read_to_buffer (s : fsys) (p : list Z) (buffer : list Z) (len : Z) :
    res (Z * list Z) :=
  match fopen_rb s p with
  | None => mret (-1, buffer)
  | Some f =>
      let size := file_get_size s f in
      let size := if decide (size < len) then 1 else len in
      let r := fread s f (u64 size) in
      b ← store_at buffer 0 r.1;
      mret (0, b)
  end.

(** The result of [fwrite] is ignored. *)
Definition file_write_from_buffer (s : fsys) (p : list Z) (buffer : list Z) (len : Z) :
    res (Z * fsys) :=
  match fopen_wb s p with
  | None => mret (-1, s)
  | Some (f, s) =>
      if decide (u64 len ≤ Z.of_nat (length buffer)) then
        mret (0, (fwrite s f (take (Z.to_nat (u64 len)) buffer)).1.2)
      else Ub OutOfBounds
  end.

(** [while (!feof(src))] *)
Fixpoint copy_loop (fuel : nat) (s : fsys) (src dst : stream) : res fsys :=
  match fuel with
  | O => NoFuel
  | S fuel =>
      if st_eof src then mret s
      else
        let r := fread s src READ_BUF_MAX_LEN in
        let w := fwrite s dst r.1 in
        copy_loop fuel w.1.2 r.2 w.2
  end.

Definition file_copy_content (fuel : nat) (s : fsys) (src_file dst_file : list Z) : res (Z * fsys) :=
  match files s !! src_file with
  | None => mret (-1, s)
  | Some _ =>
      match fopen_rb s src_file with
      | None => mret (-1, s)
      | Some src =>
          match fopen_wb s dst_file with
          | None => mret (-1, s)
          | Some (dst, s) => s ← copy_loop fuel s src dst; mret (0, s)
          end
      end
  end.

(** ** file_library.c *)

(** The length as a 64-bit value. *)
Definition gplib_get_file_size (s : fsys) (p : list Z) : Z :=
  match files s !! p with
  | None => -1
  | Some _ => s64 (Z.of_nat (length (content s p)))
  end.

(** ** image_file.c *)

(** One row: whether the one item was transferred ([fread] and [fwrite] return 0
    for an item of size 0), and the state afterwards. *)
Definition row_op : Type := fsys → stream → list Z → Z → Z → res (bool * (fsys * stream * list Z)).

Definition row_read : row_op := λ s f buffer off width,
  let n := u64 width in
  let r := fread s f n in
  b ← store_at buffer off r.1;
  mret (bool_decide (0 < n ∧ Z.of_nat (length r.1) = n), (s, r.2, b)).

Definition row_write : row_op := λ s f buffer off width,
  let n := u64 width in
  if decide (0 ≤ off ∧ off + n ≤ Z.of_nat (length buffer)) then
    let w := fwrite s f (take (Z.to_nat n) (drop (Z.to_nat off) buffer)) in
    mret (bool_decide (0 < n ∧ w.1.1 = n), (w.1.2, w.2, buffer))
  else Ub OutOfBounds.

(** The loop over the rows stops after the first one that was not complete. *)
Fixpoint rw_rows (n : nat) (op : row_op) (s : fsys) (f : stream) (buffer : list Z)
    (off width stride : Z) : res (fsys * stream * list Z) :=
  match n with
  | O => mret (s, f, buffer)
  | S n =>
      r ← op s f buffer off width;
      if (r.1 : bool) then rw_rows n op r.2.1.1 r.2.1.2 r.2.2 (off + stride) width stride
      else mret r.2
  end.

Definition image_file_rw_one_frame (s : fsys) (f : stream) (buffer : list Z)
    (width height stride : Z) (op : row_op) : res (Z * (fsys * stream * list Z)) :=
  r ← rw_rows (Z.to_nat height) op s f buffer 0 width stride;
  mret (0, r).

Definition image_file_read_one_frame (s : fsys) (f : stream) (buffer : list Z)
    (width height stride : Z) : res (Z * (fsys * stream * list Z)) :=
  image_file_rw_one_frame s f buffer width height stride row_read.
Definition image_file_write_one_frame (s : fsys) (f : stream) (buffer : list Z)
    (width height stride : Z) : res (Z * (fsys * stream * list Z)) :=
  image_file_rw_one_frame s f buffer width height stride row_write.

(** ** Commands: the rest of file_utils.c *)

(** [fgets(tmp, n, fp)] on the output that is left: at most [n - 1] characters,
    up to and including a newline. *)
Fixpoint fgets (n : nat) (out : list Z) : list Z * list Z :=
  match n, out with
  | S (S n), c :: out =>
      if decide (c = 10) then ([c], out)
      else let r := fgets (S n) out in (c :: r.1, r.2)
  | _, _ => ([], out)
  end.

(** Length of the C string at the start of an array, or of all of it. *)
Fixpoint strlen (l : list Z) : Z :=
  match l with
  | [] => 0
  | c :: l => if decide (c = 0) then 0 else 1 + strlen l
  end.

(** The loop reads chunks into [tmp] (256 characters) and appends them, with their
    terminating NUL. *)
Fixpoint cmd_loop (fuel : nat) (out buf : list Z) (size offset : Z) : res (list Z) :=
  match fuel with
  | O => NoFuel
  | S fuel =>
      let r := fgets 256 out in
      if decide (r.1 = []) then mret buf
      else
        let len := strlen r.1 in
        if decide (size ≤ offset + len) then arr_set buf offset 0
        else
          buf ← store_at buf offset (take (Z.to_nat len) r.1 ++ [0]);
          cmd_loop fuel r.2 buf size (offset + len)
  end.

(** [out] is what the command prints, or [None] when it cannot be started. *)
Definition file_system_cmd (out : option (list Z)) (buf : list Z) (size : Z) : res (option (list Z)) :=
  match out with
  | None => mret None
  | Some out => b ← cmd_loop (S (length out)) out buf size 0; mret (Some b)
  end.

Definition file_system (out : option (list Z)) : res Z :=
  _ ← file_system_cmd out (replicate 1024 0) 1024; mret 0.

(** The characters of the command around the name. *)
Definition ps_prefix : list Z := [112; 115; 32; 124; 32; 103; 114; 101; 112; 32].
Definition ps_suffix : list Z :=
  [32; 124; 32; 103; 114; 101; 112; 32; 45; 118; 32; 103; 114; 101; 112; 32; 124; 119; 99; 32; 45; 108].

(** [atoi] of a string of digits, after blanks. *)
Fixpoint skip_blanks (l : list Z) : list Z :=
  match l with
  | c :: l' => if decide (c = 32 ∨ 9 ≤ c ≤ 13) then skip_blanks l' else l
  | [] => []
  end.
Fixpoint digits (acc : Z) (l : list Z) : Z :=
  match l with
  | c :: l => if decide (48 ≤ c ≤ 57) then digits (acc * 10 + (c - 48)) l else acc
  | [] => acc
  end.
Definition atoi (l : list Z) : res Z :=
  match skip_blanks l with
  | 45 :: l => signed_op 32 (- digits 0 l)
  | 43 :: l => signed_op 32 (digits 0 l)
  | l => signed_op 32 (digits 0 l)
  end.

(** [run] is the shell: the output of a command. *)
Definition file_is_process_running (run : list Z → option (list Z)) (name : list Z) : res Z :=
  let cmd := ps_prefix ++ name ++ ps_suffix in
  if decide (Z.of_nat (length cmd) + 1 ≤ 128) then
    b ← file_system_cmd (run cmd) (replicate 1024 0) 1024;
    atoi (default (replicate 1024 0) b)
  else Ub OutOfBounds.

(** The part after the last slash. *)
Fixpoint after_slash (l : list Z) : option (list Z) :=
  match l with
  | [] => None
  | c :: l =>
      match after_slash l with
      | Some r => Some r
      | None => if decide (c = 47) then Some l else None
      end
  end.

(** [link] is the target of /proc/self/exe, or [None] when it cannot be read.
    [readlink] fills at most 128 characters and adds no NUL, so a target of 128
    or more leaves [buf] without one.  [MIN] compares the int [len] with a size:
    a negative one counts as huge.  [None] is the empty string returned on
    failure. *)
Definition file_get_process_name (link : option (list Z)) (name : list Z) (len : Z) :
    res (option (list Z)) :=
  match link with
  | None => mret None
  | Some link =>
      if decide (128 ≤ Z.of_nat (length link)) then Ub OutOfBounds
      else
        match after_slash link with
        | None => mret None
        | Some base =>
            let n := Z.min (u64 len) (Z.of_nat (length base)) in
            b ← store_at name 0 (take (Z.to_nat n) base);
            mret (Some b)
        end
  end.

(** ** Copying *)

Lemma fwrite_append s f bs :
  st_pos f = Z.of_nat (length (content s (st_path f))) →
  let out := take (Z.to_nat (space s)) bs in
  fwrite s f bs =
    (Z.of_nat (length out),
     Fs (<[st_path f := FReg (content s (st_path f) ++ out)]> (files s))
        (space s - Z.of_nat (length out)),
     Stream (st_path f) (st_pos f + Z.of_nat (length out)) (st_eof f)).
Proof.
  intros Hp out. unfold fwrite. fold out. rewrite Hp, Nat2Z.id.
  rewrite firstn_all2, drop_ge by lia. by rewrite app_nil_r.
Qed.

Lemma take_space {A} (sp : Z) (a b : list A) :
  0 ≤ sp →
  take (Z.to_nat sp) a ++ take (Z.to_nat (sp - Z.of_nat (length (take (Z.to_nat sp) a)))) b =
    take (Z.to_nat sp) (a ++ b).
Proof.
  intros Hs. rewrite take_app, length_take. f_equal. f_equal. lia.
Qed.

Lemma copy_loop_ok fuel s src dst c d pos :
  src ≠ dst → files s !! src = Some (FReg c) → files s !! dst = Some (FReg d) →
  (pos ≤ length c)%nat → 0 ≤ space s → ((length c - pos) / 1024 + 2 ≤ fuel)%nat →
  ∃ sp, copy_loop fuel s (Stream src (Z.of_nat pos) false) (Stream dst (Z.of_nat (length d)) false) =
    Ok (Fs (<[dst := FReg (d ++ take (Z.to_nat (space s)) (drop pos c))]> (files s)) sp).
Proof.
  revert s d pos. induction fuel as [|fuel IH]; intros s d pos Hne Hs Hd Hpos Hsp Hf; [lia|].
  assert (Hdc : content s dst = d) by (unfold content; by rewrite Hd).
  cbn [copy_loop st_eof]. unfold fread. cbn [st_path st_pos st_eof]. rewrite Hs, Nat2Z.id.
  change (Z.to_nat READ_BUF_MAX_LEN) with 1024%nat. cbn [fst snd orb].
  rewrite fwrite_append by (cbn [st_path st_pos]; by rewrite Hdc). cbv zeta. cbn [fst snd st_path st_pos st_eof].
  rewrite Hdc. set (got := take 1024 (drop pos c)). set (out := take (Z.to_nat (space s)) got).
  assert (Hgl : length got = Nat.min 1024 (length c - pos))
    by (unfold got; by rewrite length_take, length_drop).
  assert (Hout : Z.of_nat (length out) ≤ space s) by (unfold out; rewrite length_take; lia).
  destruct (decide (Z.of_nat (length got) < READ_BUF_MAX_LEN)) as [Hlt|Hge];
    unfold READ_BUF_MAX_LEN in *.
  - rewrite bool_decide_true by done. destruct fuel as [|fuel]; [lia|]. cbn [copy_loop st_eof].
    eexists. unfold out, got. by rewrite (take_ge _ 1024) by (rewrite length_drop; lia).
  - rewrite bool_decide_false by done.
    destruct (IH (Fs (<[dst := FReg (d ++ out)]> (files s)) (space s - Z.of_nat (length out)))
                 (d ++ out) (pos + 1024)%nat) as (sp & Hr);
      [done|cbn [files]; by rewrite lookup_insert_ne|cbn [files]; by rewrite lookup_insert_eq|lia
      |cbn [space]; lia| |].
    { replace (length c - pos)%nat with ((length c - (pos + 1024)) + 1 * 1024)%nat in Hf by lia.
      rewrite Nat.div_add in Hf by lia. lia. }
    exists sp. replace (Z.of_nat pos + Z.of_nat (length got)) with (Z.of_nat (pos + 1024)) by lia.
    replace (Z.of_nat (length d) + Z.of_nat (length out)) with (Z.of_nat (length (d ++ out)))
      by (rewrite length_app; lia).
    rewrite Hr. cbn [files space]. rewrite insert_insert_eq.
    assert (Heq : (d ++ out) ++ take (Z.to_nat (space s - Z.of_nat (length out))) (drop (pos + 1024) c) =
                  d ++ take (Z.to_nat (space s)) (drop pos c)).
    { rewrite <-app_assoc. f_equal. unfold out. rewrite take_space by done. f_equal. unfold got.
      by rewrite <-drop_drop, take_drop. }
    by rewrite Heq.
Qed.

(** C29: (termination) [file_copy_content] on two different names: with one round
    per kilobyte it ends, returns 0, and the target holds the source as far as
    the device has space, which the caller is not told.  A file copied onto
    itself is emptied. *)
Theorem file_copy_copies fuel s src dst c :
  files s !! src = Some (FReg c) → files s !! dst ≠ Some FDir → 0 ≤ space s →
  (length c / 1024 + 2 ≤ fuel)%nat →
  ∃ s', file_copy_content fuel s src dst = Ok (0, s') ∧
    files s' = <[dst := FReg (if decide (src = dst) then [] else take (Z.to_nat (space s)) c)]> (files s).
Proof.
  intros Hs Hd Hsp Hf. unfold file_copy_content, fopen_rb. rewrite Hs.
  assert (Hw : fopen_wb s dst = Some (Stream dst 0 false, Fs (<[dst := FReg []]> (files s)) (space s))).
  { unfold fopen_wb. by destruct (files s !! dst) as [[]|]. }
  rewrite Hw. destruct (decide (src = dst)) as [->|Hne].
  - destruct fuel as [|[|fuel]]; [lia|lia|].
    cbn [copy_loop st_eof]. unfold fread. cbn [st_path files]. rewrite lookup_insert_eq.
    cbn [drop]. rewrite drop_nil, take_nil. cbn [fst snd length].
    eexists. split; [reflexivity|]. cbn [files fwrite fst snd].
    unfold content. cbn [files st_path]. rewrite lookup_insert_eq, take_nil, drop_nil, take_nil.
    by rewrite insert_insert_eq.
  - destruct (copy_loop_ok fuel (Fs (<[dst := FReg []]> (files s)) (space s)) src dst c [] 0)
      as (sp & Hr); [done|cbn [files]; by rewrite lookup_insert_ne|cbn [files]; by rewrite lookup_insert_eq
      |lia|done|by rewrite Nat.sub_0_r|].
    cbn [length app files space] in Hr. change (Z.of_nat 0) with 0 in Hr. rewrite Hr.
    rewrite bind_Ok. eexists. split; [done|]. cbn [files]. by rewrite insert_insert_eq.
Qed.

(** The loop tests for the end of the file and for nothing
    else.  Reading from a directory fails for ever without reaching it, so the
    call never returns, however long it runs. *)
Lemma file_copy_directory_hangs fuel s src dst :
  files s !! src = Some FDir → files s !! dst ≠ Some FDir →
  file_copy_content fuel s src dst = NoFuel.
Proof.
  intros Hs Hd. unfold file_copy_content, fopen_rb. rewrite Hs.
  assert (Hw : fopen_wb s dst = Some (Stream dst 0 false, Fs (<[dst := FReg []]> (files s)) (space s))).
  { unfold fopen_wb. by destruct (files s !! dst) as [[]|]. }
  rewrite Hw. assert (Hne : src ≠ dst) by congruence.
  assert (Hloop : ∀ s1 f, files s1 !! src = Some FDir → st_path f = dst →
    copy_loop fuel s1 (Stream src 0 false) f = NoFuel).
  { clear -Hne. induction fuel as [|fuel IH]; intros s1 f H1 H2; [done|].
    cbn [copy_loop st_eof]. unfold fread. cbn [st_path]. rewrite H1. cbn [fst snd].
    apply IH; [|done]. cbn [fwrite fst snd files]. rewrite H2. by rewrite lookup_insert_ne. }
  rewrite Hloop; [done|cbn [files]; by rewrite lookup_insert_ne|done].
Qed.

(** ** Buffers and frames *)

Lemma store_at_ok buf i bs :
  0 ≤ i → i + Z.of_nat (length bs) ≤ Z.of_nat (length buf) →
  store_at buf i bs = Ok (take (Z.to_nat i) buf ++ bs ++ drop (Z.to_nat i + length bs) buf).
Proof. intros. unfold store_at. by rewrite decide_True. Qed.

Lemma file_read_eq s p bs buffer len :
  files s !! p = Some (FReg bs) →
  file_read_to_buffer s p buffer len =
    (b ← store_at buffer 0
           (take (Z.to_nat (u64 (if decide (s32 (Z.of_nat (length bs)) < len) then 1 else len))) bs);
     mret (0, b)).
Proof.
  intros Hf. unfold file_read_to_buffer, fopen_rb, file_get_size, fread, content. rewrite Hf.
  cbn [st_path st_pos]. rewrite Hf. done.
Qed.

(** What [file_write_from_buffer] stores is read back by
    [file_read_to_buffer] with the same length.  A longer length, though within
    the caller's buffer, gets only the first byte of the file: the conditional
    without a middle operand is the value of its test. *)
Lemma file_buffer_roundtrip s p buffer b2 len :
  files s !! p ≠ Some FDir → 0 < len ≤ Z.of_nat (length buffer) → len < 2 ^ 31 → len ≤ space s →
  len ≤ Z.of_nat (length b2) →
  ∃ s', file_write_from_buffer s p buffer len = Ok (0, s') ∧
    file_get_size_by_path s' p = len ∧
    file_read_to_buffer s' p b2 len = Ok (0, take (Z.to_nat len) buffer ++ drop (Z.to_nat len) b2) ∧
    ∀ len', len < len' < 2 ^ 31 →
      file_read_to_buffer s' p b2 len' = Ok (0, take 1 buffer ++ drop 1 b2).
Proof.
  intros Hd Hl H31 Hsp Hb2.
  assert (Hw : fopen_wb s p = Some (Stream p 0 false, Fs (<[p := FReg []]> (files s)) (space s))).
  { unfold fopen_wb. by destruct (files s !! p) as [[]|]. }
  unfold file_write_from_buffer. rewrite Hw.
  assert (Hu : u64 len = len) by (apply wrap_u_small; unfold in_u; lia).
  rewrite Hu, decide_True by lia.
  set (bs := take (Z.to_nat len) buffer).
  assert (Hbs : length bs = Z.to_nat len) by (unfold bs; rewrite length_take; lia).
  rewrite fwrite_append by (unfold content; cbn [files st_path st_pos]; by rewrite lookup_insert_eq).
  cbv zeta. cbn [fst snd st_path files space]. rewrite insert_insert_eq.
  unfold content. cbn [files]. rewrite lookup_insert_eq. cbn [app].
  rewrite (take_ge bs) by lia. eexists. split; [done|].
  assert (Hf : files (Fs (<[p := FReg bs]> (files s)) (space s - Z.of_nat (length bs))) !! p = Some (FReg bs))
    by (cbn [files]; by rewrite lookup_insert_eq).
  assert (Hs : s32 len = len) by (apply wrap_s_small; [done|unfold in_s; lia]).
  split; [|split].
  - unfold file_get_size_by_path, fopen_rb, file_get_size, content. cbn [files st_path].
    rewrite lookup_insert_eq. cbn [st_path]. by rewrite lookup_insert_eq, Hbs, Z2Nat.id, Hs by lia.
  - rewrite (file_read_eq _ p bs) by done. rewrite Hbs, Z2Nat.id, Hs, decide_False, Hu by lia.
    rewrite (take_ge bs) by lia. rewrite store_at_ok by lia. rewrite bind_Ok.
    change (Z.to_nat 0) with 0%nat. by rewrite Hbs.
  - intros len' Hl'. rewrite (file_read_eq _ p bs) by done. rewrite Hbs, Z2Nat.id, Hs, decide_True by lia.
    change (Z.to_nat (u64 1)) with 1%nat.
    assert (H1 : length (take 1 bs) = 1%nat) by (rewrite length_take; lia).
    rewrite store_at_ok by lia. rewrite bind_Ok, H1. change (Z.to_nat 0) with 0%nat. cbn [take app].
    unfold bs. rewrite take_take. by replace (1 `min` Z.to_nat len)%nat with 1%nat by lia.
Qed.

(** The row of a frame that starts at [off]. *)
Definition row (buf : list Z) (off width : Z) : list Z :=
  take (Z.to_nat width) (drop (Z.to_nat off) buf).

Lemma row_length buf off width :
  0 ≤ off → 0 ≤ width → off + width ≤ Z.of_nat (length buf) →
  length (row buf off width) = Z.to_nat width.
Proof. intros. unfold row. rewrite length_take, length_drop. lia. Qed.

Lemma row_store_same buf off bs width :
  0 ≤ off → width = Z.of_nat (length bs) → off + width ≤ Z.of_nat (length buf) →
  row (take (Z.to_nat off) buf ++ bs ++ drop (Z.to_nat off + length bs) buf) off width = bs.
Proof.
  intros Ho -> Hl. unfold row. rewrite Nat2Z.id.
  rewrite drop_app_length' by (rewrite length_take; lia). by rewrite take_app_length.
Qed.

(** Rows before the place that is overwritten do not change. *)
Lemma row_store_before buf off bs o width :
  0 ≤ o → 0 ≤ width → o + width ≤ off → off + Z.of_nat (length bs) ≤ Z.of_nat (length buf) →
  row (take (Z.to_nat off) buf ++ bs ++ drop (Z.to_nat off + length bs) buf) o width = row buf o width.
Proof.
  intros Ho Hw Hb Hl. unfold row.
  rewrite drop_app_le by (rewrite length_take; lia). rewrite take_app_le by (rewrite length_drop, length_take; lia).
  rewrite !take_drop_commute, take_take. repeat f_equal. lia.
Qed.

Lemma lookup_store_outside (buf : list Z) (o : nat) (bs : list Z) (j : nat) :
  (o + length bs ≤ length buf)%nat → (j < o ∨ o + length bs ≤ j)%nat →
  (take o buf ++ bs ++ drop (o + length bs) buf) !! j = buf !! j.
Proof.
  intros Hl [Hj|Hj].
  - rewrite lookup_app_l by (rewrite length_take; lia). by apply lookup_take_lt.
  - rewrite lookup_app_r by (rewrite length_take; lia). rewrite length_take.
    rewrite lookup_app_r by lia. rewrite lookup_drop. f_equal. lia.
Qed.

(** The bytes of [n] rows, one after the other. *)
Fixpoint frame_bytes (n : nat) (buf : list Z) (off width stride : Z) : list Z :=
  match n with
  | O => []
  | S n => row buf off width ++ frame_bytes n buf (off + stride) width stride
  end.

(** All rows lie inside the buffer. *)
Definition frame_fits (n : nat) (buf : list Z) (off width stride : Z) : Prop :=
  0 ≤ off ∧ off + Z.of_nat n * stride ≤ Z.of_nat (length buf).

Section frames.
Context (width stride : Z) (Hw : 0 < width < 2 ^ 31) (Hs : width ≤ stride).

Lemma u64_width : u64 width = width.
Proof. apply wrap_u_small. unfold in_u. lia. Qed.

Lemma frame_fits_next n buf off :
  frame_fits (S n) buf off width stride →
  0 ≤ off ∧ off + width ≤ Z.of_nat (length buf) ∧ frame_fits n buf (off + stride) width stride.
Proof.
  unfold frame_fits. rewrite Nat2Z.inj_succ, Z.mul_succ_l. intros [Ho Hl].
  assert (0 ≤ Z.of_nat n * stride) by nia. lia.
Qed.

Lemma write_rows n s p c buf off :
  files s !! p = Some (FReg c) → frame_fits n buf off width stride → Z.of_nat n * width ≤ space s →
  ∃ s' f', rw_rows n row_write s (Stream p (Z.of_nat (length c)) false) buf off width stride =
      Ok (s', f', buf) ∧ files s' !! p = Some (FReg (c ++ frame_bytes n buf off width stride)).
Proof.
  revert s c off. induction n as [|n IH]; intros s c off Hf Hfit Hsp; cbn [rw_rows frame_bytes].
  { eexists _, _. rewrite app_nil_r. done. }
  apply frame_fits_next in Hfit as (Ho & Hb & Hfit).
  assert (Hc : content s p = c) by (unfold content; by rewrite Hf).
  pose proof (row_length buf off width ltac:(lia) ltac:(lia) Hb) as Hrl.
  assert (Hrw : row_write s (Stream p (Z.of_nat (length c)) false) buf off width =
    Ok (true, (Fs (<[p := FReg (c ++ row buf off width)]> (files s))
                   (space s - Z.of_nat (length (row buf off width))),
               Stream p (Z.of_nat (length (c ++ row buf off width))) false, buf))).
  { unfold row_write. rewrite u64_width, decide_True by lia. fold (row buf off width).
    rewrite fwrite_append by (cbn [st_path st_pos]; by rewrite Hc). cbv zeta.
    cbn [fst snd st_path st_pos st_eof]. rewrite (take_ge (row buf off width)) by lia.
    rewrite bool_decide_true by lia. rewrite Hc. by rewrite length_app, Nat2Z.inj_add. }
  rewrite Hrw, bind_Ok. cbn [fst snd].
  destruct (IH (Fs (<[p := FReg (c ++ row buf off width)]> (files s))
                   (space s - Z.of_nat (length (row buf off width))))
               (c ++ row buf off width) (off + stride)) as (s' & f' & Hr & Hs');
    [cbn [files]; by rewrite lookup_insert_eq|done|cbn [space]; lia|].
  exists s', f'. split; [exact Hr|]. by rewrite Hs', app_assoc.
Qed.

Lemma read_rows n s p c src b off pos tl :
  files s !! p = Some (FReg c) → 0 ≤ pos →
  drop (Z.to_nat pos) c = frame_bytes n src off width stride ++ tl →
  frame_fits n src off width stride → frame_fits n b off width stride →
  ∃ f' b', rw_rows n row_read s (Stream p pos false) b off width stride = Ok (s, f', b') ∧
    length b' = length b ∧
    (∀ o, 0 ≤ o → o + width ≤ off → row b' o width = row b o width) ∧
    (∀ i, (i < n)%nat → row b' (off + Z.of_nat i * stride) width = row src (off + Z.of_nat i * stride) width) ∧
    (∀ j, (∀ i, (i < n)%nat → ¬ (off + Z.of_nat i * stride ≤ Z.of_nat j < off + Z.of_nat i * stride + width)) →
       b' !! j = b !! j).
Proof.
  revert b off pos. induction n as [|n IH]; intros b off pos Hf Hpos Hd Hfs Hfb; cbn [rw_rows].
  { eexists _, _. split; [done|]. split; [done|]. split; [done|]. split; [lia|done]. }
  apply frame_fits_next in Hfs as (Ho & Hbs & Hfs). apply frame_fits_next in Hfb as (_ & Hbb & Hfb).
  pose proof (row_length src off width ltac:(lia) ltac:(lia) Hbs) as Hrl.
  cbn [frame_bytes] in Hd. rewrite <-app_assoc in Hd.
  assert (Hgot : fread s (Stream p pos false) width =
                 (row src off width, Stream p (pos + width) false)).
  { unfold fread. cbn [st_path st_pos st_eof]. rewrite Hf, Hd.
    rewrite take_app_length' by lia. cbn [orb]. rewrite bool_decide_false by lia.
    do 2 f_equal. lia. }
  set (b1 := take (Z.to_nat off) b ++ row src off width ++ drop (Z.to_nat off + length (row src off width)) b).
  assert (Hrr : row_read s (Stream p pos false) b off width =
    Ok (true, (s, Stream p (pos + width) false, b1))).
  { unfold row_read. rewrite u64_width, Hgot. cbn [fst snd].
    rewrite store_at_ok by lia. rewrite bind_Ok. by rewrite bool_decide_true by lia. }
  rewrite Hrr, bind_Ok. cbn [fst snd].
  assert (Hl1 : length b1 = length b).
  { unfold b1. rewrite !length_app, length_take, length_drop. lia. }
  destruct (IH b1 (off + stride) (pos + width)) as (f' & b' & Hr & Hl & Hbef & Hrow & Hpad); [done|lia| |done| |].
  - rewrite Z2Nat.inj_add by lia. rewrite <-drop_drop, Hd. by rewrite drop_app_length' by lia.
  - unfold frame_fits in *. lia.
  - exists f', b'. split; [exact Hr|]. split; [lia|]. split; [|split].
    + intros o Hoo Hob. rewrite Hbef by lia. apply row_store_before; lia.
    + intros [|i] Hi.
      * rewrite Z.add_0_r. rewrite Hbef by lia. apply row_store_same; lia.
      * replace (off + Z.of_nat (S i) * stride) with (off + stride + Z.of_nat i * stride) by lia.
        apply Hrow. lia.
    + intros j Hj. rewrite Hpad.
      * apply lookup_store_outside; [lia|]. specialize (Hj 0%nat ltac:(lia)). lia.
      * intros i Hi. specialize (Hj (S i) ltac:(lia)).
        by replace (off + stride + Z.of_nat i * stride) with (off + Z.of_nat (S i) * stride) by lia.
Qed.

End frames.

(** C33: (roundtrip) A frame of [height] rows written to a new file and read from
    its start into another buffer of the same layout, with rows of [width] bytes
    that begin every [stride] bytes and do not overlap ([width] is at most
    [stride]), and enough space: every row is the row that was written, and the
    bytes of the buffer outside the rows keep their values. *)
Theorem image_frame_roundtrip s p buf b2 width height stride :
  files s !! p ≠ Some FDir → 0 < width < 2 ^ 31 → width ≤ stride → 0 ≤ height →
  height * stride ≤ Z.of_nat (length buf) → height * stride ≤ Z.of_nat (length b2) →
  height * width ≤ space s →
  ∃ f s1 s2 f2 f3 b', fopen_wb s p = Some (f, s1) ∧
    image_file_write_one_frame s1 f buf width height stride = Ok (0, (s2, f2, buf)) ∧
    image_file_read_one_frame s2 (Stream p 0 false) b2 width height stride = Ok (0, (s2, f3, b')) ∧
    length b' = length b2 ∧
    (∀ i, 0 ≤ i < height → row b' (i * stride) width = row buf (i * stride) width) ∧
    (∀ j, 0 ≤ j → (∀ i, 0 ≤ i < height → ¬ (i * stride ≤ j < i * stride + width)) →
       b' !! Z.to_nat j = b2 !! Z.to_nat j).
Proof.
  intros Hd Hw Hs Hh Hb Hb2 Hsp.
  exists (Stream p 0 false), (Fs (<[p := FReg []]> (files s)) (space s)).
  destruct (write_rows width stride Hw Hs (Z.to_nat height) (Fs (<[p := FReg []]> (files s)) (space s)) p [] buf 0)
    as (s2 & f2 & Hr & Hf2); [cbn [files]; by rewrite lookup_insert_eq|unfold frame_fits; lia|cbn [space]; lia|].
  destruct (read_rows width stride Hw Hs (Z.to_nat height) s2 p _ buf b2 0 0 [] Hf2)
    as (f3 & b' & Hr3 & Hlen & _ & Hrow & Hpad); [done|by rewrite app_nil_r|unfold frame_fits; lia..|].
  exists s2, f2, f3, b'. split; [unfold fopen_wb; by destruct (files s !! p) as [[]|]|].
  unfold image_file_write_one_frame, image_file_read_one_frame, image_file_rw_one_frame.
  cbn [length] in Hr. change (Z.of_nat 0) with 0 in Hr. rewrite Hr, Hr3, !bind_Ok.
  split; [done|]. split; [done|]. split; [done|]. split.
  - intros i Hi. specialize (Hrow (Z.to_nat i) ltac:(lia)). by rewrite Z2Nat.id, Z.add_0_l in Hrow by lia.
  - intros j Hj0 Hj. apply Hpad. intros i Hi. rewrite Z2Nat.id, Z.add_0_l by lia. apply Hj. lia.
Qed.

(** ** Command output *)

Lemma fgets_spec n out :
  (2 ≤ n)%nat →
  (fgets n out).1 ++ (fgets n out).2 = out ∧ (length (fgets n out).1 < n)%nat ∧
  ((fgets n out).1 = [] → out = []).
Proof.
  revert n. induction out as [|c out IH]; intros n Hn.
  { destruct n as [|[|n]]; simpl; (split; [done|split; [lia|done]]). }
  destruct n as [|[|n]]; [lia|lia|]. cbn [fgets]. case_decide; cbn [fst snd app length].
  - split; [done|]. split; [lia|done].
  - destruct n as [|n].
    + destruct out; simpl; (split; [done|split; [lia|done]]).
    + destruct (IH (S (S n)) ltac:(lia)) as (H1 & H2 & _). rewrite H1. split; [done|]. split; [lia|done].
Qed.

Lemma strlen_nonzero l : Forall (λ c, c ≠ 0) l → strlen l = Z.of_nat (length l).
Proof.
  induction 1 as [|c l Hc Hl IH]; cbn [strlen length]; [done|]. rewrite decide_False by done. lia.
Qed.

(** [n] characters of [out] are in the buffer, terminated and inside its first
    [size] characters. *)
Definition holds_text (size : Z) (buf b out : list Z) (n : nat) : Prop :=
  length b = length buf ∧ take n b = take n out ∧ b !! n = Some 0 ∧
  Z.of_nat n < size ∧ drop (Z.to_nat size) b = drop (Z.to_nat size) buf.

Lemma store_chunk buf pre ch size b :
  size ≤ Z.of_nat (length buf) → Z.of_nat (length pre) + Z.of_nat (length ch) < size →
  length b = length buf → take (length pre) b = pre → drop (Z.to_nat size) b = drop (Z.to_nat size) buf →
  ∃ b', store_at b (Z.of_nat (length pre)) (ch ++ [0]) = Ok b' ∧
    holds_text size buf b' (pre ++ ch) (length (pre ++ ch)).
Proof.
  intros Hsz Hfit Hlb Htk Hdr. rewrite store_at_ok by (rewrite ?length_app; simpl; lia).
  rewrite Nat2Z.id, Htk. eexists. split; [done|]. unfold holds_text.
  split; [rewrite !length_app, length_drop, ?length_app; simpl; lia|]. split; [|split; [|split]].
  - rewrite <-app_assoc, app_assoc, <-length_app, take_app_length. by rewrite take_ge.
  - rewrite <-app_assoc, app_assoc, <-length_app. rewrite lookup_app_r, Nat.sub_diag by lia. done.
  - rewrite length_app. lia.
  - rewrite <-Hdr. rewrite app_assoc, drop_app_ge by (rewrite !length_app; simpl; lia).
    rewrite drop_drop, !length_app. simpl. f_equal. lia.
Qed.

Lemma cmd_loop_ok fuel buf b pre out size :
  Forall (λ c, c ≠ 0) out → (length out < fuel)%nat → 0 < size ≤ Z.of_nat (length buf) →
  length b = length buf → take (length pre) b = pre → drop (Z.to_nat size) b = drop (Z.to_nat size) buf →
  Z.of_nat (length pre) < size → (pre ≠ [] → b !! length pre = Some 0) → pre ++ out ≠ [] →
  ∃ b' n, cmd_loop fuel out b size (Z.of_nat (length pre)) = Ok b' ∧
    holds_text size buf b' (pre ++ out) n ∧
    (n = length (pre ++ out) ∨ size ≤ Z.of_nat n + 255).
Proof.
  revert b pre out. induction fuel as [|fuel IH];
    intros b pre out Hout Hf Hsz Hlb Htk Hdr Hps Hz Hne; [lia|]. cbn [cmd_loop].
  destruct (fgets_spec 256 out ltac:(lia)) as (Happ & Hlen & Hnil).
  destruct (fgets 256 out) as [ch rest]. cbn [fst snd] in *. subst out.
  apply Forall_app in Hout as [Hch Hrest]. rewrite length_app in Hf.
  destruct (decide (ch = [])) as [->|Hc].
  - specialize (Hnil eq_refl). cbn [app] in Hnil. subst rest. exists b, (length pre).
    rewrite app_nil_r in *. split; [done|]. split; [|auto].
    split; [done|]. split; [rewrite Htk; by rewrite take_ge|]. auto.
  - rewrite strlen_nonzero by done. case_decide as Hfull.
    + rewrite arr_set_ok by lia. rewrite Nat2Z.id. exists (<[length pre := 0]> b), (length pre).
      split; [done|]. split; [|right; lia]. split; [by rewrite length_insert|].
      split; [rewrite take_insert_ge by lia; by rewrite Htk, take_app_length|].
      split; [by rewrite list_lookup_insert_eq by lia|]. split; [done|].
      by rewrite drop_insert_lt by lia.
    + rewrite Nat2Z.id, firstn_all.
      destruct (store_chunk buf pre ch size b) as (b1 & -> & (H1 & H2 & H3 & H4 & H5)); [lia..|done|done|done|].
      rewrite bind_Ok. replace (Z.of_nat (length pre) + Z.of_nat (length ch))
        with (Z.of_nat (length (pre ++ ch))) by (rewrite length_app; lia).
      destruct ch as [|x ch]; [done|].
      destruct (IH b1 (pre ++ x :: ch) rest) as (b' & n & Hr & Hh & Hn); try done.
      * simpl in Hf. lia.
      * by rewrite H2, firstn_all.
      * destruct pre; done.
      * exists b', n. rewrite <-!app_assoc in *. done.
Qed.

(** [file_system_cmd] never writes outside the first [size]
    characters of its buffer and always ends.  When the command prints
    something, the buffer then holds a terminated prefix of the output: all of
    it, or as much as leaves less than 255 characters unused. *)
Lemma file_system_cmd_fits out buf size :
  Forall (λ c, c ≠ 0) out → out ≠ [] → 0 < size ≤ Z.of_nat (length buf) →
  ∃ b n, file_system_cmd (Some out) buf size = Ok (Some b) ∧ holds_text size buf b out n ∧
    (n = length out ∨ size ≤ Z.of_nat n + 255).
Proof.
  intros Hout Hne Hsz. unfold file_system_cmd.
  destruct (cmd_loop_ok (S (length out)) buf buf [] out size) as (b & n & Hr & Hh & Hn);
    try (done || simpl; lia). cbn [length app] in *. change (Z.of_nat 0) with 0 in Hr.
  exists b, n. rewrite Hr, bind_Ok. done.
Qed.

(** ** Witnesses *)

Definition ex_fs : fsys := Fs {[ [97] := FReg [1; 2; 3; 4; 5]; [100] := FDir ]} 100.

Lemma file_copy_copies_witness :
  ∃ s', file_copy_content 2 ex_fs [97] [98] = Ok (0, s') ∧
    files s' = <[ [98] := FReg [1; 2; 3; 4; 5] ]> (files ex_fs).
Proof.
  destruct (file_copy_copies 2 ex_fs [97] [98] [1; 2; 3; 4; 5]) as (s' & H1 & H2).
  - reflexivity.
  - done.
  - done.
  - simpl. lia.
  - exists s'. split; [exact H1|exact H2].
Defined.

Lemma file_copy_directory_hangs_witness : file_copy_content 1000 ex_fs [100] [98] = NoFuel.
Proof. apply file_copy_directory_hangs; done. Defined.

Lemma file_buffer_roundtrip_witness :
  ∃ s', file_write_from_buffer ex_fs [98] [7; 8; 9] 3 = Ok (0, s') ∧
    file_read_to_buffer s' [98] [0; 0; 0; 0; 0] 3 = Ok (0, [7; 8; 9; 0; 0]) ∧
    file_read_to_buffer s' [98] [0; 0; 0; 0; 0] 5 = Ok (0, [7; 0; 0; 0; 0]).
Proof.
  destruct (file_buffer_roundtrip ex_fs [98] [7; 8; 9] [0; 0; 0; 0; 0] 3) as (s' & H1 & _ & H2 & H3);
    [done..|]. exists s'. split; [exact H1|]. split; [exact H2|]. exact (H3 5 ltac:(done)).
Defined.

Lemma image_frame_roundtrip_witness :
  ∃ s2 f2 f3 b', image_file_write_one_frame (Fs (<[ [98] := FReg [] ]> (files ex_fs)) 100) (Stream [98] 0 false)
      [1; 2; 0; 3; 4; 0] 2 2 3 = Ok (0, (s2, f2, [1; 2; 0; 3; 4; 0])) ∧
    image_file_read_one_frame s2 (Stream [98] 0 false) (replicate 6 9) 2 2 3 = Ok (0, (s2, f3, b')) ∧
    row b' 3 2 = [3; 4] ∧ b' !! 2%nat = Some 9.
Proof.
  destruct (image_frame_roundtrip ex_fs [98] [1; 2; 0; 3; 4; 0] (replicate 6 9) 2 2 3)
    as (f & s1 & s2 & f2 & f3 & b' & H0 & H1 & H2 & _ & H3 & H4); [done..|].
  injection H0 as <- <-. exists s2, f2, f3, b'. split; [exact H1|]. split; [exact H2|].
  split; [exact (H3 1 ltac:(done))|]. change 2%nat with (Z.to_nat 2).
  rewrite H4; [reflexivity|done|]. intros i Hi. lia.
Defined.

Lemma file_system_cmd_fits_witness :
  ∃ b n, file_system_cmd (Some [104; 105; 10]) (replicate 8 1) 4 = Ok (Some b) ∧
    holds_text 4 (replicate 8 1) b [104; 105; 10] n.
Proof.
  destruct (file_system_cmd_fits [104; 105; 10] (replicate 8 1) 4) as (b & n & H1 & H2 & _).
  - repeat constructor; done.
  - done.
  - done.
  - exists b, n. split; [exact H1|exact H2].
Defined.
