(* ===== verification/TimeUtils.v ===== *)
(** * Clock helpers: linux/utils/include/time_utils.h, linux/utils/src/time_utils.c,
      and the tick counter of cpu_usage.c

    The same clock is converted in two ways.  The header multiplies in the type
    of [tv_sec] and converts the result; the source file converts first.  The
    width [W] of [time_t] and [long] is a parameter (32 on the small ARM targets
    of the library, 64 elsewhere), and the theorems say where the two agree. *)

From S2P Require Import Prelude.

(** The answer of [clock_gettime] and [gettimeofday]. *)
Record timespec := Timespec { tv_sec : Z; tv_nsec : Z }.
Record timeval := Timeval { tvl_sec : Z; tvl_usec : Z }.

Section width.
Context (W : Z).

(** ** The header: arithmetic in [time_t] *)

Definition get_time_ns (ts : timespec) : res Z :=
  a ← signed_op W (tv_sec ts * 1000000000);
  b ← signed_op W (a + tv_nsec ts);
  mret (u64 b).

Definition get_time_us (ts : timespec) : res Z :=
  a ← signed_op W (tv_sec ts * 1000000);
  q ← div_op (tv_nsec ts) 1000;
  b ← signed_op W (a + q);
  mret (u64 b).

Definition get_time (ts : timespec) : res Z :=
  a ← signed_op W (tv_sec ts * 1000);
  q ← div_op (tv_nsec ts) 1000000;
  b ← signed_op W (a + q);
  mret (u64 b).

Definition iclock (ts : timespec) : res Z :=
  t ← get_time ts;
  mret (u32 (Z.land t 0xffffffff)).

(** The time of day that is set: [milliseconds] is unsigned, the fields are
    signed. *)
Definition set_time (milliseconds : Z) : timeval :=
  Timeval (wrap_s W (milliseconds / 1000)) (wrap_s W (milliseconds mod 1000 * 1000)).

End width.

Definition getCurrentTime (tv : timeval) : Z :=
  u64 (u64 (u64 (tvl_sec tv) * 1000000) + u64 (tvl_usec tv)).

(** ** The source file: arithmetic in [uint64_t] *)

Definition get_sys_time_ns (ts : timespec) : Z :=
  u64 (u64 (u64 (tv_sec ts) * 1000000000) + u64 (tv_nsec ts)).
Definition get_sys_time_us (ts : timespec) : Z := get_sys_time_ns ts / 1000.
Definition get_sys_time_ms (ts : timespec) : Z := get_sys_time_us ts / 1000.
Definition get_current_time_us (tv : timeval) : Z :=
  u64 (u64 (u64 (tvl_sec tv) * 1000000) + u64 (tvl_usec tv)).

(** ** cpu_usage.c: [sec] and [nsec] are 64-bit *)
Definition get_tick_count (ts : timespec) : res Z :=
  a ← signed_op 64 (tv_sec ts * 1000);
  q ← div_op (tv_nsec ts) 1000000;
  signed_op 64 (a + q).

(** A reading of the monotonic clock. *)
Definition clock_ok (ts : timespec) : Prop := 0 ≤ tv_sec ts ∧ 0 ≤ tv_nsec ts < 1000000000.

Lemma u64_id z : 0 ≤ z < 2 ^ 64 → u64 z = z.
Proof. apply wrap_u_small. Qed.

Lemma get_sys_time_ns_val ts :
  clock_ok ts → tv_sec ts < 2 ^ 63 / 1000000000 →
  get_sys_time_ns ts = tv_sec ts * 1000000000 + tv_nsec ts.
Proof.
  intros [Hs Hn] Hb. change (2 ^ 63 / 1000000000) with 9223372036 in Hb. unfold get_sys_time_ns.
  rewrite (u64_id (tv_sec ts)), (u64_id (tv_nsec ts)), (u64_id (_ * _)), u64_id; lia.
Qed.

(** A conversion that divides the nanoseconds. *)
Lemma scaled_time W k d ts :
  clock_ok ts → 0 < k → 0 < d → k * d = 1000000000 → 0 < W ≤ 64 →
  tv_sec ts * k + tv_nsec ts / d < 2 ^ (W - 1) →
  (a ← signed_op W (tv_sec ts * k); q ← div_op (tv_nsec ts) d; b ← signed_op W (a + q); mret (u64 b)) =
    Ok (tv_sec ts * k + tv_nsec ts / d).
Proof.
  intros [Hs Hn] Hk Hd Hkd HW Hb.
  assert (0 ≤ tv_nsec ts / d) by (apply Z.div_pos; lia).
  assert (0 ≤ tv_sec ts * k) by nia.
  assert (2 ^ (W - 1) ≤ 2 ^ 63) by (apply Z.pow_le_mono_r; lia).
  assert (0 < 2 ^ (W - 1)) by (apply Z.pow_pos_nonneg; lia).
  rewrite signed_op_ok by (unfold in_s; lia). rewrite bind_Ok.
  rewrite div_op_pos by lia. rewrite bind_Ok.
  rewrite signed_op_ok by (unfold in_s; lia). rewrite bind_Ok.
  rewrite u64_id by lia. done.
Qed.

Lemma div_nested a b c : 0 < b → 0 < c → a / b / c = a / (b * c).
Proof. intros. by rewrite Z.div_div by lia. Qed.

Lemma sec_div ts k d : 0 < d → k * d = 1000000000 →
  (tv_sec ts * 1000000000 + tv_nsec ts) / d = tv_sec ts * k + tv_nsec ts / d.
Proof.
  intros Hd Hkd. rewrite <-Hkd. replace (tv_sec ts * (k * d)) with (tv_sec ts * k * d) by lia.
  by rewrite Z.div_add_l by lia.
Qed.

(** Where [time_t] has 64 bits, the header and the source file
    convert every reading of the clock to the same number of nano-, micro- and
    milliseconds for almost three centuries, and so does the tick counter of the
    CPU load program. *)
Lemma time_conversions_agree ts :
  clock_ok ts → tv_sec ts < 2 ^ 63 / 1000000000 →
  get_time_ns 64 ts = Ok (get_sys_time_ns ts) ∧
  get_time_us 64 ts = Ok (get_sys_time_us ts) ∧
  get_time 64 ts = Ok (get_sys_time_ms ts) ∧
  get_tick_count ts = Ok (get_sys_time_ms ts).
Proof.
  intros Hok Hb. pose proof Hok as [Hs Hn]. pose proof (get_sys_time_ns_val ts Hok Hb) as Hv.
  change (2 ^ 63 / 1000000000) with 9223372036 in Hb.
  assert (Hdiv : ∀ d, 0 < d → 0 ≤ tv_nsec ts / d ≤ tv_nsec ts).
  { intros d Hd. split; [apply Z.div_pos; lia|apply Z.div_le_upper_bound; nia]. }
  assert (Hms : get_sys_time_ms ts = tv_sec ts * 1000 + tv_nsec ts / 1000000).
  { unfold get_sys_time_ms, get_sys_time_us. rewrite Hv, div_nested by lia. by apply sec_div. }
  split; [|split; [|split]].
  - rewrite Hv. unfold get_time_ns.
    rewrite signed_op_ok by (unfold in_s; lia). rewrite bind_Ok.
    rewrite signed_op_ok by (unfold in_s; lia). rewrite bind_Ok. rewrite u64_id by lia. done.
  - unfold get_sys_time_us. rewrite Hv, (sec_div ts 1000000 1000) by done.
    apply (scaled_time 64 1000000 1000); try done. specialize (Hdiv 1000 ltac:(lia)). lia.
  - rewrite Hms. apply (scaled_time 64 1000 1000000); try done. specialize (Hdiv 1000000 ltac:(lia)). lia.
  - rewrite Hms. specialize (Hdiv 1000000 ltac:(lia)). unfold get_tick_count.
    rewrite signed_op_ok by (unfold in_s; lia). rewrite bind_Ok.
    rewrite div_op_pos by lia. rewrite bind_Ok. by rewrite signed_op_ok by (unfold in_s; lia).
Qed.

(** Where [time_t] has 32 bits, the header's nanoseconds overflow
    three seconds after boot, its microseconds after 36 minutes and its
    milliseconds after 25 days, always as undefined behaviour; the source file's
    functions stay exact. *)
Lemma time_overflow_32 ts :
  clock_ok ts →
  (3 ≤ tv_sec ts → get_time_ns 32 ts = Ub SignedOverflow) ∧
  (2148 ≤ tv_sec ts → get_time_us 32 ts = Ub SignedOverflow) ∧
  (2147484 ≤ tv_sec ts → get_time 32 ts = Ub SignedOverflow) ∧
  (tv_sec ts < 2 ^ 31 → get_sys_time_ns ts = tv_sec ts * 1000000000 + tv_nsec ts).
Proof.
  intros Hok. pose proof Hok as [Hs Hn].
  assert (Hov : ∀ z, 2 ^ 31 ≤ z → signed_op 32 z = Ub SignedOverflow).
  { intros z Hz. unfold signed_op. rewrite decide_False; [done|]. unfold in_s. lia. }
  split; [|split; [|split]].
  - intros H3. unfold get_time_ns. rewrite Hov by lia. done.
  - intros H3. unfold get_time_us. rewrite Hov by lia. done.
  - intros H3. unfold get_time. rewrite Hov by lia. done.
  - intros Hb. apply get_sys_time_ns_val; [done|]. change (2 ^ 63 / 1000000000) with 9223372036. lia.
Qed.

(** A time of day set in milliseconds is read back in
    microseconds, exactly, as long as the seconds fit [time_t]. *)
Lemma set_time_roundtrip W ms :
  32 ≤ W ≤ 64 → 0 ≤ ms → ms / 1000 < 2 ^ (W - 1) → ms * 1000 < 2 ^ 64 →
  getCurrentTime (set_time W ms) = ms * 1000 ∧ get_current_time_us (set_time W ms) = ms * 1000.
Proof.
  intros HW Hms Hsec Hfit.
  assert (Hp : 2 ^ 31 ≤ 2 ^ (W - 1)) by (apply Z.pow_le_mono_r; lia).
  assert (Hq : 0 ≤ ms / 1000) by (apply Z.div_pos; lia).
  pose proof (Z.mod_pos_bound ms 1000 ltac:(lia)) as Hm. pose proof (Z.div_mod ms 1000 ltac:(lia)) as Hd.
  assert (Hset : set_time W ms = Timeval (ms / 1000) (ms mod 1000 * 1000)).
  { unfold set_time. rewrite !wrap_s_small; try done; try lia; unfold in_s; lia. }
  unfold getCurrentTime, get_current_time_us. rewrite Hset. cbn [tvl_sec tvl_usec].
  rewrite (u64_id (ms / 1000)), (u64_id (ms mod 1000 * 1000)), (u64_id (_ * 1000000)) by lia.
  rewrite u64_id by lia. lia.
Qed.

(** ** Witnesses *)

Lemma time_conversions_agree_witness :
  get_time 64 (Timespec 100 999999999) = Ok (get_sys_time_ms (Timespec 100 999999999)).
Proof. apply (time_conversions_agree (Timespec 100 999999999)); [split; simpl; lia|reflexivity]. Defined.

Lemma time_overflow_32_witness : get_time_ns 32 (Timespec 3 0) = Ub SignedOverflow.
Proof. apply (time_overflow_32 (Timespec 3 0)); [split; simpl; lia|simpl; lia]. Defined.

Lemma set_time_roundtrip_witness : getCurrentTime (set_time 32 1700000000123) = 1700000000123000.
Proof. apply (set_time_roundtrip 32 1700000000123); [lia|lia|reflexivity|reflexivity]. Defined.
