(* ===== verification/Hmac.v ===== *)
(** * HMAC text: algorithm/algo_hmac.c

    [hmac_encode] picks a digest by name, lets OpenSSL compute the code and
    formats it as hexadecimal text.  The digest computation is not code of this
    repository: it is the parameter [hmac_md], of which only the documented
    length of its result is used.  The text buffer comes from [malloc], so its
    first content is an argument.  Theorem: the exact text for every digest but
    the longest, whose terminating NUL is written past the end of the buffer. *)

From S2P Require Import Prelude Heartbeat FileMkdir FileUtils.

Inductive engine : Set := Sha512 | Sha256 | Sha1 | Md5 | Sha224 | Sha384 | Sha.

#[global] Instance engine_eq_dec : EqDecision engine.
Proof. solve_decision. Defined.

(** Length of the digest in bytes. *)
Definition md_size (e : engine) : nat :=
  match e with
  | Sha512 => 64 | Sha256 => 32 | Sha1 => 20 | Md5 => 16 | Sha224 => 28 | Sha384 => 48 | Sha => 20
  end.

Definition EVP_MAX_MD_SIZE := 64.

Record algo_hmac_t := AlgoHmac {
  algo : option (list Z);
  key : option (list Z);
  input : option (list Z)
}.

(** [strcasecmp(a, b) == 0] *)
Definition lower (c : Z) : Z := if decide (65 ≤ c ≤ 90) then c + 32 else c.
Definition strcaseeq (a b : list Z) : bool := bool_decide (lower <$> a = lower <$> b).

Definition sha512_name : list Z := [115; 104; 97; 53; 49; 50].
Definition sha256_name : list Z := [115; 104; 97; 50; 53; 54].
Definition sha1_name : list Z := [115; 104; 97; 49].
Definition md5_name : list Z := [109; 100; 53].
Definition sha224_name : list Z := [115; 104; 97; 50; 50; 52].
Definition sha384_name : list Z := [115; 104; 97; 51; 56; 52].
Definition sha_name : list Z := [115; 104; 97].

Definition pick_engine (name : list Z) : option engine :=
  if strcaseeq sha512_name name then Some Sha512
  else if strcaseeq sha256_name name then Some Sha256
  else if strcaseeq sha1_name name then Some Sha1
  else if strcaseeq md5_name name then Some Md5
  else if strcaseeq sha224_name name then Some Sha224
  else if strcaseeq sha384_name name then Some Sha384
  else if strcaseeq sha_name name then Some Sha
  else None.

Section encode.
Context (hmac_md : engine → list Z → list Z → list Z).

(** The loop that prints the digest, two digits and a NUL at a time. *)
Definition format_digest (output mdstr : list Z) : res (list Z) :=
  for_up (length output) 0
    (λ i mdstr, b ← arr_get output i; store_at mdstr (i * 2) (fmt_02x b ++ [0])) mdstr.

(** [result] says whether the result pointer is not null, [mem] whether the two
    allocations succeeded (they are not checked), [mdstr] is the content of the
    text buffer when it is allocated. *)
Definition hmac_encode (hmac : option algo_hmac_t) (result mem : bool) (mdstr : list Z) :
    res (Z * option (list Z)) :=
  match hmac with
  | None => mret (-1, None)
  | Some h =>
      match algo h, key h, input h with
      | Some a, Some k, Some i =>
          if negb result then mret (-1, None)
          else
            match pick_engine a with
            | None => mret (-1, None)
            | Some e =>
                if negb mem then Ub NullDeref
                else
                  md ← format_digest (hmac_md e k i) mdstr;
                  s ← or_ub OutOfBounds (to_nul md);
                  mret (0, Some s)
            end
      | _, _, _ => mret (-1, None)
      end
  end.

(** What is used of OpenSSL. *)
Hypothesis hmac_size : ∀ e k i, length (hmac_md e k i) = md_size e.
Hypothesis hmac_bytes : ∀ e k i, Forall byte_ok (hmac_md e k i).

Lemma hex_digit_pos n : 0 ≤ n → hex_digit n ≠ 0.
Proof. intros. unfold hex_digit. case_decide; lia. Qed.

Lemma hex_text_nonzero bs : Forall byte_ok bs → Forall (λ c, c ≠ 0) (hex_text bs).
Proof.
  induction 1 as [|b bs Hb Hbs IH]; [constructor|]. unfold hex_text in *. cbn [mbind list_bind].
  rewrite fmt_02x_byte by done. unfold byte_ok in Hb. cbn [app].
  constructor; [apply hex_digit_pos, Z.div_pos; lia|].
  constructor; [apply hex_digit_pos, Z.mod_pos_bound; lia|done].
Qed.

Lemma hex_text_snoc bs b : hex_text (bs ++ [b]) = hex_text bs ++ fmt_02x b.
Proof. unfold hex_text. rewrite bind_app. cbn. by rewrite app_nil_r. Qed.

(** The text of a digest that leaves room for the last NUL. *)
Lemma format_digest_ok output mdstr :
  Forall byte_ok output → (0 < length output)%nat → (2 * length output < length mdstr)%nat →
  ∃ md, format_digest output mdstr = Ok md ∧ to_nul md = Some (hex_text output).
Proof.
  intros Hb Hpos Hfit.
  destruct (for_up_inv
    (λ k md, k = 0 ∧ md = mdstr ∨
       0 < k ∧ holds_text (Z.of_nat (length mdstr)) mdstr md (hex_text (take (Z.to_nat k) output))
                 (length (hex_text (take (Z.to_nat k) output))))
    (length output) 0
    (λ i mdstr, b ← arr_get output i; store_at mdstr (i * 2) (fmt_02x b ++ [0])) mdstr)
    as (md & Hr & Hinv); [by left| |].
  - intros k md Hk Hmd. destruct (lookup_lt_is_Some_2 output (Z.to_nat k)) as [b Hbk]; [lia|].
    rewrite (proj2 (arr_get_lookup output k b)) by (split; [lia|done]). rewrite bind_Ok.
    assert (Hbb : byte_ok b) by (by eapply Forall_lookup_1 in Hb).
    set (pre := take (Z.to_nat k) output).
    assert (Hpre : Forall byte_ok pre) by by apply Forall_take.
    assert (Hpl : length (hex_text pre) = (2 * Z.to_nat k)%nat).
    { rewrite hex_text_length by done. unfold pre. rewrite length_take. lia. }
    destruct (store_chunk mdstr (hex_text pre) (fmt_02x b) (Z.of_nat (length mdstr)) md)
      as (md' & Hs & Hh); [lia|rewrite fmt_02x_byte by done; simpl; lia| | | |].
    + destruct Hmd as [[_ ->]|[_ (Hl & _)]]; done.
    + destruct Hmd as [[-> ->]|[_ (_ & Ht & _)]]; [done|]. fold pre in Ht. by rewrite Ht, firstn_all.
    + rewrite Nat2Z.id. destruct Hmd as [[_ ->]|[_ (Hl & _)]]; [done|].
      by rewrite !drop_ge by (rewrite ?Hl; lia).
    + exists md'. split; [rewrite <-Hs; f_equal; lia|]. right. split; [lia|].
      replace (Z.to_nat (k + 1)) with (S (Z.to_nat k)) by lia.
      rewrite (take_S_r _ _ b) by done. by rewrite hex_text_snoc.
  - destruct Hinv as [[? _]|[_ Hh]]; [lia|]. rewrite Z.add_0_l, Nat2Z.id, firstn_all in Hh.
    exists md. split; [done|]. destruct Hh as (Hl & Ht & Hz & _). rewrite firstn_all in Ht.
    rewrite <-(take_drop_middle md _ _ Hz), Ht. apply to_nul_app. by apply hex_text_nonzero.
Qed.

Lemma pick_engine_not512 name e : pick_engine name = Some e → e ≠ Sha512 → (2 * md_size e < 128)%nat.
Proof. intros _ He. destruct e; simpl; try lia. done. Qed.

(** [hmac_encode] with a supported digest other than SHA-512
    returns 0 and the hexadecimal text of the code, two lower-case digits per
    byte.  For SHA-512 the text fills the 128 bytes of the buffer and the last
    [sprintf] stores its terminating NUL one byte past the end. *)
Lemma hmac_encode_text a k i e mdstr :
  pick_engine a = Some e → length mdstr = Z.to_nat (EVP_MAX_MD_SIZE * 2) →
  (e ≠ Sha512 → hmac_encode (Some (AlgoHmac (Some a) (Some k) (Some i))) true true mdstr =
     Ok (0, Some (hex_text (hmac_md e k i))) ∧
     length (hex_text (hmac_md e k i)) = (2 * md_size e)%nat) ∧
  (e = Sha512 → hmac_encode (Some (AlgoHmac (Some a) (Some k) (Some i))) true true mdstr =
     Ub OutOfBounds).
Proof using hmac_size hmac_bytes.
  intros He Hl. change (Z.to_nat (EVP_MAX_MD_SIZE * 2)) with 128%nat in Hl.
  pose proof (hmac_size e k i) as Hs. pose proof (hmac_bytes e k i) as Hb.
  unfold hmac_encode. cbn [algo key input negb]. rewrite He. split.
  - intros Hne. pose proof (pick_engine_not512 a e He Hne) as Hsz.
    destruct (format_digest_ok (hmac_md e k i) mdstr) as (md & -> & Hn);
      [done|rewrite Hs; destruct e; simpl; lia|lia|].
    rewrite bind_Ok, Hn. cbn [or_ub]. rewrite bind_Ok. split; [done|].
    rewrite hex_text_length by done. lia.
  - intros ->. cbn [md_size] in Hs. unfold format_digest.
    destruct (lookup_lt_is_Some_2 (hmac_md Sha512 k i) 63) as [b Hbk]; [lia|].
    assert (Hsplit : ∃ md, for_up 63 0 (λ i0 mdstr0, b0 ← arr_get (hmac_md Sha512 k i) i0;
        store_at mdstr0 (i0 * 2) (fmt_02x b0 ++ [0])) mdstr = Ok md ∧ length md = 128%nat).
    { destruct (for_up_inv (λ _ md, length md = 128%nat) 63 0 (λ i0 mdstr0, b0 ← arr_get (hmac_md Sha512 k i) i0;
        store_at mdstr0 (i0 * 2) (fmt_02x b0 ++ [0])) mdstr) as (md & Hr & Hm); [done| |by exists md].
      intros j md Hj Hm. destruct (lookup_lt_is_Some_2 (hmac_md Sha512 k i) (Z.to_nat j)) as [x Hx]; [lia|].
      rewrite (proj2 (arr_get_lookup _ j x)) by (split; [lia|done]). rewrite bind_Ok.
      assert (byte_ok x) by (by eapply Forall_lookup_1 in Hb).
      rewrite fmt_02x_byte by done. rewrite store_at_ok by (simpl; lia). eexists. split; [done|].
      rewrite !length_app, length_take, length_drop. simpl. lia. }
    destruct Hsplit as (md & Hr & Hm). rewrite Hs. rewrite (for_up_last 63 0 _ _ md Hr).
    rewrite (proj2 (arr_get_lookup _ 63 b)) by done. rewrite bind_Ok.
    assert (byte_ok b) by (by eapply Forall_lookup_1 in Hb).
    rewrite fmt_02x_byte by done. unfold store_at. rewrite decide_False; [done|]. simpl. lia.
Qed.

End encode.

(** ** Witness *)

Definition ex_md (e : engine) (_ _ : list Z) : list Z := replicate (md_size e) 171.

Lemma ex_md_bytes e k i : Forall byte_ok (ex_md e k i).
Proof. apply Forall_replicate. unfold byte_ok. lia. Qed.

Lemma hmac_encode_text_witness :
  hmac_encode ex_md (Some (AlgoHmac (Some [77; 68; 53]) (Some [1]) (Some [2]))) true true (replicate 128 7) =
    Ok (0, Some (hex_text (replicate 16 171))).
Proof.
  destruct (hmac_encode_text ex_md (λ e k i, length_replicate _ _)
    ex_md_bytes [77; 68; 53] [1] [2] Md5 (replicate 128 7)
    eq_refl eq_refl) as [H _].
  destruct (H ltac:(done)) as [H1 _]. exact H1.
Defined.
