(* ===== verification/BasicTask.v ===== *)
(** * Tasks: linux/utils/src/basic_task.c

    A task is a record of thread parameters; [task_create] turns it into a thread.
    The calls of the thread library are arguments ([answers]) with their POSIX
    results: 0 or a positive error number.  What a thread does is the list of its
    events.  Theorems: what [task_create] reports and does on every branch, with
    the failed creation it takes for success; and what a thread in debug mode
    does with a task that was freed. *)

From S2P Require Import Prelude.

Definition MAX_BACKTRACE_NUM := 32.
Definition SCHED_RR := 2.

(** Functions and their arguments are numbers; null is [None]. *)
Record task_t := Task {
  t_name : option (list Z);
  cpuid : Z;
  piority : Z;
  t_arg : Z;
  entry : option Z;
  is_detach : Z;
  debug_on : Z
}.

Definition task_init (_ : task_t) : Z * task_t := (0, Task None (-1) 0 0 None 0 0).

(** [mem] is the uninitialised memory, [None] when there is none. *)
Definition task_alloc_init (mem : option task_t) : option task_t :=
  match mem with
  | None => None
  | Some t => Some (task_init t).2
  end.

(** The task is gone. *)
Definition task_free (_ : option task_t) : Z * option task_t := (0, None).

Definition task_set_param (t : task_t) (name : option (list Z)) (e : option Z) (arg : Z) : Z * task_t :=
  (0, Task name (cpuid t) (piority t) arg e (is_detach t) (debug_on t)).

(** ** Thread attributes *)

(** The affinity is the set of processors, once it was given. *)
Record attr_t := Attr { policy : Z; sched_priority : Z; affinity : option (list Z) }.

Definition attr_default : attr_t := Attr 0 0 None.

Record answers := Answers {
  a_attr_init : Z;
  a_setpolicy : Z;
  a_setaffinity : Z;
  a_create : Z;        (** result of [pthread_create] *)
  a_tid : Z            (** identifier of the new thread *)
}.

(** [pthread_attr_setschedparam] accepts the priorities of the policy. *)
Definition setschedparam (a : attr_t) (p : Z) : Z * attr_t :=
  if decide (1 ≤ p ≤ 99) then (0, Attr (policy a) p (affinity a)) else (EINVAL, a).

(** [CPU_ZERO] and [CPU_SET]: a number outside the 1024 bits of [cpu_set_t] is
    ignored. *)
Definition cpu_mask (cpu : Z) : list Z := if decide (0 ≤ cpu < 1024) then [cpu] else [].

(** The attributes, or [None] when they were not made or were destroyed. *)
Definition set_pthread_attr (a : answers) (prio cpu : Z) : Z * option attr_t :=
  if decide (a_attr_init a ≠ 0) then (-1, None)
  else if decide (a_setpolicy a ≠ 0) then (-1, None)
  else
    let at_ := Attr SCHED_RR 0 None in
    let p := if decide (0 ≠ prio) then setschedparam at_ prio else (0, at_) in
    if decide (p.1 ≠ 0) then (-1, None)
    else if decide (-1 ≠ cpu) then
      if decide (a_setaffinity a ≠ 0) then (-1, None)
      else (0, Some (Attr (policy p.2) (sched_priority p.2) (Some (cpu_mask cpu))))
    else (0, Some p.2).

(** ** What threads do *)

Inductive event : Set :=
  | Handle (sig : Z)             (** [signal(sig, signal_handler)] *)
  | Call (f arg : Z)
  | Line (i size : Z).           (** one line of the stack dump *)

#[global] Instance event_eq_dec : EqDecision event.
Proof. solve_decision. Defined.

(** SIGSEGV, SIGILL, SIGABRT, SIGBUS, SIGFPE, SIGSYS *)
Definition signals : list event :=
  [Handle 11; Handle 4; Handle 6; Handle 7; Handle 8; Handle 31].

Definition task_register_signal : Z * list event := (0, signals).

(** [size] is the result of [backtrace]; [symbol] whether the names could be
    allocated, which is not checked. *)
Definition dump_thread_stack (size : Z) (symbol : bool) : res (list event) :=
  if decide (0 < size ∧ symbol = false) then Ub NullDeref
  else mret ((λ i, Line i size) <$> seqZ 0 size).

Definition signal_handler (signum size : Z) (symbol : bool) : res (list event) :=
  if decide (11 = signum ∨ 6 = signum) then dump_thread_stack size symbol else mret [].

(** How a thread is started: the wrapper gets the address of the task, whose
    memory it reads later; otherwise function and argument are passed. *)
Inductive start : Set := StartSignal | StartEntry (f : option Z) (arg : Z).

Definition call (f : option Z) (arg : Z) : res (list event) :=
  match f with Some f => mret [Call f arg] | None => Ub NullDeref end.

Definition signal_task (mem : option task_t) : res (list event) :=
  t ← or_ub BadPtr mem;
  c ← call (entry t) (t_arg t);
  mret (signals ++ c).

Definition thread_run (st : start) (mem : option task_t) : res (list event) :=
  match st with StartSignal => signal_task mem | StartEntry f arg => call f arg end.

(** ** task_create *)

Record created := Created {
  c_thread : option (Z * start);      (** the thread that was started *)
  c_named : option (Z * list Z);      (** thread renamed by [pthread_setname_np] *)
  c_detached : option Z;              (** thread detached *)
  c_tid : option Z;                   (** [*tid] afterwards; [None] indeterminate *)
  c_attr : option attr_t              (** attributes not destroyed *)
}.

(** [tid] is the content of the caller's variable; a failed [pthread_create]
    leaves it.  [pthread_create] never returns a negative value. *)
Definition task_create (a : answers) (t : task_t) (tid : option Z) : res (Z * created) :=
  let r := set_pthread_attr a (piority t) (cpuid t) in
  if decide (r.1 < 0) then mret (r.1, Created None None None tid r.2)
  else
    let st := if decide (debug_on t ≠ 0) then StartSignal else StartEntry (entry t) (t_arg t) in
    let ret := a_create a in
    if decide (ret < 0) then mret (-1, Created None None None tid None)
    else
      let thread := if decide (ret = 0) then Some (a_tid a, st) else None in
      let tid := if decide (ret = 0) then Some (a_tid a) else tid in
      named ← (match t_name t with
               | Some n => id ← or_ub Uninit tid; mret (Some (id, n))
               | None => mret None
               end);
      detached ← (if decide (is_detach t ≠ 0) then id ← or_ub Uninit tid; mret (Some id)
                  else mret None);
      mret (0, Created thread named detached tid r.2).

(** The documented results: an error number is positive. *)
Definition answers_ok (a : answers) : Prop := 0 ≤ a_create a.

(** The task asks for something the attributes can express. *)
Definition params_ok (a : answers) (t : task_t) : Prop :=
  a_attr_init a = 0 ∧ a_setpolicy a = 0 ∧ (piority t = 0 ∨ 1 ≤ piority t ≤ 99) ∧
  (cpuid t = -1 ∨ a_setaffinity a = 0).

#[global] Instance params_ok_dec a t : Decision (params_ok a t).
Proof. unfold params_ok. apply _. Defined.

Lemma set_pthread_attr_ok a t :
  if decide (params_ok a t)
  then set_pthread_attr a (piority t) (cpuid t) =
         (0, Some (Attr SCHED_RR (piority t) (if decide (cpuid t = -1) then None else Some (cpu_mask (cpuid t)))))
  else set_pthread_attr a (piority t) (cpuid t) = (-1, None).
Proof.
  unfold set_pthread_attr, setschedparam, params_ok.
  destruct (decide (a_attr_init a = 0)) as [H1|H1];
    [rewrite (decide_False (P := a_attr_init a ≠ 0)) by auto
    |rewrite (decide_True (P := a_attr_init a ≠ 0)) by done; rewrite decide_False by naive_solver; done].
  destruct (decide (a_setpolicy a = 0)) as [H2|H2];
    [rewrite (decide_False (P := a_setpolicy a ≠ 0)) by auto
    |rewrite (decide_True (P := a_setpolicy a ≠ 0)) by done; rewrite decide_False by naive_solver; done].
  repeat (case_decide; simpl; try lia); try naive_solver lia.
  all: repeat f_equal; lia.
Qed.

(** What [task_create] does on every branch.  Parameters that cannot
    be expressed give -1 and nothing else.  Otherwise the function returns 0
    whether or not the thread could be started: a failed [pthread_create]
    returns a positive number, which the test for a negative one misses, and
    then a name or the detach flag is applied to whatever thread identifier the
    caller's variable held, or is undefined when it held none. *)
Lemma task_create_outcome a t tid :
  answers_ok a →
  (¬ params_ok a t → task_create a t tid = Ok (-1, Created None None None tid None)) ∧
  (params_ok a t → a_create a = 0 →
     ∃ c, task_create a t tid = Ok (0, c) ∧
       c_thread c = Some (a_tid a, if decide (debug_on t ≠ 0) then StartSignal
                                   else StartEntry (entry t) (t_arg t)) ∧
       c_named c = (λ n, (a_tid a, n)) <$> t_name t ∧
       c_detached c = (if decide (is_detach t ≠ 0) then Some (a_tid a) else None)) ∧
  (params_ok a t → a_create a ≠ 0 →
     (t_name t = None → is_detach t = 0 →
        ∃ c, task_create a t tid = Ok (0, c) ∧ c_thread c = None) ∧
     (t_name t ≠ None ∨ is_detach t ≠ 0 →
        match tid with
        | None => task_create a t tid = Ub Uninit
        | Some old => ∃ c, task_create a t tid = Ok (0, c) ∧ c_thread c = None ∧
            c_named c = (λ n, (old, n)) <$> t_name t ∧
            c_detached c = (if decide (is_detach t ≠ 0) then Some old else None)
        end)).
Proof.
  unfold answers_ok. intros Ha. pose proof (set_pthread_attr_ok a t) as Hattr. unfold task_create.
  split; [|split].
  - intros Hp. rewrite decide_False in Hattr by done. rewrite Hattr. done.
  - intros Hp Hc. rewrite decide_True in Hattr by done. rewrite Hattr. cbn [fst snd].
    rewrite (decide_False (P := 0 < 0)) by lia. rewrite Hc.
    rewrite (decide_False (P := 0 < 0)), (decide_True (P := 0 = 0)) by lia.
    destruct (t_name t), (decide (is_detach t ≠ 0)); by eexists.
  - intros Hp Hc. rewrite decide_True in Hattr by done. rewrite Hattr. cbn [fst snd].
    rewrite (decide_False (P := 0 < 0)), (decide_False (P := a_create a < 0)),
      !(decide_False (P := a_create a = 0)) by lia. split.
    + intros Hn Hd. rewrite Hn, bind_Ok. rewrite (decide_False (P := is_detach t ≠ 0)) by auto.
      rewrite bind_Ok. eexists. done.
    + intros Hor. destruct tid as [old|]; cbn [or_ub].
      * destruct (t_name t), (decide (is_detach t ≠ 0)); by eexists.
      * destruct (t_name t); [done|]. rewrite bind_Ok. destruct Hor as [?|Hd]; [done|].
        by destruct (decide (is_detach t ≠ 0)).
Qed.

(** A thread of a task in debug mode starts from the task's memory:
    it runs the entry after installing the six handlers as long as the task
    lives, and when the owner has freed the task before the thread runs, the
    thread reads freed memory.  Without debug mode the task may be freed at
    once. *)
Lemma task_debug_reads_task a t tid f :
  answers_ok a → params_ok a t → a_create a = 0 → t_name t = None → is_detach t = 0 → entry t = Some f →
  ∃ c st, task_create a t tid = Ok (0, c) ∧ c_thread c = Some (a_tid a, st) ∧
    (debug_on t ≠ 0 →
       thread_run st (Some t) = Ok (signals ++ [Call f (t_arg t)]) ∧
       thread_run st (task_free (Some t)).2 = Ub BadPtr) ∧
    (debug_on t = 0 → ∀ mem, thread_run st mem = Ok [Call f (t_arg t)]).
Proof.
  intros Ha Hp Hc Hn Hd He. pose proof (set_pthread_attr_ok a t) as Hattr.
  rewrite decide_True in Hattr by done. unfold task_create. rewrite Hattr, Hc, Hn. cbn [fst snd].
  rewrite !(decide_False (P := 0 < 0)), !(decide_True (P := 0 = 0)), bind_Ok by lia.
  rewrite (decide_False (P := is_detach t ≠ 0)) by auto. rewrite bind_Ok.
  eexists _, _. split; [done|]. split; [done|]. split.
  - intros Hdb. rewrite decide_True by done. split; [|done].
    unfold thread_run, signal_task, call. cbn. by rewrite He.
  - intros Hdb mem. rewrite decide_False by auto. by rewrite He.
Qed.

(** ** Witnesses *)

Definition ex_task : task_t := Task (Some [116]) 2 50 7 (Some 1) 1 1.
Definition ex_fail : answers := Answers 0 0 0 11 5.
Definition ex_ok : answers := Answers 0 0 0 0 5.

Lemma task_create_outcome_witness : task_create ex_fail ex_task None = Ub Uninit.
Proof.
  destruct (task_create_outcome ex_fail ex_task None ltac:(done)) as (_ & _ & H).
  destruct (H ltac:(split; [done|split; [done|split; [right; simpl; lia|right; done]]]) ltac:(done)) as [_ H2].
  apply H2. left. done.
Defined.

Lemma task_debug_reads_task_witness :
  ∃ c st, task_create ex_ok (Task None (-1) 0 7 (Some 1) 0 1) None = Ok (0, c) ∧
    thread_run st None = Ub BadPtr.
Proof.
  destruct (task_debug_reads_task ex_ok (Task None (-1) 0 7 (Some 1) 0 1) None 1)
    as (c & st & H1 & _ & H2 & _); try reflexivity.
  - done.
  - split; [done|]. split; [done|]. split; [left; done|left; done].
  - exists c, st. split; [exact H1|]. apply H2. done.
Defined.
