(* ===== verification/NetUtils.v ===== *)
(** * Listening sockets: linux/utils/src/net_utils.c

    [tcp_socket_listen] with the results of the socket calls as arguments.
    Theorem: what is open and what the caller's variable holds on every path. *)

From S2P Require Import Prelude.

Record answers := Answers {
  a_socket : Z;          (** descriptor or -1 *)
  a_addr : option Z;     (** [inet_pton]: the address, [None] when not valid *)
  a_bind : Z;
  a_listen : Z
}.

(** The address bound, when the text was valid, and the port. *)
Record listening := Listening {
  l_fd : option Z;                    (** [*fd]; [None] is what it was before *)
  l_open : list Z;                    (** sockets left open *)
  l_bound : option (option Z * Z)     (** what [bind] was called with *)
}.

(** [htons(port)] takes the low 16 bits. *)
Definition sin_port (port : Z) : Z := wrap_u 16 port.

Definition tcp_socket_listen (a : answers) (ip_port : Z) : Z * listening :=
  let socket_fd := a_socket a in
  if decide (-1 = socket_fd) then (-1, Listening None [] None)
  else
    let b := Some (a_addr a, sin_port ip_port) in
    if decide (-1 = a_bind a) then (a_bind a, Listening (Some (-1)) [] b)
    else if decide (-1 = a_listen a) then (a_listen a, Listening (Some (-1)) [] b)
    else (0, Listening (Some socket_fd) [socket_fd] b).

(** The function returns 0 exactly when all three calls worked, and
    then the one socket left open is the one in [*fd]; every failure closes the
    socket and stores -1, except that of [socket] itself, which leaves [*fd] as
    it was.  The port is taken modulo 65536 and the address is bound even when
    its text was not valid. *)
Lemma tcp_listen_outcome a port :
  let r := tcp_socket_listen a port in
  (r.1 = 0 ↔ a_socket a ≠ -1 ∧ a_bind a ≠ -1 ∧ a_listen a ≠ -1) ∧
  (r.1 = 0 → l_open r.2 = [a_socket a] ∧ l_fd r.2 = Some (a_socket a)) ∧
  (r.1 ≠ 0 → r.1 = -1 ∧ l_open r.2 = [] ∧
     l_fd r.2 = if decide (a_socket a = -1) then None else Some (-1)) ∧
  (a_socket a ≠ -1 → l_bound r.2 = Some (a_addr a, port mod 65536)).
Proof.
  unfold tcp_socket_listen. cbv zeta.
  destruct (decide (-1 = a_socket a)); [|destruct (decide (-1 = a_bind a));
    [|destruct (decide (-1 = a_listen a))]]; cbn [fst snd l_open l_fd l_bound];
    (split; [naive_solver lia|split; [naive_solver lia|split; [|naive_solver lia]]]);
    intros ?; try lia; (split; [lia|split; [done|]]); case_decide; congruence || lia.
Qed.
