(* ===== verification/Double.v ===== *)
(** * Double: binary64 arithmetic of the C type double

    The values are those of the Standard Library's executable specification of
    IEEE 754 arithmetic, with 53 bits of precision; operations round to nearest.
    The conversion to a 64-bit integer truncates and is undefined for values that
    do not fit, for infinities and for NaN.  Used by the load computation of
    cpu_usage.c. *)

From S2P Require Import Prelude.
From Stdlib Require Import Floats.SpecFloat.

Abbreviation double := spec_float.

(** From an integer. *)
Definition d_of_Z (z : Z) : double := binary_normalize 53 1024 z 0 false.

Definition d_sub : double → double → double := SFsub 53 1024.
Definition d_mul : double → double → double := SFmul 53 1024.
Definition d_div : double → double → double := SFdiv 53 1024.

(** [m * 2 ^ e] without its fraction. *)
Definition d_trunc (m : positive) (e : Z) : Z :=
  if decide (0 ≤ e) then Zpos m * 2 ^ e else Zpos m / 2 ^ (- e).

(** The conversion to [long]. *)
Definition d_to_s64 (d : double) : res Z :=
  match d with
  | S754_zero _ => mret 0
  | S754_finite s m e =>
      let z := if s then - d_trunc m e else d_trunc m e in
      if decide (in_s 64 z) then mret z else Ub SignedOverflow
  | S754_infinity _ | S754_nan => Ub SignedOverflow
  end.

(** [ceil]: the smallest integer not below, as a double; an integer is its own. *)
Definition d_ceil (d : double) : double :=
  match d with
  | S754_finite s m e =>
      if decide (0 ≤ e) then d
      else
        let t := d_trunc m e in
        if s then (if decide (t = 0) then S754_zero true else d_of_Z (- t))
        else d_of_Z (if decide (t * 2 ^ (- e) = Zpos m) then t else t + 1)
  | _ => d
  end.

(** ** Facts *)

Definition d_finite (d : double) : Prop :=
  match d with S754_zero _ | S754_finite _ _ _ => True | _ => False end.

#[global] Instance d_finite_dec d : Decision (d_finite d).
Proof. destruct d; apply _. Defined.

(** Dividing by zero gives an infinity or NaN, from which no subtraction leads
    back. *)
Lemma d_div_zero x s : ¬ d_finite (d_div x (S754_zero s)).
Proof. destruct x; cbn; tauto. Qed.

Lemma d_sub_not_finite x y : ¬ d_finite x → ¬ d_finite (d_sub x y).
Proof. destruct x as [|s| |], y as [|t| |]; cbn; try tauto. destruct s, t; cbn; tauto. Qed.

Lemma d_to_s64_not_finite x : ¬ d_finite x → d_to_s64 x = Ub SignedOverflow.
Proof. destruct x; cbn; tauto. Qed.

Example ex_double : d_to_s64 (d_div (d_of_Z 1000) (d_of_Z 3)) = Ok 333.
Proof. vm_compute. reflexivity. Qed.

Example ex_ceil : d_to_s64 (d_ceil (d_div (d_of_Z (-7)) (d_of_Z 2))) = Ok (-3).
Proof. vm_compute. reflexivity. Qed.
