(* ===== verification/DoubleRound.v ===== *)
(** * DoubleRound: the rounding error of binary64 arithmetic

    Each operation of Double.v returns the real result rounded to a multiple of a
    power of two, off by at most half of it ([rounded]); the power is bounded by
    the size of the result.  In particular integers below 2^53 are represented,
    added and multiplied exactly.  Used for the load computation of cpu_usage.c. *)

From Stdlib Require Import Reals Lra Floats.SpecFloat.
From S2P Require Import Prelude Double.
#[local] Open Scope Z_scope.

Definition bpow (e : Z) : R := powerRZ 2 e.

(** The real value; only meaningful for finite numbers. *)
Definition dval (d : double) : R :=
  match d with
  | S754_finite s m e => (IZR (if s then Zneg m else Zpos m) * bpow e)%R
  | _ => 0%R
  end.

Definition expo (d : double) : Z := match d with S754_finite _ _ e => e | _ => -1074 end.

(** ** Powers of two *)

Lemma bpow_pos e : (0 < bpow e)%R.
Proof. apply powerRZ_lt. lra. Qed.

Lemma bpow_add a b : bpow (a + b) = (bpow a * bpow b)%R.
Proof. apply powerRZ_add. lra. Qed.

Lemma bpow_IZR n : 0 ≤ n → bpow n = IZR (2 ^ n).
Proof.
  intros Hn. rewrite <-(Z2Nat.id n) at 2 by done. rewrite <-pow_IZR.
  unfold bpow. rewrite <-(Z2Nat.id n) at 1 by done. by rewrite <-pow_powerRZ.
Qed.

Lemma bpow_le a b : a ≤ b → (bpow a <= bpow b)%R.
Proof.
  intros H. replace b with (a + (b - a)) by lia. rewrite bpow_add, (bpow_IZR (b - a)) by lia.
  pose proof (bpow_pos a). assert (1 <= IZR (2 ^ (b - a)))%R.
  { apply (IZR_le 1). pose proof (Z.pow_pos_nonneg 2 (b - a)). lia. }
  nra.
Qed.

Lemma bpow_lt_inv a b : (bpow a < bpow b)%R → a < b.
Proof. intros H. destruct (decide (a < b)) as [|Hn]; [done|]. pose proof (bpow_le b a ltac:(lia)). lra. Qed.

Lemma bpow_opp e : (bpow e * bpow (- e) = 1)%R.
Proof. rewrite <-bpow_add. by replace (e + - e) with 0 by lia. Qed.

(** ** Digits *)

Lemma digits2_pos_bound m :
  2 ^ (Zpos (digits2_pos m) - 1) ≤ Zpos m < 2 ^ Zpos (digits2_pos m).
Proof.
  assert (Hs : ∀ d, 2 ^ Zpos (Pos.succ d) = 2 * 2 ^ Zpos d).
  { intros d. rewrite Pos2Z.inj_succ, Z.pow_succ_r by lia. done. }
  assert (Hp : ∀ d, 2 ^ (Zpos (Pos.succ d) - 1) = 2 * 2 ^ (Zpos d - 1)).
  { intros d. replace (Zpos (Pos.succ d) - 1) with (Z.succ (Zpos d - 1)) by lia.
    rewrite Z.pow_succ_r by lia. done. }
  induction m as [m IH|m IH|]; cbn [digits2_pos]; rewrite ?Hs, ?Hp; [lia|lia|]. cbn. lia.
Qed.

Lemma Zdigits2_bound m : 0 < m → 2 ^ (Zdigits2 m - 1) ≤ m < 2 ^ Zdigits2 m ∧ 0 < Zdigits2 m.
Proof. intros Hm. destruct m as [|m|]; [lia| |lia]. cbn [Zdigits2]. split; [apply digits2_pos_bound|lia]. Qed.

(** A bound on the value bounds digits and exponent. *)
Lemma digits_le m e k : 0 < m → (IZR m * bpow e < bpow k)%R → Zdigits2 m + e ≤ k.
Proof.
  intros Hm Hlt. destruct (Zdigits2_bound m Hm) as [[Hd _] Hp].
  apply IZR_le in Hd. rewrite <-bpow_IZR in Hd by lia.
  assert (bpow (Zdigits2 m - 1 + e) < bpow k)%R as H%bpow_lt_inv; [|lia].
  rewrite bpow_add. pose proof (bpow_pos e). nra.
Qed.

Lemma digits_unique m d : 2 ^ (d - 1) ≤ m < 2 ^ d → 1 ≤ d → Zdigits2 m = d.
Proof.
  intros [H1 H2] Hd. pose proof (Z.pow_pos_nonneg 2 (d - 1)).
  destruct (Zdigits2_bound m ltac:(lia)) as [[H3 H4] Hp].
  assert (d - 1 < Zdigits2 m) by (apply (Z.pow_lt_mono_r_iff 2); lia).
  assert (Zdigits2 m - 1 < d) by (apply (Z.pow_lt_mono_r_iff 2); lia). lia.
Qed.

(** ** Shifting and rounding *)

Abbreviation fexp64 := (fexp 53 1024).

Lemma fexp64_eq e : fexp64 e = Z.max (e - 53) (-1074).
Proof. done. Qed.

(** Where the exact mantissa [x] lies: at the integer, below, at or above the
    middle of the interval that follows it. *)
Definition located (mrs : shr_record) (x : R) : Prop :=
  let m := IZR (shr_m mrs) in
  0 ≤ shr_m mrs ∧
  match shr_r mrs, shr_s mrs with
  | false, false => x = m
  | false, true => (m < x < m + 1 / 2)%R
  | true, false => x = (m + 1 / 2)%R
  | true, true => (m + 1 / 2 < x < m + 1)%R
  end.

Lemma shr_1_m mrs : 0 ≤ shr_m mrs → shr_m (shr_1 mrs) = shr_m mrs / 2.
Proof.
  destruct mrs as [[|[p|p|]|] r s]; cbn [shr_m shr_1]; intros Hm; try done; try lia.
  - apply Z.div_unique with 1; lia.
  - apply Z.div_unique with 0; lia.
Qed.

Lemma shr_1_located mrs x : located mrs x → located (shr_1 mrs) (x / 2).
Proof.
  unfold located. destruct mrs as [[|[p|p|]|] r s]; cbn [shr_m shr_1 shr_r shr_s]; intros [Hm Hx];
    (split; [lia|]); try lia;
    rewrite ?(Pos2Z.inj_xI p), ?(Pos2Z.inj_xO p), ?plus_IZR, ?mult_IZR in Hx;
    destruct r, s; cbn [orb]; lra.
Qed.

Lemma iter_pos_add {A} (f : A → A) p x : SpecFloat.iter_pos f p x = Nat.iter (Pos.to_nat p) f x.
Proof.
  revert x. induction p as [p IH|p IH|]; intros x; cbn [SpecFloat.iter_pos]; [| |done];
    rewrite !IH, <-Nat.iter_add; rewrite ?Pos2Nat.inj_xI, ?Pos2Nat.inj_xO.
  - replace (S (2 * Pos.to_nat p)) with (Pos.to_nat p + Pos.to_nat p + 1)%nat by lia.
    by rewrite (Nat.iter_add _ 1).
  - f_equal. lia.
Qed.

Lemma iter_located n mrs x :
  located mrs x → located (Nat.iter n shr_1 mrs) (x / IZR (2 ^ Z.of_nat n)) ∧
    shr_m (Nat.iter n shr_1 mrs) = shr_m mrs / 2 ^ Z.of_nat n.
Proof.
  intros Hx. induction n as [|n [IH1 IH2]].
  - change (Nat.iter 0 shr_1 mrs) with mrs. change (2 ^ Z.of_nat 0) with 1. rewrite Z.div_1_r. split; [|done].
    by replace (x / 1)%R with x by field.
  - change (Nat.iter (S n) shr_1 mrs) with (shr_1 (Nat.iter n shr_1 mrs)). rewrite Nat2Z.inj_succ, Z.pow_succ_r by lia. split.
    + replace (x / IZR (2 * 2 ^ Z.of_nat n))%R with (x / IZR (2 ^ Z.of_nat n) / 2)%R; [by apply shr_1_located|].
      rewrite mult_IZR. field. apply not_0_IZR. pose proof (Z.pow_pos_nonneg 2 (Z.of_nat n)). lia.
    + rewrite shr_1_m by apply IH1. rewrite IH2.
      rewrite Z.div_div by (try apply Z.pow_pos_nonneg; lia). f_equal. lia.
Qed.

(** Shifting by [n] places, or not at all when [n] is not positive. *)
Lemma shr_located mrs x e n :
  located mrs x →
  let n' := Z.max n 0 in
  let r := shr mrs e n in
  r.2 = e + n' ∧ located r.1 (x / IZR (2 ^ n')) ∧ shr_m r.1 = shr_m mrs / 2 ^ n'.
Proof.
  intros Hx. cbv zeta. destruct n as [|p|p]; cbn [shr fst snd].
  2:{ rewrite iter_pos_add. destruct (iter_located (Pos.to_nat p) mrs x Hx) as [H1 H2].
      rewrite positive_nat_Z in H1, H2. rewrite Z.max_l by lia. done. }
  all: rewrite Z.max_r by lia; change (2 ^ 0) with 1; rewrite Z.div_1_r;
    split; [lia|]; split; [|done]; by replace (x / 1)%R with x by field.
Qed.

Lemma round_located mrs x :
  located mrs x →
  let n := round_nearest_even (shr_m mrs) (loc_of_shr_record mrs) in
  (Rabs (IZR n - x) <= 1 / 2)%R ∧ (n = shr_m mrs ∨ n = shr_m mrs + 1).
Proof.
  intros [Hm Hx]. destruct mrs as [m r s]. cbn [shr_m shr_r shr_s] in *. cbv zeta.
  assert (IZR (m + 1) = IZR m + 1)%R as Hp by by rewrite plus_IZR.
  destruct r, s; cbn [loc_of_shr_record round_nearest_even]; [| |split; [|by left]..].
  - split; [|by right]. rewrite Hp. apply Rabs_le. lra.
  - destruct (Z.even m); (split; [|auto]); rewrite ?Hp; apply Rabs_le; lra.
  - apply Rabs_le. lra.
  - apply Rabs_le. lra.
Qed.

(** A finite result that is [x] rounded to a multiple of [2^e]; its exponent is
    at most [e] unless the mantissa overflowed to the next power of two. *)
Definition rounded (x : R) (e : Z) (r : double) : Prop :=
  d_finite r ∧ (Rabs (dval r - x) <= bpow e / 2)%R ∧ (∃ n, dval r = (IZR n * bpow e)%R) ∧
  (expo r ≤ e ∨ Rabs (dval r) = bpow (52 + expo r)).

Definition sgn (s : bool) (x : R) : R := if s then (- x)%R else x.

(** The second half of [binary_round_aux]: renormalise after rounding up. *)
Definition renormalise (sx : bool) (n e : Z) : double :=
  let '(mrs, e) := shr_fexp 53 1024 n e loc_Exact in
  match shr_m mrs with
  | Z0 => S754_zero sx
  | Zpos m => if (e <=? 1024 - 53)%Z then S754_finite sx m e else S754_infinity sx
  | _ => S754_nan
  end.

Lemma finite_val sx m e : dval (S754_finite sx m e) = sgn sx (IZR (Zpos m) * bpow e).
Proof. cbn. destruct sx; cbn [sgn]; [|done]. change (Zneg m) with (- Zpos m). rewrite opp_IZR. lra. Qed.

Lemma sgn_abs s x : (0 <= x)%R → Rabs (sgn s x) = x.
Proof. intros. destruct s; cbn [sgn]; rewrite ?Rabs_Ropp; by apply Rabs_pos_eq. Qed.

Lemma renormalise_spec sx n e :
  0 ≤ n ≤ 2 ^ 53 → -1074 ≤ e ≤ 900 →
  let r := renormalise sx n e in
  d_finite r ∧ dval r = sgn sx (IZR n * bpow e) ∧
  (expo r ≤ e ∨ Rabs (dval r) = bpow (52 + expo r)).
Proof.
  intros Hn He r. subst r. unfold renormalise, shr_fexp. cbn [shr_record_of_loc].
  destruct (shr_located {| shr_m := n; shr_r := false; shr_s := false |} (IZR n) e
    (fexp64 (Zdigits2 n + e) - e)) as (H2 & _ & Hm); [by split; [cbn; lia|]|].
  destruct (shr _ e _) as [mrs e2]. cbn [fst snd shr_m] in *. subst e2. rewrite fexp64_eq in *.
  destruct (decide (n = 2 ^ 53)) as [->|Hne].
  - rewrite (digits_unique (2 ^ 53) 54) in * by lia.
    rewrite Z.max_l in Hm |- * by lia. rewrite (Z.max_l (54 + e - 53)) in Hm |- * by lia.
    replace (54 + e - 53 - e) with 1 in * by lia. rewrite Hm.
    change (2 ^ 53 / 2 ^ 1) with (Zpos (2 ^ 52)). rewrite (proj2 (Z.leb_le _ _)) by lia.
    split; [done|]. rewrite finite_val.
    assert (IZR (Z.pos (2 ^ 52)) * bpow (e + 1) = IZR (2 ^ 53) * bpow e)%R as ->.
    { change (Z.pos (2 ^ 52)) with (2 ^ 52). rewrite <-!bpow_IZR by lia. rewrite <-!bpow_add. f_equal. lia. }
    split; [done|right]. cbn [expo]. pose proof (bpow_pos e).
    rewrite sgn_abs by (apply Rmult_le_pos; [apply IZR_le|]; lra || lia).
    rewrite <-bpow_IZR, <-bpow_add by lia. f_equal. lia.
  - assert (Zdigits2 n ≤ 53) as Hd.
    { destruct (decide (n = 0)) as [->|]; [cbn; lia|]. destruct (Zdigits2_bound n ltac:(lia)) as [[Hl _] ?].
      enough (Zdigits2 n - 1 < 53) by lia. apply (Z.pow_lt_mono_r_iff 2); lia. }
    rewrite Z.max_r in Hm |- * by lia. change (2 ^ 0) with 1 in Hm. rewrite Z.div_1_r in Hm. rewrite Hm, Z.add_0_r.
    destruct n as [|n|]; [| |lia].
    + split; [done|]. cbn [dval expo]. split; [destruct sx; cbn [sgn]; lra|left; lia].
    + rewrite (proj2 (Z.leb_le _ _)) by lia. split; [done|]. rewrite finite_val. split; [done|by left].
Qed.

Lemma binary_round_aux_rounded sx mx ex lx x :
  located (shr_record_of_loc mx lx) x → ex ≤ 900 → Zdigits2 mx + ex ≤ 900 →
  rounded (sgn sx (x * bpow ex)) (Z.max ex (fexp64 (Zdigits2 mx + ex)))
    (binary_round_aux 53 1024 sx mx ex lx).
Proof.
  intros Hx He Hd. assert (Hmx : shr_m (shr_record_of_loc mx lx) = mx) by by destruct lx as [|[]].
  assert (0 ≤ mx) as Hpos by (destruct Hx as [Hx _]; by rewrite Hmx in Hx).
  change (binary_round_aux 53 1024 sx mx ex lx) with
    (let '(mrs, e) := shr_fexp 53 1024 mx ex lx in
     renormalise sx (round_nearest_even (shr_m mrs) (loc_of_shr_record mrs)) e).
  unfold shr_fexp. rewrite fexp64_eq.
  destruct (shr_located _ x ex (Z.max (Zdigits2 mx + ex - 53) (-1074) - ex) Hx) as (H2 & H1 & Hm).
  destruct (shr _ ex _) as [mrs e2]. cbn [fst snd] in *. subst e2. rewrite Hmx in Hm.
  set (k := Z.max (Z.max (Zdigits2 mx + ex - 53) (-1074) - ex) 0) in *.
  replace (Z.max ex (Z.max (Zdigits2 mx + ex - 53) (-1074))) with (ex + k) by lia.
  destruct (round_located mrs _ H1) as [Hr Hn]. set (n := round_nearest_even _ _) in *.
  assert (shr_m mrs < 2 ^ 53) as Hlt.
  { rewrite Hm. destruct (decide (mx = 0)) as [->|]; [by rewrite Z.div_0_l by (apply Z.pow_nonzero; lia)|].
    destruct (Zdigits2_bound mx ltac:(lia)) as [[_ Hu] _].
    apply Z.div_lt_upper_bound; [apply Z.pow_pos_nonneg; lia|]. rewrite <-Z.pow_add_r by lia.
    eapply Z.lt_le_trans; [exact Hu|]. apply Z.pow_le_mono_r; lia. }
  destruct H1 as [H0 _].
  destruct (renormalise_spec sx n (ex + k)) as (Hf & Hv & Hexp); [lia|lia|].
  split; [done|]. rewrite Hv. split; [|split; [|by rewrite <-Hv]].
  - replace (sgn sx (IZR n * bpow (ex + k)) - sgn sx (x * bpow ex))%R
      with (sgn sx ((IZR n - x / IZR (2 ^ k)) * bpow (ex + k)))%R.
    + pose proof (bpow_pos (ex + k)).
      assert (∀ s y, Rabs (sgn s y) = Rabs y) as -> by (intros [] y; cbn [sgn]; rewrite ?Rabs_Ropp; done).
      rewrite Rabs_mult, (Rabs_pos_eq (bpow (ex + k))) by lra. nra.
    + assert (x / IZR (2 ^ k) * bpow (ex + k) = x * bpow ex)%R as Hxe.
      { rewrite bpow_add, (bpow_IZR k) by lia. field. apply not_0_IZR. apply Z.pow_nonzero; lia. }
      destruct sx; cbn [sgn]; rewrite Rmult_minus_distr_r, Hxe; lra.
  - exists (if sx then - n else n). destruct sx; cbn [sgn]; rewrite ?opp_IZR; lra.
Qed.

(** ** The operations *)

(** Rounded to 53 bits of a result below [2^k]. *)
Definition near (x : R) (k : Z) (r : double) : Prop := ∃ e, e ≤ k - 53 ∧ rounded x e r.

Lemma near_finite x k r : near x k r → d_finite r.
Proof. by intros (e & _ & ? & _). Qed.

Lemma near_err x k r : near x k r → (Rabs (dval r - x) <= bpow (k - 54))%R.
Proof.
  intros (e & He & _ & H & _). apply (bpow_le e (k - 53)) in He.
  replace (k - 53) with (k - 54 + 1) in He by lia. rewrite bpow_add in He.
  change (bpow 1) with (2 ^ 1)%R in He. lra.
Qed.

Lemma near_expo x k r : near x k r → (Rabs (dval r) < bpow k)%R → expo r ≤ k - 53.
Proof.
  intros (e & He & _ & _ & _ & [?|H]) Hk; [lia|]. rewrite H in Hk. apply bpow_lt_inv in Hk. lia.
Qed.

(** Integers are multiples of every unit that is not above one. *)
Lemma near_exact z k r : near (IZR z) k r → k ≤ 53 → dval r = IZR z.
Proof.
  intros (e & He & _ & Herr & (n & Hn) & _) Hk. rewrite Hn in Herr |- *.
  assert (IZR z = IZR (z * 2 ^ (- e)) * bpow e)%R as Hz.
  { rewrite mult_IZR, <-bpow_IZR by lia. rewrite Rmult_assoc, (Rmult_comm (bpow (- e))), bpow_opp. lra. }
  rewrite Hz in Herr |- *. rewrite <-Rmult_minus_distr_r, <-minus_IZR, Rabs_mult, Rabs_Zabs in Herr.
  pose proof (bpow_pos e). rewrite (Rabs_pos_eq (bpow e)) in Herr by lra.
  assert (IZR (Z.abs (n - z * 2 ^ (- e))) < 1)%R as Hlt%(lt_IZR _ 1) by nra.
  do 2 f_equal. lia.
Qed.

Lemma zero_near k s : -1021 ≤ k → near 0 k (S754_zero s).
Proof.
  intros Hk. exists (k - 53). split; [lia|]. split; [done|]. cbn [dval expo]. pose proof (bpow_pos (k - 53)).
  split; [rewrite Rminus_0_r, Rabs_R0; lra|]. split; [exists 0; lra|left; lia].
Qed.

Lemma self_near k x : d_finite x → expo x ≤ k - 53 → -1021 ≤ k → near (dval x) k x.
Proof.
  destruct x as [s| | |s m e]; intros Hf He Hk; try done; [by apply zero_near|].
  exists e. split; [done|]. split; [done|]. pose proof (bpow_pos e).
  rewrite Rminus_diag, Rabs_R0. split; [lra|]. split; [by eexists|by left].
Qed.

Lemma located_exact m : 0 ≤ m → located (shr_record_of_loc m loc_Exact) (IZR m).
Proof. by split. Qed.

Lemma aux_near sx mx ex lx x k :
  located (shr_record_of_loc mx lx) x → (x * bpow ex < bpow k)%R → ex ≤ k - 53 → -1021 ≤ k ≤ 900 →
  near (sgn sx (x * bpow ex)) k (binary_round_aux 53 1024 sx mx ex lx).
Proof.
  intros Hx Hlt He Hk.
  assert (Zdigits2 mx + ex ≤ k) as Hd.
  { assert (Hm : shr_m (shr_record_of_loc mx lx) = mx) by by destruct lx as [|[]].
    destruct Hx as [H0 Hx]. rewrite Hm in *. destruct (decide (mx = 0)) as [->|]; [cbn; lia|].
    apply digits_le; [lia|]. pose proof (bpow_pos ex).
    assert (IZR mx <= x)%R by (destruct (shr_r _), (shr_s _); lra). nra. }
  exists (Z.max ex (fexp64 (Zdigits2 mx + ex))). split; [rewrite fexp64_eq; lia|].
  apply binary_round_aux_rounded; [done|lia|lia].
Qed.

Lemma shl_align_val m e e' :
  let r := shl_align m e e' in
  r.2 = Z.min e e' ∧ (IZR (Zpos r.1) * bpow r.2 = IZR (Zpos m) * bpow e)%R ∧
  (e' ≤ e → Zpos r.1 = Zpos m * 2 ^ (e - e')).
Proof.
  cbv zeta. unfold shl_align. destruct (e' - e) as [|d|d] eqn:E; cbn [fst snd].
  - split; [lia|]. split; [done|]. intros _. replace (e - e') with 0 by lia. lia.
  - split; [lia|]. split; [done|]. lia.
  - assert (Zpos (Pos.iter xO m d) = Zpos m * 2 ^ Zpos d) as Hi.
    { clear E. revert m. induction d as [|d IH] using Pos.peano_ind; intros m; [cbn; lia|].
      rewrite Pos.iter_succ, Pos2Z.inj_xO, IH, Pos2Z.inj_succ, Z.pow_succ_r by lia. lia. }
    rewrite Hi. replace (e - e') with (Zpos d) by lia. split; [lia|]. split; [|done].
    replace e with (Zpos d + e') by lia. rewrite bpow_add, mult_IZR, <-bpow_IZR by lia. lra.
Qed.

Lemma normalize_near m e k :
  (Rabs (IZR m * bpow e) < bpow k)%R → -1021 ≤ k ≤ 900 →
  near (IZR m * bpow e) k (binary_normalize 53 1024 m e false).
Proof.
  intros Hlt Hk. pose proof (bpow_pos e) as Hpe.
  assert (Hp : ∀ s p, (IZR (Zpos p) * bpow e < bpow k)%R →
    near (sgn s (IZR (Zpos p) * bpow e)) k (binary_round 53 1024 s p e)).
  { intros s p Hp. unfold binary_round.
    destruct (shl_align_val p e (fexp64 (Zpos (digits2_pos p) + e))) as (H2 & Hv & _).
    destruct (shl_align p e _) as [mz ez]. cbn [fst snd] in *. rewrite <-Hv.
    pose proof (digits_le (Zpos p) e k ltac:(lia) Hp) as Hd. cbn [Zdigits2] in Hd.
    apply aux_near; [by apply located_exact|by rewrite Hv|rewrite H2, fexp64_eq; lia|done]. }
  destruct m as [|p|p]; cbn [binary_normalize].
  - rewrite Rmult_0_l. apply zero_near. lia.
  - apply (Hp false). pose proof (IZR_lt 0 (Zpos p) ltac:(lia)). rewrite Rabs_pos_eq in Hlt; [done|]. nra.
  - change (Zneg p) with (- Zpos p) in *. rewrite opp_IZR in *.
    replace (- IZR (Zpos p) * bpow e)%R with (- (IZR (Zpos p) * bpow e))%R in * by lra.
    apply (Hp true). pose proof (IZR_lt 0 (Zpos p) ltac:(lia)). rewrite Rabs_Ropp, Rabs_pos_eq in Hlt; [done|]. nra.
Qed.

Lemma d_of_Z_near z k : Z.abs z < 2 ^ k → 0 ≤ k ≤ 900 → near (IZR z) k (d_of_Z z).
Proof.
  intros Hz Hk. assert (IZR z * bpow 0 = IZR z)%R as H0 by (change (bpow 0) with 1%R; lra).
  rewrite <-H0. apply normalize_near; [|lia]. rewrite H0, Rabs_Zabs, bpow_IZR by lia. by apply IZR_lt.
Qed.

(** Integers below [2^53] are exact. *)
Lemma d_of_Z_exact z k :
  Z.abs z < 2 ^ k → 0 ≤ k ≤ 53 →
  d_finite (d_of_Z z) ∧ dval (d_of_Z z) = IZR z ∧ expo (d_of_Z z) ≤ k - 53.
Proof.
  intros Hz Hk. pose proof (d_of_Z_near z k Hz ltac:(lia)) as Hn.
  pose proof (near_exact z k _ Hn ltac:(lia)) as Hv.
  split; [by eapply near_finite|]. split; [done|]. eapply near_expo; [done|].
  rewrite Hv, Rabs_Zabs, bpow_IZR by lia. by apply IZR_lt.
Qed.

Lemma d_mul_near x y k :
  d_finite x → d_finite y → (Rabs (dval x * dval y) < bpow k)%R →
  expo x + expo y ≤ k - 53 → -1021 ≤ k ≤ 900 → near (dval x * dval y) k (d_mul x y).
Proof.
  intros Hx Hy Hlt He Hk. assert (-1021 ≤ k) by lia.
  destruct x as [sx| | |sx mx ex], y as [sy| | |sy my ey]; try done; cbn [d_mul SFmul].
  - cbn [dval]. rewrite Rmult_0_l. by apply zero_near.
  - cbn [dval]. rewrite Rmult_0_l. by apply zero_near.
  - cbn [dval]. rewrite Rmult_0_r. by apply zero_near.
  - rewrite !finite_val in *. cbn [expo] in He.
    assert (sgn sx (IZR (Zpos mx) * bpow ex) * sgn sy (IZR (Zpos my) * bpow ey) =
      sgn (xorb sx sy) (IZR (Zpos (mx * my)) * bpow (ex + ey)))%R as Hv.
    { rewrite bpow_add, Pos2Z.inj_mul, mult_IZR. destruct sx, sy; cbn [sgn xorb]; lra. }
    rewrite Hv in *. apply aux_near; [by apply located_exact| |done|done].
    rewrite sgn_abs in Hlt; [done|]. pose proof (bpow_pos (ex + ey)).
    pose proof (IZR_lt 0 (Zpos (mx * my)) ltac:(lia)). nra.
Qed.

Lemma d_sub_near x y k :
  d_finite x → d_finite y → (Rabs (dval x - dval y) < bpow k)%R →
  expo x ≤ k - 53 → expo y ≤ k - 53 → -1021 ≤ k ≤ 900 → near (dval x - dval y) k (d_sub x y).
Proof.
  intros Hx Hy Hlt Hex Hey Hk. assert (-1021 ≤ k) by lia.
  destruct x as [sx| | |sx mx ex], y as [sy| | |sy my ey]; try done; cbn [d_sub SFsub].
  - cbn [dval]. rewrite Rminus_0_r. destruct sx, sy; by apply zero_near.
  - replace (dval (S754_zero sx) - dval (S754_finite sy my ey))%R with (dval (S754_finite (negb sy) my ey)).
    + by apply self_near.
    + rewrite !finite_val. cbn [dval]. destruct sy; cbn [sgn negb]; lra.
  - replace (dval (S754_finite sx mx ex) - dval (S754_zero sy))%R with (dval (S754_finite sx mx ex))
      by (cbn [dval]; lra). by apply self_near.
  - set (ez := Z.min ex ey).
    destruct (shl_align_val mx ex ez) as (Hx2 & Hxv & _). destruct (shl_align_val my ey ez) as (Hy2 & Hyv & _).
    rewrite Z.min_r in Hx2, Hy2 by lia. rewrite Hx2 in Hxv. rewrite Hy2 in Hyv.
    match goal with |- near ?v _ (binary_normalize _ _ ?m _ _) => assert (Hv : v = (IZR m * bpow ez)%R) end.
    { rewrite !finite_val, minus_IZR, <-Hxv, <-Hyv.
      destruct sx, sy; cbn [sgn cond_Zopp]; rewrite ?opp_IZR; lra. }
    rewrite Hv in *. by apply normalize_near.
Qed.

(** The remainder of the division of mantissas locates the quotient. *)
Lemma new_location_located q r d :
  0 ≤ q → 0 ≤ r < d → located (shr_record_of_loc q (new_location d r)) (IZR q + IZR r / IZR d).
Proof.
  intros Hq [Hr0 Hr]. assert (0 < IZR d)%R as Hd by (apply (IZR_lt 0); lia).
  assert (Hlt : ∀ a b, a < b → (IZR a / IZR d < IZR b / IZR d)%R).
  { intros a b Hab%IZR_lt. unfold Rdiv. apply Rmult_lt_compat_r; [by apply Rinv_0_lt_compat|done]. }
  assert (IZR d / IZR d = 1)%R as Hone by (field; lra).
  assert (H2 : ∀ a, (IZR (2 * a) / IZR d = 2 * (IZR a / IZR d))%R) by (intros a; rewrite mult_IZR; field; lra).
  pose proof (Hlt r d Hr) as H1. rewrite Hone in H1.
  assert (Hc : (2 * r < d → (IZR r / IZR d < 1 / 2)%R) ∧ (2 * r = d → (IZR r / IZR d = 1 / 2)%R) ∧
               (d < 2 * r → (1 / 2 < IZR r / IZR d)%R)).
  { split_and!.
    - intros H%Hlt. rewrite H2, Hone in H. lra.
    - intros H. assert (IZR (2 * r) / IZR d = 1)%R as E by (rewrite H; field; lra). rewrite H2 in E. lra.
    - intros H%Hlt. rewrite H2, Hone in H. lra. }
  destruct Hc as (HcL & HcE & HcG). unfold new_location, new_location_even, new_location_odd.
  destruct (decide (r = 0)) as [->|Hnz].
  { replace (IZR q + 0 / IZR d)%R with (IZR q) by (field; lra).
    destruct (Z.even d); apply (located_exact q Hq). }
  pose proof (Hlt 0 r ltac:(lia)) as H0. rewrite Rdiv_0_l in H0.
  destruct (Z.even d) eqn:Ev; (rewrite (proj2 (Z.eqb_neq r 0)) by done).
  - destruct (Z.compare_spec (2 * r) d) as [E|E|E]; cbn [shr_record_of_loc]; (split; [done|]);
      cbn [shr_m shr_r shr_s]; [rewrite HcE by done; lra|specialize (HcL E)|specialize (HcG E)]; lra.
  - assert (2 * r ≠ d) as Hne.
    { intros <-. by rewrite Z.even_mul in Ev. }
    destruct (Z.compare_spec (2 * r + 1) d) as [E|E|E]; cbn [shr_record_of_loc]; (split; [done|]);
      cbn [shr_m shr_r shr_s]; [specialize (HcL ltac:(lia))|specialize (HcL ltac:(lia))|specialize (HcG ltac:(lia))]; lra.
Qed.

(** The quotient and the remainder of the shifted mantissas, as a real number. *)
Lemma quotient_value mx ex my ey s e' q r :
  s = ex - ey - e' → 0 ≤ s → Zpos mx * 2 ^ s = Zpos my * q + r →
  ((IZR q + IZR r / IZR (Zpos my)) * bpow e' = (IZR (Zpos mx) * bpow ex) / (IZR (Zpos my) * bpow ey))%R.
Proof.
  intros Es Hs Heq. assert (0 < IZR (Zpos my))%R as Hmy by (by apply (IZR_lt 0)). pose proof (bpow_pos ey).
  assert (IZR (Zpos mx) * bpow s = IZR (Zpos my) * IZR q + IZR r)%R as Hz
    by (rewrite bpow_IZR, <-!mult_IZR, <-plus_IZR by done; by f_equal).
  replace (bpow ex) with (bpow s * bpow e' * bpow ey)%R by (rewrite <-!bpow_add; f_equal; lia).
  apply (Rmult_eq_reg_r (IZR (Zpos my))); [|lra].
  transitivity ((IZR (Zpos my) * IZR q + IZR r) * bpow e')%R; [field; lra|]. rewrite <-Hz. field. lra.
Qed.

(** A bound on a quotient bounds the difference of the magnitudes. *)
Lemma quotient_digits mx ex my ey k :
  ((IZR (Zpos mx) * bpow ex) / (IZR (Zpos my) * bpow ey) < bpow k)%R →
  Zpos (digits2_pos mx) + ex - (Zpos (digits2_pos my) + ey) ≤ k.
Proof.
  intros Hlt. set (d1 := Zpos (digits2_pos mx)). set (d2 := Zpos (digits2_pos my)).
  assert (0 < IZR (Zpos my))%R as Hmy by (by apply (IZR_lt 0)).
  enough (bpow (d1 - 1 + ex - (d2 + ey)) < bpow k)%R as H'%bpow_lt_inv by lia.
  eapply Rle_lt_trans; [|exact Hlt].
  destruct (digits2_pos_bound mx) as [Hlo _]. destruct (digits2_pos_bound my) as [_ Hhi].
  fold d1 in Hlo. fold d2 in Hhi. apply IZR_le in Hlo. apply IZR_lt in Hhi.
  rewrite <-bpow_IZR in Hlo, Hhi by lia. pose proof (bpow_pos d2).
  pose proof (bpow_pos ex). pose proof (bpow_pos ey).
  apply (Rmult_le_reg_r (IZR (Zpos my) * bpow ey)); [nra|].
  replace (IZR (Zpos mx) * bpow ex / (IZR (Zpos my) * bpow ey) * (IZR (Zpos my) * bpow ey))%R
    with (IZR (Zpos mx) * bpow ex)%R by (field; lra).
  transitivity (bpow (d1 - 1 + ex - (d2 + ey)) * (bpow d2 * bpow ey))%R.
  - apply Rmult_le_compat_l; [apply Rlt_le, bpow_pos|]. nra.
  - rewrite <-!bpow_add. replace (d1 - 1 + ex - (d2 + ey) + (d2 + ey)) with (d1 - 1 + ex) by lia.
    rewrite bpow_add. nra.
Qed.

Lemma d_div_near x y k :
  d_finite x → d_finite y → dval y ≠ 0%R → (Rabs (dval x / dval y) < bpow k)%R →
  -1021 ≤ k ≤ 900 → near (dval x / dval y) k (d_div x y).
Proof.
  intros Hx Hy Hnz Hlt Hk. assert (-1021 ≤ k) by lia.
  destruct x as [sx| | |sx mx ex], y as [sy| | |sy my ey]; try done; cbn [d_div SFdiv].
  { cbn [dval]. rewrite Rdiv_0_l. by apply zero_near. }
  rewrite !finite_val in *. unfold SFdiv_core_binary. cbn [Zdigits2]. rewrite fexp64_eq.
  set (d1 := Zpos (digits2_pos mx)). set (d2 := Zpos (digits2_pos my)).
  set (e' := Z.min (Z.max (d1 + ex - (d2 + ey) - 53) (-1074)) (ex - ey)).
  set (s := ex - ey - e'). assert (Hs : 0 ≤ s) by lia.
  assert (match s with Zpos _ => Z.shiftl (Zpos mx) s | Z0 => Zpos mx | Zneg _ => 0 end = Zpos mx * 2 ^ s) as ->.
  { destruct s as [|p|p]; [by rewrite Z.mul_1_r|by rewrite Z.shiftl_mul_pow2|lia]. }
  pose proof (Z.div_eucl_eq (Zpos mx * 2 ^ s) (Zpos my) ltac:(lia)) as Heq.
  pose proof (Z.mod_pos_bound (Zpos mx * 2 ^ s) (Zpos my) ltac:(lia)) as Hmod. unfold Z.modulo in Hmod.
  pose proof (Z.div_pos (Zpos mx * 2 ^ s) (Zpos my) ltac:(pose proof (Z.pow_pos_nonneg 2 s); nia) ltac:(lia)) as Hq.
  unfold Z.div in Hq. destruct (Z.div_eucl _ _) as [q r].
  assert (0 < IZR (Zpos my))%R as Hmy by (by apply (IZR_lt 0)).
  assert (0 < IZR (Zpos mx))%R as Hmx by (by apply (IZR_lt 0)).
  pose proof (bpow_pos ex) as Hpex. pose proof (bpow_pos ey) as Hpey.
  pose proof (quotient_value mx ex my ey s e' q r eq_refl Hs Heq) as Hv.
  assert (Hsg : (sgn sx (IZR (Zpos mx) * bpow ex) / sgn sy (IZR (Zpos my) * bpow ey) =
      sgn (xorb sx sy) ((IZR q + IZR r / IZR (Zpos my)) * bpow e'))%R).
  { rewrite Hv. destruct sx, sy; cbn [sgn xorb]; field; lra. }
  rewrite Hsg in *. assert (Hpos : (0 <= (IZR q + IZR r / IZR (Zpos my)) * bpow e')%R).
  { rewrite Hv. apply Rlt_le, Rdiv_lt_0_compat; nra. }
  rewrite sgn_abs in Hlt by done. apply aux_near; [by apply new_location_located|done| |done].
  rewrite Hv in Hlt. pose proof (quotient_digits mx ex my ey k Hlt). lia.
Qed.

(** ** Back to integers *)

Lemma d_trunc_spec m e :
  0 ≤ d_trunc m e ∧ (IZR (d_trunc m e) <= IZR (Zpos m) * bpow e < IZR (d_trunc m e) + 1)%R.
Proof.
  unfold d_trunc. case_decide as He.
  - split; [pose proof (Z.pow_pos_nonneg 2 e); nia|]. rewrite mult_IZR, <-bpow_IZR by done. lra.
  - pose proof (Z.pow_pos_nonneg 2 (- e) ltac:(lia) ltac:(lia)) as Hp.
    pose proof (Z.div_mod (Zpos m) (2 ^ (- e)) ltac:(lia)) as Hdm.
    pose proof (Z.mod_pos_bound (Zpos m) (2 ^ (- e)) ltac:(lia)) as Hmb.
    split; [apply Z.div_pos; lia|]. set (t := Zpos m / 2 ^ (- e)) in *.
    pose proof (bpow_pos e). pose proof (bpow_opp e) as Ho.
    assert (H1 : 2 ^ (- e) * t ≤ Zpos m < 2 ^ (- e) * (t + 1)) by lia. destruct H1 as [H1%IZR_le H2%IZR_lt].
    rewrite mult_IZR, <-bpow_IZR in H1, H2 by lia. rewrite plus_IZR in H2.
    split.
    + apply (Rmult_le_compat_r (bpow e)) in H1; [|lra].
      replace (bpow (- e) * IZR t * bpow e)%R with (bpow e * bpow (- e) * IZR t)%R in H1 by lra.
      rewrite Ho in H1. lra.
    + apply (Rmult_lt_compat_r (bpow e)) in H2; [|lra].
      replace (bpow (- e) * (IZR t + 1) * bpow e)%R with (bpow e * bpow (- e) * (IZR t + 1))%R in H2 by lra.
      rewrite Ho in H2. lra.
Qed.

Lemma d_to_s64_spec r :
  d_finite r → (Rabs (dval r) < bpow 63)%R →
  ∃ z, d_to_s64 r = Ok z ∧ (Rabs (IZR z - dval r) < 1)%R ∧ (Rabs (IZR z) <= Rabs (dval r))%R.
Proof.
  destruct r as [s| | |s m e]; intros Hf Hlt; try done; cbn [d_to_s64].
  { exists 0. cbn [dval]. rewrite Rminus_0_r, Rabs_R0. split; [done|lra]. }
  destruct (d_trunc_spec m e) as [Ht Hv]. set (t := d_trunc m e) in *. apply IZR_le in Ht.
  rewrite finite_val in *.
  assert (Hz : IZR (if s then - t else t) = sgn s (IZR t)) by (destruct s; cbn [sgn]; by rewrite ?opp_IZR).
  rewrite sgn_abs in Hlt by lra.
  assert (IZR t < IZR (2 ^ 63))%R as Hb%lt_IZR by (rewrite <-bpow_IZR by lia; lra).
  apply le_IZR in Ht. rewrite decide_True by (unfold in_s; destruct s; lia).
  eexists. split; [done|]. rewrite Hz. split.
  - replace (sgn s (IZR t) - sgn s (IZR (Zpos m) * bpow e))%R
      with (sgn s (IZR t - IZR (Zpos m) * bpow e)) by (destruct s; cbn [sgn]; lra).
    destruct s; cbn [sgn]; apply Rabs_def1; lra.
  - apply IZR_le in Ht. rewrite !sgn_abs by lra. lra.
Qed.

(** [ceil] of an integer. *)
Lemma d_ceil_of_Z q : Z.abs q < 2 ^ 53 → d_ceil (d_of_Z q) = d_of_Z q.
Proof.
  intros Hq. destruct (d_of_Z_exact q 53 Hq ltac:(lia)) as (_ & Hv & _).
  destruct (d_of_Z q) as [s| | |s m e] eqn:Ed; try done. cbn [d_ceil].
  destruct (decide (0 ≤ e)) as [|He]; [done|]. rewrite finite_val in Hv.
  destruct (d_trunc_spec m e) as [Ht Hb]. set (t := d_trunc m e) in *.
  pose proof (bpow_pos e) as Hpe. pose proof (IZR_lt 0 (Zpos m) ltac:(lia)) as Hm.
  assert (IZR (Zpos m) * bpow e = IZR (Z.abs q))%R as Ha.
  { rewrite <-Rabs_Zabs, <-Hv, sgn_abs by nra. done. }
  rewrite Ha in Hb. assert (t = Z.abs q) as Etq.
  { destruct Hb as [H1%le_IZR H2]. rewrite <-plus_IZR in H2. apply lt_IZR in H2. lia. }
  assert (t * 2 ^ (- e) = Zpos m) as Hex.
  { apply eq_IZR. rewrite mult_IZR, <-bpow_IZR, Etq, <-Ha by lia.
    rewrite Rmult_assoc, bpow_opp. lra. }
  assert (t ≠ 0) as Hnz by (intros E; rewrite E in Hex; lia).
  destruct s; cbn [sgn] in Hv.
  - rewrite decide_False by done. assert (q = - t) as <-; [|done].
    enough (q < 0) by lia. apply lt_IZR. nra.
  - rewrite decide_True by done. assert (q = t) as <-; [|done].
    enough (0 ≤ q) by lia. apply le_IZR. nra.
Qed.
