(* ===== verification/CpuUsage.v ===== *)
(** * CPU load: cpu_usage.c

    [cpus_refresh] reads /proc/stat line by line with [fgets] and [sscanf] and
    keeps the total and the idle time of one processor; the load loop compares
    two readings and computes in double how long to be busy.  The text of the file
    and the readings of the clock are arguments.  The threads and the interrupt
    handler are in CpuMain.

    Theorems: the reading is that of the right line, whatever lines come before;
    two readings within one tick divide by zero and a rate of 100 is undefined;
    the busy loop ends when the clock has advanced. *)

From S2P Require Import Prelude FileUtils Double.
From Stdlib Require Import Floats.SpecFloat.

(** The member [base_time] points to a local variable of [main] that nothing changes
    once the workers run; its value is an argument of the round, and what happens
    when [main] has returned is in CpuMain. *)
Record cpus_info_t := Cpus {
  id : Z;
  run : Z;
  total_time : Z;
  idle_time : Z;
  base_time : option Z;  (** the address of the variable *)
  fp : option Z          (** the stream, or null *)
}.

(** ** Scanning *)

Definition blank (c : Z) : Prop := c = 32 ∨ 9 ≤ c ≤ 13.
#[global] Instance blank_dec c : Decision (blank c).
Proof. unfold blank. apply _. Defined.

Definition digit (c : Z) : Prop := 48 ≤ c ≤ 57.
#[global] Instance digit_dec c : Decision (digit c).
Proof. unfold digit. apply _. Defined.

(** [%s]: the characters up to the next blank, and the rest. *)
Fixpoint scan_word (l : list Z) : list Z * list Z :=
  match l with
  | [] => ([], [])
  | c :: l' => if decide (blank c) then ([], l) else let r := scan_word l' in (c :: r.1, r.2)
  end.

Fixpoint scan_digits (l : list Z) : list Z * list Z :=
  match l with
  | [] => ([], [])
  | c :: l' => if decide (digit c) then let r := scan_digits l' in (c :: r.1, r.2) else ([], l)
  end.

(** An optional sign, and what follows it. *)
Definition split_sign (l : list Z) : bool * list Z :=
  match l with 45 :: l => (true, l) | 43 :: l => (false, l) | l => (false, l) end.

(** [%ld]: a value and the rest, or [None] when there is no number. *)
Definition scan_long (l : list Z) : res (option (Z * list Z)) :=
  let (neg, l) := split_sign (skip_blanks l) in
  let (ds, rest) := scan_digits l in
  if decide (ds = []) then mret None
  else v ← signed_op 64 (if (neg : bool) then - digits 0 ds else digits 0 ds); mret (Some (v, rest)).

(** [n] numbers in a row; a variable that is not reached keeps its value. *)
Fixpoint scan_longs (vars : list Z) (l : list Z) : res (list Z) :=
  match vars with
  | [] => mret []
  | v :: vars =>
      r ← scan_long l;
      match r with
      | None => mret (v :: vars)
      | Some (x, l) => t ← scan_longs vars l; mret (x :: t)
      end
  end.

(** [strstr(cpu, "cpu")] *)
Definition cpu_name : list Z := [99; 112; 117].
Fixpoint contains_cpu (l : list Z) : bool :=
  bool_decide (take 3 l = cpu_name) || match l with [] => false | _ :: l => contains_cpu l end.

(** The two stores of a line that matches. *)
Definition take_reading (vars : list Z) (c : cpus_info_t) : res cpus_info_t :=
  match vars with
  | [user; nice; sys; idle; iowait; irq; softirq] =>
      s1 ← signed_op 64 (user + nice);
      s2 ← signed_op 64 (s1 + sys);
      s3 ← signed_op 64 (s2 + idle);
      s4 ← signed_op 64 (s3 + iowait);
      s5 ← signed_op 64 (s4 + irq);
      s6 ← signed_op 64 (s5 + softirq);
      mret (Cpus (id c) (run c) s6 idle (base_time c) (fp c))
  | _ => Ub Uninit
  end.

(** The loop: the word read last, the seven variables, the state. *)
Fixpoint refresh_loop (fuel : nat) (text : list Z) (cpu : list Z) (vars : list Z) (c : cpus_info_t) :
    res cpus_info_t :=
  match fuel with
  | O => NoFuel
  | S fuel =>
      let (line, text) := fgets 128 text in
      if decide (line = []) then mret c
      else
        let (w, l) := scan_word (skip_blanks line) in
        (* nothing is stored from an empty line *)
        r ← (if decide (w = []) then mret (cpu, vars)
             else if decide (32 ≤ Z.of_nat (length w)) then Ub OutOfBounds
             else t ← scan_longs vars l; mret (w, t));
        let (cpu, vars) := (r : list Z * list Z) in
        if negb (contains_cpu cpu) then mret c
        else if decide (length cpu = 3%nat) then
          if decide (-1 ≠ id c) then refresh_loop fuel text cpu vars c else take_reading vars c
        else
          i ← atoi (drop 3 cpu);
          if decide (i = id c) then take_reading vars c else refresh_loop fuel text cpu vars c
  end.

(** The stream is rewound, so the whole text is read. *)
Definition cpus_refresh (text : list Z) (c : cpus_info_t) : res cpus_info_t :=
  refresh_loop (S (length text)) text [] [0; 0; 0; 0; 0; 0; 0] c.

(** The ticks to be busy for, from the differences of two readings:
    [idle * 100.0 / (100 - rate) - total], truncated to [clock_t]. *)
Definition busy_ticks (idle total : Z) (rate : double) : res Z :=
  d_to_s64 (d_sub (d_div (d_mul (d_of_Z idle) (d_of_Z 100)) (d_sub (d_of_Z 100) rate)) (d_of_Z total)).

(** [busy_time *= ceil(clock_per_us) / 1000] *)
Definition busy_ms (busy clock_per_us : Z) : res Z :=
  d_to_s64 (d_mul (d_of_Z busy) (d_div (d_ceil (d_of_Z clock_per_us)) (d_of_Z 1000))).

(** One round of the load loop: two readings with a pause of [base_time]
    microseconds between them, and the milliseconds to be busy for. *)
Definition cpu_usage_round (stat1 stat2 : list Z) (base_time : Z) (rate : double) (c : cpus_info_t) :
    res (cpus_info_t * Z) :=
  c ← cpus_refresh stat1 c;
  let old := c in
  c ← cpus_refresh stat2 c;
  idle ← signed_op 64 (idle_time c - idle_time old);
  total ← signed_op 64 (total_time c - total_time old);
  busy ← busy_ticks idle total rate;
  q ← div_op base_time total;
  busy ← busy_ms busy (s32 q);
  mret (c, busy).

(** The busy loop: [ticks k] is the [k]th reading of [get_tick_count]; the number
    of readings it takes. *)
Fixpoint spin (fuel : nat) (ticks : nat → Z) (k : nat) (start busy_time : Z) : res nat :=
  match fuel with
  | O => NoFuel
  | S fuel =>
      d ← signed_op 64 (ticks k - start);
      if decide (d ≤ busy_time) then spin fuel ticks (S k) start busy_time else mret (S k)
  end.

(** [CPU_SET] ignores a number outside the 1024 bits of the mask. *)
Definition set_cpu (id : Z) : gset Z := if decide (u64 id / 8 < 128) then {[ id ]} else ∅.

(** What the world answers during one round: the two texts of /proc/stat and the
    readings of the clock, the first of which is [start]. *)
Record round_env := RoundEnv { re_stat1 : list Z; re_stat2 : list Z; re_ticks : nat → Z }.

(** [while (cpu->run)], one element of [rs] for each time the test succeeds; also
    yields how often each round read the clock. *)
Fixpoint load_loop (fuel : nat) (base_time : Z) (rate : double) (rs : list round_env) (c : cpus_info_t) :
    res (cpus_info_t * list nat) :=
  match rs with
  | [] => mret (c, [])
  | r :: rs =>
      '(c, busy_time) ← cpu_usage_round (re_stat1 r) (re_stat2 r) base_time rate c;
      let start := re_ticks r 0%nat in
      n ← spin fuel (re_ticks r) 1 start busy_time;
      '(c, ns) ← load_loop fuel base_time rate rs c;
      mret (c, n :: ns)
  end.

(** The processors the thread may run on, and the run. *)
Definition cpu_usage (fuel : nat) (base_time : Z) (rate : double) (rs : list round_env) (c : cpus_info_t) :
    res (gset Z * cpus_info_t * list nat) :=
  let mask := set_cpu (id c) in
  '(c, ns) ← load_loop fuel base_time rate rs c;
  mret (mask, c, ns).

(** The times of [forced_occupancy_half] in milliseconds. *)
Definition forced_times (INTERVAL cpuinfo : Z) : res (Z * Z) :=
  p ← signed_op 32 (INTERVAL * cpuinfo);
  busy ← div_op p 100;
  idle ← signed_op 32 (INTERVAL - busy);
  mret (busy, idle).

(** The loop of [forced_occupancy_half], one clock for each period: how often it
    reads the clock, and the argument of [usleep]. *)
Fixpoint forced_loop (fuel : nat) (busy_time idle_time : Z) (clocks : list (nat → Z)) :
    res (list (nat * Z)) :=
  match clocks with
  | [] => mret []
  | ticks :: clocks =>
      n ← spin fuel ticks 1 (ticks 0%nat) busy_time;
      us ← signed_op 32 (idle_time * 1000);
      l ← forced_loop fuel busy_time idle_time clocks;
      mret ((n, us) :: l)
  end.

Definition forced_occupancy_half (fuel : nat) (INTERVAL cpuinfo id : Z) (clocks : list (nat → Z)) :
    res (gset Z * list (nat * Z)) :=
  '(busy_time, idle_time) ← forced_times INTERVAL cpuinfo;
  let mask := set_cpu id in
  l ← forced_loop fuel busy_time idle_time clocks;
  mret (mask, l).

(** ** The format of /proc/stat *)

(** A line of a processor: what follows [cpu] in its name (nothing for the line
    of all processors), and the blanks and the digits of each number. *)
Record stat_line := StatLine {
  sl_name : list Z;
  sl_fields : list (list Z * list Z)
}.

Definition fields_text (fs : list (list Z * list Z)) : list Z := concat ((λ f, f.1 ++ f.2) <$> fs).
Definition line_body (l : stat_line) : list Z := cpu_name ++ sl_name l ++ fields_text (sl_fields l).
Definition line_text (l : stat_line) : list Z := line_body l ++ [10].

Definition sl_id (l : stat_line) : Z := if decide (sl_name l = []) then -1 else digits 0 (sl_name l).
(** The numbers the scan stores: user, nice, sys, idle, iowait, irq, softirq. *)
Definition sl_values (l : stat_line) : list Z := (λ f, digits 0 f.2) <$> take 7 (sl_fields l).
Definition sl_total (l : stat_line) : Z := foldr Z.add 0 (sl_values l).
Definition sl_idle (l : stat_line) : Z := default 0 (sl_values l !! 3%nat).

Definition field_ok (f : list Z * list Z) : Prop :=
  f.1 ≠ [] ∧ Forall (λ c, blank c ∧ c ≠ 10) f.1 ∧ f.2 ≠ [] ∧ Forall digit f.2.

Definition line_ok (l : stat_line) : Prop :=
  Forall digit (sl_name l) ∧ (length (sl_name l) < 29)%nat ∧ digits 0 (sl_name l) < 2 ^ 31 ∧
  Forall field_ok (sl_fields l) ∧ (7 ≤ length (sl_fields l))%nat ∧
  (length (line_text l) < 128)%nat ∧ sl_total l < 2 ^ 63.

#[global] Instance field_ok_dec f : Decision (field_ok f).
Proof. unfold field_ok. apply _. Defined.
#[global] Instance line_ok_dec l : Decision (line_ok l).
Proof. unfold line_ok. apply _. Defined.

(** ** The scan of one line *)

Lemma fgets_line n b t :
  Forall (λ c, c ≠ 10) b → (length b + 1 < n)%nat → fgets n (b ++ 10 :: t) = (b ++ [10], t).
Proof.
  revert n. induction b as [|c b IH]; intros n Hb Hn; cbn [length] in Hn.
  - destruct n as [|[|n]]; [lia|lia|]. done.
  - apply Forall_cons in Hb as [Hc Hb]. destruct n as [|[|n]]; [lia|lia|].
    cbn [app fgets]. rewrite decide_False by done. by rewrite IH by (done || lia).
Qed.

Lemma digit_not_blank c : digit c → ¬ blank c.
Proof. unfold digit, blank. lia. Qed.

Lemma scan_word_app w l :
  Forall (λ c, ¬ blank c) w → (∀ c, head l = Some c → blank c) → scan_word (w ++ l) = (w, l).
Proof.
  intros Hw Hl. induction Hw as [|c w Hc Hw IH]; cbn [app scan_word].
  - destruct l as [|c l]; [done|]. cbn [scan_word]. by rewrite decide_True by (by apply Hl).
  - rewrite decide_False by done. by rewrite IH.
Qed.

Lemma scan_digits_app ds l :
  Forall digit ds → (∀ c, head l = Some c → ¬ digit c) → scan_digits (ds ++ l) = (ds, l).
Proof.
  intros Hd Hl. induction Hd as [|c ds Hc Hd IH]; cbn [app scan_digits].
  - destruct l as [|c l]; [done|]. cbn [scan_digits]. by rewrite decide_False by (by apply Hl).
  - rewrite decide_True by done. by rewrite IH.
Qed.

Lemma skip_blanks_app bs l :
  Forall blank bs → (∀ c, head l = Some c → ¬ blank c) → skip_blanks (bs ++ l) = l.
Proof.
  intros Hb Hl. induction Hb as [|c bs Hc Hb IH]; cbn [app skip_blanks].
  - destruct l as [|c l]; [done|]. cbn [skip_blanks]. by rewrite decide_False by (by apply Hl).
  - by rewrite decide_True by done.
Qed.

Lemma digits_nonneg ds acc : 0 ≤ acc → 0 ≤ digits acc ds.
Proof.
  revert acc. induction ds as [|c ds IH]; intros acc Ha; cbn [digits]; [done|].
  case_decide; [apply IH; lia|done].
Qed.

Lemma digit_cases c :
  digit c →
  c = 48 ∨ c = 49 ∨ c = 50 ∨ c = 51 ∨ c = 52 ∨ c = 53 ∨ c = 54 ∨ c = 55 ∨ c = 56 ∨ c = 57.
Proof. unfold digit. lia. Qed.

Lemma split_sign_digit c l : digit c → split_sign (c :: l) = (false, c :: l).
Proof. intros H%digit_cases. by repeat (destruct H as [->|H]; [done|]); subst. Qed.

Lemma atoi_digits ds :
  Forall digit ds → digits 0 ds < 2 ^ 31 → atoi ds = Ok (digits 0 ds).
Proof.
  intros Hd Hv. pose proof (digits_nonneg ds 0 ltac:(lia)).
  assert (signed_op 32 (digits 0 ds) = Ok (digits 0 ds)) as Hs.
  { apply signed_op_ok. unfold in_s. lia. }
  destruct ds as [|c ds]; [done|]. apply Forall_cons in Hd as [Hc%digit_cases _]. unfold atoi.
  by repeat (destruct Hc as [->|Hc]; [exact Hs|]); subst.
Qed.

Lemma scan_long_field f l :
  field_ok f → digits 0 f.2 < 2 ^ 63 → (∀ c, head l = Some c → ¬ digit c) →
  scan_long ((f.1 ++ f.2) ++ l) = Ok (Some (digits 0 f.2, l)).
Proof.
  destruct f as [bs ds]. unfold field_ok. cbn [fst snd]. intros (_ & Hb & Hn & Hd) Hv Hl.
  destruct ds as [|d ds]; [done|]. pose proof Hd as [Hd0 _]%Forall_cons.
  unfold scan_long. rewrite <- app_assoc, skip_blanks_app.
  2:{ eapply Forall_impl; [exact Hb|]. by intros ? []. }
  2:{ intros c [= <-]. by apply digit_not_blank. }
  cbn [app]. rewrite split_sign_digit by done.
  change (d :: ds ++ l) with ((d :: ds) ++ l). rewrite scan_digits_app by done.
  rewrite decide_False by done. rewrite signed_op_ok; [done|].
  pose proof (digits_nonneg (d :: ds) 0 ltac:(lia)). unfold in_s. lia.
Qed.

(** What follows a number begins with a blank: the next one's, or the newline. *)
Lemma fields_head fs c : Forall field_ok fs → head (fields_text fs ++ [10]) = Some c → blank c.
Proof.
  unfold blank. destruct fs as [|f fs]; cbn; [intros _ [= <-]; lia|].
  intros ((Hn & Hb & _) & _)%Forall_cons. destruct f as [[|b bs] ds]; cbn in *; [done|].
  apply Forall_cons in Hb as [[Hb _] _]. intros [= <-]. exact Hb.
Qed.

Lemma scan_longs_fields vars fs :
  Forall field_ok fs → (length vars ≤ length fs)%nat →
  Forall (λ f, digits 0 f.2 < 2 ^ 63) (take (length vars) fs) →
  scan_longs vars (fields_text fs ++ [10]) = Ok ((λ f, digits 0 f.2) <$> take (length vars) fs).
Proof.
  revert fs. induction vars as [|v vars IH]; intros fs Hok Hlen Hv; [done|].
  destruct fs as [|f fs]; cbn [length] in Hlen; [lia|].
  apply Forall_cons in Hok as [Hf Hok]. cbn [length take] in Hv. apply Forall_cons in Hv as [Hv0 Hv].
  cbn [scan_longs fields_text fmap list_fmap concat]. fold (fields_text fs). rewrite <- app_assoc.
  rewrite scan_long_field; [|done|done|].
  2:{ intros c Hc Hd. by eapply digit_not_blank, fields_head. }
  cbn [mbind res_bind]. rewrite IH by (done || lia). done.
Qed.

Lemma foldr_add_bound vs v :
  Forall (λ x, 0 ≤ x) vs → v ∈ vs → v ≤ foldr Z.add 0 vs.
Proof.
  induction 1 as [|x vs Hx Hvs IH]; intros Hin; [by apply not_elem_of_nil in Hin|]. cbn [foldr].
  assert (0 ≤ foldr Z.add 0 vs) by (clear -Hvs; induction Hvs; cbn; lia).
  apply elem_of_cons in Hin as [->|Hin]; [lia|]. specialize (IH Hin). lia.
Qed.

Lemma sl_values_nonneg l : Forall (λ x, 0 ≤ x) (sl_values l).
Proof. unfold sl_values. apply Forall_fmap, Forall_true. intros f. apply digits_nonneg. lia. Qed.

Lemma sl_values_bound l : line_ok l → Forall (λ f, digits 0 f.2 < 2 ^ 63) (take 7 (sl_fields l)).
Proof.
  intros (_ & _ & _ & _ & _ & _ & Ht). apply Forall_forall. intros f Hf.
  eapply Z.le_lt_trans; [|exact Ht]. apply foldr_add_bound; [apply sl_values_nonneg|].
  unfold sl_values. apply list_elem_of_fmap. eauto.
Qed.

(** The seven numbers are added without overflow. *)
Lemma take_reading_ok vars c :
  length vars = 7%nat → Forall (λ x, 0 ≤ x) vars → foldr Z.add 0 vars < 2 ^ 63 →
  take_reading vars c =
  Ok (Cpus (id c) (run c) (foldr Z.add 0 vars) (default 0 (vars !! 3%nat)) (base_time c) (fp c)).
Proof.
  intros Hl Hnn Hlt. destruct vars as [|v0 [|v1 [|v2 [|v3 [|v4 [|v5 [|v6 [|]]]]]]]]; try done.
  rewrite !Forall_cons in Hnn. destruct Hnn as (?&?&?&?&?&?&?&_). cbn [foldr] in *.
  unfold take_reading.
  do 6 (rewrite signed_op_ok by (unfold in_s; lia); cbn [mbind res_bind]).
  cbn. f_equal. f_equal. lia.
Qed.

Lemma line_body_no_newline l : line_ok l → Forall (λ c, c ≠ 10) (line_body l).
Proof.
  intros (Hn & _ & _ & Hf & _). unfold line_body. rewrite !Forall_app. split; [|split].
  - unfold cpu_name. by repeat (apply Forall_cons; split; [lia|]).
  - eapply Forall_impl; [exact Hn|]. unfold digit. intros ? ? ->. lia.
  - unfold fields_text. apply Forall_concat, Forall_fmap. eapply Forall_impl; [exact Hf|].
    intros f (_ & Hb & _ & Hd). apply Forall_app. split; (eapply Forall_impl; [done|]).
    + by intros ? [].
    + unfold digit. intros ? ? ->. lia.
Qed.

(** One line: the record is filled in when the line is the processor's, and the
    loop goes on when it is not. *)
Lemma refresh_line fuel l t cpu vars c :
  line_ok l → length vars = 7%nat →
  refresh_loop (S fuel) (line_text l ++ t) cpu vars c =
  if decide (sl_id l = id c) then Ok (Cpus (id c) (run c) (sl_total l) (sl_idle l) (base_time c) (fp c))
  else refresh_loop fuel t (cpu_name ++ sl_name l) (sl_values l) c.
Proof.
  intros Hok Hvars. pose proof (sl_values_bound l Hok) as Hbnd.
  pose proof (line_body_no_newline l Hok) as Hnl. pose proof (sl_values_nonneg l) as Hnn.
  destruct Hok as (Hname & Hshort & Hid & Hf & H7 & Hlen & Htot).
  cbn [refresh_loop]. unfold line_text in *. rewrite length_app in Hlen. cbn [length] in Hlen.
  rewrite <- app_assoc. cbn [app]. rewrite fgets_line by (done || lia).
  rewrite decide_False by (by destruct (line_body l)).
  assert (skip_blanks (line_body l ++ [10]) = (cpu_name ++ sl_name l) ++ fields_text (sl_fields l) ++ [10])
    as -> by (unfold line_body; by rewrite <- !app_assoc).
  rewrite scan_word_app.
  2:{ apply Forall_app. split; [unfold cpu_name, blank; by repeat (apply Forall_cons; split; [lia|])|].
      eapply Forall_impl; [exact Hname|]. apply digit_not_blank. }
  2:{ intros ch. by apply fields_head. }
  rewrite decide_False by done. rewrite decide_False by (rewrite length_app; cbn [length cpu_name]; lia).
  rewrite scan_longs_fields by (rewrite ?Hvars; done). rewrite Hvars. fold (sl_values l).
  cbn [mbind res_bind mret res_ret].
  rewrite take_reading_ok; [|unfold sl_values; rewrite length_fmap, length_take; lia|done..].
  fold (sl_total l) (sl_idle l).
  change (contains_cpu (cpu_name ++ sl_name l)) with true. cbn [negb].
  unfold sl_id. destruct (sl_name l) as [|ch nm] eqn:En.
  - rewrite (decide_True (P := length _ = _)) by done. rewrite (decide_True (P := [] = [])) by done.
    by destruct (decide (-1 = id c)); [rewrite decide_False by lia|rewrite decide_True by done].
  - rewrite (decide_False (P := length _ = _)) by done. rewrite (decide_False (P := _ :: _ = [])) by done.
    change (drop 3 (cpu_name ++ ch :: nm)) with (ch :: nm). rewrite atoi_digits by done. done.
Qed.

Lemma refresh_lines pre t fuel cpu vars c :
  Forall line_ok pre → Forall (λ l, sl_id l ≠ id c) pre → length vars = 7%nat →
  ∃ cpu' vars', length vars' = 7%nat ∧
    refresh_loop (length pre + fuel) (concat (line_text <$> pre) ++ t) cpu vars c =
    refresh_loop fuel t cpu' vars' c.
Proof.
  intros Hok. revert cpu vars. induction Hok as [|l pre Hl Hok IH]; intros cpu vars Hid Hv; [by exists cpu, vars|].
  apply Forall_cons in Hid as [Hne Hid]. cbn [length Nat.add fmap list_fmap concat].
  rewrite <- app_assoc, refresh_line by done. rewrite decide_False by done. apply IH; [done|].
  destruct Hl as (_ & _ & _ & _ & H7 & _). unfold sl_values. rewrite length_fmap, length_take. lia.
Qed.

Lemma lines_length pre : (length pre ≤ length (concat (line_text <$> pre)))%nat.
Proof.
  induction pre as [|l pre IH]; [done|]. rewrite fmap_cons. cbn [concat length]. rewrite length_app.
  unfold line_text at 1. rewrite length_app. cbn [length]. lia.
Qed.

(** The reading of a processor is that of its own line, whatever lines of other
    processors come before it and whatever follows. *)
Lemma cpus_refresh_reads pre l t c :
  Forall line_ok pre → Forall (λ l, sl_id l ≠ id c) pre → line_ok l → sl_id l = id c →
  cpus_refresh (concat (line_text <$> pre) ++ line_text l ++ t) c =
  Ok (Cpus (id c) (run c) (sl_total l) (sl_idle l) (base_time c) (fp c)).
Proof.
  intros Hok Hne Hl Hid. unfold cpus_refresh.
  pose proof (lines_length pre) as Hlen. set (text := concat (line_text <$> pre)) in *.
  replace (S (length (text ++ line_text l ++ t)))
    with (length pre + S (length (text ++ line_text l ++ t) - length pre))%nat
    by (rewrite length_app; lia).
  edestruct (refresh_lines pre) as (cpu' & vars' & Hv & ->); [done..|].
  rewrite refresh_line by done. by rewrite decide_True.
Qed.

(** A processor without a line keeps its old reading when the file ends. *)
Lemma cpus_refresh_absent pre c :
  Forall line_ok pre → Forall (λ l, sl_id l ≠ id c) pre →
  cpus_refresh (concat (line_text <$> pre)) c = Ok c.
Proof.
  intros Hok Hne. unfold cpus_refresh. pose proof (lines_length pre) as Hlen.
  rewrite <- (app_nil_r (concat _)). set (text := concat (line_text <$> pre) ++ []) in *.
  assert (length text = length (concat (line_text <$> pre))) as He by (unfold text; by rewrite app_nil_r).
  replace (S (length text)) with (length pre + S (length text - length pre))%nat by lia.
  unfold text at 2. edestruct (refresh_lines pre) as (cpu' & vars' & Hv & ->); [done..|]. done.
Qed.

Lemma line_bounds l : line_ok l → 0 ≤ sl_total l < 2 ^ 63 ∧ 0 ≤ sl_idle l < 2 ^ 63.
Proof.
  intros Hl. pose proof (sl_values_nonneg l) as Hn. destruct Hl as (_ & _ & _ & _ & H7 & _ & Ht).
  assert (0 ≤ sl_total l) by (unfold sl_total; clear -Hn; induction Hn; cbn; lia). split; [done|].
  destruct (lookup_lt_is_Some_2 (sl_values l) 3) as [v Hv].
  { unfold sl_values. rewrite length_fmap, length_take. lia. }
  assert (sl_idle l = v) as -> by (unfold sl_idle; by rewrite Hv).
  pose proof (foldr_add_bound _ v Hn (list_elem_of_lookup_2 _ _ _ Hv)).
  rewrite Forall_forall in Hn. specialize (Hn v (list_elem_of_lookup_2 _ _ _ Hv)).
  unfold sl_total in Ht. lia.
Qed.

(** A rate of 100 divides by zero in floating point, and the result cannot be
    converted back. *)
Lemma busy_ticks_full idle total : busy_ticks idle total (d_of_Z 100) = Ub SignedOverflow.
Proof.
  unfold busy_ticks. change (d_sub (d_of_Z 100) (d_of_Z 100)) with (S754_zero false).
  apply d_to_s64_not_finite, d_sub_not_finite, d_div_zero.
Qed.

(** The busy loop ends with the first reading past the time. *)
Lemma spin_ends fuel ticks k n start busy :
  (∀ j, in_s 64 (ticks j - start)) → (∀ j, (k ≤ j < k + n)%nat → ticks j - start ≤ busy) →
  busy < ticks (k + n)%nat - start → (n < fuel)%nat →
  spin fuel ticks k start busy = Ok (S (k + n)).
Proof.
  intros Hr. revert fuel k. induction n as [|n IH]; intros fuel k Hle Hgt Hf; (destruct fuel as [|fuel]; [lia|]);
    cbn [spin]; (rewrite signed_op_ok, bind_Ok by apply Hr).
  - rewrite Nat.add_0_r in *. by rewrite decide_False by lia.
  - rewrite decide_True by (apply Hle; lia). replace (k + S n)%nat with (S k + n)%nat in * by lia.
    apply IH; [intros; apply Hle; lia|done|lia].
Qed.

(** A clock that is past [busy] milliseconds at reading [S n] and not before. *)
Definition passes (ticks : nat → Z) (busy : Z) (n : nat) : Prop :=
  (∀ j, in_s 64 (ticks j - ticks 0%nat)) ∧
  (∀ j, (1 ≤ j < 1 + n)%nat → ticks j - ticks 0%nat ≤ busy) ∧ busy < ticks (1 + n)%nat - ticks 0%nat.

Lemma spin_passes fuel ticks busy n :
  passes ticks busy n → (n < fuel)%nat → spin fuel ticks 1 (ticks 0%nat) busy = Ok (2 + n)%nat.
Proof. intros (Hr & Hle & Hgt) Hf. by apply spin_ends. Qed.

(** The load loop goes on for as long as its rounds are defined and the clock
    advances: each round ends with the first reading past its time. *)
Lemma load_loop_ends fuel base rate rs c :
  Forall (λ r, ∀ c, ∃ c' busy n, cpu_usage_round (re_stat1 r) (re_stat2 r) base rate c = Ok (c', busy) ∧
    passes (re_ticks r) busy n ∧ (n < fuel)%nat) rs →
  ∃ c' ns, load_loop fuel base rate rs c = Ok (c', ns) ∧ length ns = length rs.
Proof.
  intros Hrs. revert c. induction Hrs as [|r rs Hr _ IH]; intros c; [by exists c, []|].
  destruct (Hr c) as (c1 & busy & n & Hround & Hp & Hn). cbn [load_loop].
  rewrite Hround, bind_Ok, (spin_passes fuel _ busy n), bind_Ok by done.
  destruct (IH c1) as (c2 & ns & -> & Hlen). rewrite bind_Ok. eexists _, _. split; [done|]. cbn. by f_equal.
Qed.

(** The fixed load: of every [INTERVAL] of 100 ms, [cpuinfo] ms are spent spinning
    and the rest is slept. *)
Lemma forced_occupancy_splits fuel cpuinfo id clocks :
  0 ≤ cpuinfo ≤ 100 → 0 ≤ id < 1024 →
  Forall (λ ticks, ∃ n, passes ticks cpuinfo n ∧ (n < fuel)%nat) clocks →
  ∃ l, forced_occupancy_half fuel 100 cpuinfo id clocks = Ok ({[ id ]}, l) ∧
    length l = length clocks ∧ Forall (λ p, p.2 = (100 - cpuinfo) * 1000) l.
Proof.
  intros Hc Hid Hcl. unfold forced_occupancy_half, forced_times.
  rewrite signed_op_ok, bind_Ok by (unfold in_s; lia). rewrite div_op_pos, bind_Ok by lia.
  replace (100 * cpuinfo / 100) with cpuinfo by (rewrite Z.mul_comm, Z.div_mul; lia).
  rewrite signed_op_ok, bind_Ok by (unfold in_s; lia). change (mret ?z ≫= ?k) with (k z). cbv beta iota zeta.
  unfold set_cpu. rewrite (wrap_u_small 64 id) by (unfold in_u; lia).
  rewrite decide_True by (apply Z.div_lt_upper_bound; lia).
  enough (∃ l, forced_loop fuel cpuinfo (100 - cpuinfo) clocks = Ok l ∧ length l = length clocks ∧
    Forall (λ p, p.2 = (100 - cpuinfo) * 1000) l) as (l & -> & ? & ?) by (by exists l).
  induction Hcl as [|ticks clocks (n & Hp & Hn) _ (l & IH & Hlen & Hall)]; [by exists []|].
  cbn [forced_loop]. rewrite (spin_passes fuel _ cpuinfo n), bind_Ok by done.
  rewrite signed_op_ok, bind_Ok by (unfold in_s; lia). rewrite IH, bind_Ok.
  eexists. split; [done|]. split; [cbn; by f_equal|by constructor].
Qed.

(** One round of the load loop takes both readings from the line of
    its own processor, whatever other lines surround it, and then computes the
    time to be busy for: when the two readings fall within the same tick it
    divides by zero, and when the asked rate is 100 the time is infinite and its
    conversion to an integer is undefined; otherwise the result is that of the
    two formulas in binary64 arithmetic. *)
Lemma cpu_usage_round_result pre1 l1 t1 pre2 l2 t2 base rate c :
  Forall line_ok pre1 → Forall line_ok pre2 → line_ok l1 → line_ok l2 →
  Forall (λ l, sl_id l ≠ id c) pre1 → Forall (λ l, sl_id l ≠ id c) pre2 →
  sl_id l1 = id c → sl_id l2 = id c →
  let total := sl_total l2 - sl_total l1 in
  let round := cpu_usage_round (concat (line_text <$> pre1) ++ line_text l1 ++ t1)
                               (concat (line_text <$> pre2) ++ line_text l2 ++ t2) base rate c in
  (rate = d_of_Z 100 → round = Ub SignedOverflow) ∧
  (∀ busy, busy_ticks (sl_idle l2 - sl_idle l1) total rate = Ok busy →
     round = if decide (total = 0) then Ub DivByZero
             else ms ← busy_ms busy (s32 (base `quot` total));
                  Ok (Cpus (id c) (run c) (sl_total l2) (sl_idle l2) (base_time c) (fp c), ms)).
Proof.
  intros ? ? Hl1 Hl2 ? ? ? ? total round.
  pose proof (line_bounds l1 Hl1). pose proof (line_bounds l2 Hl2).
  assert (round = (busy ← busy_ticks (sl_idle l2 - sl_idle l1) total rate; q ← div_op base total;
                   ms ← busy_ms busy (s32 q);
                   Ok (Cpus (id c) (run c) (sl_total l2) (sl_idle l2) (base_time c) (fp c), ms))) as ->.
  { unfold round, cpu_usage_round, total.
    rewrite (cpus_refresh_reads pre1), bind_Ok by done.
    rewrite (cpus_refresh_reads pre2), bind_Ok by done. cbn [total_time idle_time].
    rewrite !signed_op_ok, !bind_Ok by (unfold in_s; lia). done. }
  split.
  - intros ->. by rewrite busy_ticks_full.
  - intros busy ->. rewrite bind_Ok. unfold div_op. by destruct (decide (total = 0)).
Qed.

(** ** Witness *)

(** "cpu  9 9 9 9 9 9 9", "cpu0 1 2 3 4 5 6 7", and the latter's next reading. *)
Definition ex_fields (ds : list Z) : list (list Z * list Z) := (λ d, ([32], [48 + d])) <$> ds.
Definition ex_all : stat_line := StatLine [] (ex_fields [9; 9; 9; 9; 9; 9; 9]).
Definition ex_cpu0 : stat_line := StatLine [48] (ex_fields [1; 2; 3; 4; 5; 6; 7; 8]).
Definition ex_cpu0' : stat_line := StatLine [48] (ex_fields [1; 2; 3; 9; 5; 6; 7; 8]).

(** Five ticks idle of five: 20000 microseconds per tick at a rate of 50. *)
Lemma cpu_usage_round_result_witness :
  cpu_usage_round (concat (line_text <$> [ex_all]) ++ line_text ex_cpu0 ++ [105; 10])
                  (concat (line_text <$> [ex_all]) ++ line_text ex_cpu0' ++ [105; 10]) 100000
                  (d_of_Z 50) (Cpus 0 1 0 0 (Some 1) (Some 3)) = Ok (Cpus 0 1 33 9 (Some 1) (Some 3), 100).
Proof.
  etransitivity; [apply (cpu_usage_round_result [ex_all] ex_cpu0 [105; 10] [ex_all] ex_cpu0' [105; 10]
                           100000 (d_of_Z 50) (Cpus 0 1 0 0 (Some 1) (Some 3))) with (busy := 5)
                 |vm_compute; reflexivity].
  all: apply (bool_decide_unpack _); vm_compute; exact I.
Defined.
