(* ===== verification/CpuControl.v ===== *)
(** * CpuControl: the load loop of cpu_usage.c meets the rate it is asked for

    During the pause of a round a processor was idle for [idle] of [total] ticks.
    Staying busy for [x] ticks more makes the idle share [idle / (total + x)];
    the program wants it to be [(100 - rate) / 100], so [x] should be
    [100 idle / (100 - rate) - total].  [cpu_usage] computes this in binary64
    arithmetic and converts ticks to milliseconds with an integer quotient.

    Theorem: for a whole rate below 100 the time it computes differs from the
    exact one by at most one tick and one millisecond. *)

From Stdlib Require Import Reals Lra.
From S2P Require Import Prelude FileUtils Double DoubleRound CpuUsage.
#[local] Open Scope Z_scope.

(** The arguments of [main]: the rate and the pause in microseconds; [atof] is
    the C library's. *)
Definition main_args (atof : list Z → double) (cpu_num : Z) (argv : list (list Z)) : res (double * Z) :=
  base_time ← signed_op 32 (100000 * cpu_num);
  match argv with
  | _ :: a1 :: a2 :: _ => b ← atoi a2; mret (atof a1, b)
  | _ => mret (d_of_Z 50, base_time)
  end.

(** [bpow k] for the literal exponents below. *)
Ltac bpow_num k := let z := eval vm_compute in (2 ^ k)%Z in
  replace (bpow k) with (IZR z) in * by (rewrite bpow_IZR by lia; done).
Ltac bpow_inv k := let z := eval vm_compute in (2 ^ k)%Z in
  replace (bpow (- k)) with (/ IZR z)%R in * by
    (apply (Rmult_eq_reg_l (bpow k)); [rewrite bpow_opp, bpow_IZR by lia; change (2 ^ k)%Z with z; lra
                                      |apply Rgt_not_eq, bpow_pos]).

Lemma Rabs_le_inv x a : (Rabs x <= a → - a <= x <= a)%R.
Proof. intros H. destruct (Rcase_abs x) as [Hx|Hx]; [rewrite Rabs_left in H|rewrite Rabs_right in H]; lra. Qed.

(** An integer within less than one more than [n] is within [n]. *)
Lemma Zabs_of_real a n x :
  (Rabs (IZR a - x) <= IZR n)%R → (Rabs x < 1)%R → Z.abs a ≤ n.
Proof.
  intros H1 H2. apply Zlt_succ_le. apply lt_IZR. rewrite <-Rabs_Zabs, succ_IZR.
  replace (IZR a) with (IZR a - x + x)%R by lra. eapply Rle_lt_trans; [apply Rabs_triang|]. lra.
Qed.

(** The quotient [100.0 * idle / (100 - rate)]. *)
Lemma quotient_near idle r :
  0 ≤ idle < 2 ^ 32 → 0 ≤ r ≤ 99 →
  let F := d_div (d_mul (d_of_Z idle) (d_of_Z 100)) (d_sub (d_of_Z 100) (d_of_Z r)) in
  d_finite F ∧ expo F ≤ -14 ∧ (Rabs (dval F - IZR (100 * idle) / IZR (100 - r)) <= / 32768)%R.
Proof.
  intros Hi Hr F.
  destruct (d_of_Z_exact idle 32) as (Hfi & Hvi & Hei); [lia|lia|].
  destruct (d_of_Z_exact 100 7) as (Hf1 & Hv1 & He1); [lia|lia|].
  destruct (d_of_Z_exact r 7) as (Hfr & Hvr & Her); [lia|lia|].
  assert (Hmul : near (IZR (idle * 100)) 39 (d_mul (d_of_Z idle) (d_of_Z 100))).
  { rewrite mult_IZR, <-Hvi, <-Hv1. apply d_mul_near; [done|done| |lia|lia].
    rewrite Hvi, Hv1, <-mult_IZR, Rabs_Zabs, bpow_IZR by lia. apply IZR_lt. lia. }
  assert (Hsub : near (IZR (100 - r)) 7 (d_sub (d_of_Z 100) (d_of_Z r))).
  { rewrite minus_IZR, <-Hv1, <-Hvr. apply d_sub_near; [done|done| |lia|lia|lia].
    rewrite Hv1, Hvr, <-minus_IZR, Rabs_Zabs, bpow_IZR by lia. apply IZR_lt. lia. }
  pose proof (near_exact _ _ _ Hmul ltac:(lia)) as Hvm.
  pose proof (near_exact _ _ _ Hsub ltac:(lia)) as Hvs.
  assert (1 <= IZR (100 - r))%R as Hd by (apply IZR_le; lia).
  assert (0 <= IZR (idle * 100) / IZR (100 - r) <= IZR (100 * 2 ^ 32))%R as Hq.
  { assert (0 <= IZR (idle * 100))%R by (apply IZR_le; lia).
    assert (IZR (idle * 100) <= IZR (100 * 2 ^ 32))%R by (apply IZR_le; lia).
    pose proof (Rinv_le_contravar 1 (IZR (100 - r)) ltac:(lra) Hd) as Hinv. rewrite Rinv_1 in Hinv.
    pose proof (Rinv_0_lt_compat (IZR (100 - r)) ltac:(lra)). unfold Rdiv. nra. }
  assert (HF : near (IZR (idle * 100) / IZR (100 - r)) 39 F).
  { unfold F. rewrite <-Hvm, <-Hvs. apply d_div_near; [by eapply near_finite|by eapply near_finite| | |lia].
    - rewrite Hvs. lra.
    - rewrite Hvm, Hvs, Rabs_pos_eq by lra. bpow_num 39. change (100 * 2 ^ 32) with 429496729600 in Hq. lra. }
  pose proof (near_err _ _ _ HF) as Herr. change (39 - 54) with (- (15)) in Herr. bpow_inv 15.
  split; [by eapply near_finite|]. split.
  - pose proof (near_expo _ _ _ HF) as He. enough (Rabs (dval F) < bpow 39)%R by (specialize (He H); lia).
    bpow_num 39. change (100 * 2 ^ 32) with 429496729600 in Hq. apply Rabs_le_inv in Herr. apply Rabs_def1; lra.
  - by replace (100 * idle) with (idle * 100) by lia.
Qed.

Lemma busy_ticks_law idle total r :
  0 ≤ idle < 2 ^ 32 → 0 ≤ total < 2 ^ 32 → 0 ≤ r ≤ 99 →
  ∃ b, busy_ticks idle total (d_of_Z r) = Ok b ∧
    Z.abs (b * (100 - r) - (100 * idle - total * (100 - r))) ≤ 100 - r.
Proof.
  intros Hi Ht Hr. destruct (quotient_near idle r Hi Hr) as (HfF & HeF & HF). unfold busy_ticks.
  set (F := d_div _ _) in *. destruct (d_of_Z_exact total 32) as (Hft & Hvt & Het); [lia|lia|].
  assert (1 <= IZR (100 - r) <= 100)%R as Hd by (split; apply IZR_le; lia).
  set (x := (IZR (100 * idle) / IZR (100 - r))%R) in *.
  assert (Hx : (x * IZR (100 - r) = IZR (100 * idle))%R) by (unfold x; field; lra).
  assert (0 <= x <= 429496729600)%R as Hxb.
  { assert (0 <= IZR (100 * idle) <= 429496729600)%R by (split; apply IZR_le; lia). nra. }
  assert (0 <= IZR total <= 4294967296)%R as Htb by (split; apply IZR_le; lia).
  apply Rabs_le_inv in HF.
  assert (HG : near (dval F - IZR total) 39 (d_sub F (d_of_Z total))).
  { rewrite <-Hvt. apply d_sub_near; [done|done| |lia|lia|lia]. rewrite Hvt. bpow_num 39. apply Rabs_def1; lra. }
  pose proof (near_err _ _ _ HG) as Herr. change (39 - 54) with (- (15)) in Herr. bpow_inv 15.
  apply Rabs_le_inv in Herr.
  destruct (d_to_s64_spec (d_sub F (d_of_Z total))) as (b & Hb & Hbe & _); [by eapply near_finite| |].
  { bpow_num 63. apply Rabs_def1; lra. }
  exists b. split; [exact Hb|]. apply Rabs_def2 in Hbe.
  apply (Zabs_of_real _ _ ((IZR b - x + IZR total) * IZR (100 - r) -
    (IZR b - dval (d_sub F (d_of_Z total))) * IZR (100 - r))%R).
  - rewrite !minus_IZR, !mult_IZR in *. rewrite (minus_IZR 100 r) in *.
    apply Rabs_le. nra.
  - apply Rabs_def1; nra.
Qed.

(** The quotient [ceil(clock_per_us) / 1000]: its error is small even after it is
    multiplied by [b]. *)
Lemma thousandth_near b q :
  0 ≤ q < 2 ^ 31 → Z.abs (b * q) ≤ 2 ^ 40 →
  let E := d_div (d_of_Z q) (d_of_Z 1000) in
  d_finite E ∧ expo E ≤ -31 ∧ (Rabs (IZR b) * Rabs (dval E - IZR q / 1000) <= / 4194304)%R.
Proof.
  intros Hq Hbq E.
  destruct (decide (q = 0)) as [->|Hnz].
  { split; [done|]. change (dval E) with 0%R. change (expo E) with (-1074). split; [lia|].
    replace (0 - 0 / 1000)%R with 0%R by field. rewrite Rabs_R0. lra. }
  destruct (d_of_Z_exact q 31) as (Hfq & Hvq & _); [lia|lia|].
  destruct (d_of_Z_exact 1000 10) as (Hfk & Hvk & _); [lia|lia|].
  destruct (Z.log2_spec q ltac:(lia)) as [Hl1 Hl2]. set (d := Z.log2 q) in *.
  assert (0 ≤ d < 31) as Hd31.
  { split; [apply Z.log2_nonneg|]. apply (Z.pow_lt_mono_r_iff 2); lia. }
  apply IZR_le in Hl1. apply IZR_lt in Hl2. rewrite <-bpow_IZR in Hl1, Hl2 by lia.
  rewrite <-Z.add_1_r, bpow_add in Hl2. change (bpow 1) with (2 ^ 1)%R in Hl2. pose proof (bpow_pos d).
  assert (Hk : (bpow (d - 8) = bpow d * / 256)%R).
  { replace (d - 8) with (d + - (8)) by lia. rewrite bpow_add. by bpow_inv 8. }
  assert (HnE : near (IZR q / 1000) (d - 8) E).
  { unfold E. rewrite <-Hvq. replace 1000%R with (dval (d_of_Z 1000)) by done.
    apply d_div_near; [done|done|rewrite Hvk; lra| |lia]. rewrite Hvq, Hvk, Hk.
    rewrite Rabs_pos_eq by lra. lra. }
  pose proof (near_err _ _ _ HnE) as Herr. replace (d - 8 - 54) with (d + - (62)) in Herr by lia.
  rewrite bpow_add in Herr. bpow_inv 62. split; [by eapply near_finite|]. split.
  - pose proof (near_expo _ _ _ HnE) as He. enough (Rabs (dval E) < bpow (d - 8))%R as H1 by (specialize (He H1); lia).
    rewrite Hk. apply Rabs_le_inv in Herr. apply Rabs_def1; lra.
  - assert (Rabs (IZR b) * IZR q <= 1099511627776)%R as Hbq'.
    { rewrite Rabs_Zabs, <-mult_IZR. apply IZR_le. rewrite Z.abs_mul, (Z.abs_eq q) in Hbq by lia. done. }
    pose proof (Rabs_pos (IZR b)). transitivity (Rabs (IZR b) * (IZR q * / 4611686018427387904))%R; [|lra].
    apply Rmult_le_compat_l; [done|]. lra.
Qed.

Lemma busy_ms_law b q :
  0 ≤ q < 2 ^ 31 → Z.abs b ≤ 2 ^ 40 → Z.abs (b * q) ≤ 2 ^ 40 →
  ∃ ms, busy_ms b q = Ok ms ∧ Z.abs (1000 * ms - b * q) ≤ 1000.
Proof.
  intros Hq Hb Hbq. unfold busy_ms. rewrite d_ceil_of_Z by lia.
  destruct (d_of_Z_exact b 41) as (Hfb & Hvb & Heb); [lia|lia|].
  destruct (thousandth_near b q Hq Hbq) as (HfE & HeE & HerrE). set (E := d_div _ _) in *.
  set (y := (IZR q / 1000)%R) in *.
  assert (Hy : (1000 * y = IZR q)%R) by (unfold y; field).
  rewrite <-Rabs_mult in HerrE. apply Rabs_le_inv in HerrE.
  assert (-1099511627776 <= IZR b * IZR q <= 1099511627776)%R as Hbqr.
  { rewrite <-mult_IZR. split; apply IZR_le; lia. }
  assert (HP : near (IZR b * dval E) 31 (d_mul (d_of_Z b) E)).
  { rewrite <-Hvb. apply d_mul_near; [done|done| |lia|lia]. rewrite Hvb. bpow_num 31. apply Rabs_def1; nra. }
  pose proof (near_err _ _ _ HP) as Herr. change (31 - 54) with (- (23)) in Herr. bpow_inv 23.
  apply Rabs_le_inv in Herr.
  destruct (d_to_s64_spec (d_mul (d_of_Z b) E)) as (ms & Hms & Hme & _); [by eapply near_finite| |].
  { bpow_num 63. apply Rabs_def1; nra. }
  exists ms. split; [exact Hms|]. apply Rabs_def2 in Hme.
  apply (Zabs_of_real _ _ (1000 * (dval (d_mul (d_of_Z b) E) - IZR b * y))%R).
  - rewrite minus_IZR, !mult_IZR. apply Rabs_le. nra.
  - apply Rabs_def1; nra.
Qed.

(** Without arguments the rate and the pause are in the range of
    [cpu_usage_meets_rate] up to 21474 processors; more overflow. *)
Lemma main_args_default atof cpu_num name :
  0 < cpu_num →
  main_args atof cpu_num [name] =
    if decide (cpu_num ≤ 21474) then Ok (d_of_Z 50, 100000 * cpu_num) else Ub SignedOverflow.
Proof.
  intros Hc. unfold main_args, signed_op, in_s. case_decide; case_decide; (done || lia).
Qed.

(** Both conversions together. *)
Lemma busy_time_law idle total base r :
  0 ≤ idle ≤ total → 0 < total < 2 ^ 32 → 0 ≤ base < 2 ^ 31 → 0 ≤ r ≤ 99 →
  let q := base / total in
  ∃ b ms, busy_ticks idle total (d_of_Z r) = Ok b ∧ busy_ms b q = Ok ms ∧
    Z.abs (1000 * ms * (100 - r) - (100 * idle - total * (100 - r)) * q) ≤ (1000 + q) * (100 - r).
Proof.
  intros Hi Ht Hb Hr q. destruct (busy_ticks_law idle total r) as (b & Hok & Hlaw); [lia|lia|lia|].
  assert (0 ≤ q) as Hq0 by (apply Z.div_pos; lia).
  assert (total * q ≤ base) as Hq1 by (apply Z.mul_div_le; lia).
  assert (Z.abs b ≤ 100 * total + 1) as Hbb by nia.
  destruct (busy_ms_law b q) as (ms & Hms & Hlaw2); [nia|lia|rewrite Z.abs_mul; nia|].
  exists b, ms. split; [done|]. split; [done|].
  replace (1000 * ms * (100 - r) - (100 * idle - total * (100 - r)) * q) with
    ((1000 * ms - b * q) * (100 - r) + (b * (100 - r) - (100 * idle - total * (100 - r))) * q) by lia.
  eapply Z.le_trans; [apply Z.abs_triangle|]. rewrite !Z.abs_mul, (Z.abs_eq q), (Z.abs_eq (100 - r)) by lia.
  pose proof (Z.mul_le_mono_nonneg_r _ _ (100 - r) ltac:(lia) Hlaw2).
  pose proof (Z.mul_le_mono_nonneg_r _ _ q Hq0 Hlaw). lia.
Qed.

(** C15: (bounds) One round of the load loop.  Both readings are those of the
    line of the processor itself, whatever other lines surround it.  When they
    fall within the same tick the round divides by zero, and when the asked rate
    is 100 the conversion of an infinite time is undefined.  For any whole rate
    below 100 (less than 2^32 ticks, a pause below 2^31 microseconds) the round is
    defined and meets the rate: the milliseconds it stays busy, over a pause of
    [total] ticks of [q] microseconds of which [idle] were idle, differ from the
    exact time, after which the idle share is [100 - rate] percent, by at most one
    millisecond and one tick, although the computation rounds four times. *)
Theorem cpu_usage_meets_rate pre1 l1 t1 pre2 l2 t2 base r c :
  Forall line_ok pre1 → Forall line_ok pre2 → line_ok l1 → line_ok l2 →
  Forall (λ l, sl_id l ≠ id c) pre1 → Forall (λ l, sl_id l ≠ id c) pre2 →
  sl_id l1 = id c → sl_id l2 = id c →
  let total := sl_total l2 - sl_total l1 in
  let idle := sl_idle l2 - sl_idle l1 in
  let q := base / total in
  let round := cpu_usage_round (concat (line_text <$> pre1) ++ line_text l1 ++ t1)
                               (concat (line_text <$> pre2) ++ line_text l2 ++ t2) base (d_of_Z r) c in
  0 ≤ idle ≤ total → total < 2 ^ 32 → 0 ≤ base < 2 ^ 31 → 0 ≤ r ≤ 100 →
  if decide (r = 100) then round = Ub SignedOverflow
  else if decide (total = 0) then round = Ub DivByZero
  else ∃ ms, round = Ok (Cpus (id c) (run c) (sl_total l2) (sl_idle l2) (base_time c) (fp c), ms) ∧
    Z.abs (1000 * ms * (100 - r) - (100 * idle - total * (100 - r)) * q) ≤ (1000 + q) * (100 - r).
Proof.
  intros ? ? ? ? ? ? ? ? total idle q round Hi Ht Hb Hr.
  destruct (cpu_usage_round_result pre1 l1 t1 pre2 l2 t2 base (d_of_Z r) c) as [Hfull Hok]; try done.
  fold total idle round in Hfull, Hok.
  destruct (decide (r = 100)) as [->|Hr100]; [by apply Hfull|].
  destruct (decide (total = 0)) as [E|Hnz].
  - destruct (busy_ticks_law idle total r) as (b & Hbt & _); [lia|lia|lia|].
    by rewrite (Hok b Hbt).
  - destruct (busy_time_law idle total base r) as (b & ms & Hbt & Hms & Hlaw); [lia|lia|lia|lia|].
    exists ms. split; [|exact Hlaw]. rewrite (Hok b Hbt), Z.quot_div_nonneg by lia.
    rewrite wrap_s_small; [by rewrite Hms|lia|].
    split; [pose proof (Z.div_pos base total); lia|apply Z.div_lt_upper_bound; nia].
Qed.

(** Five idle ticks out of five, at 10 ms a tick and a rate of 50: busy for
    about as long, 50 ms. *)
Lemma cpu_usage_meets_rate_witness :
  ∃ ms, cpu_usage_round (concat (line_text <$> [ex_all]) ++ line_text ex_cpu0 ++ [105; 10])
          (concat (line_text <$> [ex_all]) ++ line_text ex_cpu0' ++ [105; 10]) 50000 (d_of_Z 50)
          (Cpus 0 1 0 0 (Some 1) (Some 3)) = Ok (Cpus 0 1 33 9 (Some 1) (Some 3), ms) ∧
    Z.abs (1000 * ms * 50 - (100 * 5 - 5 * 50) * 10000) ≤ (1000 + 10000) * 50.
Proof.
  pose proof (cpu_usage_meets_rate [ex_all] ex_cpu0 [105; 10] [ex_all] ex_cpu0' [105; 10]
                50000 50 (Cpus 0 1 0 0 (Some 1) (Some 3))) as H.
  cbv zeta in H.
  change (sl_total ex_cpu0' - sl_total ex_cpu0) with 5 in H.
  change (sl_idle ex_cpu0' - sl_idle ex_cpu0) with 5 in H.
  apply H; [..|lia|lia|lia|lia]; apply (bool_decide_unpack _); vm_compute; exact I.
Defined.
