(* ===== verification/CpuMain.v ===== *)
(** * The threads of cpu_usage.c: main, the workers and the interrupt handler

    [main] sets up one record per processor and starts a worker on each; a worker
    opens /proc/stat, stores the stream in its record and then, while the record
    says so, reads the stream twice per round and twice the variable [base_time] of
    [main] its record points to; the handler of SIGINT tells every worker to stop
    and closes its stream; [main] then frees the records and returns, and some time
    later the process ends.  No lock is held anywhere.

    The machine does one access at a time, of whichever thread the schedule
    picks.  It follows the memory the threads share, the records, the streams and
    the variable of [main]; the numbers read are those of CpuUsage.  The theorem
    says for any number of processors which accesses are undefined. *)

From S2P Require Import Prelude CpuUsage.

(** What a worker does next: open its file, test [cpu->run], the first
    [cpus_refresh] of the round, the pause of [*cpu->base_time], the second
    [cpus_refresh], the computation with [*cpu->base_time]; or it has ended. *)
Inductive wstate : Set := WOpen | WTest | WRead1 | WSleep | WRead2 | WCompute | WDone.

(** What [main] does next: set up a processor, open its own stream, test
    [m_wait], close its stream, free the records, return.  In [MExit] it has
    returned and the process is about to end; in [MGone] the process has ended. *)
Inductive mstate : Set := MSetup | MOpen | MWait | MClose | MFree | MReturn | MExit | MGone.

#[global] Instance mstate_eq_dec : EqDecision mstate.
Proof. solve_decision. Defined.

Record cstate := CState {
  recs : list cpus_info_t;      (** the records set up so far *)
  workers : list wstate;
  main_pc : mstate;
  main_fp : option Z;
  open_files : gset Z;
  next_file : Z;
  m_wait : bool;
  freed : bool
}.

(** A schedule: who does the next step, and whether the [pthread_create] or [fopen]
    of the step works. *)
Inductive event : Set := Main (ok : bool) | Worker (i : nat) (fopen_ok : bool) | Interrupt.

(** The address of the variable [base_time] of [main]. *)
Definition BASE_TIME : Z := 1.

Definition set_recs (st : cstate) (rs : list cpus_info_t) : cstate :=
  CState rs (workers st) (main_pc st) (main_fp st) (open_files st) (next_file st) (m_wait st) (freed st).
Definition set_worker (st : cstate) (i : nat) (w : wstate) : cstate :=
  CState (recs st) (<[i := w]> (workers st)) (main_pc st) (main_fp st) (open_files st) (next_file st)
    (m_wait st) (freed st).
Definition set_main (st : cstate) (m : mstate) : cstate :=
  CState (recs st) (workers st) m (main_fp st) (open_files st) (next_file st) (m_wait st) (freed st).
Definition set_files (st : cstate) (fs : gset Z) (n : Z) : cstate :=
  CState (recs st) (workers st) (main_pc st) (main_fp st) fs n (m_wait st) (freed st).

(** Access to the record of processor [i]; it is null before [main] sets it up. *)
Definition get_rec (st : cstate) (i : nat) : res cpus_info_t :=
  c ← or_ub NullDeref (recs st !! i);
  if freed st then Ub BadPtr else mret c.

(** [*cpu->base_time]: the variable lives until [main] returns. *)
Definition get_base (st : cstate) (i : nat) : res unit :=
  c ← get_rec st i;
  _ ← or_ub NullDeref (base_time c);
  if decide (main_pc st = MExit) then Ub BadPtr else mret ().

(** [fclose], and the use of a stream. *)
Definition use_file (st : cstate) (f : option Z) : res Z :=
  f ← or_ub NullDeref f;
  if decide (f ∈ open_files st) then mret f else Ub BadPtr.
Definition fclose (st : cstate) (f : option Z) : res cstate :=
  f ← use_file st f; mret (set_files st (open_files st ∖ {[ f ]}) (next_file st)).

Definition with_run (c : cpus_info_t) (r : Z) : cpus_info_t :=
  Cpus (id c) r (total_time c) (idle_time c) (base_time c) (fp c).
Definition with_fp (c : cpus_info_t) (f : Z) : cpus_info_t :=
  Cpus (id c) (run c) (total_time c) (idle_time c) (base_time c) (Some f).

(** The handler: what it does for one processor, and for all [cpu_num] of them. *)
Definition stop_cpu (i : Z) (st : cstate) : res cstate :=
  let i := Z.to_nat i in
  c ← get_rec st i;
  fclose (set_recs st (<[i := with_run c 0]> (recs st))) (fp c).

Definition int_handler (cpu_num : nat) (st : cstate) : res cstate :=
  st ← for_up cpu_num 0 stop_cpu st;
  mret (CState (recs st) (workers st) (main_pc st) (main_fp st) (open_files st) (next_file st)
          false (freed st)).

(** One step of worker [i]: [single_cpu_run] up to the loop, then the loop of
    [cpu_usage]. *)
Definition worker_step (i : nat) (fopen_ok : bool) (st : cstate) : res cstate :=
  match workers st !! i with
  | None | Some WDone => mret st
  | Some WOpen =>
      if fopen_ok then
        c ← get_rec st i;
        let f := next_file st in
        let st := set_files st ({[ f ]} ∪ open_files st) (f + 1) in
        mret (set_worker (set_recs st (<[i := with_fp c f]> (recs st))) i WTest)
      else mret (set_worker st i WDone)
  | Some WTest =>
      c ← get_rec st i;
      mret (set_worker st i (if decide (run c ≠ 0) then WRead1 else WDone))
  | Some WRead1 => c ← get_rec st i; _ ← use_file st (fp c); mret (set_worker st i WSleep)
  | Some WSleep => _ ← get_base st i; mret (set_worker st i WRead2)
  | Some WRead2 => c ← get_rec st i; _ ← use_file st (fp c); mret (set_worker st i WCompute)
  | Some WCompute => _ ← get_base st i; mret (set_worker st i WTest)
  end.

(** One step of [main]: the loop that sets up the processors, the opening of its
    own stream, and the wait with the cleanup behind it.  The result of
    [pthread_create] is not looked at. *)
Definition main_setup (cpu_num : nat) (create_ok : bool) (st : cstate) : res cstate :=
  let i := length (recs st) in
  if decide (i < cpu_num)%nat then
    mret (CState (recs st ++ [Cpus (Z.of_nat i) 1 0 0 (Some BASE_TIME) None])
            (workers st ++ [if create_ok then WOpen else WDone]) MSetup
            (main_fp st) (open_files st) (next_file st) (m_wait st) (freed st))
  else mret (set_main st MOpen).

Definition main_open (fopen_ok : bool) (st : cstate) : res cstate :=
  if fopen_ok then
    mret (CState (recs st) (workers st) MWait (Some (next_file st))
            ({[ next_file st ]} ∪ open_files st) (next_file st + 1) (m_wait st) (freed st))
  else mret (set_main st MReturn).

Definition main_end (st : cstate) : res cstate :=
  match main_pc st with
  | MWait => mret (set_main st (if m_wait st then MWait else MClose))
  | MClose => st ← fclose st (main_fp st); mret (set_main st MFree)
  | MFree =>
      mret (CState (recs st) (workers st) MReturn (main_fp st) (open_files st) (next_file st) (m_wait st) true)
  | MReturn => mret (set_main st MExit)
  | MExit => mret (set_main st MGone)
  | _ => mret st
  end.

Definition main_step (cpu_num : nat) (ok : bool) (st : cstate) : res cstate :=
  match main_pc st with
  | MSetup => main_setup cpu_num ok st
  | MOpen => main_open ok st
  | _ => main_end st
  end.

(** Once the process has ended nothing runs any more. *)
Definition exec (cpu_num : nat) (e : event) (st : cstate) : res cstate :=
  match main_pc st with
  | MGone => mret st
  | _ =>
      match e with
      | Main ok => main_step cpu_num ok st
      | Worker i ok => worker_step i ok st
      | Interrupt => int_handler cpu_num st
      end
  end.

Fixpoint exec_all (cpu_num : nat) (es : list event) (st : cstate) : res cstate :=
  match es with
  | [] => mret st
  | e :: es => st ← exec cpu_num e st; exec_all cpu_num es st
  end.

(** After the allocation of the records. *)
Definition start : cstate := CState [] [] MSetup None ∅ 3 true false.

(** ** Without an interrupt *)

Ltac fields :=
  cbn [set_recs set_worker set_main set_files recs workers main_pc main_fp open_files next_file m_wait freed].

(** The stream of processor [i], if it has one. *)
Definition stream (st : cstate) (i : nat) : option Z := recs st !! i ≫= fp.

(** Nothing is closed or freed, every worker has its record, which points to the
    variable of [main], a worker in its loop has a stream, and the streams are
    open and differ from each other and from that of [main]. *)
Record calm (st : cstate) : Prop := {
  ca_wait : m_wait st = true;
  ca_freed : freed st = false;
  ca_main : main_pc st ≠ MClose ∧ main_pc st ≠ MFree;
  ca_len : length (workers st) = length (recs st);
  ca_base i c : recs st !! i = Some c → base_time c = Some BASE_TIME;
  ca_loop i w : workers st !! i = Some w → w ≠ WOpen → w ≠ WDone → is_Some (stream st i);
  ca_open i f : stream st i = Some f → f ∈ open_files st ∧ f < next_file st ∧ main_fp st ≠ Some f;
  ca_differ i j f : stream st i = Some f → stream st j = Some f → i = j;
  ca_mine f : main_fp st = Some f → f ∈ open_files st ∧ f < next_file st;
  ca_mwait : main_pc st = MWait → is_Some (main_fp st)
}.

Lemma calm_rec st i w : calm st → workers st !! i = Some w → ∃ c, recs st !! i = Some c ∧ get_rec st i = Ok c.
Proof.
  intros HC Hw. destruct (lookup_lt_is_Some_2 (recs st) i) as [c Hc].
  { rewrite <-(ca_len _ HC). by eapply lookup_lt_Some. }
  exists c. split; [done|]. unfold get_rec. by rewrite Hc, (ca_freed _ HC).
Qed.

Lemma calm_reads st i w c :
  calm st → workers st !! i = Some w → recs st !! i = Some c → w ≠ WOpen → w ≠ WDone →
  ∃ f, use_file st (fp c) = Ok f.
Proof.
  intros HC Hw Hc H1 H2. destruct (ca_loop _ HC i w Hw H1 H2) as [f Hf]. exists f.
  destruct (ca_open _ HC i f Hf) as (Hin & _). unfold stream in Hf. rewrite Hc in Hf. cbn in Hf.
  unfold use_file. rewrite Hf. cbn [or_ub]. by rewrite bind_Ok, decide_True.
Qed.

Lemma calm_get_base st i w :
  calm st → workers st !! i = Some w →
  get_base st i = if decide (main_pc st = MExit) then Ub BadPtr else Ok ().
Proof.
  intros HC Hw. destruct (calm_rec st i w HC Hw) as (c & Hc & Hg). unfold get_base.
  rewrite Hg, bind_Ok, (ca_base _ HC i c Hc). cbn [or_ub]. by rewrite bind_Ok.
Qed.

(** A worker that keeps its record moves between the states of the loop. *)
Lemma calm_set_worker st i w w' :
  calm st → workers st !! i = Some w → (w ≠ WOpen ∧ w ≠ WDone) ∨ w' = WDone →
  calm (set_worker st i w').
Proof.
  intros HC Hw Hst. destruct HC. split; unfold stream in *; fields; try done.
  - by rewrite length_insert.
  - intros j v Hv H1 H2. destruct (decide (j = i)) as [->|Hne].
    + rewrite list_lookup_insert_eq in Hv by (by eapply lookup_lt_Some). injection Hv as <-.
      destruct Hst as [[? ?]| ->]; [eauto|done].
    + rewrite list_lookup_insert_ne in Hv by done. eauto.
Qed.

Lemma stream_insert (rs : list cpus_info_t) i c f j :
  rs !! i = Some c → <[i := with_fp c f]> rs !! j ≫= fp = if decide (j = i) then Some f else rs !! j ≫= fp.
Proof.
  intros Hc. case_decide as Hj.
  - subst. by rewrite list_lookup_insert_eq by (by eapply lookup_lt_Some).
  - by rewrite list_lookup_insert_ne.
Qed.

(** The worker opens its file and stores the stream. *)
Lemma calm_worker_open st i c :
  calm st → workers st !! i = Some WOpen → recs st !! i = Some c →
  calm (set_worker (set_recs (set_files st ({[ next_file st ]} ∪ open_files st) (next_file st + 1))
    (<[i := with_fp c (next_file st)]> (recs st))) i WTest).
Proof.
  intros [] Hw Hc. split; unfold stream in *; fields; try done.
  - by rewrite !length_insert.
  - intros j d Hd. destruct (decide (j = i)) as [->|Hne].
    + rewrite list_lookup_insert_eq in Hd by (by eapply lookup_lt_Some). injection Hd as <-. by apply (ca_base0 i c).
    + rewrite list_lookup_insert_ne in Hd by done. eauto.
  - intros j v Hv H1 H2. rewrite (stream_insert _ _ c) by done. case_decide; [done|].
    rewrite list_lookup_insert_ne in Hv by done. eauto.
  - intros j f. rewrite (stream_insert _ _ c) by done. rewrite elem_of_union, elem_of_singleton.
    case_decide as Hj.
    + intros [= <-]. split; [auto|]. split; [lia|]. intros Hf. apply ca_mine0 in Hf. lia.
    + intros Hf. destruct (ca_open0 _ _ Hf) as (? & ? & ?). split; [auto|]. split; [lia|done].
  - intros j k f. rewrite !(stream_insert _ _ c) by done.
    repeat case_decide; try congruence; intros Hj Hk; try (by eapply ca_differ0); exfalso.
    + injection Hj as <-. apply ca_open0 in Hk. lia.
    + injection Hk as <-. apply ca_open0 in Hj. lia.
  - intros f Hf. destruct (ca_mine0 f Hf). rewrite elem_of_union. split; [auto|lia].
Qed.

(** A step of a worker; only an access to the variable of [main] can be undefined,
    and only after the return. *)
Lemma calm_worker i ok st :
  calm st → (∃ st', worker_step i ok st = Ok st' ∧ calm st') ∨
            (main_pc st = MExit ∧ worker_step i ok st = Ub BadPtr).
Proof.
  intros HC. unfold worker_step. destruct (workers st !! i) as [w|] eqn:Hw; [|left; by exists st].
  destruct (calm_rec st i w HC Hw) as (c & Hc & Hg).
  assert (Hmove : ∀ w', (w ≠ WOpen ∧ w ≠ WDone) ∨ w' = WDone → calm (set_worker st i w'))
    by (intros; by apply (calm_set_worker st i w)).
  destruct w; rewrite ?(calm_get_base _ _ _ HC Hw), ?Hg, ?bind_Ok.
  - left. destruct ok; (eexists; split; [done|]); [exact (calm_worker_open st i c HC Hw Hc)|auto].
  - left. eexists. split; [done|]. auto.
  - left. destruct (calm_reads st i WRead1 c) as (f & ->); [done..|]. rewrite bind_Ok. eexists. split; [done|]. auto.
  - destruct (decide (main_pc st = MExit)); [by right|left]. rewrite bind_Ok. eexists. split; [done|]. auto.
  - left. destruct (calm_reads st i WRead2 c) as (f & ->); [done..|]. rewrite bind_Ok. eexists. split; [done|]. auto.
  - destruct (decide (main_pc st = MExit)); [by right|left]. rewrite bind_Ok. eexists. split; [done|]. auto.
  - left. by exists st.
Qed.

Lemma stream_app st c i : fp c = None → (recs st ++ [c]) !! i ≫= fp = stream st i.
Proof.
  intros Hc. unfold stream. destruct (decide (i < length (recs st))%nat).
  - by rewrite lookup_app_l.
  - rewrite lookup_app_r, (lookup_ge_None_2 (recs st)) by lia.
    destruct (i - length (recs st))%nat as [|k]; [done|by destruct k].
Qed.

Lemma calm_setup n ok st : calm st → main_pc st = MSetup → ∃ st', main_setup n ok st = Ok st' ∧ calm st'.
Proof.
  intros [] Hm. unfold main_setup. destruct (decide (length (recs st) < n)%nat).
  2:{ eexists. split; [done|]. split; unfold stream in *; fields; done. }
  eexists. split; [done|]. split; fields; try done.
  - by rewrite !length_app, ca_len0.
  - intros i c [Hc|[Hi Hc]]%lookup_app_Some; [eauto|].
    destruct (i - length (recs st))%nat as [|k]; [|by destruct k]. by injection Hc as <-.
  - intros i w Hw H1 H2. unfold stream. fields. rewrite stream_app by done.
    apply lookup_app_Some in Hw as [Hw|[Hi Hw]]; [by eapply ca_loop0|].
    destruct (i - length (workers st))%nat as [|k]; [|by destruct k]. injection Hw as <-. by destruct ok.
  - intros i f. unfold stream. fields. rewrite stream_app by done. apply ca_open0.
  - intros i j f. unfold stream. fields. rewrite !stream_app by done. apply ca_differ0.
Qed.

Lemma calm_main n ok st : calm st → ∃ st', main_step n ok st = Ok st' ∧ calm st'.
Proof.
  intros HC. unfold main_step, main_open, main_end. pose proof HC as [C1 C2 [C3 C3'] C4 C5 C6 C7 C8 C9 C10].
  destruct (main_pc st) eqn:Hm; try done; [by apply calm_setup| | | | |].
  - destruct ok; (eexists; split; [done|]); split; unfold stream in *; fields; try done.
    + intros i f Hf. destruct (C7 i f Hf) as (? & ? & _). rewrite elem_of_union.
      split; [auto|]. split; [lia|]. intros [= <-]. lia.
    + intros f [= <-]. rewrite elem_of_union, elem_of_singleton. split; [auto|lia].
  - rewrite C1. eexists. split; [done|]. by split; unfold stream in *; fields.
  - eexists. split; [done|]. by split; unfold stream in *; fields.
  - eexists. split; [done|]. by split; unfold stream in *; fields.
  - exists st. done.
Qed.

(** Without an interrupt: every step is defined, or [main] has returned. *)
Lemma calm_run n es st :
  calm st → Forall (λ e, e ≠ Interrupt) es →
  (∃ st', exec_all n es st = Ok st' ∧ calm st') ∨
  (∃ before e later st', es = before ++ e :: later ∧ exec_all n before st = Ok st' ∧
     main_pc st' = MExit ∧ exec n e st' = Ub BadPtr).
Proof.
  intros HC Hes. revert st HC. induction Hes as [|e es He Hes IH]; intros st HC; [left; by exists st|].
  assert ((∃ st1, exec n e st = Ok st1 ∧ calm st1) ∨ main_pc st = MExit ∧ exec n e st = Ub BadPtr)
    as [(st1 & He1 & HC1)|[Hm Hub]].
  { unfold exec. destruct (decide (main_pc st = MGone)) as [->|Hg]; [left; by exists st|].
    destruct e as [ok|i ok|]; [|..|done].
    - left. pose proof (calm_main n ok st HC). by destruct (main_pc st).
    - pose proof (calm_worker i ok st HC). by destruct (main_pc st). }
  - cbn [exec_all]. rewrite He1, bind_Ok.
    destruct (IH st1 HC1) as [?|(bef & e' & lat & st' & -> & Hr & ?)]; [auto|].
    right. exists (e :: bef), e', lat, st'. cbn [exec_all app]. rewrite He1, bind_Ok. auto.
  - right. exists [], e, es, st. auto.
Qed.

Lemma calm_start : calm start.
Proof. by split. Qed.

Lemma exec_all_app n es1 es2 st st1 :
  exec_all n es1 st = Ok st1 → exec_all n (es1 ++ es2) st = exec_all n es2 st1.
Proof.
  revert st. induction es1 as [|e es1 IH]; intros st Hr; cbn [exec_all app] in *; [by injection Hr as ->|].
  apply bind_Ok_inv in Hr as (s & -> & Hr). rewrite bind_Ok. by apply IH.
Qed.

Lemma calm_reached n es st :
  Forall (λ e, e ≠ Interrupt) es → exec_all n es start = Ok st → calm st.
Proof.
  intros Hes Hr. destruct (calm_run n es start calm_start Hes) as [(st' & Hr' & ?)|
    (bef & e & lat & st' & -> & Hr' & _ & Hub)]; [congruence|]. exfalso.
  rewrite (exec_all_app _ _ _ _ _ Hr') in Hr. cbn [exec_all] in Hr. by rewrite Hub in Hr.
Qed.

(** [main] returns after its [fopen] has failed. *)
Lemma dangling_base n st i a b :
  calm st → main_pc st = MOpen → workers st !! i = Some WSleep ∨ workers st !! i = Some WCompute →
  exec_all n [Main false; Main a; Worker i b] st = Ub BadPtr.
Proof.
  intros HC Hm Hw.
  assert (H1 : exec n (Main false) st = Ok (set_main st MReturn))
    by (unfold exec, main_step, main_open; by rewrite Hm).
  cbn [exec_all]. rewrite H1, bind_Ok.
  change (exec n (Main a) (set_main st MReturn)) with (Ok (set_main (set_main st MReturn) MExit)).
  rewrite bind_Ok.
  change (exec n (Worker i b) ?s) with (worker_step i b s).
  assert (Hw' : ∃ w, workers st !! i = Some w) by (destruct Hw; eauto). destruct Hw' as [w Hw'].
  destruct (calm_rec st i w HC Hw') as (c & Hc & Hg).
  assert (Hb : get_base (set_main (set_main st MReturn) MExit) i = Ub BadPtr).
  { unfold get_base, get_rec. fields. rewrite Hc, (ca_freed _ HC). cbn [or_ub].
    rewrite bind_Ok. change (mret ?x) with (Ok x). rewrite bind_Ok, (ca_base _ HC i c Hc). cbn [or_ub].
    by rewrite bind_Ok, decide_True. }
  unfold worker_step. fields. destruct Hw as [->| ->]; by rewrite Hb.
Qed.

(** A worker that goes on when the records are freed. *)
Lemma freed_worker n st i w d :
  freed st = true → main_pc st = MReturn → workers st !! i = Some w → is_Some (recs st !! i) →
  w ≠ WOpen → w ≠ WDone → exec_all n [Worker i d] st = Ub BadPtr.
Proof.
  intros Hf Hm Hw [c Hc] H1 H2. cbn [exec_all]. unfold exec. rewrite Hm. unfold worker_step. rewrite Hw.
  assert (Hg : get_rec st i = Ub BadPtr) by (unfold get_rec; rewrite Hc, Hf; done).
  unfold get_base. destruct w; try done; by rewrite Hg.
Qed.

(** ** The interrupt handler *)

(** The first [k] processors are done. *)
Record half (k : nat) (st st' : cstate) : Prop := {
  ha_recs i : recs st' !! i = (if decide (i < k)%nat then λ c, with_run c 0 else λ c, c) <$> recs st !! i;
  ha_files f : f ∈ open_files st' ↔ f ∈ open_files st ∧ ∀ i, (i < k)%nat → stream st i ≠ Some f;
  ha_workers : workers st' = workers st;
  ha_main : main_pc st' = main_pc st ∧ main_fp st' = main_fp st ∧ freed st' = freed st
}.

Lemma handler_stop k st st' :
  calm st → half k st st' → stream st k = None → stop_cpu (Z.of_nat k) st' = Ub NullDeref.
Proof.
  intros HC [H1 H2 H3 (H4 & H5 & H6)] Hs. unfold stop_cpu, get_rec, stream in *. rewrite Nat2Z.id, H1.
  rewrite decide_False by lia. destruct (recs st !! k) as [c|]; [|done]. cbn in *. rewrite H6, (ca_freed _ HC).
  change (mret ?x) with (Ok x). rewrite !bind_Ok. unfold fclose, use_file. by rewrite Hs.
Qed.

Lemma handler_next k st st' :
  calm st → half k st st' → is_Some (stream st k) →
  ∃ st'', stop_cpu (Z.of_nat k) st' = Ok st'' ∧ half (S k) st st''.
Proof.
  intros HC [H1 H2 H3 (H4 & H5 & H6)] [f Hs]. pose proof Hs as Hs0.
  unfold stop_cpu, get_rec. rewrite Nat2Z.id, (H1 k), decide_False by lia.
  unfold stream in Hs0. destruct (recs st !! k) as [c|] eqn:Hc; [|done]. cbn in Hs0 |- *.
  rewrite H6, (ca_freed _ HC). change (mret ?x) with (Ok x). rewrite !bind_Ok. unfold fclose, use_file.
  rewrite Hs0. cbn [or_ub]. rewrite bind_Ok.
  assert (Hin : f ∈ open_files st').
  { apply H2. split; [by apply (ca_open _ HC k)|]. intros i Hi Hf.
    pose proof (ca_differ _ HC i k f Hf Hs). lia. }
  fields. rewrite decide_True by done. change (mret ?x) with (Ok x). rewrite bind_Ok.
  eexists. split; [done|]. split; fields; [| |done|done].
  - intros i. destruct (decide (i = k)) as [->|Hne].
    + rewrite list_lookup_insert_eq, Hc, decide_True by (lia || (eapply lookup_lt_Some; by rewrite H1, Hc)). done.
    + rewrite list_lookup_insert_ne, H1 by done. by repeat case_decide; try lia.
  - intros g. rewrite elem_of_difference, elem_of_singleton, H2. split.
    + intros [[? Hall] Hne]. split; [done|]. intros i Hi. destruct (decide (i = k)) as [->|]; [congruence|].
      apply Hall. lia.
    + intros [? Hall]. split; [split; [done|]|].
      * intros i Hi. apply Hall. lia.
      * intros ->. by apply (Hall k); [lia|].
Qed.

Lemma handler_half k st :
  calm st → (∀ i, (i < k)%nat → is_Some (stream st i)) →
  ∃ st', for_up k 0 stop_cpu st = Ok st' ∧ half k st st'.
Proof.
  intros HC Hall. destruct (for_up_inv (λ j st', 0 ≤ j ∧ half (Z.to_nat j) st st') k 0 stop_cpu st)
    as (st' & Hr & _ & Hh).
  - split; [done|]. split; try done.
    + intros i. rewrite decide_False by lia. by destruct (recs st !! i).
    + intros f. split; [|by intros [? _]]. intros ?. split; [done|]. lia.
  - intros j s Hj [_ Hh]. destruct (handler_next (Z.to_nat j) st s HC Hh) as (s' & Hr & Hh').
    { apply Hall. lia. }
    rewrite Z2Nat.id in Hr by lia. exists s'. split; [done|]. split; [lia|].
    by replace (Z.to_nat (j + 1)) with (S (Z.to_nat j)) by lia.
  - exists st'. split; [done|]. by rewrite Z.add_0_l, Nat2Z.id in Hh.
Qed.

Lemma for_up_stop {A} m k i (body : Z → A → res A) a a' u :
  for_up k i body a = Ok a' → body (i + Z.of_nat k) a' = Ub u → (k < m)%nat → for_up m i body a = Ub u.
Proof.
  revert m i a. induction k as [|k IH]; intros m i a Hr Hb Hm; (destruct m as [|m]; [lia|]); cbn [for_up] in *.
  - injection Hr as ->. rewrite Z.add_0_r in Hb. by rewrite Hb.
  - apply bind_Ok_inv in Hr as (a1 & -> & Hr). rewrite bind_Ok. eapply IH; [done| |lia].
    rewrite <-Hb. f_equal. lia.
Qed.

(** A processor without a stream. *)
Lemma handler_null n st :
  calm st → (∃ i, (i < n)%nat ∧ stream st i = None) → int_handler n st = Ub NullDeref.
Proof.
  intros HC (i & Hi & Hs). unfold int_handler.
  assert (∃ k, (k < n)%nat ∧ stream st k = None ∧ ∀ j, (j < k)%nat → is_Some (stream st j))
    as (k & Hk & Hks & Hall).
  { revert Hs. induction i as [i IH] using lt_wf_ind. intros Hs.
    destruct (decide (Exists (λ j, stream st j = None) (seq 0 i))) as [He|He].
    - apply Exists_exists in He as (j & Hj & Hjs). apply elem_of_seq in Hj. apply (IH j); [lia..|done].
    - exists i. split; [done|]. split; [done|]. intros j Hj. apply not_eq_None_Some. intros Hn. apply He.
      apply Exists_exists. exists j. split; [apply elem_of_seq; lia|done]. }
  destruct (handler_half k st HC Hall) as (st' & Hr & Hh).
  by rewrite (for_up_stop n k 0 _ _ st' NullDeref) by (done || by apply (handler_stop k st)).
Qed.

(** What the handler leaves when every processor has a stream. *)
Lemma handler_all n st :
  calm st → (∀ i, (i < n)%nat → is_Some (stream st i)) →
  ∃ st', int_handler n st = Ok st' ∧ half n st st' ∧ m_wait st' = false.
Proof.
  intros HC Hall. destruct (handler_half n st HC Hall) as (st1 & Hr & []).
  unfold int_handler. rewrite Hr, bind_Ok.
  eexists. split; [done|]. by split.
Qed.

(** A processor whose stream has been closed. *)
Lemma half_closed n st st' i :
  calm st → half n st st' → (i < n)%nat → is_Some (stream st i) →
  ∃ c, get_rec st' i = Ok c ∧ use_file st' (fp c) = Ub BadPtr.
Proof.
  intros HC [H1 H2 _ (_ & _ & H6)] Hi [f Hs]. pose proof Hs as Hs0. unfold stream in Hs.
  destruct (recs st !! i) as [c|] eqn:Hc; [|done]. cbn in Hs. exists (with_run c 0). unfold get_rec.
  rewrite H1, Hc, decide_True by done. cbn. rewrite H6, (ca_freed _ HC). split; [done|].
  unfold use_file. rewrite Hs. cbn [or_ub]. rewrite bind_Ok, decide_False; [done|].
  rewrite H2. intros [_ Hf]. by apply (Hf i).
Qed.

Lemma half_main_frees n st st' ok1 ok2 ok3 :
  calm st → half n st st' → m_wait st' = false → main_pc st = MWait →
  ∃ st3, exec_all n [Main ok1; Main ok2; Main ok3] st' = Ok st3 ∧
    freed st3 = true ∧ main_pc st3 = MReturn ∧ workers st3 = workers st ∧
    ∀ i, is_Some (recs st !! i) → is_Some (recs st3 !! i).
Proof.
  intros HC [H1 H2 H3 (H4 & H5 & H6)] Hw Hm. destruct (ca_mwait _ HC Hm) as [f Hf].
  destruct (ca_mine _ HC f Hf) as [Hin _].
  assert (Hopen : f ∈ open_files st').
  { apply H2. split; [done|]. intros i _ Hs. by apply (ca_open _ HC i f Hs). }
  set (s1 := set_main st' MClose).
  set (s2 := set_main (set_files s1 (open_files st' ∖ {[ f ]}) (next_file st')) MFree).
  assert (E1 : exec n (Main ok1) st' = Ok s1)
    by (unfold exec, main_step, main_end; by rewrite H4, Hm, Hw).
  assert (E2 : exec n (Main ok2) s1 = Ok s2).
  { unfold exec, main_step, main_end, fclose, use_file. cbn [s1 set_main main_pc main_fp open_files].
    rewrite H5, Hf. cbn [or_ub]. by rewrite bind_Ok, decide_True. }
  eexists. split.
  - cbn [exec_all]. rewrite E1, bind_Ok, E2, bind_Ok. reflexivity.
  - fields. split; [done|]. split; [done|]. split; [done|]. intros i [c Hc]. cbn. rewrite H1, Hc. by eexists.
Qed.


