(* ===== verification/IpcTest.v ===== *)
(** * The two lock test programs: ipc_test_host.c and ipc_test_slave.c

    Both programs call the functions of the lock interface in a fixed order and
    ignore every result but that of the creation.  A program is the list of its
    calls; a machine runs one call of one process at a time, in any order the
    scheduler likes (the pauses of the source only make some orders likely), and
    a call that has to wait is tried again the next time.  Calls do not overlap:
    what two overlapping creations can do is shown in IpcMutex.

    The host ends while it holds the lock, and the slave asks in its output
    whether that is a deadlock.  The theorem answers it for all such schedules:
    with file locks some process can always go on until both have ended; with the
    mutex the host's death is harmless, but the slave's last two calls take the
    same lock twice, which is undefined for a default mutex. *)

From S2P Require Import Prelude FileMkdir IpcFlock IpcMutex IpcSemsv IpcLock.

Inductive call : Set := CCreate | CLock | CUnlock | CDestroy.

#[global] Instance call_eq_dec : EqDecision call.
Proof. solve_decision. Defined.

(** [argv[2] == NULL] chooses the abnormal end. *)
Definition host_main (abnormal : bool) : list call :=
  [CCreate; CLock; CUnlock; CDestroy; CCreate; CLock; CUnlock] ++
  (if abnormal then [CLock] else [CDestroy]).

Definition slave_main : list call :=
  [CCreate; CDestroy; CCreate; CLock; CUnlock; CLock; CLock; CDestroy].

Section machine.
Context {A K H : Type} `{!EqDecision K, !EqDecision H} (L : ipc_lock_t A K H) (a : A).

(** What is left of a process's program, and its variable [handle]. *)
Record proc := Proc { code : list call; handle : option H }.
Record state := State { shared : K; procs : gmap Z proc }.

#[global] Instance proc_eq_dec : EqDecision proc.
Proof using EqDecision1. solve_decision. Defined.
#[global] Instance state_eq_dec : EqDecision state.
Proof using EqDecision0 EqDecision1.
  refine (λ s t, cast_if_and (decide (procs s = procs t)) (decide (shared s = shared t)));
    destruct s, t; simpl in *; congruence.
Defined.

(** One call of process [pid]; [false] when it has to wait (the kernel may note
    that it does).  A program that has
    come to its end leaves the machine. *)
Definition exec (pid : Z) (st : state) : res (bool * state) :=
  match procs st !! pid with
  | None => mret (false, st)
  | Some (Proc [] _) => mret (true, State (exit_proc L pid (shared st)) (delete pid (procs st)))
  | Some (Proc (c :: cs) h) =>
      let go h' k cs := mret (true, State k (<[pid := Proc cs h']> (procs st))) in
      match c with
      | CCreate =>
          r ← create L a pid (shared st);
          (* a null handle ends the program *)
          match (r : option H * K).1 with Some h' => go (Some h') r.2 cs | None => go None r.2 [] end
      | CLock =>
          r ← lock L pid h (shared st);
          match (r : outcome * option H * K) with
          | (Blocked, _, k) => mret (false, State k (procs st))
          | (Ret _, h', k) => go h' k cs
          end
      | CUnlock => r ← unlock L pid h (shared st); go (r : Z * option H * K).1.2 r.2 cs
      | CDestroy => r ← destroy L pid h (shared st); go (r : Z * option H * K).1.2 r.2 cs
      end
  end.

Fixpoint run (sched : list Z) (st : state) : res state :=
  match sched with
  | [] => mret st
  | pid :: sched => r ← exec pid st; run sched r.2
  end.

(** The host is process 1, the slave process 2. *)
Definition start (k0 : K) (abnormal : bool) : state :=
  State k0 {[ 1 := Proc (host_main abnormal) None; 2 := Proc slave_main None ]}.

(** Some process can do its next call, or both have ended. *)
Definition alive (st : state) : bool :=
  bool_decide (procs st = ∅) ||
  existsb (λ pid, match exec pid st with Ok (b, _) => b | _ => false end) [1; 2].

(** The slave waits in, or is about to make, the second of its two last lock calls. *)
Definition at_second_lock (st : state) : bool :=
  match procs st !! 2 with Some (Proc [CLock; CDestroy] _) => true | _ => false end.

Definition slave_running (st : state) : bool := bool_decide (is_Some (procs st !! 2)).

(** ** All schedules *)

(** [P] holds, and the next call of a process is defined or [Q] holds of the two. *)
Definition checked (P : state → bool) (Q : Z → state → bool) (st : state) : bool :=
  P st && forallb (λ pid, match exec pid st with Ok _ => true | Ub _ => Q pid st | NoFuel => false end) [1; 2].

Definition successors (st : state) : list state :=
  flat_map (λ pid, match exec pid st with
                   | Ok (_, st') => if decide (st' = st) then [] else [st']
                   | _ => []
                   end) [1; 2].

(** All states that [fuel] or fewer rounds of steps lead to are checked, and there
    are no others. *)
Fixpoint everywhere (fuel : nat) (P : state → bool) (Q : Z → state → bool) (sts : list state) : bool :=
  match sts, fuel with
  | [], _ => true
  | _, O => false
  | _, S fuel => forallb (checked P Q) sts && everywhere fuel P Q (remove_dups (flat_map successors sts))
  end.

Lemma everywhere_inv fuel P Q sts st :
  st ∈ sts → everywhere fuel P Q sts = true →
  checked P Q st = true ∧
  ∀ pid b st', pid ∈ [1; 2] → exec pid st = Ok (b, st') → st' ≠ st →
    ∃ fuel' sts', st' ∈ sts' ∧ everywhere fuel' P Q sts' = true.
Proof.
  intros Hin Hev. destruct sts as [|s0 sts]; [by apply elem_of_nil in Hin|].
  destruct fuel as [|fuel]; [done|]. cbn [everywhere] in Hev. apply andb_true_iff in Hev as [Hall Hev].
  rewrite forallb_forall in Hall. split; [by apply Hall, list_elem_of_In|].
  intros pid b st' Hpid He Hne. eexists fuel, _. split; [|done].
  apply elem_of_remove_dups, list_elem_of_In, in_flat_map. exists st. split; [by apply list_elem_of_In|].
  apply in_flat_map. exists pid. split; [by apply list_elem_of_In|].
  rewrite He, decide_False by done. by left.
Qed.

(** Only the two programs run. *)
Definition two (st : state) : Prop := ∀ pid, is_Some (procs st !! pid) → pid = 1 ∨ pid = 2.

Lemma exec_absent pid st : procs st !! pid = None → exec pid st = Ok (false, st).
Proof. intros Hp. unfold exec. by rewrite Hp. Qed.

(** A call changes its own process only. *)
Lemma exec_other pid q st b st' :
  exec pid st = Ok (b, st') → q ≠ pid → procs st' !! q = procs st !! q.
Proof.
  unfold exec. intros He Hq. destruct (procs st !! pid) as [[[|[] cs] h]|]; cbv zeta in He.
  - injection He as <- <-. cbn [procs]. by rewrite lookup_delete_ne.
  - apply bind_Ok_inv in He as ([[] ?] & _ & He); injection He as <- <-; cbn [procs];
      by rewrite lookup_insert_ne.
  - apply bind_Ok_inv in He as ([[[] ?] ?] & _ & He); injection He as <- <-; cbn [procs];
      by rewrite ?lookup_insert_ne.
  - apply bind_Ok_inv in He as (? & _ & He); injection He as <- <-; cbn [procs]; by rewrite lookup_insert_ne.
  - apply bind_Ok_inv in He as (? & _ & He); injection He as <- <-; cbn [procs]; by rewrite lookup_insert_ne.
  - by injection He as <- <-.
Qed.

Lemma exec_two pid st b st' : exec pid st = Ok (b, st') → two st → two st'.
Proof.
  intros He Ht q Hq. destruct (decide (q = pid)) as [->|Hqp].
  - apply Ht. destruct (procs st !! pid) as [p|] eqn:Hp; [eauto|].
    rewrite exec_absent in He by done. injection He as <- <-. by rewrite Hp in Hq.
  - apply Ht. by rewrite <-(exec_other pid q st b st').
Qed.

Lemma everywhere_run fuel P Q sched sts st :
  two st → st ∈ sts → everywhere fuel P Q sts = true →
  (∃ st', run sched st = Ok st' ∧ P st' = true) ∨
  (∃ before pid later st' u, sched = before ++ pid :: later ∧ run before st = Ok st' ∧
     P st' = true ∧ exec pid st' = Ub u ∧ Q pid st' = true).
Proof.
  revert fuel sts st. induction sched as [|pid sched IH]; intros fuel sts st Ht Hin Hev;
    destruct (everywhere_inv fuel P Q sts st Hin Hev) as [[HP Hall]%andb_true_iff Hsucc].
  - left. by exists st.
  - assert (Hnext : ∀ fuel sts b st1, exec pid st = Ok (b, st1) → st1 ∈ sts → everywhere fuel P Q sts = true →
      (∃ st', run (pid :: sched) st = Ok st' ∧ P st' = true) ∨
      (∃ before p later st' u, pid :: sched = before ++ p :: later ∧ run before st = Ok st' ∧
         P st' = true ∧ exec p st' = Ub u ∧ Q p st' = true)).
    { intros fuel' sts' b st1 He Hin' Hev1. cbn [run]. rewrite He, bind_Ok. cbn [snd].
      destruct (IH fuel' sts' st1) as [?|(bef & p & lat & st' & u & -> & Hr & ?)];
        [by eapply exec_two|done|done|auto|].
      right. exists (pid :: bef), p, lat, st', u. cbn [run]. rewrite He, bind_Ok. auto. }
    destruct (procs st !! pid) as [p|] eqn:Hp.
    2:{ apply (Hnext fuel sts false st); [by apply exec_absent|done..]. }
    assert (Hpid : pid ∈ [1; 2]) by (destruct (Ht pid ltac:(eauto)) as [->| ->]; rewrite !elem_of_cons; auto).
    rewrite forallb_forall in Hall. specialize (Hall pid ltac:(by apply list_elem_of_In)).
    destruct (exec pid st) as [[b st1]|u|] eqn:He; [|right; exists [], pid, sched, st, u; auto|done].
    destruct (decide (st1 = st)) as [->|Hne]; [by apply (Hnext fuel sts b st)|].
    destruct (Hsucc pid b st1 Hpid He Hne) as (fuel' & sts' & ? & ?). by apply (Hnext fuel' sts' b st1).
Qed.

Lemma start_two k0 abnormal : two (start k0 abnormal).
Proof.
  intros pid. unfold start. cbn [procs]. 
  destruct (decide (pid = 1)) as [->|H1]; [auto|]. destruct (decide (pid = 2)) as [->|H2]; [auto|].
  rewrite lookup_insert_ne, lookup_singleton_ne by done. by intros [? [=]].
Qed.

End machine.

(** ** The three builds of the test *)

Abbreviation f_lock := (flock_ops resolve_nofollow IpcFlock.ex_name).
Abbreviation m_lock := (mutex_ops IpcMutex.ex_name).
Abbreviation s_lock := (semsv_ops resolve_nofollow IpcSemsv.ex_name IpcSemsv.ex_answers).
Abbreviation f_start := (start IpcFlock.ex_kernel).
Abbreviation m_start := (start IpcMutex.ex_kernel).
Abbreviation s_start := (start IpcSemsv.ex_kernel).

(** At most eighteen calls of a schedule end, and at most six begin to wait, so 26
    rounds reach all states. *)
Lemma flock_everywhere abnormal :
  everywhere f_lock IpcFlock.ex_answers 26 (alive f_lock IpcFlock.ex_answers) (λ _ _, false)
    [f_start abnormal] = true.
Proof. destruct abnormal; vm_compute; reflexivity. Qed.

Lemma mutex_everywhere abnormal :
  everywhere m_lock IpcMutex.ex_answers 26
    (λ st, slave_running st && (alive m_lock IpcMutex.ex_answers st || at_second_lock st))
    (λ pid st, bool_decide (pid = 2) && at_second_lock st &&
       match exec m_lock IpcMutex.ex_answers pid st with Ub BadCall => true | _ => false end)
    [m_start abnormal] = true.
Proof. destruct abnormal; vm_compute; reflexivity. Qed.

Lemma semsv_everywhere abnormal :
  everywhere s_lock IpcSemsv.ex_answers 26
    (λ st, alive s_lock IpcSemsv.ex_answers st || at_second_lock st) (λ _ _, false) [s_start abnormal] = true.
Proof. destruct abnormal; vm_compute; reflexivity. Qed.

Lemma semsv_stuck abnormal :
  match run s_lock IpcSemsv.ex_answers (replicate 9 1 ++ replicate 6 2) (s_start abnormal) with
  | Ok st => negb (alive s_lock IpcSemsv.ex_answers st)
  | _ => false
  end = true.
Proof. destruct abnormal; vm_compute; reflexivity. Qed.

(** C13: (liveness) The slave's question whether the host's end is a deadlock, for
    every schedule of the two programs and both ends of the host, on an empty
    system where all creations succeed; each call is one step, so overlapping
    creations ([mutex_create_race]) are not among the schedules.  With file locks
    a process can always go on until both have ended, and no call is undefined.
    With the mutex the slave never ends: the host's end, in or outside the
    critical section, never stops anybody, and the only place where nothing can go
    on is the second of the slave's two last lock calls; that call, by the owner of
    a default mutex, is undefined (a deadlock in practice), and no other call is.
    With the semaphore that place is also the only one where nothing can go on,
    whether it is reached depends on the schedule (also on whether the slave waits
    when the host removes the set), and no call is undefined. *)
Theorem ipc_test_deadlock (abnormal : bool) (sched : list Z) :
  (∃ st, run f_lock IpcFlock.ex_answers sched (f_start abnormal) = Ok st ∧
     alive f_lock IpcFlock.ex_answers st = true) ∧
  ((∃ st, run m_lock IpcMutex.ex_answers sched (m_start abnormal) = Ok st ∧
      slave_running st = true ∧
      (alive m_lock IpcMutex.ex_answers st = true ∨ at_second_lock st = true)) ∨
   (∃ before later st, sched = before ++ 2 :: later ∧
      run m_lock IpcMutex.ex_answers before (m_start abnormal) = Ok st ∧
      at_second_lock st = true ∧ exec m_lock IpcMutex.ex_answers 2 st = Ub BadCall)) ∧
  (∃ st, run s_lock IpcSemsv.ex_answers sched (s_start abnormal) = Ok st ∧
     (alive s_lock IpcSemsv.ex_answers st = true ∨ at_second_lock st = true)) ∧
  (∃ k, run s_lock IpcSemsv.ex_answers ([1; 1; 1; 2; 2; 2; 1] ++ replicate 6 2 ++ replicate 5 1)
          (s_start abnormal) = Ok (State k ∅)) ∧
  (∃ st, run s_lock IpcSemsv.ex_answers (replicate 9 1 ++ replicate 6 2) (s_start abnormal) = Ok st ∧
     alive s_lock IpcSemsv.ex_answers st = false).
Proof.
  split; [|split; [|split; [|split]]].
  - destruct (everywhere_run f_lock IpcFlock.ex_answers _ _ _ sched _ _ (start_two _ _) (list_elem_of_here _ _) (flock_everywhere abnormal))
      as [?|(? & ? & ? & ? & ? & _ & _ & _ & _ & [=])]; done.
  - destruct (everywhere_run m_lock IpcMutex.ex_answers _ _ _ sched _ _ (start_two _ _) (list_elem_of_here _ _) (mutex_everywhere abnormal))
      as [(st & -> & [? ?%orb_true_iff]%andb_true_iff)|(bef & p & lat & st & u & -> & Hr & _ & He & HQ)]; [eauto|].
    right. apply andb_true_iff in HQ as [[->%bool_decide_eq_true Hat]%andb_true_iff Hub].
    rewrite He in Hub. exists bef, lat, st. rewrite He. by destruct u.
  - destruct (everywhere_run s_lock IpcSemsv.ex_answers _ _ _ sched _ _ (start_two _ _) (list_elem_of_here _ _) (semsv_everywhere abnormal))
      as [(st & -> & ?%orb_true_iff)|(? & ? & ? & ? & ? & _ & _ & _ & _ & [=])]. eauto.
  - destruct abnormal; eexists; vm_compute; reflexivity.
  - pose proof (semsv_stuck abnormal) as Hs.
    destruct (run _ _ (replicate 9 1 ++ replicate 6 2) _) as [st| |]; [|done..]. exists st.
    split; [done|]. by apply negb_true_iff.
Qed.
