(* ===== verification/GpioIrq.v ===== *)
(** * GpioIrq: waiting for a pin to change, linux/gpio/gpio_irq.c

    An interrupt object keeps a descriptor on the value file of a pin and a
    function to call; [gpio_irq_monitor] waits on the descriptor and passes the
    value it reads to the function.  Descriptors are the table of open files of
    the process, with the access mode and the offset of each; the pins below it
    are the class [GpioFs] of Gpio.v.

    The file does not compile as it stands.  Two repairs are read into it:
    [gpio_irq_create] names [ngpio], which is [gpio_irq->ngpio], and
    [gpio_irq_monitor] passes [&timeout] where it prepared [tv].

    Theorems: creating an interrupt makes the pin an input with the asked edge
    detection, if it has the files for both (the failures are ignored), and keeps one descriptor, which destroying it gives back; the
    descriptor is write-only, so that the function is told 0 at every wake-up,
    while the same loop over a readable descriptor tells it the level. *)

From S2P Require Import Prelude Gpio FileUtils.
#[local] Open Scope Z_scope.

(** ** Open files of the process *)

Inductive access_mode := O_RDONLY | O_WRONLY.
Record ofile := OFile { of_file : file; of_mode : access_mode; of_pos : nat }.

Record proc (F : Type) := Proc { sys : F; fds : gmap Z ofile }.
Arguments Proc {F} _ _.
Arguments sys {F} _.
Arguments fds {F} _.

(** The lowest descriptor that is not in use. *)
Fixpoint lowest_from (n : nat) (i : Z) (t : gmap Z ofile) : Z :=
  match n with
  | O => i
  | S n => if decide (t !! i = None) then i else lowest_from n (i + 1) t
  end.
Definition lowest_free (t : gmap Z ofile) : Z := lowest_from (size t) 0 t.

Definition bytes (s : string) : list Z :=
  (λ c, Z.of_nat (Ascii.nat_of_ascii c)) <$> String.list_ascii_of_string s.

Definition FD_SETSIZE : Z := 1024.

(** [atoi(buf)] reads up to the first character that is no part of the number:
    a buffer without one is overrun. *)
Definition unsigned_part (l : list Z) : list Z :=
  match skip_blanks l with
  | c :: l' => if decide (c = 43 ∨ c = 45) then l' else c :: l'
  | [] => []
  end.
Definition atoi_buf (buf : list Z) : res Z :=
  if forallb (λ c, bool_decide (48 ≤ c ≤ 57)) (unsigned_part buf)
  then Ub OutOfBounds else atoi buf.

(** How [select] came back. *)
Inductive wake := Interrupted | Timeout | Ready.
#[global] Instance wake_eq_dec : EqDecision wake.
Proof. solve_decision. Defined.

(** The call [func(irq_param, val)]. *)
Record call := Call { c_func : Z; c_arg : Z; c_val : Z }.

(** Fields that were never written are [None]; functions are addresses, 0 is
    the null pointer. *)
Record gpio_irq_t := GpioIrq {
  fd : option Z;
  ngpio : option Z;
  irq_param : option Z;
  func : option Z;
}.

Section irq.
Context {F : Type} `{!GpioFs F}.
Implicit Types (s : proc F) (g : gpio_irq_t).

Definition open_file s (x : file) (m : access_mode) : Z * proc F :=
  if fs_open (sys s) x then
    let n := lowest_free (fds s) in (n, Proc (sys s) (<[n := OFile x m 0]> (fds s)))
  else (-1, s).

(** [read(fd, buf, n)]: what it returns and the bytes it stores. *)
Definition read s (d : Z) (n : nat) : Z * list Z * proc F :=
  match fds s !! d with
  | Some (OFile x O_RDONLY pos) =>
      let l := take n (drop pos (bytes (fs_read (sys s) x))) in
      (Z.of_nat (length l), l, Proc (sys s) (<[d := OFile x O_RDONLY (pos + length l)%nat]> (fds s)))
  | _ => (-1, [], s)
  end.

(** [lseek(fd, 0, SEEK_SET)] *)
Definition rewind s (d : Z) : proc F :=
  match fds s !! d with
  | Some (OFile x m _) => Proc (sys s) (<[d := OFile x m 0]> (fds s))
  | None => s
  end.

Definition close_file s (d : Z) : proc F := Proc (sys s) (delete d (fds s)).

(** [select] on the set that holds [d] alone; a closed descriptor is an error. *)
Definition select s (d : Z) (w : wake) : Z :=
  if decide (fds s !! d = None) then -1
  else match w with Interrupted => -1 | Timeout => 0 | Ready => 1 end.

(** ** gpio_irq.c *)

Definition register_gpio_irq g (n fn arg : Z) : Z * gpio_irq_t :=
  (0, GpioIrq (fd g) (Some n) (Some arg) (Some fn)).

Definition gpio_irq_create s g (e : gpio_edge_e) : res (Z * gpio_irq_t * proc F) :=
  n ← or_ub Uninit (ngpio g);
  let f := sys s in
  let f := if decide (gpio_base_is_exist f n = 0) then (gpio_base_export f n).2 else f in
  let f := (gpio_base_set_direction f n GPIO_DIR_INPUT).2 in
  let f := (gpio_base_set_edge f n e).2 in
  let '(d, s) := open_file (Proc f (fds s)) (Attr n Value) O_WRONLY in
  if decide (d < 0) then mret (-1, g, s)
  else
    let '(_, _, s) := read s d 64 in
    let s := rewind s d in
    mret (0, GpioIrq (Some d) (ngpio g) (irq_param g) (func g), s).

Definition gpio_irq_destroy s g : res (Z * proc F) :=
  d ← or_ub Uninit (fd g); mret (0, close_file s d).

Definition gpio_irq_monitor s g (w : wake) : res (Z * list call * proc F) :=
  d ← or_ub Uninit (fd g);
  if decide (0 ≤ d < FD_SETSIZE) then
    let ret := select s d w in
    if decide (ret < 0) then mret (ret, [], s)
    else if decide (0 = ret) then mret (ret, [], s)
    else
      let '(_, l, s) := read s d 4 in
      let buf := l ++ replicate (4 - length l) 0 in
      let s := rewind s d in
      fn ← or_ub Uninit (func g);
      arg ← or_ub Uninit (irq_param g);
      val ← atoi_buf buf;
      if decide (fn = 0) then Ub NullDeref else mret (ret, [Call fn arg val], s)
  else Ub OutOfBounds.

(** A thread that keeps monitoring; before each round the kernel is in a state
    of its own choice. *)
Fixpoint monitor_rounds s g (rounds : list (F * wake)) : res (list call * proc F) :=
  match rounds with
  | [] => mret ([], s)
  | (f, w) :: rounds =>
      '(_, c, s) ← gpio_irq_monitor (Proc f (fds s)) g w;
      '(cs, s) ← monitor_rounds s g rounds;
      mret (c ++ cs, s)
  end.

(** ** Descriptors *)

Lemma lowest_from_used n i (t : gmap Z ofile) :
  t !! lowest_from n i t ≠ None → ∀ j, i ≤ j ≤ i + Z.of_nat n → is_Some (t !! j).
Proof.
  revert i. induction n as [|n IH]; intros i Hu j Hj; cbn in Hu.
  - replace j with i by lia. by apply not_eq_None_Some.
  - destruct (decide (t !! i = None)) as [Hi|Hi]; [done|].
    destruct (decide (j = i)) as [->|]; [by apply not_eq_None_Some|]. apply (IH (i + 1) Hu). lia.
Qed.

Lemma lowest_from_ge n i t : i ≤ lowest_from n i t.
Proof.
  revert i. induction n as [|n IH]; intros i; cbn; [lia|].
  case_decide; [lia|]. specialize (IH (i + 1)). lia.
Qed.

Lemma lowest_free_spec t : 0 ≤ lowest_free t ∧ t !! lowest_free t = None.
Proof.
  split; [apply lowest_from_ge|]. destruct (decide (t !! lowest_free t = None)) as [|Hu]; [done|].
  exfalso. pose proof (lowest_from_used _ _ _ Hu) as Ha.
  assert (Hs : (list_to_set (seqZ 0 (Z.of_nat (S (size t)))) : gset Z) ⊆ dom t).
  { intros j Hj. apply elem_of_list_to_set, elem_of_seqZ in Hj. apply elem_of_dom, Ha. lia. }
  apply subseteq_size in Hs. rewrite size_list_to_set in Hs by apply NoDup_seqZ.
  rewrite length_seqZ, size_dom in Hs. lia.
Qed.

(** ** Creating an interrupt *)

Lemma make_interrupt f n e :
  available f n → e ≠ GPIO_EDGE_BUTT →
  ∃ p, pins (gpio_base_set_edge
               (gpio_base_set_direction (ensure_exported f n) n GPIO_DIR_INPUT).2 n e).2 n = Some p ∧
       (has n Direction = true → dir p = GPIO_DIR_INPUT ∧ (has n Edge = true → edge p = e)) ∧
       (has n Edge = false → edge p = GPIO_EDGE_NONE).
Proof.
  intros Hav He. destruct (ensure_exported_spec f n Hav) as (p0 & Hp0 & _ & _).
  destruct (set_in_spec _ n p0 Hp0) as (p & Hp & _ & Hd).
  set (f1 := (gpio_base_set_direction _ n GPIO_DIR_INPUT).2) in *.
  destruct (has n Direction) eqn:Hh; [|destruct (has n Edge) eqn:Hh'].
  - destruct (set_edge_spec f1 n p e Hp Hd He) as (q & Hq & Hqd & Hqe). exists q. rewrite Hqe.
    split; [done|]. by destruct (has n Edge).
  - unfold gpio_base_set_edge. rewrite decide_False, (fs_attr_open f1 n Edge p Hp), Hh' by done. cbn [snd].
    destruct (fs_keeps f1 n p Edge (edge_word e) Hp) as [q Hq]. by exists q.
  - unfold gpio_base_set_edge. rewrite decide_False, (fs_attr_open f1 n Edge p Hp), Hh' by done. cbn [snd].
    exists p. split; [done|]. split; [done|]. intros _. by apply (fs_no_edge f1 n).
Qed.

Lemma gpio_irq_create_ok s g n e :
  ngpio g = Some n → available (sys s) n → e ≠ GPIO_EDGE_BUTT →
  ∃ f p, gpio_irq_create s g e =
      Ok (0, GpioIrq (Some (lowest_free (fds s))) (ngpio g) (irq_param g) (func g),
          Proc f (<[lowest_free (fds s) := OFile (Attr n Value) O_WRONLY 0]> (fds s))) ∧
    pins f n = Some p ∧ (has n Direction = true → dir p = GPIO_DIR_INPUT ∧ (has n Edge = true → edge p = e)) ∧
    (has n Edge = false → edge p = GPIO_EDGE_NONE).
Proof.
  intros Hn Hav He. destruct (make_interrupt _ _ _ Hav He) as (p & Hp & Hd & Hedge).
  eexists _, p. split_and!; [|exact Hp|done|done]. unfold gpio_irq_create. rewrite Hn. cbn [or_ub].
  rewrite bind_Ok. cbv zeta. fold (ensure_exported (sys s) n). unfold open_file. cbn [sys fds].
  rewrite (fs_attr_open _ n Value p Hp), has_value.
  rewrite decide_False by (pose proof (proj1 (lowest_free_spec (fds s))); lia).
  unfold read. cbn [fds]. rewrite lookup_insert_eq. unfold rewind. cbn [fds sys].
  by rewrite lookup_insert_eq, insert_insert_eq.
Qed.

(** Without the pin nothing is kept. *)
Lemma gpio_irq_create_no_pin s g n e :
  ngpio g = Some n → pins (ensure_exported (sys s) n) n = None →
  gpio_irq_create s g e = Ok (-1, g, Proc (ensure_exported (sys s) n) (fds s)).
Proof.
  intros Hn Hp. unfold gpio_irq_create. rewrite Hn. cbn [or_ub]. rewrite bind_Ok. cbv zeta.
  fold (ensure_exported (sys s) n). unfold gpio_base_set_direction.
  rewrite (decide_False (P := GPIO_DIR_INPUT = GPIO_DIR_BUTT)), (fs_attr_closed _ n Direction Hp) by done.
  cbn [snd]. unfold gpio_base_set_edge, open_file. rewrite (fs_attr_closed _ n Edge Hp).
  destruct (decide (e = GPIO_EDGE_BUTT)); cbn [snd sys];
    by rewrite (fs_attr_closed _ n Value Hp), decide_True by done.
Qed.

(** ** Monitoring *)

(** What a round tells the function: a write-only descriptor yields nothing. *)
Definition seen (m : access_mode) (n : Z) (f : F) : Z :=
  match m, pins f n with
  | O_RDONLY, Some p => if level p then 1 else 0
  | _, _ => 0
  end.

Lemma gpio_irq_monitor_spec f t d n m g fn arg w :
  fd g = Some d → func g = Some fn → irq_param g = Some arg → fn ≠ 0 →
  0 ≤ d < FD_SETSIZE → t !! d = Some (OFile (Attr n Value) m 0) →
  (m = O_RDONLY → is_Some (pins f n)) →
  gpio_irq_monitor (Proc f t) g w =
    Ok (select (Proc f t) d w,
        (if decide (w = Ready) then [Call fn arg (seen m n f)] else []), Proc f t).
Proof.
  intros Hd Hfn Harg Hnz Hb Ht Hm. unfold gpio_irq_monitor. rewrite Hd. cbn [or_ub]. rewrite bind_Ok.
  rewrite decide_True by done. cbv zeta. unfold select. cbn [fds].
  rewrite (decide_False (P := t !! d = None)) by (by rewrite Ht).
  destruct w; [done|done|]. rewrite decide_False, decide_False by lia.
  rewrite decide_True by done. unfold read. cbn [fds sys]. rewrite Ht. destruct m.
  - destruct Hm as [p Hp]; [done|]. rewrite (fs_read_value f n p Hp). unfold rewind. cbn [fds sys].
    rewrite lookup_insert_eq, insert_insert_eq, insert_id by done. rewrite Hfn, Harg. cbn [or_ub].
    rewrite !bind_Ok. unfold seen. rewrite Hp.
    match goal with |- context [atoi_buf ?b] =>
      assert (atoi_buf b = Ok (if level p then 1 else 0)) as -> by (by destruct (level p)) end.
    rewrite bind_Ok. by rewrite decide_False.
  - unfold rewind. cbn [fds sys]. rewrite Ht, insert_id by done. rewrite Hfn, Harg. cbn [or_ub].
    rewrite !bind_Ok. change (atoi_buf _) with (Ok 0). rewrite bind_Ok. by rewrite decide_False.
Qed.

Lemma monitor_rounds_spec rounds f t d n m g fn arg :
  fd g = Some d → func g = Some fn → irq_param g = Some arg → fn ≠ 0 →
  0 ≤ d < FD_SETSIZE → t !! d = Some (OFile (Attr n Value) m 0) →
  (m = O_RDONLY → Forall (λ r, is_Some (pins r.1 n)) rounds) →
  ∃ f', monitor_rounds (Proc f t) g rounds =
    Ok ((λ r, Call fn arg (seen m n r.1)) <$> filter (λ r, r.2 = Ready) rounds, Proc f' t).
Proof.
  intros Hd Hfn Harg Hnz Hb Ht. revert f. induction rounds as [|[f1 w] rounds IH]; intros f Hm.
  - by exists f.
  - destruct (IH f1) as [f' Hr]; [intros E; by apply Forall_cons in Hm as [_ ?]|]. exists f'.
    cbn [monitor_rounds fds].
    rewrite (gpio_irq_monitor_spec f1 t d n m g fn arg) by
      (done || (intros E; by apply Forall_cons in Hm as [? _])).
    rewrite bind_Ok, Hr, bind_Ok, filter_cons. cbn [snd]. by case_decide.
Qed.

(** C25: (functional) an interrupt on a pin that is exported or can be:
    registering and creating it returns 0, makes the pin an input if it has a
    direction file, with exactly the asked edge detection if it has an edge file
    too (without one there is no edge detection, although 0 is returned), and keeps one more descriptor, the lowest free one
    (which must be below [FD_SETSIZE]).  Monitoring then runs without undefined
    behaviour for any number of rounds, calls the registered function once for
    each round in which the descriptor was ready and never on a timeout or an
    error, and leaves the descriptor as it was; destroying the interrupt gives
    back exactly that descriptor.  But [gpio_irq_create] opens the value file
    write-only, every read fails, and the function is told 0 whatever the level
    of the pin; over a readable descriptor ([m] is [O_RDONLY]) the same rounds
    tell it the level. *)
Theorem gpio_irq_lifecycle (s : proc F) (g0 : gpio_irq_t) (n fn arg : Z) (e : gpio_edge_e)
    (rounds : list (F * wake)) :
  available (sys s) n → e ≠ GPIO_EDGE_BUTT → fn ≠ 0 → lowest_free (fds s) < FD_SETSIZE →
  ∃ g s1 s2 d p,
    gpio_irq_create s (register_gpio_irq g0 n fn arg).2 e = Ok (0, g, s1) ∧
    pins (sys s1) n = Some p ∧
    (has n Direction = true → dir p = GPIO_DIR_INPUT ∧ (has n Edge = true → edge p = e)) ∧
    (has n Edge = false → edge p = GPIO_EDGE_NONE) ∧
    fds s !! d = None ∧ fds s1 = <[d := OFile (Attr n Value) O_WRONLY 0]> (fds s) ∧
    monitor_rounds s1 g rounds =
      Ok ((λ _, Call fn arg 0) <$> filter (λ r, r.2 = Ready) rounds, s2) ∧
    gpio_irq_destroy s2 g = Ok (0, Proc (sys s2) (fds s)) ∧
    (Forall (λ r, is_Some (pins r.1 n)) rounds →
     ∃ s3, monitor_rounds (Proc (sys s1) (<[d := OFile (Attr n Value) O_RDONLY 0]> (fds s))) g rounds =
       Ok ((λ r, Call fn arg (seen O_RDONLY n r.1)) <$> filter (λ r, r.2 = Ready) rounds, s3)).
Proof.
  intros Hav He Hfn Hlt. destruct (lowest_free_spec (fds s)) as [Hge Hfree].
  destruct (gpio_irq_create_ok s (register_gpio_irq g0 n fn arg).2 n e eq_refl Hav He)
    as (f & p & Hc & Hp & Hd & Hedge).
  set (d := lowest_free (fds s)) in *. set (g := GpioIrq _ _ _ _) in Hc.
  destruct (monitor_rounds_spec rounds f (<[d := OFile (Attr n Value) O_WRONLY 0]> (fds s))
    d n O_WRONLY g fn arg) as [f' Hr]; try done; [by rewrite lookup_insert_eq|].
  eexists g, _, (Proc f' _), d, p.
  split_and!; [exact Hc|exact Hp|exact Hd|exact Hedge|exact Hfree|done|exact Hr| |].
  - unfold gpio_irq_destroy. cbn [fd g or_ub]. rewrite bind_Ok. unfold close_file. cbn [fds sys]. by rewrite delete_insert_id.
  - intros Hall. edestruct (monitor_rounds_spec rounds f
      (<[d := OFile (Attr n Value) O_RDONLY 0]> (fds s)) d n O_RDONLY g fn arg) as [f3 H3];
      try done; [by rewrite lookup_insert_eq|by eexists].
Qed.

End irq.

(** Pin 17 of a process that has its three standard streams; it is high at the
    first wake-up and low at the second, with a timeout in between. *)
Definition ex_high : gmap Z pin := {[ 17 := Pin GPIO_DIR_INPUT GPIO_EDGE_BOTH true ]}.
Definition ex_low : gmap Z pin := {[ 17 := Pin GPIO_DIR_INPUT GPIO_EDGE_BOTH false ]}.
Definition ex_proc : proc (gmap Z pin) :=
  Proc ∅ (list_to_map ((λ i, (i, OFile Export O_RDONLY 0)) <$> [0; 1; 2])).

Lemma gpio_irq_lifecycle_witness :
  ∃ g s1 s2 d p,
    gpio_irq_create ex_proc (register_gpio_irq (GpioIrq None None None None) 17 4096 7).2
      GPIO_EDGE_BOTH = Ok (0, g, s1) ∧
    pins (sys s1) 17 = Some p ∧ dir p = GPIO_DIR_INPUT ∧ edge p = GPIO_EDGE_BOTH ∧
    fds ex_proc !! d = None ∧ fds s1 = <[d := OFile (Attr 17 Value) O_WRONLY 0]> (fds ex_proc) ∧
    monitor_rounds s1 g [(ex_high, Ready); (ex_low, Timeout); (ex_low, Ready)] =
      Ok ([Call 4096 7 0; Call 4096 7 0], s2) ∧
    gpio_irq_destroy s2 g = Ok (0, Proc (sys s2) (fds ex_proc)) ∧
    ∃ s3, monitor_rounds (Proc (sys s1) (<[d := OFile (Attr 17 Value) O_RDONLY 0]> (fds ex_proc))) g
        [(ex_high, Ready); (ex_low, Timeout); (ex_low, Ready)] =
      Ok ([Call 4096 7 1; Call 4096 7 0], s3).
Proof.
  destruct (gpio_irq_lifecycle ex_proc (GpioIrq None None None None) 17 4096 7 GPIO_EDGE_BOTH
    [(ex_high, Ready); (ex_low, Timeout); (ex_low, Ready)])
    as (g & s1 & s2 & d & p & H1 & H2 & H3 & H4 & H5 & H6 & H7 & H8 & H9);
    [right; split; [done|by left]|done|done|by vm_compute|].
  exists g, s1, s2, d, p. destruct (H3 eq_refl) as [H3a H3b]. split_and!; try done.
  - by apply H3b.
  - apply H9. repeat constructor; by eexists.
Defined.
