(* ===== verification/PoolList.v ===== *)
(** * Pool of fixed-size elements: list/pool_list.c

    A pool keeps its elements on two rings, free and available, and the blocks
    they were cut from on a third.  A block is one [calloc]: a list node that
    chains the blocks, the data areas of its elements, and behind them the
    element headers ([pool_elem_t]: a list node and the address of the data).

    The file does not compile as it stands.  The model reads it with the four
    repairs its text calls for: [elem] is declared in [expand_pool_list] as the
    [pool_elem_t *] it is assigned, [expand_pool] is [expand_pool_list], [pool] is
    the first parameter of [pool_list_set_limit], and [elem] the second one of the
    two put functions.

    [apool] is the abstract pool: three lists of elements (free, available, in
    the hands of clients) and the blocks.  Theorems: every sequence of calls of a
    client that puts back only what it holds behaves like the abstract pool, with
    no undefined behaviour; and in every state so reached each element is in
    exactly one of the three places, the data areas of different elements are
    disjoint, and the counters are exact. *)

From S2P Require Import Prelude KList.

(** The members [slub], [free] and [available] are list nodes at the beginning of
    the object. *)
Record pool_list_t := Pool {
  pl_addr : Z;
  free_num : Z;
  cur_slub : Z;
  max_slub : Z;
  elem_size : Z;
  prealloc_num : Z
}.

Definition slub (p : pool_list_t) : Z := pl_addr p.
Definition free (p : pool_list_t) : Z := pl_addr p + 16.
Definition available (p : pool_list_t) : Z := pl_addr p + 32.
Definition sizeof_pool_list_t : Z := 72.

Definition sizeof_list_head : Z := 16.
Definition sizeof_pool_elem_t : Z := 24.
Definition PREALLOC_NUM : Z := 16.

(** The list nodes in memory, the members [addr] of the elements, and the pool. *)
Record pstate := PState { nodes : heap; addrs : gmap Z Z; pool : pool_list_t }.

(** The argument of [calloc], computed in [size_t]. *)
Definition block_size (num size : Z) : Z :=
  u64 (sizeof_list_head + u64 (u64 num * (u64 size + sizeof_pool_elem_t))).

(** Where the headers of a block lie. *)
Definition elem_at (base num size i : Z) : Z :=
  base + sizeof_list_head + num * size + sizeof_pool_elem_t * i.
Definition data_at (base size i : Z) : Z := base + sizeof_list_head + i * size.

(** The zeroed block, seen as the list nodes that fit into it. *)
Definition new_nodes (base num size : Z) : list Z :=
  filter (λ p, p + sizeof_pool_elem_t ≤ base + block_size num size ∨ p = base)
    (base :: ((λ i, elem_at base num size (Z.of_nat i)) <$> seq 0 (Z.to_nat num))).
Definition calloc_nodes (ps : list Z) (h : heap) : heap :=
  foldr (λ p, <[p := ListHead NULL NULL]>) h ps.

(** [calloc_ret] is the address of the block, or null.  An element that is not
    aligned is no object. *)
Definition expand_pool_list (calloc_ret : option Z) (num size : Z) (st : pstate) : res (Z * pstate) :=
  match calloc_ret with
  | None => mret (-1, st)
  | Some ptr =>
      let h := calloc_nodes (new_nodes ptr num size) (nodes st) in
      h ← Klist.list_add h ptr (slub (pool st));
      off ← signed_op 32 (num * size);
      let elem := ptr + sizeof_list_head + off in
      r ← for_up (Z.to_nat num) 0
            (λ i r,
               let e := elem + sizeof_pool_elem_t * i in
               if decide (e mod 8 = 0) then
                 h ← Klist.list_add r.1.1 e (free (pool st));
                 mret (h, <[e := r.2]> r.1.2, r.2 + size)
               else Ub BadPtr)
            (h, addrs st, ptr + sizeof_list_head);
      let p := pool st in
      n ← signed_op 32 (free_num p + num);
      mret (0, PState r.1.1 r.1.2
                 (Pool (pl_addr p) n (cur_slub p) (max_slub p) (elem_size p) (prealloc_num p)))
  end.

(** [cur_slub] keeps what the memory held. *)
Definition pool_list_init (size : Z) (st : pstate) : res (Z * pstate) :=
  let p := pool st in
  h ← Klist.INIT_LIST_HEAD (nodes st) (available p);
  h ← Klist.INIT_LIST_HEAD h (free p);
  h ← Klist.INIT_LIST_HEAD h (slub p);
  mret (0, PState h (addrs st) (Pool (pl_addr p) 0 (cur_slub p) (u32 (-1)) size PREALLOC_NUM)).

Definition pool_list_set_limit (max prealloc : Z) (st : pstate) : Z * pstate :=
  let p := pool st in
  (0, PState (nodes st) (addrs st)
        (Pool (pl_addr p) (free_num p) (cur_slub p) (u32 max) (elem_size p) prealloc)).

(** The two tests of [max_slub] compare as [unsigned int]. *)
Definition may_expand (p : pool_list_t) : bool :=
  bool_decide (u32 (-1) = max_slub p ∨ u32 (cur_slub p) < max_slub p).

(** The second half of [pool_list_get_free_elem]. *)
Definition take_free (st : pstate) : res (Z * pstate) :=
  e ← Klist.list_empty (nodes st) (free (pool st));
  if (e : bool) then mret (NULL, st)
  else
    let p := pool st in
    elem ← Klist.list_first_entry (nodes st) (free p) 0;
    h ← Klist.list_del (nodes st) elem;
    n ← signed_op 32 (free_num p - 1);
    mret (elem, PState h (addrs st)
                  (Pool (pl_addr p) n (cur_slub p) (max_slub p) (elem_size p) (prealloc_num p))).

Definition pool_list_get_free_elem (calloc_ret : option Z) (st : pstate) : res (Z * pstate) :=
  e ← Klist.list_empty (nodes st) (free (pool st));
  st ← (if (e : bool) && may_expand (pool st) then
          r ← expand_pool_list calloc_ret (prealloc_num (pool st)) (elem_size (pool st)) st;
          let (ret, st) := (r : Z * pstate) in
          if decide (0 = ret) then
            let p := pool st in
            c ← signed_op 32 (cur_slub p + 1);
            mret (PState (nodes st) (addrs st)
                    (Pool (pl_addr p) (free_num p) c (max_slub p) (elem_size p) (prealloc_num p)))
          else mret st
        else mret st);
  take_free st.

Definition pool_list_put_available_elem (elem : Z) (st : pstate) : res (Z * pstate) :=
  h ← Klist.list_add_tail (nodes st) elem (available (pool st));
  mret (0, PState h (addrs st) (pool st)).

(** The element stays on the ring. *)
Definition pool_list_get_available_elem (st : pstate) : res (Z * pstate) :=
  e ← Klist.list_empty (nodes st) (available (pool st));
  if (e : bool) then mret (NULL, st)
  else
    elem ← Klist.list_first_entry (nodes st) (available (pool st)) 0;
    mret (elem, st).

Definition pool_list_put_free_elem (elem : Z) (st : pstate) : res (Z * pstate) :=
  h ← Klist.list_move (nodes st) elem (free (pool st));
  let p := pool st in
  n ← signed_op 32 (free_num p + 1);
  mret (0, PState h (addrs st)
             (Pool (pl_addr p) n (cur_slub p) (max_slub p) (elem_size p) (prealloc_num p))).

(** ** The abstract pool *)

(** A block: its address and the number of its elements. *)
Record slab := Slab { sb_base : Z; sb_num : Z }.
#[global] Instance slab_eq_dec : EqDecision slab.
Proof. solve_decision. Defined.

Record apool := APool {
  a_free : list Z;
  a_avail : list Z;
  a_held : list Z;
  a_slabs : list slab;
  a_cur : Z;
  a_max : Z;
  a_num : Z
}.

Definition slab_elems (size : Z) (s : slab) : list Z :=
  (λ i, elem_at (sb_base s) (sb_num s) size (Z.of_nat i)) <$> seq 0 (Z.to_nat (sb_num s)).

(** The calls of a client, with what [calloc] would answer. *)
Inductive call :=
  | GetFree (calloc_ret : option Z)
  | PutAvailable (elem : Z)
  | GetAvailable
  | PutFree (elem : Z)
  | SetLimit (max prealloc : Z).

(** One call; [size] is the element size. *)
Definition a_expand (size : Z) (ret : option Z) (a : apool) : apool :=
  if decide (a_free a = [] ∧ (a_max a = u32 (-1) ∨ u32 (a_cur a) < a_max a)) then
    match ret with
    | None => a
    | Some base =>
        APool (reverse (slab_elems size (Slab base (a_num a)))) (a_avail a) (a_held a)
              (Slab base (a_num a) :: a_slabs a) (a_cur a + 1) (a_max a) (a_num a)
    end
  else a.

Definition a_take (a : apool) : Z * apool :=
  match a_free a with
  | [] => (NULL, a)
  | e :: fr => (e, APool fr (a_avail a) (e :: a_held a) (a_slabs a) (a_cur a) (a_max a) (a_num a))
  end.

Definition a_call (size : Z) (c : call) (a : apool) : Z * apool :=
  match c with
  | GetFree ret => a_take (a_expand size ret a)
  | PutAvailable e =>
      (0, APool (a_free a) (a_avail a ++ [e]) (filter (.≠ e) (a_held a)) (a_slabs a)
            (a_cur a) (a_max a) (a_num a))
  | GetAvailable => (hd NULL (a_avail a), a)
  | PutFree e =>
      (0, APool (e :: a_free a) (filter (.≠ e) (a_avail a)) (a_held a) (a_slabs a)
            (a_cur a) (a_max a) (a_num a))
  | SetLimit m n => (0, APool (a_free a) (a_avail a) (a_held a) (a_slabs a) (a_cur a) (u32 m) n)
  end.

Definition c_call (c : call) (st : pstate) : res (Z * pstate) :=
  match c with
  | GetFree ret => pool_list_get_free_elem ret st
  | PutAvailable e => pool_list_put_available_elem e st
  | GetAvailable => pool_list_get_available_elem st
  | PutFree e => pool_list_put_free_elem e st
  | SetLimit m n => mret (pool_list_set_limit m n st)
  end.

Fixpoint c_run (cs : list call) (st : pstate) : res (list Z * pstate) :=
  match cs with
  | [] => mret ([], st)
  | c :: cs => r ← c_call c st; t ← c_run cs r.2; mret (r.1 :: t.1, t.2)
  end.

Fixpoint a_run (size : Z) (cs : list call) (a : apool) : list Z * apool :=
  match cs with
  | [] => ([], a)
  | c :: cs => let r := a_call size c a in let t := a_run size cs r.2 in (r.1 :: t.1, t.2)
  end.

Definition all_elems (size : Z) (ss : list slab) : list Z := concat (slab_elems size <$> ss).

(** The bytes of a block. *)
Definition slab_len (size : Z) (s : slab) : Z :=
  sizeof_list_head + sb_num s * (size + sizeof_pool_elem_t).
Definition apart (a la b lb : Z) : Prop := a + la ≤ b ∨ b + lb ≤ a.

(** What a client keeps to, and what the allocator promises: a new block overlaps
    neither the pool object nor an older block.  The counters are [int]. *)
Definition call_ok (size at_ : Z) (c : call) (a : apool) : Prop :=
  match c with
  | GetFree (Some base) =>
      0 < base ∧ base mod 8 = 0 ∧ a_cur a + 1 < 2 ^ 31 ∧
      Z.of_nat (length (all_elems size (a_slabs a))) + a_num a < 2 ^ 31 ∧
      apart base (slab_len size (Slab base (a_num a))) at_ sizeof_pool_list_t ∧
      Forall (λ s, apart base (slab_len size (Slab base (a_num a))) (sb_base s) (slab_len size s)) (a_slabs a)
  | GetFree None => True
  | PutAvailable e => e ∈ a_held a
  | GetAvailable => True
  | PutFree e => e ∈ a_avail a
  | SetLimit _ n => 0 ≤ n ∧ (n * size) mod 8 = 0 ∧ slab_len size (Slab 0 n) < 2 ^ 31
  end.

#[global] Instance call_ok_dec size at_ c a : Decision (call_ok size at_ c a).
Proof. unfold call_ok, apart. destruct c as [[]|?| |?|? ?]; apply _. Defined.

Fixpoint run_ok (size at_ : Z) (cs : list call) (a : apool) : Prop :=
  match cs with
  | [] => True
  | c :: cs => call_ok size at_ c a ∧ run_ok size at_ cs (a_call size c a).2
  end.

#[global] Instance run_ok_dec size at_ cs a : Decision (run_ok size at_ cs a).
Proof. revert a. induction cs; intros; cbn [run_ok]; apply _. Defined.

(** ** The invariant *)

Definition in_slab (size : Z) (s : slab) (p : Z) : Prop :=
  sb_base s ≤ p ∧ p + sizeof_list_head ≤ sb_base s + slab_len size s.

(** The concrete pool holds the rings of the abstract one. *)
Record rings (h : heap) (at_ : Z) (a : apool) : Prop := {
  ri_slub : dlist h at_ (sb_base <$> a_slabs a);
  ri_free : dlist h (at_ + 16) (a_free a);
  ri_avail : dlist h (at_ + 32) (a_avail a);
  ri_held : Forall (λ e, h !! e = Some (ListHead NULL NULL)) (a_held a);
}.

(** Blocks do not overlap each other or the pool object, and their elements have
    their data areas. *)
Record layout (ad : gmap Z Z) (size at_ : Z) (ss : list slab) : Prop := {
  la_pos : 0 < at_;
  la_size : 0 ≤ size < 2 ^ 31;
  la_slab : Forall (λ s, 0 < sb_base s ∧ 0 ≤ sb_num s ∧
                         apart (sb_base s) (slab_len size s) at_ sizeof_pool_list_t) ss;
  la_apart : ForallOrdPairs (λ s t, apart (sb_base s) (slab_len size s) (sb_base t) (slab_len size t)) ss;
  la_addr : Forall (λ s, ∀ i, 0 ≤ i < sb_num s →
              ad !! elem_at (sb_base s) (sb_num s) size i = Some (data_at (sb_base s) size i)) ss;
}.

Record pool_rel (size : Z) (st : pstate) (a : apool) : Prop := {
  pr_rings : rings (nodes st) (pl_addr (pool st)) a;
  pr_layout : layout (addrs st) size (pl_addr (pool st)) (a_slabs a);
  pr_elems : a_free a ++ a_avail a ++ a_held a ≡ₚ all_elems size (a_slabs a);
  pr_counts : free_num (pool st) = Z.of_nat (length (a_free a)) ∧
              Z.of_nat (length (all_elems size (a_slabs a))) < 2 ^ 31;
  pr_cur : cur_slub (pool st) = a_cur a ∧ in_s 32 (a_cur a);
  pr_max : max_slub (pool st) = a_max a;
  pr_num : prealloc_num (pool st) = a_num a ∧ 0 ≤ a_num a ∧ (a_num a * size) mod 8 = 0 ∧
           slab_len size (Slab 0 (a_num a)) < 2 ^ 31;
  pr_size : elem_size (pool st) = size;
}.

(** ** Where the nodes lie *)

Definition a_nodes (at_ : Z) (a : apool) : list Z :=
  [at_; at_ + 16; at_ + 32] ++ (sb_base <$> a_slabs a) ++ a_free a ++ a_avail a ++ a_held a.

Lemma elem_of_slab size s e :
  e ∈ slab_elems size s ↔ ∃ i, 0 ≤ i < sb_num s ∧ e = elem_at (sb_base s) (sb_num s) size i.
Proof.
  unfold slab_elems. rewrite list_elem_of_fmap. split.
  - intros (i & -> & Hi%elem_of_seq). exists (Z.of_nat i). split; [lia|done].
  - intros (i & Hi & ->). exists (Z.to_nat i). rewrite elem_of_seq. split; [f_equal; lia|lia].
Qed.

Lemma slab_elems_length size s : 0 ≤ sb_num s → Z.of_nat (length (slab_elems size s)) = sb_num s.
Proof. intros. unfold slab_elems. rewrite length_fmap, length_seq. lia. Qed.

Lemma elem_in_slab size s e :
  0 ≤ size → e ∈ slab_elems size s →
  sb_base s + sizeof_list_head ≤ e ∧ e + sizeof_pool_elem_t ≤ sb_base s + slab_len size s.
Proof.
  unfold slab_len, elem_at, sizeof_list_head, sizeof_pool_elem_t.
  intros Hs (i & Hi & ->)%elem_of_slab. unfold elem_at, sizeof_list_head, sizeof_pool_elem_t.
  assert (0 ≤ sb_num s * size) by nia. lia.
Qed.

Lemma slab_elems_NoDup size s : NoDup (slab_elems size s).
Proof.
  apply NoDup_fmap_2; [|apply NoDup_seq]. intros i j. unfold elem_at, sizeof_pool_elem_t. lia.
Qed.

Lemma elem_of_all size ss e : e ∈ all_elems size ss ↔ ∃ s, s ∈ ss ∧ e ∈ slab_elems size s.
Proof.
  unfold all_elems. rewrite list_elem_of_In, in_concat. setoid_rewrite <-list_elem_of_In.
  split.
  - intros (l & (s & -> & Hs)%list_elem_of_fmap & He). eauto.
  - intros (s & Hs & He). exists (slab_elems size s). split; [|done]. apply list_elem_of_fmap. eauto.
Qed.

(** A block is not empty. *)
Lemma slab_len_pos size s : 0 ≤ size → 0 ≤ sb_num s → sizeof_list_head ≤ slab_len size s.
Proof. unfold slab_len, sizeof_pool_elem_t. intros. nia. Qed.

Section layout.
Context (ad : gmap Z Z) (size at_ : Z).

Definition region (ss : list slab) (p : Z) : Prop :=
  ∃ s, s ∈ ss ∧ sb_base s ≤ p < sb_base s + slab_len size s.

Lemma node_region ss p :
  layout ad size at_ ss → p ∈ (sb_base <$> ss) ++ all_elems size ss → region ss p.
Proof.
  intros [_ [Hs _] Hsl _ _] Hp. rewrite Forall_forall in Hsl.
  apply elem_of_app in Hp as [(s & -> & Hin)%list_elem_of_fmap|(s & Hin & He)%elem_of_all].
  - exists s. split; [done|]. destruct (Hsl s Hin) as (_ & Hn & _).
    pose proof (slab_len_pos size s Hs Hn). unfold sizeof_list_head in *. lia.
  - exists s. split; [done|]. pose proof (elem_in_slab size s p Hs He).
    unfold sizeof_list_head, sizeof_pool_elem_t in *. lia.
Qed.

Lemma layout_tail s ss : layout ad size at_ (s :: ss) → layout ad size at_ ss.
Proof.
  intros [H1 H2 H3 H4 H5]. inversion H4; subst.
  apply Forall_cons in H3 as [_ H3]. apply Forall_cons in H5 as [_ H5]. by split.
Qed.

(** All nodes are different. *)
Lemma layout_NoDup ss :
  layout ad size at_ ss →
  NoDup ([at_; at_ + 16; at_ + 32] ++ (sb_base <$> ss) ++ all_elems size ss).
Proof.
  intros HL. apply NoDup_app. split; [|split].
  - repeat (apply NoDup_cons; split; [rewrite ?elem_of_cons, elem_of_nil; lia|]). apply NoDup_nil_2.
  - intros p Hp Hq. destruct (node_region ss p HL Hq) as (s & Hin & Hr).
    destruct HL as [_ _ Hsl _ _]. rewrite Forall_forall in Hsl. destruct (Hsl s Hin) as (_ & _ & Ha).
    unfold apart, sizeof_pool_list_t in Ha. rewrite !elem_of_cons, elem_of_nil in Hp. lia.
  - induction ss as [|s ss IH]; [apply NoDup_nil_2|].
    pose proof (layout_tail s ss HL) as HT. specialize (IH HT).
    assert (∀ p, region ss p → ¬ region [s] p) as Hsep.
    { intros p (t & Ht & Hr) (s' & ->%list_elem_of_singleton & Hr').
      destruct HL as [_ _ _ Hap _]. inversion Hap as [|? ? Hf]; subst.
      rewrite List.Forall_forall in Hf. specialize (Hf t ltac:(by apply list_elem_of_In)).
      unfold apart in Hf. lia. }
    assert (layout ad size at_ [s]) as H1.
    { destruct HL as [? ? H3 _ H5]. apply Forall_cons in H3 as [? _]. apply Forall_cons in H5 as [? _].
      split; [done..|by apply Forall_singleton| |by apply Forall_singleton]. repeat constructor. }
    unfold all_elems in *. rewrite fmap_cons. cbn [concat fmap list_fmap].
    fold (all_elems size ss) in *.
    assert (∀ p, p ∈ sb_base s :: slab_elems size s → region [s] p) as Hs1.
    { intros p Hp. apply (node_region [s] p H1). unfold all_elems. cbn. rewrite app_nil_r. by apply Hp. }
    cbn [app]. rewrite (Permutation_app_comm (slab_elems size s)), app_assoc.
    apply NoDup_cons. split.
    + rewrite elem_of_app. intros [Hb|He].
      * apply (Hsep (sb_base s)); [by apply node_region|]. apply Hs1. by left.
      * pose proof (elem_in_slab size s _ (proj1 (la_size _ _ _ _ HL)) He). unfold sizeof_list_head in *. lia.
    + apply NoDup_app. split; [done|]. split; [|apply slab_elems_NoDup].
      intros p Hp He. apply (Hsep p); [by apply node_region|]. apply Hs1. by right.
Qed.

End layout.

Lemma rel_NoDup size st a : pool_rel size st a → NoDup (a_nodes (pl_addr (pool st)) a).
Proof.
  intros HR. unfold a_nodes. rewrite (pr_elems _ _ _ HR).
  eapply layout_NoDup, HR.
Qed.

Lemma rel_nonnull size st a p : pool_rel size st a → p ∈ a_nodes (pl_addr (pool st)) a → 0 < p.
Proof.
  intros HR. unfold a_nodes. rewrite (pr_elems _ _ _ HR).
  pose proof (la_pos _ _ _ _ (pr_layout _ _ _ HR)) as H0.
  intros [Hp|Hp]%elem_of_app.
  - rewrite !elem_of_cons, elem_of_nil in Hp. lia.
  - destruct (node_region _ _ _ _ p (pr_layout _ _ _ HR) Hp) as (s & Hs & ?).
    pose proof (la_slab _ _ _ _ (pr_layout _ _ _ HR)) as Hsl. rewrite Forall_forall in Hsl.
    destruct (Hsl s Hs). lia.
Qed.

(** ** The rings under the list operations *)

(** The four places a node can be in are disjoint. *)
Record places (at_ : Z) (a : apool) : Prop := {
  pl_sf x : x ∈ at_ :: (sb_base <$> a_slabs a) → x ∉ at_ + 16 :: a_free a;
  pl_sa x : x ∈ at_ :: (sb_base <$> a_slabs a) → x ∉ at_ + 32 :: a_avail a;
  pl_fa x : x ∈ at_ + 16 :: a_free a → x ∉ at_ + 32 :: a_avail a;
  pl_h x : x ∈ a_held a →
    (x ∉ at_ :: (sb_base <$> a_slabs a)) ∧ (x ∉ at_ + 16 :: a_free a) ∧ (x ∉ at_ + 32 :: a_avail a);
}.

Lemma NoDup_places at_ a : NoDup (a_nodes at_ a) → places at_ a.
Proof.
  unfold a_nodes. intros (Hh & Hhd & Hn)%NoDup_app.
  apply NoDup_app in Hn as (_ & Hb & (_ & Hf & (_ & Ha & _)%NoDup_app)%NoDup_app).
  clear Hh.
  assert (∀ x, x = at_ ∨ x = at_ + 16 ∨ x = at_ + 32 →
    (x ∉ sb_base <$> a_slabs a) ∧ (x ∉ a_free a) ∧ (x ∉ a_avail a) ∧ (x ∉ a_held a)) as Hx.
  { intros x Hx. specialize (Hhd x). rewrite !elem_of_cons, !elem_of_app, elem_of_nil in Hhd. tauto. }
  clear Hhd. pose proof (Hx at_ ltac:(auto)). pose proof (Hx (at_ + 16) ltac:(auto)).
  pose proof (Hx (at_ + 32) ltac:(auto)).
  split; intros x; [specialize (Hb x)|specialize (Hb x)|specialize (Hf x)|specialize (Hb x); specialize (Hf x); specialize (Ha x)];
    rewrite ?elem_of_app in *; rewrite !elem_of_cons; naive_solver lia.
Qed.

Section rings.
Context (at_ : Z) (a : apool) (h : heap).
Hypothesis (HP : places at_ a) (HR : rings h at_ a).

Let same (ps : list Z) (h' : heap) : Prop := frame ps h h'.

(** What an operation leaves alone. *)
Lemma keep_slub ps h' :
  same ps h' → (∀ x, x ∈ at_ :: (sb_base <$> a_slabs a) → x ∉ ps) →
  dlist h' at_ (sb_base <$> a_slabs a).
Proof. intros Hf Hd. by eapply frame_dlist, (ri_slub _ _ _ HR). Qed.
Lemma keep_free ps h' :
  same ps h' → (∀ x, x ∈ at_ + 16 :: a_free a → x ∉ ps) → dlist h' (at_ + 16) (a_free a).
Proof. intros Hf Hd. by eapply frame_dlist, (ri_free _ _ _ HR). Qed.
Lemma keep_avail ps h' :
  same ps h' → (∀ x, x ∈ at_ + 32 :: a_avail a → x ∉ ps) → dlist h' (at_ + 32) (a_avail a).
Proof. intros Hf Hd. by eapply frame_dlist, (ri_avail _ _ _ HR). Qed.
Lemma keep_held ps h' (l : list Z) :
  same ps h' → (∀ x, x ∈ l → x ∈ a_held a ∧ x ∉ ps) →
  Forall (λ e, h' !! e = Some (ListHead NULL NULL)) l.
Proof.
  intros [Hf _] Hd. apply Forall_forall. intros e He. destruct (Hd e He) as [Hin Hn].
  rewrite Hf by done. pose proof (ri_held _ _ _ HR) as Hh. rewrite Forall_forall in Hh. by apply Hh.
Qed.

Lemma rings_take e fr :
  a_free a = e :: fr →
  ∃ h', Klist.list_del h e = Ok h' ∧
    rings h' at_ (APool fr (a_avail a) (e :: a_held a) (a_slabs a) (a_cur a) (a_max a) (a_num a)).
Proof.
  intros He. pose proof (ri_free _ _ _ HR) as Hfr. rewrite He in Hfr.
  destruct (klist_del_run h (at_ + 16) [] e fr Hfr) as (h' & Hd & Hd' & Hf & Hn).
  exists h'. split; [done|]. cbn [app] in *.
  assert (∀ x, x ∈ e :: at_ + 16 :: fr → x ∈ at_ + 16 :: a_free a) as Hsub by (rewrite He; set_solver).
  destruct HP as [P1 P2 P3 P4]. split; cbn [a_free a_avail a_held a_slabs].
  - eapply keep_slub; [exact Hf|]. intros x Hx Hin. by apply (P1 x Hx), Hsub.
  - done.
  - eapply keep_avail; [exact Hf|]. intros x Hx Hin. by apply (P3 x (Hsub x Hin)).
  - apply Forall_cons. split; [done|]. eapply keep_held; [exact Hf|]. intros x Hx. split; [done|].
    intros Hin. by apply (proj1 (proj2 (P4 x Hx))), Hsub.
Qed.

Lemma rings_put_available e :
  e ∈ a_held a → e ≠ NULL →
  ∃ h', Klist.list_add_tail h e (at_ + 32) = Ok h' ∧
    rings h' at_ (APool (a_free a) (a_avail a ++ [e]) (filter (.≠ e) (a_held a)) (a_slabs a)
                    (a_cur a) (a_max a) (a_num a)).
Proof.
  intros He H0. destruct HP as [P1 P2 P3 P4]. destruct (P4 e He) as (E1 & E2 & E3).
  assert (valid h e) as Hv.
  { split; [done|]. pose proof (ri_held _ _ _ HR) as Hh. rewrite Forall_forall in Hh. rewrite (Hh e He). eauto. }
  destruct (list_add_tail_run h (at_ + 32) (a_avail a) e (ri_avail _ _ _ HR) Hv E3) as (h' & Ha & Hd & Hf).
  exists h'. split; [done|]. split; cbn [a_free a_avail a_held a_slabs].
  - eapply keep_slub; [exact Hf|]. intros x Hx [->|Hin]%elem_of_cons; [done|]. by apply (P2 x Hx).
  - eapply keep_free; [exact Hf|]. intros x Hx [->|Hin]%elem_of_cons; [done|]. by apply (P3 x Hx).
  - done.
  - eapply keep_held; [exact Hf|]. intros x [Hne Hx]%list_elem_of_filter. split; [done|].
    intros [->|Hin]%elem_of_cons; [done|]. by apply (proj2 (proj2 (P4 x Hx))).
Qed.

Lemma rings_put_free l1 e l2 :
  a_avail a = l1 ++ e :: l2 →
  ∃ h', Klist.list_move h e (at_ + 16) = Ok h' ∧
    rings h' at_ (APool (e :: a_free a) (l1 ++ l2) (a_held a) (a_slabs a) (a_cur a) (a_max a) (a_num a)).
Proof.
  intros He. destruct HP as [P1 P2 P3 P4]. pose proof (ri_avail _ _ _ HR) as Hav. rewrite He in Hav.
  destruct (move_run h (at_ + 32) l1 e l2 (at_ + 16) (a_free a) Hav (ri_free _ _ _ HR)) as (h' & Hm & Hd & Hd2 & Hf).
  { intros x Hx Hin. rewrite <-He in Hx. by apply (P3 x Hin). }
  assert (∀ x, x ∈ e :: at_ + 32 :: l1 ++ l2 ++ at_ + 16 :: a_free a →
            x ∈ at_ + 32 :: a_avail a ∨ x ∈ at_ + 16 :: a_free a) as Hsub.
  { intros x. rewrite He. rewrite !elem_of_cons, !elem_of_app, !elem_of_cons. tauto. }
  exists h'. split; [done|]. split; cbn [a_free a_avail a_held a_slabs].
  - eapply keep_slub; [exact Hf|]. intros x Hx [Hin|Hin]%Hsub; [by apply (P2 x Hx)|by apply (P1 x Hx)].
  - done.
  - done.
  - eapply keep_held; [exact Hf|]. intros x Hx. split; [done|]. destruct (P4 x Hx) as (_ & ? & ?).
    by intros [?|?]%Hsub.
Qed.

(** One more element on the free ring. *)
Definition a_add (e : Z) (b : apool) : apool :=
  APool (e :: a_free b) (a_avail b) (a_held b) (a_slabs b) (a_cur b) (a_max b) (a_num b).

Lemma rings_add e :
  valid h e → e ∉ a_nodes at_ a →
  ∃ h', Klist.list_add h e (at_ + 16) = Ok h' ∧ rings h' at_ (a_add e a) ∧ same_objs h h'.
Proof.
  intros Hv Hn. unfold a_nodes in Hn. rewrite !elem_of_app, !elem_of_cons in Hn.
  destruct HP as [P1 P2 P3 P4].
  destruct (list_add_run h (at_ + 16) (a_free a) e (ri_free _ _ _ HR) Hv) as (h' & Ha & Hd & Hf).
  { rewrite elem_of_cons. tauto. }
  exists h'. split; [done|]. split; [|apply Hf]. split; cbn [a_add a_free a_avail a_held a_slabs].
  - eapply keep_slub; [exact Hf|]. intros x Hx [->|Hin]%elem_of_cons; [|by apply (P1 x Hx)].
    apply elem_of_cons in Hx. tauto.
  - done.
  - eapply keep_avail; [exact Hf|]. intros x Hx [->|Hin]%elem_of_cons; [|by apply (P3 x Hin)].
    apply elem_of_cons in Hx. tauto.
  - eapply keep_held; [exact Hf|]. intros x Hx. split; [done|].
    intros [->|Hin]%elem_of_cons; [tauto|]. by apply (proj1 (proj2 (P4 x Hx))).
Qed.

(** A new block on the ring of blocks. *)
Definition a_block (s : slab) (b : apool) : apool :=
  APool (a_free b) (a_avail b) (a_held b) (s :: a_slabs b) (a_cur b) (a_max b) (a_num b).

Lemma rings_block s :
  valid h (sb_base s) → sb_base s ∉ a_nodes at_ a →
  ∃ h', Klist.list_add h (sb_base s) at_ = Ok h' ∧ rings h' at_ (a_block s a) ∧ same_objs h h'.
Proof.
  intros Hv Hn. unfold a_nodes in Hn. rewrite !elem_of_app, !elem_of_cons in Hn.
  destruct HP as [P1 P2 P3 P4].
  destruct (list_add_run h at_ (sb_base <$> a_slabs a) (sb_base s) (ri_slub _ _ _ HR) Hv) as (h' & Ha & Hd & Hf).
  { rewrite elem_of_cons. tauto. }
  exists h'. split; [done|]. split; [|apply Hf]. split; cbn [a_block a_free a_avail a_held a_slabs].
  - done.
  - eapply keep_free; [exact Hf|]. intros x Hx [->|Hin]%elem_of_cons; [|by apply (P1 x Hin)].
    apply elem_of_cons in Hx. tauto.
  - eapply keep_avail; [exact Hf|]. intros x Hx [->|Hin]%elem_of_cons; [|by apply (P2 x Hin)].
    apply elem_of_cons in Hx. tauto.
  - eapply keep_held; [exact Hf|]. intros x Hx. split; [done|].
    intros [->|Hin]%elem_of_cons; [tauto|]. by apply (proj1 (P4 x Hx)).
Qed.

End rings.

(** ** A new block *)

Lemma filter_all {B} (P : B → Prop) `{!∀ x, Decision (P x)} l : Forall P l → filter P l = l.
Proof. induction 1; [done|]. rewrite filter_cons_True by done. by f_equal. Qed.

Lemma calloc_nodes_lookup ps h p :
  calloc_nodes ps h !! p = if decide (p ∈ ps) then Some (ListHead NULL NULL) else h !! p.
Proof.
  induction ps as [|q ps IH]; [by rewrite decide_False by apply not_elem_of_nil|]. cbn [calloc_nodes foldr].
  fold (calloc_nodes ps h). destruct (decide (p = q)) as [->|Hne].
  - rewrite lookup_insert_eq. by rewrite decide_True by left.
  - rewrite lookup_insert_ne by done. rewrite IH.
    apply decide_ext. rewrite elem_of_cons. tauto.
Qed.

Lemma calloc_rings ps h at_ a :
  rings h at_ a → (∀ p, p ∈ ps → p ∉ a_nodes at_ a) → rings (calloc_nodes ps h) at_ a.
Proof.
  intros [R1 R2 R3 R4] Hn.
  assert (∀ p, p ∈ a_nodes at_ a → calloc_nodes ps h !! p = h !! p) as Hs.
  { intros p Hp. rewrite calloc_nodes_lookup, decide_False; [done|]. intros Hin. by apply (Hn p). }
  assert (same_off ps h (calloc_nodes ps h)) as Ho.
  { intros p Hp. by rewrite calloc_nodes_lookup, decide_False. }
  assert (∀ (p : Z) (l : list Z), p ∈ l → (∀ q, q ∈ l → q ∈ a_nodes at_ a) → p ∉ ps) as Hd.
  { intros p l Hp Hl Hin. by apply (Hn p Hin), Hl. }
  unfold a_nodes in *. split.
  1-3: eapply dlist_frame; [exact Ho| |done]; intros x Hx; apply (Hd x _ Hx); intros q Hq;
    rewrite !elem_of_app, !elem_of_cons; apply elem_of_cons in Hq; tauto.
  rewrite Forall_forall in R4 |- *. intros e He. rewrite Hs; [by apply R4|]. rewrite !elem_of_app. auto.
Qed.

Lemma new_nodes_all base num size :
  0 ≤ num → 0 ≤ size < 2 ^ 31 → slab_len size (Slab base num) < 2 ^ 31 →
  new_nodes base num size = base :: slab_elems size (Slab base num).
Proof.
  intros Hn Hs Hl. unfold new_nodes.
  assert (block_size num size = slab_len size (Slab base num)) as Hb.
  { unfold block_size, slab_len, sizeof_list_head, sizeof_pool_elem_t in *. cbn [sb_num] in *.
    assert (0 ≤ num * size) by nia.
    rewrite (wrap_u_small 64 size), (wrap_u_small 64 num) by (unfold in_u; lia).
    rewrite (wrap_u_small 64 (num * _)) by (unfold in_u; nia). apply wrap_u_small. unfold in_u. nia. }
  rewrite Hb. change (base :: ((λ i, elem_at base num size (Z.of_nat i)) <$> seq 0 (Z.to_nat num)))
    with (base :: slab_elems size (Slab base num)).
  apply filter_all, Forall_forall. intros p [->|Hp]%elem_of_cons; [by right|].
  left. exact (proj2 (elem_in_slab size _ p (proj1 Hs) Hp)).
Qed.

Definition a_adds (l : list Z) (b : apool) : apool :=
  APool (reverse l ++ a_free b) (a_avail b) (a_held b) (a_slabs b) (a_cur b) (a_max b) (a_num b).

Lemma a_adds_snoc l e b : a_adds (l ++ [e]) b = a_add e (a_adds l b).
Proof. unfold a_adds, a_add. cbn. by rewrite reverse_app. Qed.

Lemma a_adds_nodes at_ l b : a_nodes at_ (a_adds l b) ≡ₚ l ++ a_nodes at_ b.
Proof.
  unfold a_nodes, a_adds. cbn [a_free a_avail a_held a_slabs].
  rewrite <-(reverse_Permutation l) at 2. set (r := reverse l). clearbody r.
  cbn [app]. solve_Permutation.
Qed.

Lemma slab_elems_take size s i :
  (i < Z.to_nat (sb_num s))%nat →
  take (S i) (slab_elems size s) =
  take i (slab_elems size s) ++ [elem_at (sb_base s) (sb_num s) size (Z.of_nat i)].
Proof.
  intros Hi. apply take_S_r. unfold slab_elems. rewrite list_lookup_fmap, lookup_seq_lt by done. done.
Qed.

(** The state of the loop of [expand_pool_list] after [i] rounds. *)
Definition filled (size at_ : Z) (s : slab) (b : apool) (h0 : heap) (ad0 : gmap Z Z)
    (i : Z) (r : heap * gmap Z Z * Z) : Prop :=
  0 ≤ i ∧ rings r.1.1 at_ (a_adds (take (Z.to_nat i) (slab_elems size s)) b) ∧ same_objs h0 r.1.1 ∧
  r.2 = data_at (sb_base s) size i ∧
  (∀ j, 0 ≤ j < i → r.1.2 !! elem_at (sb_base s) (sb_num s) size j = Some (data_at (sb_base s) size j)) ∧
  (∀ p, p ∉ slab_elems size s → r.1.2 !! p = ad0 !! p).

Lemma fill_run size at_ s b h ad :
  rings h at_ b → NoDup (slab_elems size s ++ a_nodes at_ b) → Forall (valid h) (slab_elems size s) →
  0 ≤ sb_num s → sb_base s mod 8 = 0 → (sb_num s * size) mod 8 = 0 →
  ∃ r, for_up (Z.to_nat (sb_num s)) 0
         (λ i r,
            let e := sb_base s + sizeof_list_head + sb_num s * size + sizeof_pool_elem_t * i in
            if decide (e mod 8 = 0) then
              h ← Klist.list_add r.1.1 e (at_ + 16);
              mret (h, <[e := r.2]> r.1.2, r.2 + size)
            else Ub BadPtr)
         (h, ad, sb_base s + sizeof_list_head) = Ok r ∧
    filled size at_ s b h ad (sb_num s) r.
Proof.
  intros HR Hnd Hv Hn H8 Hs8.
  edestruct (for_up_inv (filled size at_ s b h ad) (Z.to_nat (sb_num s)) 0) as (r & Hr & Hf);
    [| |exists r; split; [exact Hr|by rewrite Z2Nat.id in Hf by lia]].
  { split; [lia|]. cbn [fst snd]. split; [by destruct b|]. split; [done|].
    unfold data_at. split; [lia|]. split; [lia|done]. }
  intros i [[h' ad'] p] Hi (_ & HR' & Ho & Hp & Had & Hoff). cbn [fst snd] in *. cbv zeta.
  pose proof (slab_elems_take size s (Z.to_nat i) ltac:(lia)) as Htk. rewrite Z2Nat.id in Htk by lia.
  change (sb_base s + sizeof_list_head + sb_num s * size + sizeof_pool_elem_t * i)
    with (elem_at (sb_base s) (sb_num s) size i).
  set (e := elem_at (sb_base s) (sb_num s) size i) in *.
  assert (e ∈ slab_elems size s) as He by (apply elem_of_slab; exists i; split; [lia|done]).
  assert (NoDup (a_nodes at_ (a_add e (a_adds (take (Z.to_nat i) (slab_elems size s)) b)))) as Hnd'.
  { rewrite <-a_adds_snoc, <-Htk, a_adds_nodes.
    rewrite <-(take_drop (S (Z.to_nat i)) (slab_elems size s)), (Permutation_app_comm (take _ _)),
      <-app_assoc in Hnd. by apply NoDup_app in Hnd as (_ & _ & ?). }
  set (b' := a_adds _ b) in *.
  assert ((e ∉ a_nodes at_ b') ∧ NoDup (a_nodes at_ b')) as [Hfresh Hb'].
  { rewrite <-NoDup_cons. eapply NoDup_Permutation_proper; [|exact Hnd'].
    unfold a_nodes, a_add. cbn [a_free a_avail a_held a_slabs app]. solve_Permutation. }
  rewrite decide_True.
  2:{ unfold e, elem_at, sizeof_list_head, sizeof_pool_elem_t.
      apply Z.mod_divide in H8, Hs8; [|done..]. apply Z.mod_divide; [done|].
      destruct H8 as [x ->], Hs8 as [y Hy]. rewrite Hy. exists (x + 2 + y + 3 * i). lia. }
  rewrite Forall_forall in Hv.
  destruct (rings_add at_ b' h' (NoDup_places _ _ Hb') HR' e) as (h2 & -> & HR2 & Ho2);
    [by eapply same_objs_valid, Hv|done|].
  rewrite bind_Ok. eexists. split; [done|]. split; [lia|]. cbn [fst snd].
  replace (Z.to_nat (i + 1)) with (S (Z.to_nat i)) by lia. rewrite Htk, a_adds_snoc. split; [done|].
  split; [by eapply same_objs_trans|]. split; [subst p; unfold data_at; lia|]. split.
  - intros j Hj. destruct (decide (j = i)) as [->|Hne].
    + fold e. by rewrite lookup_insert_eq, Hp.
    + rewrite lookup_insert_ne; [apply Had; lia|]. unfold e, elem_at, sizeof_pool_elem_t. lia.
  - intros q Hq. rewrite lookup_insert_ne by (intros ->; done). by apply Hoff.
Qed.

(** ** One call *)

Abbreviation with_counts p n c :=
  (Pool (pl_addr p) n c (max_slub p) (elem_size p) (prealloc_num p)).

Section calls.
Context (size : Z) (st : pstate) (a : apool).
Hypothesis HR : pool_rel size st a.
Abbreviation at_ := (pl_addr (pool st)).

Let HP : places at_ a := NoDup_places _ _ (rel_NoDup _ _ _ HR).

(** A block the allocator may return lies apart from everything in use. *)
Lemma fresh_nodes base p :
  call_ok size at_ (GetFree (Some base)) a →
  p ∈ base :: slab_elems size (Slab base (a_num a)) → p ∉ a_nodes at_ a.
Proof.
  intros (_ & _ & _ & _ & Hat & Hap) Hp. destruct (pr_num _ _ _ HR) as (_ & Hn & _).
  pose proof (la_size _ _ _ _ (pr_layout _ _ _ HR)) as Hs.
  assert (base ≤ p < base + slab_len size (Slab base (a_num a))) as Hr.
  { apply elem_of_cons in Hp as [->|He].
    - pose proof (slab_len_pos size (Slab base (a_num a))). unfold sizeof_list_head in *. cbn in *. lia.
    - pose proof (elem_in_slab size _ p (proj1 Hs) He).
      unfold sizeof_list_head, sizeof_pool_elem_t in *. cbn [sb_base] in *. lia. }
  unfold a_nodes. rewrite (pr_elems _ _ _ HR). intros [Hin|Hin]%elem_of_app.
  - unfold apart, sizeof_pool_list_t in Hat. rewrite !elem_of_cons, elem_of_nil in Hin. lia.
  - destruct (node_region _ _ _ _ p (pr_layout _ _ _ HR) Hin) as (t & Ht & Hrt).
    rewrite Forall_forall in Hap. specialize (Hap t Ht). unfold apart in Hap. cbn [sb_base] in *. lia.
Qed.

(** Adding the block to the layout. *)
Lemma layout_cons base ad :
  call_ok size at_ (GetFree (Some base)) a →
  (∀ j, 0 ≤ j < a_num a → ad !! elem_at base (a_num a) size j = Some (data_at base size j)) →
  (∀ p, p ∉ slab_elems size (Slab base (a_num a)) → ad !! p = addrs st !! p) →
  layout ad size at_ (Slab base (a_num a) :: a_slabs a).
Proof.
  intros Hok Had Hoff. pose proof Hok as (H0 & _ & _ & _ & Hat & Hap).
  pose proof (pr_layout _ _ _ HR) as [L1 L2 L3 L4 L5]. destruct (pr_num _ _ _ HR) as (_ & Hn & _).
  split; [done|done| | |].
  - apply Forall_cons. cbn [sb_base sb_num]. done.
  - constructor; [|done]. rewrite Forall_forall in Hap. apply List.Forall_forall.
    intros t Ht%list_elem_of_In. by apply Hap.
  - apply Forall_cons. split; [exact Had|]. rewrite Forall_forall in L5 |- *. intros t Ht i Hi.
    rewrite Hoff; [by apply L5|]. intros Hin.
    apply (fresh_nodes base (elem_at (sb_base t) (sb_num t) size i) Hok); [by right|].
    unfold a_nodes. rewrite (pr_elems _ _ _ HR), !elem_of_app. right. right.
    apply elem_of_all. exists t. split; [done|]. apply elem_of_slab. eauto.
Qed.

Lemma block_valid base h :
  call_ok size at_ (GetFree (Some base)) a →
  let ps := base :: slab_elems size (Slab base (a_num a)) in
  ∀ p, p ∈ ps → valid (calloc_nodes ps h) p.
Proof.
  intros (H0 & _) ps p Hp. pose proof (la_size _ _ _ _ (pr_layout _ _ _ HR)) as Hsz.
  split; [|rewrite calloc_nodes_lookup, decide_True by done; eauto].
  apply elem_of_cons in Hp as [->|He]; [unfold NULL; lia|].
  pose proof (elem_in_slab size _ p (proj1 Hsz) He). unfold sizeof_list_head, NULL in *. cbn in *. lia.
Qed.

Lemma block_NoDup base :
  call_ok size at_ (GetFree (Some base)) a →
  NoDup (slab_elems size (Slab base (a_num a)) ++ a_nodes at_ (a_block (Slab base (a_num a)) a)).
Proof.
  intros Hok. set (s := Slab base (a_num a)). pose proof (la_size _ _ _ _ (pr_layout _ _ _ HR)) as Hsz.
  assert (slab_elems size s ++ a_nodes at_ (a_block s a) ≡ₚ (base :: slab_elems size s) ++ a_nodes at_ a) as ->.
  { unfold a_nodes, a_block, s. cbn [a_free a_avail a_held a_slabs fmap list_fmap sb_base app]. solve_Permutation. }
  apply NoDup_app. split; [|split; [intros p; by apply fresh_nodes|by eapply rel_NoDup]].
  apply NoDup_cons. split; [|apply slab_elems_NoDup]. intros He.
  pose proof (elem_in_slab size s _ (proj1 Hsz) He). unfold sizeof_list_head, s in *. cbn in *. lia.
Qed.

Lemma expand_rel base :
  call_ok size at_ (GetFree (Some base)) a → a_free a = [] →
  let s := Slab base (a_num a) in
  ∃ h ad, expand_pool_list (Some base) (prealloc_num (pool st)) (elem_size (pool st)) st =
      Ok (0, PState h ad (with_counts (pool st) (a_num a) (a_cur a))) ∧
    pool_rel size (PState h ad (with_counts (pool st) (a_num a) (a_cur a + 1)))
      (APool (reverse (slab_elems size s)) (a_avail a) (a_held a) (s :: a_slabs a)
         (a_cur a + 1) (a_max a) (a_num a)).
Proof.
  intros Hok Hfree s. pose proof Hok as (H0 & H8 & Hcur & Hcnt & Hat & Hap).
  destruct (pr_num _ _ _ HR) as (Hpn & Hn & Hs8 & Hlen). destruct (pr_cur _ _ _ HR) as (Hc & Hc32).
  destruct (pr_counts _ _ _ HR) as (Hfn & Hall). rewrite Hfree in Hfn. cbn [length] in Hfn.
  pose proof (la_size _ _ _ _ (pr_layout _ _ _ HR)) as Hsz.
  assert (slab_len size s < 2 ^ 31) as Hls by done.
  assert (∀ p, p ∈ base :: slab_elems size s → p ∉ a_nodes at_ a) as Hfresh by (intros p; by apply fresh_nodes).
  unfold expand_pool_list. rewrite Hpn, (pr_size _ _ _ HR), new_nodes_all by done. fold s.
  set (h0 := calloc_nodes (base :: slab_elems size s) (nodes st)).
  assert (rings h0 at_ a) as HR0 by (apply calloc_rings; [apply HR|done]).
  pose proof (block_valid base (nodes st) Hok) as Hv. fold s h0 in Hv.
  destruct (rings_block at_ a h0 HP HR0 s) as (h1 & Hadd & HR1 & Ho1);
    [apply Hv; by left|apply Hfresh; by left|].
  change (Klist.list_add h0 base (slub (pool st))) with (Klist.list_add h0 (sb_base s) at_).
  rewrite Hadd, bind_Ok. clear Hadd.
  assert (0 ≤ a_num a * size < 2 ^ 31).
  { unfold slab_len, sizeof_list_head, sizeof_pool_elem_t in Hls. cbn in Hls. nia. }
  rewrite (signed_op_ok 32 (a_num a * size)), bind_Ok by (unfold in_s; lia).
  destruct (fill_run size at_ s (a_block s a) h1 (addrs st) HR1) as ([[h2 ad2] p2] & Hfill & _ & HR2 & _ & _ & Had & Hoff);
    [| |done..|].
  { by apply block_NoDup. }
  { apply Forall_forall. intros p Hp. eapply same_objs_valid; [exact Ho1|]. apply Hv. by right. }
  cbn [sb_num sb_base s] in Hfill. cbv zeta in Hfill |- *.
  change (free (pool st)) with (at_ + 16). rewrite Hfill, bind_Ok. cbn [fst snd] in *.
  rewrite Hfn, Z.add_0_l, signed_op_ok, bind_Ok by (unfold in_s; nia).
  exists h2, ad2. rewrite Hc. split; [done|].
  rewrite (take_ge (slab_elems size s)) in HR2
    by (pose proof (slab_elems_length size s ltac:(done)); cbn [sb_num s] in *; lia).
  unfold a_adds in HR2. cbn [a_block a_free a_avail a_held a_slabs a_cur a_max a_num] in HR2.
  rewrite Hfree, app_nil_r in HR2.
  pose proof (pr_elems _ _ _ HR) as Hel. rewrite Hfree in Hel. cbn [app] in Hel.
  split; cbn [nodes addrs pool pl_addr free_num cur_slub max_slub elem_size prealloc_num
              a_free a_avail a_held a_slabs a_cur a_max a_num].
  - by destruct HR2.
  - by apply layout_cons.
  - unfold all_elems. rewrite fmap_cons. cbn [concat]. rewrite reverse_Permutation. f_equiv. exact Hel.
  - unfold all_elems. rewrite fmap_cons. cbn [concat]. rewrite length_reverse, length_app.
    pose proof (slab_elems_length size s ltac:(done)) as Hsl. cbn [sb_num s] in Hsl. fold s in Hsl.
    unfold all_elems in Hcnt. lia.
  - split; [done|]. unfold in_s in *. lia.
  - apply HR.
  - done.
  - done.
Qed.

Lemma take_rel e fr :
  a_free a = e :: fr →
  ∃ h, Klist.list_first_entry (nodes st) (free (pool st)) 0 = Ok e ∧
    Klist.list_del (nodes st) e = Ok h ∧ in_s 32 (free_num (pool st) - 1) ∧
    pool_rel size (PState h (addrs st) (with_counts (pool st) (free_num (pool st) - 1) (cur_slub (pool st))))
      (APool fr (a_avail a) (e :: a_held a) (a_slabs a) (a_cur a) (a_max a) (a_num a)).
Proof.
  intros He. destruct (rings_take at_ a (nodes st) HP (pr_rings _ _ _ HR) e fr He) as (h & Hd & HR').
  pose proof (ri_free _ _ _ (pr_rings _ _ _ HR)) as Hfr. rewrite He in Hfr.
  destruct (pr_counts _ _ _ HR) as (Hfn & Hall). rewrite He in Hfn. cbn [length] in Hfn.
  pose proof (pr_elems _ _ _ HR) as Hel. pose proof (Permutation_length Hel) as Hl.
  rewrite He in Hel, Hl. rewrite !length_app in Hl. cbn [length] in Hl.
  exists h. split; [|split; [done|split; [unfold in_s; lia|]]].
  { unfold Klist.list_first_entry. change (free (pool st)) with (at_ + 16).
    rewrite (ld_next_head _ _ _ Hfr), bind_Ok. cbn [start_of]. unfold Klist.list_entry. by rewrite Z.sub_0_r. }
  split; cbn [nodes addrs pool pl_addr free_num cur_slub max_slub elem_size prealloc_num
              a_free a_avail a_held a_slabs a_cur a_max a_num]; [done|apply HR| | |apply HR..].
  - rewrite <-Hel. cbn [app]. solve_Permutation.
  - lia.
Qed.

Lemma free_empty : Klist.list_empty (nodes st) (free (pool st)) = Ok (bool_decide (a_free a = [])).
Proof. apply list_empty_run, (pr_rings _ _ _ HR). Qed.

Lemma may_expand_rel :
  may_expand (pool st) = bool_decide (a_max a = u32 (-1) ∨ u32 (a_cur a) < a_max a).
Proof.
  unfold may_expand. rewrite (pr_max _ _ _ HR), (proj1 (pr_cur _ _ _ HR)).
  apply bool_decide_ext. intuition congruence.
Qed.

End calls.

Lemma take_free_rel size st a :
  pool_rel size st a →
  ∃ st', take_free st = Ok ((a_take a).1, st') ∧ pl_addr (pool st') = pl_addr (pool st) ∧
    pool_rel size st' (a_take a).2.
Proof.
  intros HR. unfold take_free, a_take. rewrite (free_empty size st a HR), bind_Ok.
  destruct (a_free a) as [|e fr] eqn:He; [by exists st|].
  rewrite bool_decide_false by done. cbv zeta.
  destruct (take_rel size st a HR e fr He) as (h & -> & Hd & H32 & HR'). rewrite bind_Ok, Hd, bind_Ok.
  rewrite signed_op_ok, bind_Ok by done. eexists. by split.
Qed.

Lemma get_free_rel size st a ret :
  pool_rel size st a → call_ok size (pl_addr (pool st)) (GetFree ret) a →
  ∃ st', pool_list_get_free_elem ret st = Ok ((a_call size (GetFree ret) a).1, st') ∧
    pl_addr (pool st') = pl_addr (pool st) ∧ pool_rel size st' (a_call size (GetFree ret) a).2.
Proof.
  intros HR Hok. unfold pool_list_get_free_elem. cbn [a_call]. unfold a_expand.
  rewrite (free_empty size st a HR), bind_Ok, (may_expand_rel size st a HR).
  destruct (decide (a_free a = [])) as [Hf|Hf].
  2:{ rewrite bool_decide_false by done. cbn [andb]. rewrite bind_Ok, decide_False by tauto.
      by apply take_free_rel. }
  rewrite bool_decide_true by done. cbn [andb].
  destruct (decide (a_max a = u32 (-1) ∨ u32 (a_cur a) < a_max a)) as [Hm|Hm].
  2:{ rewrite bool_decide_false, bind_Ok, decide_False by tauto. by apply take_free_rel. }
  rewrite bool_decide_true, decide_True by done. destruct ret as [base|].
  2:{ cbn [expand_pool_list]. rewrite bind_Ok, decide_False, bind_Ok by done. by apply take_free_rel. }
  destruct (expand_rel size st a HR base Hok Hf) as (h & ad & -> & HR').
  rewrite bind_Ok, decide_True by done. cbn [pool cur_slub].
  rewrite signed_op_ok, bind_Ok by (apply (pr_cur _ _ _ HR')).
  destruct (take_free_rel size _ _ HR') as (st' & Ht & Hat & HR2). exists st'. split; [exact Ht|]. by split.
Qed.

Lemma filter_ne_perm (l : list Z) e : NoDup l → e ∈ l → l ≡ₚ e :: filter (.≠ e) l.
Proof.
  intros Hnd He. apply NoDup_Permutation; [done| |].
  - apply NoDup_cons. split; [|by apply NoDup_filter]. rewrite list_elem_of_filter. tauto.
  - intros x. rewrite elem_of_cons, list_elem_of_filter. destruct (decide (x = e)); naive_solver.
Qed.

Lemma filter_ne_split (l1 l2 : list Z) e : NoDup (l1 ++ e :: l2) → filter (.≠ e) (l1 ++ e :: l2) = l1 ++ l2.
Proof.
  intros (_ & Hd & [He _]%NoDup_cons)%NoDup_app. rewrite filter_app, filter_cons_False by tauto.
  rewrite !filter_all; [done|apply Forall_forall..]; intros x Hx ->; [done|]. by apply (Hd e Hx); left.
Qed.

Lemma rel_nodup_parts size st a :
  pool_rel size st a → NoDup (a_avail a) ∧ NoDup (a_held a).
Proof.
  intros HR. pose proof (rel_NoDup _ _ _ HR) as Hnd. unfold a_nodes in Hnd.
  rewrite !NoDup_app in Hnd. tauto.
Qed.

Lemma put_available_rel size st a e :
  pool_rel size st a → e ∈ a_held a →
  ∃ st', pool_list_put_available_elem e st = Ok (0, st') ∧ pl_addr (pool st') = pl_addr (pool st) ∧
    pool_rel size st' (a_call size (PutAvailable e) a).2.
Proof.
  intros HR He. destruct (rel_nodup_parts _ _ _ HR) as [_ Hnh].
  destruct (rings_put_available (pl_addr (pool st)) a (nodes st) (NoDup_places _ _ (rel_NoDup _ _ _ HR))
    (pr_rings _ _ _ HR) e He) as (h & Ha & HR').
  { intros ->. assert (0 < 0); [|lia]. apply (rel_nonnull size st a NULL HR). unfold a_nodes.
    rewrite !elem_of_app. auto. }
  unfold pool_list_put_available_elem. change (available (pool st)) with (pl_addr (pool st) + 32).
  rewrite Ha, bind_Ok. eexists. split; [done|]. split; [done|].
  pose proof (pr_elems _ _ _ HR) as Hel.
  split; cbn [nodes addrs pool a_call snd a_free a_avail a_held a_slabs a_cur a_max a_num];
    [done|apply HR| |apply HR..].
  pose proof (filter_ne_perm (a_held a) e Hnh He) as Hp. set (f := filter _ _) in *. clearbody f.
  rewrite <-Hel, Hp. solve_Permutation.
Qed.

Lemma put_free_rel size st a e :
  pool_rel size st a → e ∈ a_avail a →
  ∃ st', pool_list_put_free_elem e st = Ok (0, st') ∧ pl_addr (pool st') = pl_addr (pool st) ∧
    pool_rel size st' (a_call size (PutFree e) a).2.
Proof.
  intros HR (l1 & l2 & He)%list_elem_of_split. destruct (rel_nodup_parts _ _ _ HR) as [Hna _].
  destruct (rings_put_free (pl_addr (pool st)) a (nodes st) (NoDup_places _ _ (rel_NoDup _ _ _ HR))
    (pr_rings _ _ _ HR) l1 e l2 He) as (h & Hm & HR').
  pose proof (pr_elems _ _ _ HR) as Hel. pose proof (Permutation_length Hel) as Hl.
  destruct (pr_counts _ _ _ HR) as (Hfn & Hall). rewrite He in Hl, Hel, Hna.
  rewrite !length_app in Hl. cbn [length] in Hl.
  unfold pool_list_put_free_elem. change (free (pool st)) with (pl_addr (pool st) + 16).
  rewrite Hm, bind_Ok, signed_op_ok, bind_Ok by (unfold in_s; lia). eexists. split; [done|]. split; [done|].
  split; cbn [nodes addrs pool pl_addr free_num cur_slub max_slub elem_size prealloc_num
    a_call snd a_free a_avail a_held a_slabs a_cur a_max a_num length]; rewrite ?He, ?filter_ne_split by done;
    [done|apply HR| | |apply HR..].
  - rewrite <-Hel. solve_Permutation.
  - lia.
Qed.

(** The refinement step. *)
Lemma call_rel size st a c :
  pool_rel size st a → call_ok size (pl_addr (pool st)) c a →
  ∃ st', c_call c st = Ok ((a_call size c a).1, st') ∧ pl_addr (pool st') = pl_addr (pool st) ∧
    pool_rel size st' (a_call size c a).2.
Proof.
  intros HR Hok. destruct c as [ret|e| |e|m n]; cbn [c_call].
  - by apply get_free_rel.
  - by apply put_available_rel.
  - exists st. split; [|done]. unfold pool_list_get_available_elem.
    change (available (pool st)) with (pl_addr (pool st) + 32).
    pose proof (ri_avail _ _ _ (pr_rings _ _ _ HR)) as Hav.
    rewrite (list_empty_run _ _ _ Hav), bind_Ok. cbn [a_call fst]. destruct (a_avail a) as [|e l]; [done|].
    rewrite bool_decide_false by done. unfold Klist.list_first_entry, Klist.list_entry.
    rewrite (ld_next_head _ _ _ Hav), !bind_Ok. cbn [start_of hd]. by rewrite Z.sub_0_r.
  - by apply put_free_rel.
  - eexists. split; [done|]. split; [done|]. destruct Hok as (H1 & H2 & H3).
    destruct HR as [R1 R2 R3 R4 R5 R6 R7 R8]. split; [|done..]. by destruct R1.
Qed.

Lemma run_rel size cs st a :
  pool_rel size st a → run_ok size (pl_addr (pool st)) cs a →
  ∃ st', c_run cs st = Ok ((a_run size cs a).1, st') ∧ pool_rel size st' (a_run size cs a).2.
Proof.
  revert st a. induction cs as [|c cs IH]; intros st a HR Hok; [by exists st|]. destruct Hok as [Hc Hcs].
  destruct (call_rel size st a c HR Hc) as (st1 & Hr & Hat & HR1). cbn [c_run a_run]. rewrite Hr, bind_Ok.
  cbn [fst snd]. rewrite <-Hat in Hcs. destruct (IH st1 _ HR1 Hcs) as (st' & -> & HR').
  rewrite bind_Ok. by exists st'.
Qed.

(** ** A new pool *)

(** The pool object is in memory; what it holds does not matter. *)
Definition fresh_pool (size : Z) (st : pstate) : Prop :=
  0 < pl_addr (pool st) ∧
  Forall (valid (nodes st)) [slub (pool st); free (pool st); available (pool st)] ∧
  in_s 32 (cur_slub (pool st)) ∧ 0 ≤ size ∧ slab_len size (Slab 0 PREALLOC_NUM) < 2 ^ 31.

Definition a_init (st : pstate) : apool := APool [] [] [] [] (cur_slub (pool st)) (u32 (-1)) PREALLOC_NUM.

Lemma init_rel size st :
  fresh_pool size st →
  ∃ st', pool_list_init size st = Ok (0, st') ∧ pl_addr (pool st') = pl_addr (pool st) ∧
    pool_rel size st' (a_init st).
Proof.
  intros (H0 & Hv & Hc & Hs & Hl). rewrite !Forall_cons in Hv. destruct Hv as (V1 & V2 & V3 & _).
  unfold slub, free, available in *. unfold pool_list_init, slub, free, available.
  destruct (init_run (nodes st) _ V3) as (h1 & -> & D1 & F1). rewrite bind_Ok.
  destruct (init_run h1 _ (frame_valid _ _ _ _ F1 V2)) as (h2 & -> & D2 & F2). rewrite bind_Ok.
  destruct (init_run h2 _ (frame_valid _ _ _ _ F2 (frame_valid _ _ _ _ F1 V1))) as (h3 & -> & D3 & F3).
  rewrite bind_Ok. eexists. split; [done|]. split; [done|].
  assert (∀ p q : Z, p ≠ q → ∀ x, x ∈ [p] → x ∉ [q]) as Hd.
  { intros p q Hpq x ->%list_elem_of_singleton. by rewrite list_elem_of_singleton. }
  unfold slab_len, sizeof_list_head, sizeof_pool_elem_t, PREALLOC_NUM in Hl. cbn [sb_num] in Hl.
  split; cbn [nodes addrs pool pl_addr free_num cur_slub max_slub elem_size prealloc_num a_init
              a_free a_avail a_held a_slabs a_cur a_max a_num].
  - split; cbn [a_free a_avail a_held a_slabs fmap list_fmap]; [done| | |constructor].
    + eapply frame_dlist; [exact F3| |done]. apply Hd. lia.
    + eapply frame_dlist; [exact F3|apply Hd; lia|]. eapply frame_dlist; [exact F2|apply Hd; lia|done].
  - split; [done|lia|constructor..].
  - done.
  - done.
  - done.
  - done.
  - split; [done|]. unfold PREALLOC_NUM. split; [lia|]. split; [|unfold slab_len, sizeof_list_head, sizeof_pool_elem_t; cbn [sb_num]; lia].
    rewrite Z.mul_comm. replace (size * 16) with (size * 2 * 8) by lia. by apply Z_mod_mult.
  - done.
Qed.

(** ** Data areas *)

Lemma apart_sym a la b lb : apart a la b lb → apart b lb a la.
Proof. unfold apart. tauto. Qed.

Lemma slabs_apart ad size at_ ss s t :
  layout ad size at_ ss → s ∈ ss → t ∈ ss → s ≠ t →
  apart (sb_base s) (slab_len size s) (sb_base t) (slab_len size t).
Proof.
  intros HL Hs%list_elem_of_In Ht%list_elem_of_In Hne.
  destruct (ForallOrdPairs_In (la_apart _ _ _ _ HL) _ _ Hs Ht) as [|[|]]; [done..|by apply apart_sym].
Qed.

(** The data area of an element lies in its block, in front of the headers. *)
Lemma data_in_slab ad size at_ ss e :
  layout ad size at_ ss → e ∈ all_elems size ss →
  ∃ s i, s ∈ ss ∧ 0 ≤ i < sb_num s ∧ e = elem_at (sb_base s) (sb_num s) size i ∧
    ad !! e = Some (data_at (sb_base s) size i) ∧
    sb_base s + sizeof_list_head ≤ data_at (sb_base s) size i ∧
    data_at (sb_base s) size i + size ≤ elem_at (sb_base s) (sb_num s) size 0 ∧
    elem_at (sb_base s) (sb_num s) size 0 ≤ e.
Proof.
  intros HL (s & Hs & (i & Hi & ->)%elem_of_slab)%elem_of_all. exists s, i.
  pose proof (la_addr _ _ _ _ HL) as Had. rewrite Forall_forall in Had.
  destruct (la_size _ _ _ _ HL) as [Hsz _].
  split; [done|]. split; [done|]. split; [done|]. split; [by apply Had|].
  unfold data_at, elem_at, sizeof_list_head, sizeof_pool_elem_t. nia.
Qed.

Lemma data_apart ad size at_ ss e f d g :
  layout ad size at_ ss → e ∈ all_elems size ss → f ∈ all_elems size ss → e ≠ f →
  ad !! e = Some d → ad !! f = Some g → apart d size g size.
Proof.
  intros HL He Hf Hne Hd Hg.
  destruct (data_in_slab _ _ _ _ _ HL He) as (s & i & Hs & Hi & -> & Hd' & D1 & D2 & D3).
  destruct (data_in_slab _ _ _ _ _ HL Hf) as (t & j & Ht & Hj & -> & Hg' & G1 & G2 & G3).
  rewrite Hd' in Hd. rewrite Hg' in Hg. injection Hd as <-. injection Hg as <-.
  destruct (la_size _ _ _ _ HL) as [Hsz _].
  destruct (decide (s = t)) as [->|Hst].
  - unfold apart, data_at. destruct (decide (i < j)); [left; nia|right].
    assert (i ≠ j) by (intros ->; done). nia.
  - pose proof (slabs_apart _ _ _ _ s t HL Hs Ht Hst) as Ha.
    pose proof (elem_in_slab size s _ Hsz (proj2 (elem_of_slab size s _) (ex_intro _ i (conj Hi eq_refl)))).
    pose proof (elem_in_slab size t _ Hsz (proj2 (elem_of_slab size t _) (ex_intro _ j (conj Hj eq_refl)))).
    unfold apart, sizeof_list_head, sizeof_pool_elem_t in *. lia.
Qed.

(** ** Properties *)

(** An element header that would not be aligned: the first block is then already
    undefined. *)
Lemma expand_misaligned st base num size :
  0 < num → in_s 32 (num * size) → base mod 8 = 0 → (num * size) mod 8 ≠ 0 →
  ∀ r, expand_pool_list (Some base) num size st ≠ Ok r.
Proof.
  intros Hn Hs Hb Hm r. unfold expand_pool_list. destruct (Klist.list_add _ _ _) as [h|u|]; [|done..].
  rewrite bind_Ok, signed_bind by done. cbv zeta.
  destruct (Z.to_nat num) as [|n] eqn:Hnum; [lia|]. cbn [for_up].
  rewrite decide_False; [done|]. unfold sizeof_list_head, sizeof_pool_elem_t.
  rewrite Z.mul_0_r, Z.add_0_r. intros He. apply Hm.
  replace (num * size) with (base + 16 + num * size - (base + 2 * 8)) by lia.
  rewrite Zminus_mod, He, Z_mod_plus_full, Hb. done.
Qed.

(** C4: (refinement) From a pool object with any contents, initialised for
    elements of [size] bytes, every sequence of calls returns what the abstract
    pool returns: free elements are taken from the front of the free list, cut
    from a new block when it is empty and a block is allowed and to be had, and
    null otherwise; available elements come back first in, first out.  No call is
    undefined.  What is asked of the run ([fresh_pool], [run_ok]): the client
    makes available only what it holds and frees only what is available;
    [calloc] answers null or an aligned block that overlaps neither the pool nor
    an older block; a block of the preallocated number of elements is below 2 GiB
    and puts its element headers, which follow the data areas, at a multiple of
    eight bytes (always so for the default of 16 elements); and the [int]
    counters have room, [free_num] for all elements and [cur_slub], which is
    never initialised, for one more block. *)
Theorem pool_refines size cs st :
  fresh_pool size st → run_ok size (pl_addr (pool st)) cs (a_init st) →
  ∃ st1 st2, pool_list_init size st = Ok (0, st1) ∧
    c_run cs st1 = Ok ((a_run size cs (a_init st)).1, st2) ∧
    pool_rel size st2 (a_run size cs (a_init st)).2.
Proof.
  intros Hf Hok. destruct (init_rel size st Hf) as (st1 & Hi & Hat & HR). rewrite <-Hat in Hok.
  destruct (run_rel size cs st1 _ HR Hok) as (st2 & Hr & HR2). eauto.
Qed.

(** C6: (type) What the pool object is after any run as in the refinement theorem
    (with the same conditions on client, allocator, block layout and counters):
    in its memory the three heads are rings that visit the blocks, the free and
    the available elements, the elements held by clients are on none, and all
    these nodes are different; every element cut from a block is in exactly one
    of the three places, free, available or held; [free_num] is the length of the
    free ring; every element has a data area of [size] bytes in its block in
    front of the headers; and the areas of different elements do not overlap. *)
Theorem pool_wellformed size cs st :
  fresh_pool size st → run_ok size (pl_addr (pool st)) cs (a_init st) →
  ∃ st1 rs st2 fr av hs ss, pool_list_init size st = Ok (0, st1) ∧ c_run cs st1 = Ok (rs, st2) ∧
    dlist (nodes st2) (slub (pool st2)) (sb_base <$> ss) ∧
    dlist (nodes st2) (free (pool st2)) fr ∧
    dlist (nodes st2) (available (pool st2)) av ∧
    Forall (λ e, nodes st2 !! e = Some (ListHead NULL NULL)) hs ∧
    NoDup ([slub (pool st2); free (pool st2); available (pool st2)]
           ++ (sb_base <$> ss) ++ fr ++ av ++ hs) ∧
    fr ++ av ++ hs ≡ₚ all_elems size ss ∧
    free_num (pool st2) = Z.of_nat (length fr) ∧
    (∀ e, e ∈ all_elems size ss →
       ∃ s d, s ∈ ss ∧ e ∈ slab_elems size s ∧ addrs st2 !! e = Some d ∧
         sb_base s + sizeof_list_head ≤ d ∧ d + size ≤ elem_at (sb_base s) (sb_num s) size 0) ∧
    (∀ e f d g, e ∈ all_elems size ss → f ∈ all_elems size ss → e ≠ f →
       addrs st2 !! e = Some d → addrs st2 !! f = Some g → apart d size g size).
Proof.
  intros Hf Hok. destruct (init_rel size st Hf) as (st1 & Hi & Hat & HR). rewrite <-Hat in Hok.
  destruct (run_rel size cs st1 _ HR Hok) as (st2 & Hr & HR2). set (a := (a_run size cs (a_init st)).2) in *.
  exists st1, (a_run size cs (a_init st)).1, st2, (a_free a), (a_avail a), (a_held a), (a_slabs a).
  split; [done|]. split; [done|]. destruct (pr_rings _ _ _ HR2) as [R1 R2 R3 R4].
  split; [exact R1|]. split; [exact R2|]. split; [exact R3|]. split; [exact R4|].
  split; [exact (rel_NoDup _ _ _ HR2)|].
  split; [apply HR2|]. split; [apply HR2|]. pose proof (pr_layout _ _ _ HR2) as HL. split.
  - intros e He. destruct (data_in_slab _ _ _ _ e HL He) as (s & i & Hs & Hi' & -> & Hd & ? & ? & _).
    exists s, (data_at (sb_base s) size i). split; [done|]. split; [|done]. apply elem_of_slab. eauto.
  - intros e f d g He Hf' Hne Hd Hg. exact (data_apart _ _ _ _ e f d g HL He Hf' Hne Hd Hg).
Qed.

(** An element that is held is on no ring: freeing it directly, without making it
    available first, follows a null link. *)
Lemma put_free_held size st a e :
  pool_rel size st a → e ∈ a_held a → pool_list_put_free_elem e st = Ub NullDeref.
Proof.
  intros HR He. assert (0 < e) as H0.
  { apply (rel_nonnull size st a e HR). unfold a_nodes. rewrite !elem_of_app. auto. }
  pose proof (ri_held _ _ _ (pr_rings _ _ _ HR)) as Hh. rewrite Forall_forall in Hh. specialize (Hh e He).
  unfold pool_list_put_free_elem, Klist.list_move, ld_prev, ld_next, deref.
  rewrite decide_False by (unfold NULL; lia). by rewrite Hh.
Qed.

(** ** Witnesses *)

(** A pool of 12-byte elements at 4096; what its memory holds first is arbitrary. *)
Definition ex_pool : pstate :=
  PState {[ 4096 := ListHead 1 2; 4112 := ListHead 3 4; 4128 := ListHead 5 6 ]} ∅ (Pool 4096 7 0 9 9 9).
(** Two elements per block, one block: three requests, one round trip. *)
Definition ex_calls : list call :=
  [SetLimit 1 2; GetFree (Some 8192); GetFree None; GetFree (Some 16384); PutAvailable 8256;
   GetAvailable; PutFree 8256; GetAvailable; GetFree None].

Lemma ex_pool_ok : fresh_pool 12 ex_pool ∧ run_ok 12 4096 ex_calls (a_init ex_pool).
Proof.
  split.
  - split; [done|]. split; [|by vm_compute].
    repeat (apply Forall_cons; split; [split; [done|by eexists]|]). apply Forall_nil_2.
  - apply (bool_decide_unpack _). vm_compute. exact I.
Qed.

Lemma pool_refines_witness :
  ∃ st1 st2, pool_list_init 12 ex_pool = Ok (0, st1) ∧
    c_run ex_calls st1 = Ok ([0; 8256; 8232; 0; 0; 8256; 0; 0; 8256], st2).
Proof.
  destruct (pool_refines 12 ex_calls ex_pool (proj1 ex_pool_ok) (proj2 ex_pool_ok))
    as (st1 & st2 & H1 & H2 & _). exists st1, st2. split; [exact H1|exact H2].
Defined.

(** The run ends with nothing free and both elements held. *)
Lemma pool_wellformed_witness :
  ∃ st1 rs st2 fr, pool_list_init 12 ex_pool = Ok (0, st1) ∧ c_run ex_calls st1 = Ok (rs, st2) ∧
    dlist (nodes st2) (free (pool st2)) fr ∧ free_num (pool st2) = Z.of_nat (length fr).
Proof.
  destruct (pool_wellformed 12 ex_calls ex_pool (proj1 ex_pool_ok) (proj2 ex_pool_ok))
    as (st1 & rs & st2 & fr & av & hs & ss & H1 & H2 & _ & H3 & _ & _ & _ & _ & H4 & _).
  exists st1, rs, st2, fr. split; [exact H1|]. split; [exact H2|]. split; [exact H3|exact H4].
Defined.
