(* ===== verification/Alive.v ===== *)
(** * Alive: heartbeats from the sender to both sniffers

    The programs of socket/ together: [main] of udp_test.c sends heartbeats
    through the client of udp_client.c; they travel as Ethernet frames among
    other traffic; [main] of sniffer_test.c receives them with the worker of
    sniffer_framework.c and prints them, and [main] of sniffer.c hands them to the
    driver.

    Theorem: what each sniffer puts out is, in order, one entry for each datagram
    that arrives, and nothing for other traffic.  A sniffer that could
    not open its socket goes on nevertheless and follows a null pointer. *)

From S2P Require Import Prelude KList PthreadModel FileUtils Heartbeat UdpClient Sniffer.

(** ** socket/udp_test.c *)

(** [argv[1]], copied into 16 bytes, and [argv[2]]; the defaults are 127.0.0.1
    and 3355. *)
Definition loopback : list Z := [49; 50; 55; 46; 48; 46; 48; 46; 49].
Definition test_args (argv : list (list Z)) : res (list Z * Z) :=
  ip_addr ← match argv !! 1%nat with
            | Some a => if decide (Z.of_nat (length a) + 1 ≤ 16) then mret a else Ub OutOfBounds
            | None => mret loopback
            end;
  ip_port ← match argv !! 2%nat with Some a => atoi a | None => mret 3355 end;
  mret (ip_addr, ip_port).

(** The datagrams [sendto] accepts in one call of [udp_client_send]: [answers]
    are the results of its attempts. *)
Definition accepted (answers : nat → Z) (n : nat) (msg : list Z) : list (list Z) :=
  (λ _, msg) <$> filter (λ j, 0 ≤ answers j) (seq 0 n).

(** [do { send } while (--send_times)]: [sendto k j] answers attempt [j] of the
    [k]th call. *)
Fixpoint send_loop (send_times : nat) (k : nat) (skt : option socket_base_t)
    (sendto : nat → nat → Z) (msg : list Z) : list (list Z) :=
  match send_times with
  | O => []
  | S send_times =>
      let r := udp_client_send skt (sendto k) in
      accepted (sendto k) r.2 msg ++ send_loop send_times (S k) skt sendto msg
  end.

(** The return value, the datagrams the network has accepted and the descriptor
    closed. *)
Definition udp_test_main (inet_addr : list Z → Z) (calloc_ok : bool) (sockfd : Z)
    (sendto : nat → nat → Z) (argv : list (list Z)) : res (Z * list (list Z) * option Z) :=
  '(ip_addr, ip_port) ← test_args argv;
  let send_buf := ping_message 0 ip_port in
  match (udp_client_init inet_addr calloc_ok sockfd ip_port ip_addr).1 with
  | None => mret (-1, [], None)
  | Some skt =>
      let sent := send_loop 20 0 (Some skt) sendto send_buf in
      mret (0, sent, (udp_client_destroy (Some skt)).2)
  end.

(** ** socket/sniffer_test.c *)

(** [m_filter]: the program's output is the text of each frame printed. *)
Definition m_filter : sniffer_filter_t (W := list (list Z)) :=
  SnifferFilter (λ eth_data _, alive_match eth_data)
    (λ eth_data size out, t ← alive_action eth_data size; mret (out ++ [t])).

(** The worker: [sniffer_model] on one reception after the other.  [recvfrom]
    stores a frame over the beginning of the buffer, or fails. *)
Fixpoint alive_worker (filters : gmap Z (sniffer_filter_t (W := list (list Z)))) (h : heap)
    (snf : sinffer_t) (buffer : list Z) (rxs : list (option (list Z))) (out : list (list Z))
    : res (list (list Z)) :=
  match rxs with
  | [] => mret out
  | rx :: rxs =>
      let '(buffer, data_size) :=
        match rx with Some f => Heartbeat.recvfrom buffer f | None => (buffer, -1) end in
      r ← sniffer_model 2 filters h snf buffer data_size out;
      alive_worker filters h snf buffer rxs r.1
  end.

(** What the system answers to [main]. *)
Record answers := Answers {
  malloc_ret : Z; socket_ret : Z; model_ok : bool; attr_ret : Z; create_ret : Z
}.

(** [main] with its objects [snf] and the filter at address [flt], up to the
    interrupt that ends it; the results of [sniffer_init] and [sniffer_start] are
    not looked at.  Without a thread there is no output. *)
Definition sniffer_test_main (w : answers) (h : heap) (snf : sinffer_t) (flt self routine : Z)
    (buffer : list Z) (rxs : list (option (list Z))) : res (list (list Z)) :=
  '(_, h, snf) ← sniffer_init h snf (malloc_ret w) (socket_ret w) 0;
  '(_, h) ← register_sniffer h snf flt;
  '(_, snf) ← sniffer_start (model_ok w) (attr_ret w) (create_ret w) routine self snf;
  if decide (create_ret w ≠ 0) then mret []
  else alive_worker {[ flt := m_filter ]} h snf buffer rxs [].

(** ** The network *)

(** A datagram in an Ethernet frame: 14 bytes of Ethernet and 20 bytes of IP
    header with protocol 17, the UDP ports, length and checksum, the datagram,
    and whatever fills the frame up. *)
Definition on_wire (d f : list Z) : Prop :=
  ∃ hdr cksum tail, length hdr = 38%nat ∧ hdr !! 23%nat = Some 17 ∧ length cksum = 2%nat ∧
    let len := 8 + Z.of_nat (length d) in
    f = hdr ++ [len / 256; len mod 256] ++ cksum ++ d ++ tail.

(** The frames on the interface while the datagrams of a list arrive in its order,
    with failed receptions and frames that are no heartbeats in between.  All
    frames have the size of Ethernet frames ([frame_ok]). *)
Inductive traffic : list (list Z) → list (option (list Z)) → Prop :=
  | traffic_end : traffic [] []
  | traffic_sent d f sent rxs : on_wire d f → frame_ok f → traffic sent rxs →
      traffic (d :: sent) (Some f :: rxs)
  | traffic_other f sent rxs : frame_ok f → heartbeat_frame id f = false → traffic sent rxs →
      traffic sent (Some f :: rxs)
  | traffic_error sent rxs : traffic sent rxs → traffic sent (None :: rxs).

(** ** The sender *)

Lemma send_loop_spec n k s sendto msg :
  (∀ i, sendto i 0%nat = 32 ∨ sendto i 0%nat = -1) →
  send_loop n k (Some s) sendto msg =
    (λ _, msg) <$> filter (λ i, sendto i 0%nat = 32) (seq k n).
Proof.
  intros Ha. revert k. induction n as [|n IH]; intros k; [done|]. cbn [send_loop seq].
  rewrite IH, filter_cons. unfold udp_client_send.
  rewrite attempt_stop by (destruct (Ha k) as [->| ->]; done). cbn [snd].
  unfold accepted. cbn [seq]. rewrite filter_cons, filter_nil.
  destruct (Ha k) as [E|E]; rewrite E; done.
Qed.

Lemma send_loop_pings n k s sendto msg : Forall (λ d, d = msg) (send_loop n k (Some s) sendto msg).
Proof.
  revert k. induction n as [|n IH]; intros k; cbn [send_loop]; [constructor|].
  apply Forall_app. split; [|apply IH]. unfold accepted. apply Forall_fmap, Forall_true. done.
Qed.

(** ** The frames that carry heartbeats *)

Definition hb_frames (rxs : list (option (list Z))) : list (list Z) :=
  filter (λ f, heartbeat_frame id f = true) (omap id rxs).

Lemma on_wire_ping no p f : on_wire (ping_message no p) f → 55 ≤ Z.of_nat (length f) →
  heartbeat_frame id f = true.
Proof.
  intros (hdr & cksum & tail & Hh & H17 & Hc & ->) Hlen.
  destruct (ping_is_heartbeat no p hdr cksum tail Hh H17 Hc) as (Hl & Ha & _).
  rewrite Hl in *. change (8 + Z.of_nat 32) with 40 in *. cbn [Z.div Z.modulo] in *.
  change (40 / 256) with 0 in *. change (40 mod 256) with 40 in *.
  unfold alive_match in Ha. rewrite filter_total in Ha by done.
  by destruct (heartbeat_frame _ _).
Qed.

Lemma traffic_frames no p sent rxs :
  Forall (λ d, d = ping_message no p) sent → traffic sent rxs →
  Forall2 on_wire sent (hb_frames rxs) ∧ (∀ f, Some f ∈ rxs → frame_ok f).
Proof.
  intros Hs Ht. induction Ht as [|d f sent rxs Hw Hf _ IH|f sent rxs Hf Hn _ IH|sent rxs _ IH].
  - split; [constructor|]. by intros f ?%not_elem_of_nil.
  - apply Forall_cons in Hs as [-> Hs]. destruct (IH Hs) as [IH1 IH2]. unfold hb_frames. cbn [omap list_omap id].
    rewrite filter_cons, decide_True by (eapply on_wire_ping; [done|destruct Hf; lia]). split.
    + by constructor.
    + intros g [[= ->]|Hg]%elem_of_cons; [done|by apply IH2].
  - destruct (IH Hs) as [IH1 IH2]. unfold hb_frames. cbn [omap list_omap id].
    rewrite filter_cons, decide_False by congruence. split; [done|].
    intros g [[= ->]|Hg]%elem_of_cons; [done|by apply IH2].
  - destruct (IH Hs) as [IH1 IH2]. split; [done|]. intros g [?|Hg]%elem_of_cons; [done|by apply IH2].
Qed.

Lemma heartbeats_frames sock io rxs :
  0 ≤ sock → 0 ≤ io → heartbeats ((λ rx, Round rx sock io) <$> rxs) = hb_frames rxs.
Proof.
  intros Hs Hi. induction rxs as [|[f|] rxs IH]; [done| |done]. unfold heartbeats, hb_frames in *.
  cbn [fmap list_fmap omap list_omap id rx rd_sock rd_ioctl]. rewrite filter_cons, <-IH.
  rewrite bool_decide_true, andb_true_r by done. by destruct (heartbeat_frame id f).
Qed.

(** ** The worker of the sniffer *)

Lemma hex_text_foldl f out : foldl (λ o b, o ++ fmt_02x b) out f = out ++ hex_text f.
Proof.
  revert out. induction f as [|b f IH]; intros out; cbn; [by rewrite app_nil_r|].
  rewrite IH. unfold hex_text. cbn. by rewrite app_assoc.
Qed.

Lemma alive_action_spec f rest :
  alive_action (f ++ rest) (Z.of_nat (length f)) = Ok (hex_text f).
Proof.
  unfold alive_action. rewrite Nat2Z.id.
  rewrite (for_up_fold0 _ (λ o b, o ++ fmt_02x b)); [by rewrite hex_text_foldl|].
  intros i b o Hi. by rewrite (arr_get_nat _ i b) by (by apply lookup_app_l_Some).
Qed.

Lemma alive_worker_spec h snf flt buffer rxs out :
  dlist h (filter_head snf) [flt] → is_debug snf = 0 →
  Forall byte_ok buffer → length buffer = 1536%nat → (∀ f, Some f ∈ rxs → frame_ok f) →
  alive_worker {[ flt := m_filter ]} h snf buffer rxs out = Ok (out ++ (hex_text <$> hb_frames rxs)).
Proof.
  intros Hd Hdb. revert buffer out. induction rxs as [|[f|] rxs IH]; intros buffer out Hb Hl Hf.
  - unfold hb_frames. cbn. by rewrite app_nil_r.
  - pose proof (Hf f ltac:(by left)) as Hfo.
    destruct (recvfrom_ok buffer f Hb Hl Hfo) as (Hr & Hb' & Hl'). cbn [alive_worker]. rewrite Hr.
    rewrite (sniffer_model_dispatch {[ flt := m_filter ]} _ _
      (λ _, if heartbeat_frame id f then 1 else 0) (λ _ o, o ++ [hex_text f]) 2 h snf [flt] out);
      [|done|done| |cbn; lia|lia].
    + rewrite bind_Ok. cbn [foldl fst]. rewrite IH by (done || (intros g Hg; apply Hf; by right)).
      unfold deliver, hb_frames. cbn [omap list_omap id]. rewrite filter_cons.
      destruct (heartbeat_frame id f).
      * rewrite decide_False, decide_True by done. by rewrite fmap_cons, <-app_assoc.
      * by rewrite decide_True, decide_False.
    + intros x Hx%list_elem_of_singleton. subst x. exists m_filter.
      split; [apply lookup_singleton_eq|]. cbn [match_ action m_filter]. split.
      * unfold alive_match. rewrite filter_total by (rewrite Hl'; done).
        by rewrite heartbeat_frame_app by (destruct Hfo; lia).
      * intros o. by rewrite alive_action_spec.
  - cbn [alive_worker]. unfold sniffer_model. rewrite decide_True by lia.
    change (mret ?z ≫= ?k) with (k z). cbv beta. cbn [fst].
    rewrite IH by (done || (intros g Hg; apply Hf; by right)). done.
Qed.

Lemma sniffer_test_runs w h snf flt self routine buffer rxs :
  malloc_ret w ≠ 0 → 0 ≤ socket_ret w → model_ok w = true → attr_ret w = 0 → create_ret w = 0 →
  valid h (filter_head snf) → valid h flt → flt ≠ filter_head snf →
  Forall byte_ok buffer → length buffer = 1536%nat → (∀ f, Some f ∈ rxs → frame_ok f) →
  sniffer_test_main w h snf flt self routine buffer rxs = Ok (hex_text <$> hb_frames rxs).
Proof.
  intros Hm Hs Hok Hat Hcr Hv Hvf Hne Hb Hl Hf. unfold sniffer_test_main, sniffer_init.
  cbn [sockfd Sniffer.buffer buf_size filter_head].
  rewrite (decide_False (P := malloc_ret w = 0)) by done.
  rewrite (decide_False (P := socket_ret w < 0)) by lia.
  destruct (init_run h (filter_head snf) Hv) as (h1 & -> & Hd1 & Hf1). rewrite !bind_Ok.
  change (mret ?z ≫= ?k) with (k z). cbv beta iota. unfold register_sniffer. cbn [filter_head].
  destruct (list_add_run h1 (filter_head snf) [] flt Hd1) as (h2 & -> & Hd2 & _);
    [by eapply frame_valid|by rewrite list_elem_of_singleton|].
  rewrite !bind_Ok. change (mret ?z ≫= ?k) with (k z). cbv beta iota. unfold sniffer_start.
  unfold pthread_model_create, pthread_model_start. rewrite Hok, Hat, Hcr.
  rewrite !(decide_False (P := 0 ≠ 0)) by naive_solver.
  change (mret ?z ≫= ?k) with (k z). cbv beta iota.
  change (mret ?z ≫= ?k) with (k z). cbv beta iota.
  by rewrite alive_worker_spec.
Qed.

(** A [sniffer_init] that fails leaves the list of filters as it was, zero; its
    result is not looked at and registering the filter follows a null pointer. *)
Lemma sniffer_test_no_socket w h snf flt self routine buffer rxs :
  malloc_ret w = 0 ∨ socket_ret w < 0 → filter_head snf ≠ 0 →
  h !! filter_head snf = Some (ListHead NULL NULL) →
  sniffer_test_main w h snf flt self routine buffer rxs = Ub NullDeref.
Proof.
  intros Hfail Hn Hz. unfold sniffer_test_main, sniffer_init. cbn [filter_head sockfd].
  assert (Hreg : ∀ s, filter_head s = filter_head snf → register_sniffer h s flt = Ub NullDeref).
  { intros s Hs. unfold register_sniffer, Klist.list_add, ld_next, deref. rewrite Hs.
    by rewrite decide_False, Hz by done. }
  destruct (decide (malloc_ret w = 0)) as [|Hm].
  - change (mret ?z ≫= ?k) with (k z). cbv beta iota. by rewrite Hreg.
  - rewrite decide_True by naive_solver. change (mret ?z ≫= ?k) with (k z). cbv beta iota.
    by rewrite Hreg.
Qed.

(** ** End to end *)

(** C16: (functional) heartbeats end to end: for a port and an address that fit,
    and whatever the fate of its 20 [sendto] calls (each accepts the whole
    datagram or fails), [udp_test] returns 0, closes its socket, and has had
    exactly one datagram accepted for each call that succeeded.  The network may
    lose, repeat and reorder the accepted datagrams.  Whichever of them arrive at
    an interface, in frames with any headers of a UDP packet without IP options,
    among failed receptions and frames that are no heartbeats, all frames of 60 to
    1518 bytes: [sniffer_test] prints exactly one text per arrival, in order, the
    hexadecimal bytes of its frame; and [sniffer], where [char] is unsigned and its
    [socket] and [ioctl] work, hands the driver exactly one command per arrival, in
    order, each replaying its frame.  None of the programs has undefined behaviour.
    The sniffers' own set-up succeeds. *)
Theorem alive_end_to_end (inet_addr : list Z → Z) (sockfd : Z) (sendto : nat → nat → Z)
    (argv : list (list Z)) (addr : list Z) (port : Z) (w : answers) (h : heap) (snf : sinffer_t)
    (flt self routine : Z) (buffer : list Z) (raw_sock sock io : Z) :
  test_args argv = Ok (addr, port) → 0 ≤ sockfd →
  (∀ k, sendto k 0%nat = 32 ∨ sendto k 0%nat = -1) →
  malloc_ret w ≠ 0 → 0 ≤ socket_ret w → model_ok w = true → attr_ret w = 0 → create_ret w = 0 →
  valid h (filter_head snf) → valid h flt → flt ≠ filter_head snf →
  Forall byte_ok buffer → length buffer = 1536%nat → 0 ≤ raw_sock → 0 ≤ sock → 0 ≤ io →
  ∃ sent, udp_test_main inet_addr true sockfd sendto argv = Ok (0, sent, Some sockfd) ∧
    length sent = length (filter (λ k, sendto k 0%nat = 32) (seq 0 20)) ∧
    ∀ arrived rxs, Forall (λ d, d ∈ sent) arrived → traffic arrived rxs →
      (∃ out, sniffer_test_main w h snf flt self routine buffer rxs = Ok out ∧
         Forall2 (λ d t, ∃ f, on_wire d f ∧ t = hex_text f) arrived out) ∧
      (∃ cmds, sniffer_main (Some buffer) raw_sock false ((λ rx, Round rx sock io) <$> rxs) = Ok cmds ∧
         Forall2 (λ d c, ∃ f, on_wire d f ∧ replays f c) arrived cmds).
Proof.
  intros Hargs Hfd Hsend Hm Hs Hok Hat Hcr Hv Hvf Hne Hb Hl Hraw Hsock Hio. eexists.
  unfold udp_test_main. rewrite Hargs, bind_Ok. unfold udp_client_init.
  rewrite decide_False by lia. cbn [fst udp_client_destroy snd fd].
  split; [done|]. split; [by rewrite send_loop_spec, length_fmap|]. intros arrived rxs Ha Ht.
  assert (Hp : Forall (λ d, d = ping_message 0 port) arrived).
  { eapply Forall_impl; [exact Ha|]. intros d Hd.
    by apply (proj1 (Forall_forall _ _) (send_loop_pings _ _ _ _ _) d) in Hd. }
  destruct (traffic_frames 0 port _ rxs Hp Ht) as [Hw Hf]. split.
  - eexists. split; [by apply sniffer_test_runs|]. apply Forall2_fmap_r.
    eapply Forall2_impl; [exact Hw|]. cbn. eauto.
  - unfold sniffer_main. rewrite decide_False by lia.
    destruct (sniffer_loop_replays buffer ((λ rx, Round rx sock io) <$> rxs) Hb Hl)
      as (b & cmds & -> & Hc).
    { intros r f (rx & -> & Hrx)%list_elem_of_fmap. cbn. intros ->. by apply Hf. }
    exists cmds. split; [done|]. rewrite heartbeats_frames in Hc by done.
    eapply Forall2_trans; [|exact Hw|exact Hc]. cbn. eauto.
Qed.

(** Two of the 20 calls succeed; of the three datagrams that arrive one is a copy; a
    failed reception and another frame come in between. *)
Definition ex_argv : list (list Z) := [[117]; [49; 48; 46; 48; 46; 48; 46; 49]; [51; 51; 53; 53]].
Definition ex_sendto (k _ : nat) : Z := if decide (k < 18)%nat then -1 else 32.
Definition ex_frame : list Z :=
  (replicate 23 0 ++ [17] ++ replicate 14 0) ++ [0; 40] ++ [0; 0] ++ ping_message 0 3355 ++ [].
Definition ex_rxs : list (option (list Z)) :=
  [Some ex_frame; None; Some (replicate 60 0); Some ex_frame; Some ex_frame].

Lemma bytes_compute (l : list Z) : forallb (λ b, (0 <=? b) && (b <? 256)) l = true → Forall byte_ok l.
Proof.
  intros H. apply Forall_forall. intros b Hb. rewrite forallb_forall in H.
  specialize (H b ltac:(by apply list_elem_of_In)). unfold byte_ok. lia.
Qed.

Lemma ex_traffic : traffic [ping_message 0 3355; ping_message 0 3355; ping_message 0 3355] ex_rxs.
Proof.
  assert (on_wire (ping_message 0 3355) ex_frame).
  { by exists (replicate 23 0 ++ [17] ++ replicate 14 0), [0; 0], []. }
  assert (frame_ok ex_frame) by (split; [by apply bytes_compute|by vm_compute]).
  assert (frame_ok (replicate 60 0)) by (split; [by apply bytes_compute|by vm_compute]).
  apply traffic_sent; [done|done|]. apply traffic_error, traffic_other; [done|by vm_compute|].
  apply traffic_sent; [done|done|]. by apply traffic_sent; [..|constructor].
Qed.

Lemma alive_end_to_end_witness :
  ∃ sent, udp_test_main (λ _, 0) true 3 ex_sendto ex_argv = Ok (0, sent, Some 3) ∧ length sent = 2%nat ∧
    (∃ out, sniffer_test_main (Answers 4096 4 true 0 0) demo (Sinffer 0 0 0 None 8 0) 16 0 1
         (replicate 1536 0) ex_rxs = Ok out ∧ length out = 3%nat) ∧
    (∃ cmds, sniffer_main (Some (replicate 1536 0)) 3 false ((λ rx, Round rx 5 0) <$> ex_rxs) = Ok cmds ∧
       length cmds = 3%nat).
Proof.
  destruct (alive_end_to_end (λ _, 0) 3 ex_sendto ex_argv [49; 48; 46; 48; 46; 48; 46; 49] 3355
    (Answers 4096 4 true 0 0) demo (Sinffer 0 0 0 None 8 0) 16 0 1 (replicate 1536 0) 3 5 0)
    as (sent & Hm & Hlen & Ht); try (done || lia || valid_compute).
  - intros k. unfold ex_sendto. case_decide; auto.
  - by apply bytes_compute.
  - assert (sent = [ping_message 0 3355; ping_message 0 3355]) as ->.
    { assert (H : udp_test_main (λ _, 0) true 3 ex_sendto ex_argv =
        Ok (0, [ping_message 0 3355; ping_message 0 3355], Some 3)) by (by vm_compute). congruence. }
    destruct (Ht [ping_message 0 3355; ping_message 0 3355; ping_message 0 3355] ex_rxs
      ltac:(repeat (apply Forall_cons; split; [by left|]); by apply Forall_nil) ex_traffic) as [(out & Ho & H1) (cmds & Hc & H2)].
    apply Forall2_length in H1, H2. exists [ping_message 0 3355; ping_message 0 3355].
    split; [exact Hm|]. split; [done|]. split.
    + exists out. split; [exact Ho|]. by rewrite <-H1.
    + exists cmds. split; [exact Hc|]. by rewrite <-H2.
Defined.
