(* ===== verification/EpollLoop.v ===== *)
(** * EpollLoop: the accept loop of linux/io_backend/io_backend_epoll.c

    The file is the body of a server: it registers a listening socket with an
    epoll instance, then waits for events, accepts a connection for each event of
    the listening socket and hands the other descriptors to [do_use_fd].  The
    text is not inside a function and leaves [n], [local] and [addrlen]
    undeclared; [do_use_fd] and [setnonblocking] are not in the repository.
    [do_use_fd] is a parameter: a function of the descriptor and of a state of its
    own that tells which descriptors it closes, any of them.

    Descriptors are reused: a connection closed while a batch of events is
    handled may lend its number to one accepted later in the same batch.  Theorem:
    the interest list is always the listening socket and the open connections, and
    no event is lost or handled twice; when [do_use_fd] closes no other descriptor
    than its own, every call of it is on a connection that is open.  Otherwise an
    event of the batch may be stale ([epoll_stale_event]). *)

From S2P Require Import Prelude.

Definition MAX_EVENTS : Z := 10.
Definition EPOLLIN : Z := 1.
Definition EPOLLET : Z := Z.shiftl 1 31.

(** The interest list with the events asked for, the open connections, those in
    non-blocking mode, the calls of [do_use_fd] so far (the descriptor, and
    whether it was an open connection), and the state [do_use_fd] keeps. *)
Record server (W : Type) := Server {
  interest : gmap Z Z;
  conns : gset Z;
  nonblocking : gset Z;
  used : list (Z * bool);
  world : W;
}.
Arguments Server {W} _ _ _ _ _.
Arguments interest {W} _.
Arguments conns {W} _.
Arguments nonblocking {W} _.
Arguments used {W} _.
Arguments world {W} _.

(** The calls whose failure ends the program. *)
Inductive failure : Set := EpollCreate1 | EpollCtl | EpollWait | Accept.

(** What the system answers while one event is handled: the result of [accept]
    and whether the interest list has room. *)
Record answer := Answer { conn_sock : Z; has_room : bool }.

(** One return of [epoll_wait]: a failure, or the descriptors it stores. *)
Record wake := Wake { wk_batch : option (list Z); wk_ans : Z → answer }.

Section loop.
Context {W : Type} (do_use_fd : Z → W → W * gset Z) (listen_sock : Z).
Implicit Type s : server W.

(** [epoll_ctl(epollfd, EPOLL_CTL_ADD, fd, &ev)]: a descriptor is added once. *)
Definition epoll_ctl_add (room : bool) (fd ev : Z) s : server W + failure :=
  if room && bool_decide (interest s !! fd = None)
  then inl (Server (<[fd := ev]> (interest s)) (conns s) (nonblocking s) (used s) (world s))
  else inr EpollCtl.

(** The call of [do_use_fd]; closing a descriptor takes it off the interest list. *)
Definition use_fd (fd : Z) s : server W :=
  let u := used s ++ [(fd, bool_decide (fd ∈ conns s))] in
  let '(w, closed) := do_use_fd fd (world s) in
  Server (filter (λ p, p.1 ∉ closed) (interest s)) (conns s ∖ closed) (nonblocking s ∖ closed) u w.

Definition handle_event (fd : Z) (a : answer) s : server W + failure :=
  if decide (fd = listen_sock) then
    if decide (conn_sock a = -1) then inr Accept
    else
      let c := conn_sock a in
      let s := Server (interest s) ({[ c ]} ∪ conns s) (nonblocking s) (used s) (world s) in
      let s := Server (interest s) (conns s) ({[ c ]} ∪ nonblocking s) (used s) (world s) in
      epoll_ctl_add (has_room a) c (Z.lor EPOLLIN EPOLLET) s
  else inl (use_fd fd s).

(** [for (n = 0; n < nfds; ++n)] over the array [events]. *)
Fixpoint dispatch (todo : nat) (n : Z) (events : list Z) (ans : Z → answer) s
    : res (server W + failure) :=
  match todo with
  | O => mret (inl s)
  | S todo =>
      fd ← arr_get events n;
      match handle_event fd (ans n) s with
      | inl s => dispatch todo (n + 1) events ans s
      | inr f => mret (inr f)
      end
  end.

(** [epoll_wait] stores a batch in the array [events] of [MAX_EVENTS]. *)
Definition store (batch events : list Z) : list Z :=
  take (Z.to_nat MAX_EVENTS) batch ++ drop (length batch) events.

(** The loop on the wake-ups so far. *)
Fixpoint event_loop (events : list Z) (ws : list wake) s : res (server W + failure) :=
  match ws with
  | [] => mret (inl s)
  | w :: ws =>
      match wk_batch w with
      | None => mret (inr EpollWait)
      | Some batch =>
          let events := store batch events in
          r ← dispatch (length batch) 0 events (wk_ans w) s;
          match r with inl s => event_loop events ws s | inr f => mret (inr f) end
      end
  end.

(** The whole text, from [epoll_create1]. *)
Definition epoll_server (epollfd : Z) (room : bool) (ws : list wake) (w : W) : res (server W + failure) :=
  if decide (epollfd = -1) then mret (inr EpollCreate1)
  else
    match epoll_ctl_add room listen_sock EPOLLIN (Server ∅ ∅ ∅ [] w) with
    | inr f => mret (inr f)
    | inl s => event_loop (replicate (Z.to_nat MAX_EVENTS) 0) ws s
    end.

(** ** What the kernel promises *)

(** What [do_use_fd] may do: it does not close the listening socket; and, where it
    is asked for, no descriptor but its own. *)
Definition spares_listen : Prop := ∀ fd w, listen_sock ∉ (do_use_fd fd w).2.
Definition closes_own : Prop := ∀ fd w, (do_use_fd fd w).2 ⊆ {[ fd ]}.

(** [accept] fails or returns a descriptor that is not open. *)
Definition answer_ok (epollfd fd : Z) (a : answer) s : Prop :=
  fd = listen_sock → conn_sock a ≠ -1 →
  conn_sock a ≠ listen_sock ∧ conn_sock a ≠ epollfd ∧ (conn_sock a ∉ conns s).

Fixpoint answers_ok (epollfd : Z) (fds : list Z) (n : Z) (ans : Z → answer) s : Prop :=
  match fds with
  | [] => True
  | fd :: fds =>
      answer_ok epollfd fd (ans n) s ∧
      match handle_event fd (ans n) s with
      | inl s => answers_ok epollfd fds (n + 1) ans s
      | inr _ => True
      end
  end.

(** [epoll_wait] reports at most [MAX_EVENTS] descriptors, each on the interest
    list and reported once. *)
Fixpoint wakes_ok (epollfd : Z) (events : list Z) (ws : list wake) s : Prop :=
  match ws with
  | [] => True
  | w :: ws =>
      match wk_batch w with
      | None => True
      | Some batch =>
          Z.of_nat (length batch) ≤ MAX_EVENTS ∧ NoDup batch ∧
          Forall (λ fd, is_Some (interest s !! fd)) batch ∧
          answers_ok epollfd batch 0 (wk_ans w) s ∧
          match dispatch (length batch) 0 (store batch events) (wk_ans w) s with
          | Ok (inl s) => wakes_ok epollfd (store batch events) ws s
          | _ => True
          end
      end
  end.

#[global] Instance answer_ok_dec epollfd fd a s : Decision (answer_ok epollfd fd a s).
Proof. unfold answer_ok. apply _. Defined.
#[global] Instance answers_ok_dec epollfd fds n ans s : Decision (answers_ok epollfd fds n ans s).
Proof.
  revert n s. induction fds as [|fd fds IH]; intros n s; cbn [answers_ok]; [apply _|].
  destruct (handle_event fd (ans n) s); apply _.
Defined.
#[global] Instance wakes_ok_dec epollfd events ws s : Decision (wakes_ok epollfd events ws s).
Proof.
  revert events s. induction ws as [|w ws IH]; intros events s; cbn [wakes_ok]; [apply _|].
  destruct (wk_batch w) as [batch|]; [|apply _].
  destruct (dispatch _ _ _ _ _) as [[s'|]| |]; apply _.
Defined.

(** No call fails. *)
Definition all_succeed (ws : list wake) : Prop :=
  Forall (λ w, is_Some (wk_batch w) ∧ ∀ n, conn_sock (wk_ans w n) ≠ -1 ∧ has_room (wk_ans w n) = true) ws.

(** The descriptors handed to [do_use_fd] for these wake-ups. *)
Definition ready (ws : list wake) : list Z :=
  ws ≫= λ w, filter (λ fd, fd ≠ listen_sock) (default [] (wk_batch w)).

(** ** The invariant *)

Record inv s : Prop := {
  inv_listen : interest s !! listen_sock = Some EPOLLIN;
  inv_interest fd : fd ≠ listen_sock →
    interest s !! fd = if decide (fd ∈ conns s) then Some (Z.lor EPOLLIN EPOLLET) else None;
  inv_not_conn : listen_sock ∉ conns s;
  inv_nonblocking : nonblocking s = conns s;
}.

(** An event that may be handled: of the listening socket or of an open
    connection. *)
Definition live s (fd : Z) : Prop := fd = listen_sock ∨ fd ∈ conns s.

Definition fails (a : answer) : Prop := conn_sock a = -1 ∨ has_room a = false.

Lemma inv_live s fd : inv s → is_Some (interest s !! fd) → live s fd.
Proof.
  intros Hi [v Hv]. destruct (decide (fd = listen_sock)) as [->|Hn]; [by left|right].
  rewrite (inv_interest _ Hi fd Hn) in Hv. by case_decide.
Qed.

Lemma accept_spec epollfd a s :
  inv s → answer_ok epollfd listen_sock a s →
  match handle_event listen_sock a s with
  | inl s' => inv s' ∧ used s' = used s ∧ conns s' = {[ conn_sock a ]} ∪ conns s
  | inr _ => fails a
  end.
Proof.
  intros Hi Ha. unfold handle_event. rewrite decide_True by done.
  destruct (decide (conn_sock a = -1)) as [|Hc]; [by left|].
  destruct (Ha eq_refl Hc) as (Hl & _ & Hn). cbn [interest conns nonblocking used].
  unfold epoll_ctl_add. cbn [interest conns nonblocking used].
  rewrite (inv_interest _ Hi _ Hl), (decide_False (P := conn_sock a ∈ conns s)) by done.
  rewrite bool_decide_true, andb_true_r by done. destruct (has_room a) eqn:Hr; [|by right].
  cbn [used conns]. split; [|done]. split; cbn [interest conns nonblocking].
  - rewrite lookup_insert_ne by done. apply Hi.
  - intros fd Hfd. destruct (decide (fd = conn_sock a)) as [->|Hne].
    + rewrite lookup_insert_eq, decide_True; [done|]. apply elem_of_union_l. by apply elem_of_singleton.
    + rewrite lookup_insert_ne, (inv_interest _ Hi fd Hfd) by done. apply decide_ext.
      rewrite elem_of_union, elem_of_singleton. naive_solver.
  - rewrite elem_of_union, elem_of_singleton. intros [?|?]; [done|by apply (inv_not_conn _ Hi)].
  - by rewrite (inv_nonblocking _ Hi).
Qed.

Lemma use_spec fd s :
  spares_listen → inv s → fd ≠ listen_sock →
  inv (use_fd fd s) ∧ used (use_fd fd s) = used s ++ [(fd, bool_decide (fd ∈ conns s))] ∧
  (closes_own → ∀ x, x ≠ fd → x ∈ conns s → x ∈ conns (use_fd fd s)).
Proof.
  intros Hsp Hi Hfl. unfold use_fd. pose proof (Hsp fd (world s)) as Hl.
  destruct (do_use_fd fd (world s)) as [w cl] eqn:Hd. cbn [used conns snd] in *. split; [|split; [done|]].
  - split; cbn [interest conns nonblocking].
    + apply map_lookup_filter_Some. split; [apply Hi|done].
    + intros x Hx. rewrite map_lookup_filter, (inv_interest _ Hi x Hx).
      destruct (decide (x ∈ conns s)) as [Hc|Hc]; cbn.
      * destruct (decide (x ∈ cl)).
        -- rewrite option_guard_False by naive_solver. rewrite decide_False; [done|].
           rewrite elem_of_difference. naive_solver.
        -- rewrite option_guard_True by done. rewrite decide_True; [done|]. by apply elem_of_difference.
      * rewrite decide_False; [done|]. rewrite elem_of_difference. naive_solver.
    + intros [? _]%elem_of_difference. by apply (inv_not_conn _ Hi).
    + by rewrite (inv_nonblocking _ Hi).
  - intros Hown x Hx Hin. apply elem_of_difference. split; [done|]. intros Hcl.
    specialize (Hown fd (world s)). rewrite Hd in Hown. apply Hown in Hcl. by apply elem_of_singleton in Hcl.
Qed.

(** The calls [l] of [do_use_fd] for the events [fds]. *)
Definition serves (fds : list Z) (l : list (Z * bool)) : Prop := l.*1 = filter (λ fd, fd ≠ listen_sock) fds.

Definition all_open (l : list (Z * bool)) : Prop := Forall (λ u, u.2 = true) l.

(** One event; when each call closes its own descriptor only, the other events of
    the batch stay live. *)
Lemma handle_event_spec epollfd fd a s :
  spares_listen → inv s → answer_ok epollfd fd a s →
  match handle_event fd a s with
  | inl s' => inv s' ∧ (∃ l, used s' = used s ++ l ∧ serves [fd] l ∧ (live s fd → all_open l)) ∧
      (closes_own → ∀ x, x ≠ fd → live s x → live s' x)
  | inr _ => fails a
  end.
Proof.
  intros Hsp Hi Ha. unfold serves. rewrite filter_cons, filter_nil.
  destruct (decide (fd = listen_sock)) as [->|Hn].
  - pose proof (accept_spec epollfd a s Hi Ha) as H. destruct (handle_event listen_sock a s); [|done].
    destruct H as (Hi' & -> & Hc). split; [done|]. rewrite decide_False by naive_solver. split.
    + exists []. rewrite app_nil_r. split; [done|]. split; [done|]. by intros _; apply Forall_nil.
    + intros _ x _ [->|Hx]; [by left|right]. rewrite Hc. by apply elem_of_union_r.
  - unfold handle_event. rewrite decide_False by done.
    destruct (use_spec fd s Hsp Hi Hn) as (Hi' & Hu & Hk). split; [done|].
    rewrite decide_True by done. split.
    + eexists. split; [exact Hu|]. split; [done|]. intros [?|Hc]; [done|].
      apply Forall_singleton. cbn. by apply bool_decide_true.
    + intros Hown x Hx [->|Hin]; [by left|right; auto].
Qed.

Lemma serves_cons fd fds l l' : serves [fd] l → serves fds l' → serves (fd :: fds) (l ++ l').
Proof.
  unfold serves. intros H1 H2. rewrite fmap_app, H1, H2, !filter_cons, filter_nil. by case_decide.
Qed.

Lemma dispatch_spec epollfd fds pre tail ans s :
  spares_listen → inv s → answers_ok epollfd fds (Z.of_nat (length pre)) ans s →
  ∃ r, dispatch (length fds) (Z.of_nat (length pre)) (pre ++ fds ++ tail) ans s = Ok r ∧
  match r with
  | inl s' => inv s' ∧ ∃ l, used s' = used s ++ l ∧ serves fds l ∧
      (closes_own → NoDup fds → (∀ fd, fd ∈ fds → live s fd) → all_open l)
  | inr _ => ∃ n, fails (ans n)
  end.
Proof.
  intros Hsp. revert pre s. induction fds as [|fd fds IH]; intros pre s Hi Hans.
  { exists (inl s). split; [done|]. split; [done|]. exists []. rewrite app_nil_r. split; [done|].
    split; [done|]. intros. by apply Forall_nil. }
  cbn [length dispatch]. destruct Hans as [Ha Hans].
  rewrite (arr_get_nat _ (length pre) fd), bind_Ok by (by rewrite lookup_app_r, Nat.sub_diag by lia).
  pose proof (handle_event_spec epollfd fd (ans (Z.of_nat (length pre))) s Hsp Hi Ha) as H.
  destruct (handle_event fd _ s) as [s'|f].
  2:{ exists (inr f). split; [done|]. by eexists. }
  destruct H as (Hi' & (l & Hu & Hl & Hlo) & Hk).
  destruct (IH (pre ++ [fd]) s' Hi') as (r & Hr & Hres).
  - rewrite length_app. cbn [length]. by replace (Z.of_nat (length pre + 1)) with (Z.of_nat (length pre) + 1) by lia.
  - exists r. rewrite length_app in Hr. cbn [length] in Hr.
    replace (Z.of_nat (length pre + 1)) with (Z.of_nat (length pre) + 1) in Hr by lia.
    rewrite <-app_assoc in Hr. split; [exact Hr|]. destruct r as [s2|]; [|done].
    destruct Hres as (? & l' & Hu' & Hl' & Hlo'). split; [done|]. exists (l ++ l').
    split; [by rewrite Hu', Hu, app_assoc|]. split; [by apply serves_cons|].
    intros Hown [Hnot Hnd]%NoDup_cons Hlive. apply Forall_app. split; [apply Hlo, Hlive; by left|].
    apply Hlo'; [done..|]. intros x Hx. apply Hk; [done|by intros ->|]. apply Hlive. by right.
Qed.

Lemma event_loop_spec epollfd ws events s :
  spares_listen → inv s → wakes_ok epollfd events ws s →
  ∃ r, event_loop events ws s = Ok r ∧
  match r with
  | inl s' => inv s' ∧ ∃ l, used s' = used s ++ l ∧ l.*1 = ready ws ∧ (closes_own → all_open l)
  | inr _ => ¬ all_succeed ws
  end.
Proof.
  intros Hsp. revert events s.
  induction ws as [|[[batch|] ans] ws IH]; intros events s Hi Hw; cbn [event_loop wk_batch].
  - exists (inl s). split; [done|]. split; [done|]. exists []. rewrite app_nil_r. split; [done|].
    split; [done|]. intros. by apply Forall_nil.
  - destruct Hw as (Hlen & Hnd & Hin & Hans & Hw). cbn [wk_ans] in *.
    assert (Hst : store batch events = batch ++ drop (length batch) events).
    { unfold store. by rewrite take_ge by (unfold MAX_EVENTS in *; lia). }
    rewrite Hst in Hw |- *.
    destruct (dispatch_spec epollfd batch [] (drop (length batch) events) ans s) as (r & Hr & Hres); [done..|].
    cbn [app length] in Hr. change (Z.of_nat 0) with 0 in Hr. rewrite Hr in Hw |- *. rewrite bind_Ok. destruct r as [s'|f].
    + destruct Hres as (Hi' & l & Hu & Hl & Hlo). destruct (IH _ s' Hi' Hw) as (r & Hr' & Hres'). exists r.
      split; [done|]. destruct r as [s2|]; [destruct Hres' as (? & l' & Hu' & Hl' & Hlo'); split; [done|]|].
      * exists (l ++ l'). split; [by rewrite Hu', Hu, app_assoc|]. split.
        -- unfold ready, serves in *. by rewrite bind_cons, fmap_app, Hl, Hl'.
        -- intros Hown. apply Forall_app. split; [|by apply Hlo']. apply Hlo; [done..|].
           intros fd Hfd. apply inv_live; [done|by eapply Forall_forall in Hin].
      * intros [_ ?]%Forall_cons. by apply Hres'.
    + exists (inr f). split; [done|]. destruct Hres as [n Hn]. intros [[_ Ha] _]%Forall_cons.
      destruct (Ha n) as [? ?], Hn; cbn in *; congruence.
  - exists (inr EpollWait). split; [done|]. by intros [[[? [=]] _] _]%Forall_cons.
Qed.

(** A call that closes another connection of the batch leaves its event behind: the
    next call is on a descriptor that is not open. *)
Lemma epoll_stale_event a b tail ans s :
  a ≠ listen_sock → b ≠ listen_sock → b ∈ (do_use_fd a (world s)).2 →
  ∃ s', dispatch 2 0 (a :: b :: tail) ans s = Ok (inl s') ∧
    used s' = used s ++ [(a, bool_decide (a ∈ conns s)); (b, false)].
Proof.
  intros Ha Hb Hcl. cbn [dispatch]. change (arr_get (a :: b :: tail) 0) with (Ok a). rewrite bind_Ok.
  unfold handle_event. rewrite (decide_False (P := a = _)) by done.
  change (arr_get (a :: b :: tail) (0 + 1)) with (Ok b). rewrite bind_Ok, (decide_False (P := b = _)) by done.
  eexists. split; [done|]. unfold use_fd. destruct (do_use_fd a (world s)) as [w cl]. cbn [snd] in Hcl.
  cbn [world conns used]. destruct (do_use_fd b w) as [w2 cl2]. cbn [used].
  rewrite <-app_assoc. do 3 f_equal. rewrite bool_decide_false; [done|]. rewrite elem_of_difference. naive_solver.
Qed.

(** C22: (invariant) the accept loop: as long as the kernel reports descriptors of
    the interest list, each once per batch, [accept] returns descriptors that are
    not open, and [do_use_fd] does not close the listening socket, then after any
    wake-ups the loop has stayed inside [events]; the interest list is exactly the
    listening socket and the open connections (edge-triggered, and all in
    non-blocking mode); and [do_use_fd] was called exactly once for each event of a
    connection, in order, whichever descriptors it closes.  When it never closes a
    descriptor other than the one it is given, each call was on a connection that
    was open, even when a batch closes a connection and a later event of the batch
    accepts one with the same number.  The loop ends only if one of the system's
    calls fails. *)
Theorem epoll_serves_open_connections (epollfd : Z) (ws : list wake) (w : W) :
  epollfd ≠ -1 → spares_listen →
  wakes_ok epollfd (replicate (Z.to_nat MAX_EVENTS) 0) ws (Server {[ listen_sock := EPOLLIN ]} ∅ ∅ [] w) →
  ∃ r, epoll_server epollfd true ws w = Ok r ∧
    (all_succeed ws → ∃ s, r = inl s) ∧
    (∀ s, r = inl s →
       dom (interest s) = {[ listen_sock ]} ∪ conns s ∧ nonblocking s = conns s ∧
       (∀ c, c ∈ conns s → interest s !! c = Some (Z.lor EPOLLIN EPOLLET)) ∧
       (used s).*1 = ready ws ∧ (closes_own → Forall (λ u, u.2 = true) (used s))).
Proof.
  intros He Hsp Hw. unfold epoll_server. rewrite decide_False by done.
  change (epoll_ctl_add true listen_sock EPOLLIN _) with
    (inl (B := failure) (Server (<[listen_sock := EPOLLIN]> ∅) ∅ ∅ [] w)).
  assert (Hi : inv (Server {[ listen_sock := EPOLLIN ]} ∅ ∅ [] w)).
  { split; cbn [interest conns nonblocking]; [apply lookup_singleton_eq| |apply not_elem_of_empty|done].
    intros fd Hfd. rewrite lookup_singleton_ne by done. by rewrite decide_False by apply not_elem_of_empty. }
  destruct (event_loop_spec epollfd ws _ _ Hsp Hi Hw) as (r & Hr & Hres). exists r. split; [exact Hr|]. split.
  - intros Ha. destruct r as [s|]; [by eexists|done].
  - intros s ->. destruct Hres as (Hi' & l & Hu & Hl & Hlo). cbn [used app] in Hu. subst l.
    assert (Hc : ∀ c, c ∈ conns s → interest s !! c = Some (Z.lor EPOLLIN EPOLLET)).
    { intros c Hin. rewrite (inv_interest _ Hi'); [by rewrite decide_True|].
      intros ->. by apply (inv_not_conn _ Hi'). }
    split_and!; [|apply Hi'|exact Hc|done|done]. apply set_eq. intros x.
    rewrite elem_of_dom, elem_of_union, elem_of_singleton. split.
    + intros Hx. by apply (inv_live s x Hi').
    + intros [->|Hx]; [rewrite (inv_listen _ Hi')|rewrite (Hc x Hx)]; by eexists.
Qed.

End loop.

(** Connection 5 is accepted, closed in the next batch and its number accepted
    again in the same batch, then used once more; the first use closes. *)
Definition ex_wakes : list wake :=
  [Wake (Some [3]) (λ _, Answer 5 true); Wake (Some [5; 3]) (λ _, Answer 5 true);
   Wake (Some [5]) (λ _, Answer 6 true)].
Definition ex_use (fd : Z) (calls : nat) : nat * gset Z :=
  (S calls, if decide (fd = 3) then ∅ else if decide (calls = 0)%nat then {[ fd ]} else ∅).

Lemma epoll_serves_open_connections_witness :
  ∃ r, epoll_server ex_use 3 4 true ex_wakes 0%nat = Ok r ∧ ∃ s, r = inl s ∧
    dom (interest s) = {[ 3 ]} ∪ conns s ∧ (used s).*1 = [5; 5] ∧ Forall (λ u, u.2 = true) (used s).
Proof.
  destruct (epoll_serves_open_connections ex_use 3 4 ex_wakes 0%nat) as (r & Hr & Hall & Hs).
  - lia.
  - intros fd w. unfold ex_use. cbn [snd]. destruct (decide (fd = 3)); [apply not_elem_of_empty|].
    destruct (decide (w = 0)%nat); [|apply not_elem_of_empty]. rewrite elem_of_singleton. congruence.
  - apply (bool_decide_unpack _). vm_compute. exact I.
  - destruct Hall as [s ->]; [repeat constructor; done|]. destruct (Hs s eq_refl) as (Hd & _ & _ & Hu & Ho).
    exists (inl s). split; [exact Hr|]. exists s. split; [done|]. split; [exact Hd|]. split; [exact Hu|].
    apply Ho. intros fd w. unfold ex_use. cbn [snd]. destruct (decide (fd = 3)); [apply empty_subseteq|].
    destruct (decide (w = 0)%nat); [reflexivity|apply empty_subseteq].
Defined.
